(* ===== verification/_CoqProject ===== *)
-Q . S2P
Prelude.v
Varint.v
Fanout.v
Utf8.v
Ser.v
De.v
SerdeData.v
SerdeProps.v
SerdeLimits.v
Compression.v
Frame.v
CompressedStream.v
Float32.v
TextStr.v
TextWrap.v
TextWrapProps.v
TextEdit.v
TextActions.v
TextEditProps.v
TextHistory.v
Keyboard.v
KeyboardProps.v
Keybind.v
KeybindProps.v
Keymap.v
KeymapProps.v
PaneLayout.v
SessionRuntime.v
FollowState.v
VtParser.v
VtSpec.v
VtParserProps.v
VtReplay.v
VtChunks.v
GridCell.v
GridCellProps.v
Pointer.v
Grid.v
GridInvariant.v
GridStream.v
GridProps.v
GridReflow.v
GridOps.v
PointerProps.v
Snapshot.v
SnapshotProps.v
Delta.v
DeltaProps.v
Contexts.v
ContextsProps.v
