(* ===== verification/Prelude.v ===== *)
(** * bmux: a shallow embedding of the terminal multiplexer's core

    bmux is a terminal multiplexer: a server keeps sessions whose panes run
    programs, clients attach over a socket, each pane's output is fanned out to
    the clients, and a client turns key strokes into actions or into bytes for
    a pane. This library models the parts of that chain that are functions of
    their state and input, translated from the Rust sources, and proves what
    they promise each other.

    ** Parts and files

    - Wire format. [Varint.v] (packages/codec/src/varint.rs), [Ser.v], [De.v]
      (serde_adapter/ser.rs and de.rs), [Utf8.v]; [SerdeData.v] describes the
      types the codec carries by their shape in serde's data model.
      [SerdeProps.v] and [SerdeLimits.v] prove the round trip of every shape in
      every mode and the limits of a bounded decode.
    - Transport. [Compression.v] (packages/ipc/src/compression.rs), [Frame.v]
      (frame.rs and the envelope of lib.rs) and [CompressedStream.v]
      (compressed_stream.rs). A codec promises the framing layer the class
      [WireCodec]; the zstd and lz4 libraries are the parameter
      [CompressionLibs] with the laws [LibraryLaws], which [rle_laws] shows can
      hold.
    - Pane output. [Fanout.v] is the bounded output ring with a cursor per
      client (plugins/pane-runtime-plugin/src/runtime.rs). [VtParser.v] is the
      terminal syntax decoder (packages/terminal-grid/src/vt_parser.rs);
      [VtSpec.v] is a reference decoder without its fixed-size buffers;
      [VtParserProps.v] and [VtReplay.v] relate the two and prove that a
      decoder hydrated from a replay prefix continues like the original;
      [VtChunks.v] shows when a chunk boundary in the output cannot be seen.
    - The terminal screen. [GridCell.v] has styles, cells, rows and the
      projection of a logical line to rows (packages/terminal-grid/src/style.rs,
      model.rs, reflow.rs); [Pointer.v] pointer shapes, their stacks and their
      encoders (packages/terminal_protocol/src/pointer_shape.rs); [Grid.v] the
      two screens, the scrollback and every operation on them (model.rs,
      charset.rs); [GridStream.v] what each decoded action does, and the
      tracker that keeps modes but no rows (parser.rs). [GridCellProps.v] and
      [GridInvariant.v] carry the invariant through every operation;
      [GridProps.v], [GridReflow.v], [GridOps.v] and [PointerProps.v] have the
      theorems.
    - Replication of the screen. [Snapshot.v] takes and reads snapshots of a
      grid (snapshot.rs, model.rs); [Delta.v] builds, validates and applies the
      updates between them (delta.rs, parser.rs). Their theorems are in
      [SnapshotProps.v] and [DeltaProps.v].
    - Panes. [Float32.v] is the single-precision arithmetic of ratios;
      [PaneLayout.v] the layout tree and its geometry
      (packages/pane-runtime-state/src/layout.rs, attach.rs);
      [SessionRuntime.v] the session runtimes over it (runtime.rs).
    - Clients. [FollowState.v] is what clients select and whom they follow
      (plugins/clients-plugin/src/follow_state.rs, selection.rs);
      [Contexts.v] the named contexts, the session each is bound to, and what
      clients select and visit (plugins/contexts-plugin/src/context_state.rs),
      with its theorems in [ContextsProps.v].
    - Input. [Keyboard.v] has key strokes, their encodings and names
      (packages/keyboard/src) and the byte decoder (packages/cli/src/input);
      [Keybind.v] actions and their names (packages/keybind/src/lib.rs);
      [Keymap.v] keymaps and the input processor
      (packages/cli/src/input/mod.rs). Their theorems are in
      [KeyboardProps.v], [KeybindProps.v] and [KeymapProps.v].
    - Text editor. [TextStr.v] (strings by byte offset), [TextWrap.v],
      [TextEdit.v] and [TextActions.v] (packages/text-edit/src), with their
      theorems in [TextWrapProps.v], [TextEditProps.v] and [TextHistory.v].

    A struct is a record, an enum an inductive type, a method a function from
    the state before to the state after. Machine integers are [Z] with their
    range or wrap-around written out; bytes and characters are [Z]. An error is
    [Err] of [result]; a panic is [None]. Clock readings, fresh identifiers and
    the answers of sockets are arguments. This file has what the others share:
    the result monad and its notation, integer ranges and conversions, ordered
    views of finite maps, the [bmux] hint database and the arithmetic tactics.

    ** What the theorems show

    - Round trips: integers, all serde shapes, compressed payloads, envelopes
      through frames cut anywhere, blocks through the compressed stream, key
      strokes through the decoder, key and action names through the parsers,
      pointer-shape requests through the decoder to the stack they name, the
      terminal grid through its snapshot.
    - Refinement: the fan-out ring implements a stream with cursors; the syntax
      decoder the reference decoder; layout edits the edits of a pane sequence;
      edits, undo and redo of the editor a timeline whose every step is
      determined (when an edit joins the last one, what the limits keep, which
      edits are too large to be undone); the input processor a segmentation of the typed
      strokes in which each is fired, forwarded or pending exactly once; the
      protocol tracker the modes of the full grid; a receiver that applies the
      deltas of a stream's output stays a replica of the stream.
    - The screen: no output and no resize makes the grid panic or leaves it
      ill-formed; a resize keeps the document's text when its cells are narrow,
      nothing is evicted and no line is cut after a blank; scrolling a region
      rotates its rows; a printed character changes its own cell and no other; the
      scrollback stays in its limits and its counters are exact.
    - Invariants of all reachable states: sessions, follow state, contexts, the
      editor, the input processor, by induction on the sequence of operations. A
      session restored from an inconsistent snapshot, which the code reports and
      keeps, is the one exception, until it is removed.
      Closing a context or ending a session removes what it names and moves
      clients to the most recently used context left.
    - Termination and bounds: decoders consume input or stop, eviction and
      wrapping end, history and pending input are bounded, loops return.
    - Errors: what a frame decoder answers on any bytes, when parsing panics, which
      events are dropped; and counterexamples where the code does not do what
      its comments say, each named in a finding.

    ** Fuel

    A loop that is not structural takes fuel, and a lemma shows that what its
    caller passes is enough: ten rounds for a 64-bit variable-length integer;
    the declared length plus one for counted sequences; eight retries per byte
    for eviction; [(n + 3)^2] rounds to wrap [n] graphemes, since a break moves
    back to a later index than the row's start; the length of the input for
    the byte decoder, each event of which consumes a byte; one round per
    pending stroke; three calls for a binding lookup, given that the initial
    mode is defined, which the builders check; twenty digits for a number. The
    stream theorems quantify over fuel and schedule.

    ** Assumptions

    Compression libraries invert ([LibraryLaws]); Unicode tables cut a text
    into non-empty graphemes of its characters ([UnicodeLaws], shown to hold of
    a small table); character widths come from a function that is never
    negative and gives the space one column ([WidthLaws], likewise
    instantiated); the text of a UUID parses back to it ([UuidLaws], likewise),
    and a new UUID is not yet in use. Operations under a lock are atomic. The
    clock is read once per call. Nothing else is assumed, and no axiom is used.

    ** Not modelled

    Asynchronous tasks, sockets, pseudo-terminals, child processes, files and
    the plugin host's foreign-function boundary have no functional content of
    their own here. Bounded copies of the grid, slices of its history and maps
    of positions between widths are built under allocation budgets. These, the
    sessions plugin's roster (a plain map of names), the plugins' service
    dispatch, the widgets and renderers of the terminal UI, recordings,
    configuration files (read by a third-party parser), image codecs, and the
    web, mobile and GPU front ends are outside this library;
    the manifest of components says why for each. Of modelled parts, log and
    error texts, display labels and serde derivations are left out. *)

From Stdlib Require Export ZArith Lia.
From stdpp Require Export base decidable gmap sets strings sorting option list.

#[export] Set Default Goal Selector "!".

(** ** Scopes and notations *)

Declare Scope bmux_scope.
Delimit Scope bmux_scope with bmux.
Open Scope Z_scope.

(** Rust's [Result]: the code's fallible operations return one. *)
Inductive result (E A : Type) : Type :=
| Ok (a : A)
| Err (e : E).
Arguments Ok {E A} a.
Arguments Err {E A} e.

(** The [?] operator. *)
Definition rbind {E A B : Type} (r : result E A) (k : A -> result E B) : result E B :=
  match r with
  | Ok a => k a
  | Err e => Err e
  end.

Notation "'let?' x ':=' r 'in' k" := (rbind r (fun x => k))
  (at level 200, x pattern, r at level 100, k at level 200, right associativity) : bmux_scope.

Definition ok_or {E A : Type} (o : option A) (e : E) : result E A :=
  match o with
  | Some a => Ok a
  | None => Err e
  end.

Definition is_ok {E A : Type} (r : result E A) : bool :=
  match r with
  | Ok _ => true
  | Err _ => false
  end.

(** ** Machine integers

    A [w]-bit unsigned integer is a [Z] in [0, 2^w); wrap-around, saturation
    and checked arithmetic are written out, as the source uses each of them. *)

Definition in_u (w x : Z) : Prop := 0 <= x < 2 ^ w.
Definition in_s (w x : Z) : Prop := - 2 ^ (w - 1) <= x < 2 ^ (w - 1).
Definition max_u (w : Z) : Z := 2 ^ w - 1.

Notation u8 := (in_u 8).
Notation u16 := (in_u 16).
Notation u32 := (in_u 32).
Notation u64 := (in_u 64).
Notation i16 := (in_s 16).
Notation i32 := (in_s 32).
Notation i64 := (in_s 64).

(** [x as uN] and [x as iN]. *)
Definition wrap_u (w x : Z) : Z := x mod 2 ^ w.
Definition wrap_s (w x : Z) : Z := (x + 2 ^ (w - 1)) mod 2 ^ w - 2 ^ (w - 1).

Definition saturating_add (w a b : Z) : Z := Z.min (a + b) (max_u w).
Definition saturating_sub (a b : Z) : Z := Z.max (a - b) 0.
Definition saturating_mul (w a b : Z) : Z := Z.min (a * b) (max_u w).
Definition checked_add (w a b : Z) : option Z :=
  if decide (a + b < 2 ^ w) then Some (a + b) else None.
Definition abs_diff (a b : Z) : Z := Z.abs (a - b).

(** [uN::try_from] of a wider unsigned value, [iN::try_from] of a wider signed
    one. *)
Definition try_from_u (w x : Z) : option Z :=
  if decide (0 <= x < 2 ^ w) then Some x else None.
Definition try_from_s (w x : Z) : option Z :=
  if decide (- 2 ^ (w - 1) <= x < 2 ^ (w - 1)) then Some x else None.

(** The length of a slice as a [usize]. *)
Definition zlen {A : Type} (l : list A) : Z := Z.of_nat (length l).

(** [u32::to_le_bytes] and [u32::from_le_bytes]. *)
Definition to_le_bytes4 (x : Z) : list Z :=
  [ x mod 256; x / 256 mod 256; x / 256 / 256 mod 256; x / 256 / 256 / 256 mod 256 ].
Definition from_le_bytes4 (b0 b1 b2 b3 : Z) : Z :=
  b0 + 256 * b1 + 65536 * b2 + 16777216 * b3.

(** ** Automation *)

Create HintDb bmux.

(** Unfold the machine-integer vocabulary and compute the powers of two, so
    that [lia] sees plain linear arithmetic. *)
Ltac unfold_int :=
  unfold saturating_add, saturating_sub, saturating_mul in *;
  unfold in_u, in_s, max_u, abs_diff, zlen in *;
  change (2 ^ 8) with 256 in *;
  change (2 ^ 16) with 65536 in *;
  change (2 ^ 32) with 4294967296 in *;
  change (2 ^ 64) with 18446744073709551616 in *;
  change (2 ^ (8 - 1)) with 128 in *;
  change (2 ^ (16 - 1)) with 32768 in *;
  change (2 ^ (32 - 1)) with 2147483648 in *;
  change (2 ^ (64 - 1)) with 9223372036854775808 in *.

Ltac int_lia := unfold_int; lia.

(** The same for goals with [/] and [mod] by constants. *)
Ltac div_lia := unfold_int; Z.to_euclidean_division_equations; lia.

(** Split a hypothesis about a [?]-chain that succeeded. *)
Ltac rinv H :=
  unfold rbind in H; simpl in H;
  repeat match type of H with
  | context [match ?r with Ok _ => _ | Err _ => _ end] =>
      let E := fresh "E" in destruct r eqn:E; simpl in H; [|discriminate H]
  end.

(** ** Generic lemmas *)

Lemma rbind_ok {E A B} (r : result E A) (k : A -> result E B) b :
  rbind r k = Ok b <-> exists a, r = Ok a /\ k a = Ok b.
Proof. destruct r; simpl; naive_solver. Qed.

Lemma zlen_app {A} (l k : list A) : zlen (l ++ k) = zlen l + zlen k.
Proof. unfold zlen. rewrite length_app. lia. Qed.

Lemma zlen_nonneg {A} (l : list A) : 0 <= zlen l.
Proof. unfold zlen. lia. Qed.

Lemma zlen_nil {A} : zlen (@nil A) = 0.
Proof. reflexivity. Qed.

Lemma zlen_cons {A} (x : A) l : zlen (x :: l) = zlen l + 1.
Proof. unfold zlen. simpl. lia. Qed.

Lemma drop_length_app {A} (l k : list A) : drop (length l) (l ++ k) = k.
Proof. by rewrite drop_app_length. Qed.

Lemma wrap_u_small w x : in_u w x -> wrap_u w x = x.
Proof. unfold in_u, wrap_u. intros. by apply Z.mod_small. Qed.

Lemma wrap_u_range w x : 0 <= w -> in_u w (wrap_u w x).
Proof. intros. apply Z.mod_pos_bound. by apply Z.pow_pos_nonneg. Qed.

Lemma wrap_s_small w x : 0 < w -> in_s w x -> wrap_s w x = x.
Proof.
  unfold in_s, wrap_s. intros Hw Hx.
  assert (E : 2 ^ w = 2 * 2 ^ (w - 1)).
  { rewrite <- Z.pow_succ_r by lia. f_equal. lia. }
  rewrite Z.mod_small; lia.
Qed.

Lemma wrap_s_wrap_u w x : 0 < w -> in_s w x -> wrap_s w (wrap_u w x) = x.
Proof.
  intros Hw Hx. unfold wrap_s, wrap_u.
  rewrite Zplus_mod_idemp_l. fold (wrap_s w x). by apply wrap_s_small.
Qed.

Lemma try_from_u_Some w x y : try_from_u w x = Some y <-> x = y /\ in_u w y.
Proof. unfold try_from_u, in_u. case_decide; naive_solver. Qed.

Lemma try_from_u_in w x : in_u w x -> try_from_u w x = Some x.
Proof. intros. by apply try_from_u_Some. Qed.

Lemma try_from_s_in w x : in_s w x -> try_from_s w x = Some x.
Proof. unfold try_from_s, in_s. intros. by rewrite decide_True. Qed.

Lemma in_u_weaken w w' x : 0 <= w <= w' -> in_u w x -> in_u w' x.
Proof.
  unfold in_u. intros Hw Hx. pose proof (Z.pow_le_mono_r 2 w w'). lia.
Qed.

Lemma land_255 x : Z.land x 255 = x mod 256.
Proof. change 255 with (Z.ones 8). by rewrite Z.land_ones. Qed.

Lemma from_to_le_bytes4 x :
  u32 x ->
  from_le_bytes4 (x mod 256) (x / 256 mod 256) (x / 256 / 256 mod 256)
    (x / 256 / 256 / 256 mod 256) = x.
Proof. intros Hx. unfold from_le_bytes4. div_lia. Qed.

Lemma from_le_bytes4_range b0 b1 b2 b3 :
  u8 b0 -> u8 b1 -> u8 b2 -> u8 b3 -> u32 (from_le_bytes4 b0 b1 b2 b3).
Proof. intros. unfold from_le_bytes4. int_lia. Qed.

Lemma to_le_bytes4_length n : zlen (to_le_bytes4 n) = 4.
Proof. done. Qed.

Lemma to_le_bytes4_u8 x : Forall u8 (to_le_bytes4 x).
Proof.
  repeat constructor; apply Z.mod_pos_bound; lia.
Qed.

(** A list whose images under [f] are distinct. *)
Lemma NoDup_fmap_eq {A B} (f : A -> B) l a b :
  NoDup (f <$> l) -> a ∈ l -> b ∈ l -> f a = f b -> a = b.
Proof.
  induction l as [|c l IH]; [by intros _ ?%elem_of_nil|].
  rewrite fmap_cons, NoDup_cons, !elem_of_cons. intros [Hc Hl] [->|Ha] [->|Hb] E; auto.
  - destruct Hc. rewrite E. by apply list_elem_of_fmap_2.
  - destruct Hc. rewrite <- E. by apply list_elem_of_fmap_2.
Qed.

Lemma NoDup_fmap_filter {A B} (f : A -> B) (g : A -> bool) l :
  NoDup (f <$> l) -> NoDup (f <$> List.filter g l).
Proof.
  induction l as [|c l IH]; simpl; [done|]. rewrite NoDup_cons. intros [Hc Hl].
  destruct (g c); [|auto]. simpl. rewrite NoDup_cons. split; [|auto].
  intros Hin. destruct Hc. apply list_elem_of_fmap in Hin as (a & -> & Ha).
  apply list_elem_of_In, filter_In in Ha as [Ha _]. apply list_elem_of_In in Ha.
  by apply list_elem_of_fmap_2.
Qed.

#[export] Hint Resolve zlen_nonneg in_u_weaken : bmux.
#[export] Hint Rewrite @zlen_app @zlen_nil @zlen_cons : bmux.

(** ** Ordered maps

    A [BTreeMap] keyed by identifiers is a [gmap]; iteration visits its keys in
    ascending order. *)

Definition sorted_keys {A : Type} (m : gmap N A) : list N :=
  merge_sort N.le (map_to_list m).*1.

Definition sorted_elements (s : gset N) : list N := merge_sort N.le (elements s).

Lemma sorted_keys_perm {A} (m : gmap N A) : sorted_keys m ≡ₚ (map_to_list m).*1.
Proof. apply merge_sort_Permutation. Qed.

Lemma elem_of_sorted_keys {A} (m : gmap N A) k : k ∈ sorted_keys m <-> is_Some (m !! k).
Proof.
  rewrite sorted_keys_perm, list_elem_of_fmap. split.
  - intros ([k' a] & -> & H). apply elem_of_map_to_list in H. eauto.
  - intros [a H]. exists (k, a). by rewrite elem_of_map_to_list.
Qed.

Lemma NoDup_sorted_keys {A} (m : gmap N A) : NoDup (sorted_keys m).
Proof. rewrite sorted_keys_perm. apply NoDup_fst_map_to_list. Qed.

Lemma Sorted_sorted_keys {A} (m : gmap N A) : Sorted N.le (sorted_keys m).
Proof. apply Sorted_merge_sort. intros x y. lia. Qed.

Lemma elem_of_sorted_elements s k : k ∈ sorted_elements s <-> k ∈ s.
Proof. unfold sorted_elements. by rewrite merge_sort_Permutation, elem_of_elements. Qed.

Lemma NoDup_sorted_elements s : NoDup (sorted_elements s).
Proof. unfold sorted_elements. rewrite merge_sort_Permutation. apply NoDup_elements. Qed.

Lemma StronglySorted_filter {A} (R : A -> A -> Prop) (f : A -> bool) l :
  StronglySorted R l -> StronglySorted R (List.filter f l).
Proof.
  induction 1 as [|a l Hs IH Hall]; simpl; [constructor|]. destruct (f a); [|done].
  constructor; [done|]. apply Forall_forall. intros x Hx.
  apply list_elem_of_In, filter_In in Hx as [Hx _]. apply list_elem_of_In in Hx.
  by apply (proj1 (Forall_forall _ _) Hall).
Qed.

Lemma Sorted_filter_keys {A} (m : gmap N A) f : Sorted N.le (List.filter f (sorted_keys m)).
Proof.
  apply StronglySorted_Sorted, StronglySorted_filter, Sorted_StronglySorted.
  - intros x y z. lia.
  - apply Sorted_sorted_keys.
Qed.
