(* ===== verification/Varint.v ===== *)
(** * The codec's variable-length integers

    [src/packages/codec/src/varint.rs]: unsigned LEB128 for unsigned types,
    ZigZag followed by LEB128 for signed ones.  Buffers are lists of bytes, a
    byte a [Z] in [0, 256); a [u64] is a [Z] in [0, 2^64).  The encoder's loop
    runs at most ten times on a [u64]; [encode_loop] takes that bound as fuel
    and [encode_loop_fuel] shows that more fuel never changes its result. *)

From S2P Require Import Prelude.

(** ** Encoding *)

Fixpoint encode_loop (fuel : nat) (output : list Z) (value : Z) : list Z :=
  match fuel with
  | O => output
  | S fuel' =>
      let byte := Z.land value 127 in
      let value := Z.shiftr value 7 in
      let byte := if decide (value <> 0) then Z.lor byte 128 else byte in
      let output := output ++ [byte] in
      if decide (value = 0) then output else encode_loop fuel' output value
  end.

Definition encode_u64 (output : list Z) (value : Z) : list Z :=
  encode_loop 10 output value.

Definition encode_u32 (output : list Z) (value : Z) : list Z := encode_u64 output value.
Definition encode_u16 (output : list Z) (value : Z) : list Z := encode_u64 output value.
Definition encode_usize (output : list Z) (value : Z) : list Z := encode_u64 output value.

Definition zigzag_encode_i64 (value : Z) : Z :=
  wrap_u 64 (Z.lxor (wrap_s 64 (Z.shiftl value 1)) (Z.shiftr value 63)).
Definition zigzag_encode_i32 (value : Z) : Z := zigzag_encode_i64 value.
Definition zigzag_encode_i16 (value : Z) : Z := zigzag_encode_i64 value.

Definition encode_i64 (output : list Z) (value : Z) : list Z :=
  encode_u64 output (zigzag_encode_i64 value).
Definition encode_i32 (output : list Z) (value : Z) : list Z :=
  encode_u64 output (zigzag_encode_i32 value).
Definition encode_i16 (output : list Z) (value : Z) : list Z :=
  encode_u64 output (zigzag_encode_i16 value).

(** ** Decoding *)

Fixpoint decode_loop (input : list Z) (result shift i : Z) : option (Z * Z) :=
  match input with
  | [] => None
  | byte :: rest =>
      if decide (70 <= shift) then None
      else
        let result := Z.lor result (wrap_u 64 (Z.shiftl (Z.land byte 127) shift)) in
        if decide (Z.land byte 128 = 0) then Some (result, i + 1)
        else decode_loop rest result (shift + 7) (i + 1)
  end.

Definition decode_u64 (input : list Z) : option (Z * Z) := decode_loop input 0 0 0.

(** [uN::try_from(value).ok()?] after [decode_u64]. *)
Definition decode_narrow (w : Z) (input : list Z) : option (Z * Z) :=
  match decode_u64 input with
  | Some (value, consumed) =>
      match try_from_u w value with
      | Some value => Some (value, consumed)
      | None => None
      end
  | None => None
  end.

Definition decode_u32 : list Z -> option (Z * Z) := decode_narrow 32.
Definition decode_u16 : list Z -> option (Z * Z) := decode_narrow 16.
Definition decode_usize : list Z -> option (Z * Z) := decode_narrow 64.

Definition zigzag_decode_i64 (value : Z) : Z :=
  Z.lxor (wrap_s 64 (Z.shiftr value 1)) (- Z.land value 1).

Definition decode_i64 (input : list Z) : option (Z * Z) :=
  match decode_u64 input with
  | Some (raw, consumed) => Some (zigzag_decode_i64 raw, consumed)
  | None => None
  end.

Definition decode_narrow_signed (w : Z) (input : list Z) : option (Z * Z) :=
  match decode_u64 input with
  | Some (raw, consumed) =>
      match try_from_s w (zigzag_decode_i64 raw) with
      | Some value => Some (value, consumed)
      | None => None
      end
  | None => None
  end.

Definition decode_i32 : list Z -> option (Z * Z) := decode_narrow_signed 32.
Definition decode_i16 : list Z -> option (Z * Z) := decode_narrow_signed 16.

(** ** The encoder's loop *)

Lemma encode_loop_app fuel output value :
  encode_loop fuel output value = output ++ encode_loop fuel [] value.
Proof.
  revert output value; induction fuel as [|fuel IH]; intros output value; simpl.
  - by rewrite app_nil_r.
  - case_decide; [done|]. rewrite IH, (IH [_]). by rewrite app_assoc.
Qed.

Lemma shiftr7_small value n :
  0 <= value < 2 ^ (7 * Z.of_nat (S n)) ->
  0 <= Z.shiftr value 7 < 2 ^ (7 * Z.of_nat n).
Proof.
  intros Hv. rewrite Z.shiftr_div_pow2 by lia.
  replace (7 * Z.of_nat (S n)) with (7 + 7 * Z.of_nat n) in Hv by lia.
  rewrite Z.pow_add_r in Hv by lia.
  split; [apply Z.div_pos; lia|].
  apply Z.div_lt_upper_bound; lia.
Qed.

Lemma encode_loop_fuel n k output value :
  (0 < n)%nat -> 0 <= value < 2 ^ (7 * Z.of_nat n) ->
  encode_loop (n + k) output value = encode_loop n output value.
Proof.
  revert output value; induction n as [|n IH]; intros output value Hn Hv; [lia|].
  cbn [encode_loop Nat.add]. case_decide as Hz; [done|].
  destruct n as [|n].
  - exfalso. apply Hz. apply shiftr7_small in Hv. simpl in Hv. lia.
  - apply IH; [lia|]. by apply shiftr7_small.
Qed.

(** ** Bit arithmetic *)

Lemma land_127_range x : 0 <= Z.land x 127 < 128.
Proof.
  change 127 with (Z.ones 7). rewrite Z.land_ones by lia.
  apply Z.mod_pos_bound. lia.
Qed.

Lemma split_7 x : x = Z.land x 127 + Z.shiftr x 7 * 128.
Proof.
  change 127 with (Z.ones 7). rewrite Z.land_ones, Z.shiftr_div_pow2 by lia.
  change (2 ^ 7) with 128. pose proof (Z.div_mod x 128). lia.
Qed.

Lemma testbit_above r s n : 0 <= r < 2 ^ s -> 0 <= s <= n -> Z.testbit r n = false.
Proof.
  intros Hr Hn. apply Z.testbit_false; [lia|].
  rewrite Z.div_small; [done|]. pose proof (Z.pow_le_mono_r 2 s n). lia.
Qed.

Lemma lor_disjoint r x s :
  0 <= s -> 0 <= r < 2 ^ s -> 0 <= x -> Z.lor r (Z.shiftl x s) = r + x * 2 ^ s.
Proof.
  intros Hs Hr Hx. rewrite <- Z.shiftl_mul_pow2 by lia.
  symmetry. rewrite Z.add_nocarry_lxor, Z.lxor_lor; [done| |];
  (apply Z.bits_inj'; intros n Hn; rewrite Z.land_spec, Z.bits_0, Z.shiftl_spec by lia;
   destruct (decide (n < s));
   [ rewrite (Z.testbit_neg_r x) by lia; apply andb_false_r
   | by rewrite (testbit_above r s) by lia ]).
Qed.

Lemma land_128_set x : 0 <= x < 128 -> Z.land (Z.lor x 128) 128 = 128.
Proof.
  intros Hx. apply Z.bits_inj'. intros n Hn.
  rewrite Z.land_spec, Z.lor_spec.
  by destruct (Z.testbit x n), (Z.testbit 128 n).
Qed.

Lemma lor_128_low x : 0 <= x < 128 -> Z.land (Z.lor x 128) 127 = x.
Proof.
  intros Hx. replace 128 with (Z.shiftl 1 7) by done.
  rewrite lor_disjoint by lia.
  change 127 with (Z.ones 7). rewrite Z.land_ones by lia.
  change (2 ^ 7) with 128. rewrite Z.mul_1_l, Z.add_comm.
  rewrite <- (Z.mul_1_l 128) at 1. rewrite Z.add_comm, Z_mod_plus_full.
  by apply Z.mod_small.
Qed.

Lemma land_128_clear x : 0 <= x < 128 -> Z.land x 128 = 0.
Proof.
  intros Hx. apply Z.bits_inj'. intros n Hn. rewrite Z.land_spec, Z.bits_0.
  change 128 with (2 ^ 7). rewrite Z.pow2_bits_eqb by lia.
  destruct (Z.eqb_spec 7 n) as [<-|]; [|apply andb_false_r].
  by rewrite (testbit_above x 7) by lia.
Qed.

Lemma land_127_id x : 0 <= x < 128 -> Z.land x 127 = x.
Proof.
  intros. change 127 with (Z.ones 7). rewrite Z.land_ones by lia. by apply Z.mod_small.
Qed.

(** ** Round trips *)

Lemma decode_encode_loop n r s v i rest :
  (0 < n)%nat -> 0 <= v < 2 ^ (7 * Z.of_nat n) ->
  0 <= s -> s + 7 * Z.of_nat n <= 70 ->
  0 <= r < 2 ^ s -> v * 2 ^ s < 2 ^ 64 ->
  decode_loop (encode_loop n [] v ++ rest) r s i
  = Some (r + v * 2 ^ s, i + zlen (encode_loop n [] v)).
Proof.
  revert r s v i. induction n as [|n IH]; intros r s v i Hn Hv Hs H70 Hr H64; [lia|].
  pose proof (land_127_range v) as Hl. pose proof (split_7 v) as Hsp.
  pose proof (shiftr7_small v n Hv) as Hsr.
  assert (H2s : 0 < 2 ^ s) by (apply Z.pow_pos_nonneg; lia).
  assert (Hlow : wrap_u 64 (Z.shiftl (Z.land v 127) s) = Z.shiftl (Z.land v 127) s).
  { apply wrap_u_small. rewrite Z.shiftl_mul_pow2 by lia. unfold in_u. nia. }
  cbn [encode_loop].
  destruct (decide (Z.shiftr v 7 = 0)) as [Hz|Hz].
  - rewrite decide_False by naive_solver. cbn [app decode_loop].
    rewrite decide_False by lia.
    rewrite land_127_id by lia. rewrite Hlow, land_128_clear, decide_True by lia.
    rewrite lor_disjoint by lia. rewrite zlen_cons, zlen_nil.
    repeat f_equal; lia.
  - rewrite decide_True by done. rewrite encode_loop_app. cbn [app decode_loop].
    rewrite decide_False by lia.
    rewrite land_128_set, decide_False by lia.
    rewrite lor_128_low, Hlow, lor_disjoint by lia.
    destruct n as [|n]; [change (2 ^ (7 * Z.of_nat 0)) with 1 in Hsr; lia|].
    assert (E7 : 2 ^ (s + 7) = 2 ^ s * 128) by (rewrite Z.pow_add_r; lia).
    rewrite IH; [|lia|done|lia|lia|rewrite E7; nia|rewrite E7; nia].
    rewrite zlen_cons, E7. f_equal. f_equal; [rewrite Hsp at 3; ring|lia].
Qed.

Lemma decode_encode_u64 v rest :
  u64 v -> decode_u64 (encode_u64 [] v ++ rest) = Some (v, zlen (encode_u64 [] v)).
Proof.
  intros Hv. unfold decode_u64, encode_u64.
  assert (H70 : v < 2 ^ 70) by (apply Z.lt_trans with (2 ^ 64); [apply Hv|done]).
  rewrite decode_encode_loop; unfold in_u in Hv; try lia.
  repeat f_equal; lia.
Qed.

Lemma encode_u64_app output v : encode_u64 output v = output ++ encode_u64 [] v.
Proof. apply encode_loop_app. Qed.

(** ZigZag in arithmetic form: even codes are the non-negative values, odd
    ones the negative values. *)
Lemma zigzag_encode_arith v :
  i64 v -> zigzag_encode_i64 v = if decide (0 <= v) then 2 * v else - 2 * v - 1.
Proof.
  intros Hv. unfold zigzag_encode_i64. rewrite Z.shiftl_mul_pow2 by lia.
  rewrite Z.shiftr_div_pow2 by lia. change (2 ^ 1) with 2.
  assert (Hh : v / 2 ^ 63 = if decide (0 <= v) then 0 else -1).
  { unfold in_s in Hv. change (2 ^ (64 - 1)) with (2 ^ 63) in Hv. case_decide.
    - apply Z.div_small. lia.
    - symmetry. apply Z.div_unique with (v + 2 ^ 63); lia. }
  rewrite Hh. case_decide.
  - rewrite Z.lxor_0_r. unfold wrap_u, wrap_s. unfold_int.
    change (2 ^ 64) with 18446744073709551616. Z.to_euclidean_division_equations. lia.
  - rewrite Z.lxor_m1_r. unfold Z.lnot, wrap_u, wrap_s. unfold_int.
    Z.to_euclidean_division_equations. lia.
Qed.

Lemma zigzag_decode_arith n :
  u64 n ->
  zigzag_decode_i64 n = if decide (n mod 2 = 0) then n / 2 else - (n / 2) - 1.
Proof.
  intros Hn. unfold zigzag_decode_i64. rewrite Z.shiftr_div_pow2 by lia.
  change (Z.land n 1) with (Z.land n (Z.ones 1)). rewrite Z.land_ones by lia.
  change (2 ^ 1) with 2.
  rewrite wrap_s_small; [| lia | div_lia].
  case_decide as Hm.
  - rewrite Hm. simpl. apply Z.lxor_0_r.
  - assert (n mod 2 = 1) as -> by div_lia. change (- 1) with (-1).
    rewrite Z.lxor_m1_r. unfold Z.lnot. lia.
Qed.

Lemma zigzag_encode_u64 v : i64 v -> u64 (zigzag_encode_i64 v).
Proof. intros Hv. rewrite zigzag_encode_arith by done. case_decide; int_lia. Qed.

Lemma zigzag_roundtrip v : i64 v -> zigzag_decode_i64 (zigzag_encode_i64 v) = v.
Proof.
  intros Hv. rewrite zigzag_decode_arith by by apply zigzag_encode_u64.
  rewrite zigzag_encode_arith by done.
  repeat case_decide; div_lia.
Qed.

Lemma decode_encode_narrow w v rest :
  0 <= w <= 64 -> in_u w v ->
  decode_narrow w (encode_u64 [] v ++ rest) = Some (v, zlen (encode_u64 [] v)).
Proof.
  intros Hw Hv. unfold decode_narrow.
  rewrite decode_encode_u64 by eauto with bmux.
  by rewrite try_from_u_in.
Qed.

Lemma in_s_weaken w w' x : 0 < w <= w' -> in_s w x -> in_s w' x.
Proof.
  unfold in_s. intros Hw Hx. pose proof (Z.pow_le_mono_r 2 (w - 1) (w' - 1)). lia.
Qed.

Lemma decode_encode_i64 v rest :
  i64 v -> decode_i64 (encode_i64 [] v ++ rest) = Some (v, zlen (encode_i64 [] v)).
Proof.
  intros Hv. unfold decode_i64, encode_i64.
  rewrite decode_encode_u64 by by apply zigzag_encode_u64.
  by rewrite zigzag_roundtrip.
Qed.

Lemma decode_encode_narrow_signed w v rest :
  0 < w <= 64 -> in_s w v ->
  decode_narrow_signed w (encode_i64 [] v ++ rest) = Some (v, zlen (encode_i64 [] v)).
Proof.
  intros Hw Hv. unfold decode_narrow_signed, encode_i64.
  assert (Hv' : i64 v) by by apply (in_s_weaken w).
  rewrite decode_encode_u64 by by apply zigzag_encode_u64.
  by rewrite zigzag_roundtrip, try_from_s_in.
Qed.

(** ** What the decoder accepts *)

Definition continues (byte : Z) : bool := negb (bool_decide (Z.land byte 128 = 0)).

Lemma decode_loop_None input r s i :
  0 <= s ->
  decode_loop input r s i = None <->
  Forall (fun b => continues b = true) (take (Z.to_nat ((76 - s) / 7)) input).
Proof.
  revert r s i. induction input as [|b input IH]; intros r s i Hs; simpl.
  - rewrite take_nil. split; [constructor|done].
  - case_decide as Hb.
    + assert ((76 - s) / 7 <= 0) by div_lia.
      replace (Z.to_nat ((76 - s) / 7)) with 0%nat by lia. simpl. split; [constructor|done].
    + assert (Hd : Z.to_nat ((76 - s) / 7) = S (Z.to_nat ((76 - (s + 7)) / 7))).
      { replace (76 - (s + 7)) with (76 - s + (-1) * 7) by lia.
        rewrite Z.div_add by lia.
        assert (0 < (76 - s) / 7) by (apply Z.div_str_pos; lia). lia. }
      rewrite Hd. simpl. rewrite Forall_cons_iff. unfold continues at 1.
      case_decide as Hc.
      * rewrite bool_decide_eq_true_2 by done. naive_solver.
      * rewrite bool_decide_eq_false_2 by done. etransitivity; [apply IH; lia|]. naive_solver.
Qed.

Lemma decode_loop_Some input r s i v c :
  u64 r -> 0 <= s -> decode_loop input r s i = Some (v, c) ->
  u64 v /\ i < c <= i + zlen input /\
  forall rest, decode_loop (take (Z.to_nat (c - i)) input ++ rest) r s i = Some (v, c).
Proof.
  revert r s i. induction input as [|b input IH]; intros r s i Hr Hs H; simpl in H; [done|].
  case_decide as H70; [done|].
  assert (Hr' : u64 (Z.lor r (wrap_u 64 (Z.shiftl (Z.land b 127) s)))).
  { pose proof (wrap_u_range 64 (Z.shiftl (Z.land b 127) s) ltac:(lia)) as Hw.
    unfold in_u in *. split; [apply Z.lor_nonneg; lia|].
    apply Z.log2_lt_cancel. rewrite Z.log2_lor by lia. rewrite Z.log2_pow2 by lia.
    destruct (decide (r = 0)) as [->|], (decide (wrap_u 64 (Z.shiftl (Z.land b 127) s) = 0)) as [->|];
    apply Z.max_lub_lt; try (apply Z.log2_lt_pow2; lia); simpl; lia. }
  case_decide as Hc.
  - injection H as <- <-. rewrite zlen_cons. pose proof (zlen_nonneg input).
    split_and!; [done|lia|lia|]. intros rest.
    replace (Z.to_nat (i + 1 - i)) with 1%nat by lia. simpl.
    rewrite decide_False by done. by rewrite decide_True.
  - apply IH in H as (Hv & Hi & Hp); [|done|lia]. rewrite zlen_cons.
    split_and!; [done|lia|lia|]. intros rest.
    replace (Z.to_nat (c - i)) with (S (Z.to_nat (c - (i + 1)))) by lia. simpl.
    rewrite decide_False by done. rewrite decide_False by done. apply Hp.
Qed.

Lemma encode_loop_length n v :
  (0 < n)%nat -> 0 <= v < 2 ^ (7 * Z.of_nat n) ->
  (0 < length (encode_loop n [] v) <= n)%nat /\
  forall k, (0 < k)%nat ->
    (length (encode_loop n [] v) <= k)%nat <-> v < 2 ^ (7 * Z.of_nat k).
Proof.
  revert v. induction n as [|n IH]; intros v Hn Hv; [lia|].
  pose proof (shiftr7_small v n Hv) as Hsr. pose proof (split_7 v) as Hsp.
  pose proof (land_127_range v) as Hl.
  cbn [encode_loop]. case_decide as Hz.
  - simpl. split; [lia|]. intros k Hk. split; [intros _|lia].
    apply Z.lt_le_trans with (2 ^ 7); [lia|]. apply Z.pow_le_mono_r; lia.
  - destruct n as [|n]; [change (2 ^ (7 * Z.of_nat 0)) with 1 in Hsr; lia|].
    rewrite encode_loop_app. cbn [app length].
    destruct (IH (Z.shiftr v 7)) as [Hlen Hk]; [lia|done|].
    split; [simpl in *; lia|]. intros k Hkpos.
    destruct k as [|k]; [lia|]. destruct k as [|k].
    + split; [simpl in *; lia|]. change (2 ^ (7 * Z.of_nat 1)) with 128. lia.
    + specialize (Hk (S k) ltac:(lia)).
      transitivity (length (encode_loop (S n) [] (Z.shiftr v 7)) <= S k)%nat; [lia|].
      rewrite Hk. replace (7 * Z.of_nat (S (S k))) with (7 + 7 * Z.of_nat (S k)) by lia.
      rewrite Z.pow_add_r by lia. change (2 ^ 7) with 128. lia.
Qed.

(** ** Properties *)

(** a [u64] survives encoding and decoding, whatever bytes follow it, and
    the decoder reports exactly the bytes the encoder wrote. *)
Theorem u64_roundtrip (v : Z) (rest : list Z) :
  u64 v ->
  decode_u64 (encode_u64 [] v ++ rest) = Some (v, zlen (encode_u64 [] v)).
Proof. apply decode_encode_u64. Qed.

Lemma u64_roundtrip_witness :
  decode_u64 (encode_u64 [] 18446744073709551615 ++ [7])
  = Some (18446744073709551615, zlen (encode_u64 [] 18446744073709551615)).
Proof. apply (u64_roundtrip 18446744073709551615 [7]). int_lia. Defined.

(** a signed value of any width up to 64 bits survives ZigZag, LEB128 and
    back, for every code the narrower decoders accept. *)
Theorem signed_roundtrip (w v : Z) (rest : list Z) :
  0 < w <= 64 -> in_s w v ->
  zigzag_decode_i64 (zigzag_encode_i64 v) = v /\
  decode_narrow_signed w (encode_i64 [] v ++ rest) = Some (v, zlen (encode_i64 [] v)).
Proof.
  intros Hw Hv. split; [|by apply decode_encode_narrow_signed].
  apply zigzag_roundtrip. by apply (in_s_weaken w).
Qed.

Lemma signed_roundtrip_witness :
  zigzag_decode_i64 (zigzag_encode_i64 (-32768)) = -32768 /\
  decode_i16 (encode_i64 [] (-32768) ++ [1; 2]) = Some (-32768, zlen (encode_i64 [] (-32768))).
Proof. apply (signed_roundtrip 16 (-32768) [1; 2]); [lia|int_lia]. Defined.

(** the encoding is the shortest one: it fits in [k] bytes exactly when the
    value fits in [7 * k] bits, and it never exceeds ten bytes. *)
Theorem encode_u64_minimal (v : Z) :
  u64 v ->
  1 <= zlen (encode_u64 [] v) <= 10 /\
  forall k, (0 < k)%nat ->
    zlen (encode_u64 [] v) <= Z.of_nat k <-> v < 2 ^ (7 * Z.of_nat k).
Proof.
  intros Hv. unfold encode_u64, zlen.
  destruct (encode_loop_length 10 v) as [Hl Hk]; [lia| |].
  - unfold in_u in Hv. split; [lia|]. apply Z.lt_trans with (2 ^ 64); [lia|done].
  - split; [lia|]. intros k Hkpos. rewrite <- Hk by done. lia.
Qed.

Lemma encode_u64_minimal_witness : 1 <= zlen (encode_u64 [] 16384) <= 10.
Proof. apply (encode_u64_minimal 16384). int_lia. Defined.

(** the decoder fails exactly when none of the first ten bytes ends a
    varint (a truncated input, or one longer than ten bytes), and what it
    accepts is a [u64] read from the bytes it reports as consumed alone. *)
Theorem decode_u64_total (input : list Z) :
  (decode_u64 input = None <-> Forall (fun b => continues b = true) (take 10 input)) /\
  (forall v c, decode_u64 input = Some (v, c) ->
     u64 v /\ 1 <= c <= zlen input /\
     forall rest, decode_u64 (take (Z.to_nat c) input ++ rest) = Some (v, c)).
Proof.
  split; [apply (decode_loop_None input 0 0 0); lia|].
  intros v c H. unfold decode_u64 in *.
  apply decode_loop_Some in H as (Hv & Hc & Hp); [|int_lia|lia].
  rewrite Z.sub_0_r in Hp. split_and!; [done|lia|lia|done].
Qed.
