(* ===== verification/Fanout.v ===== *)
(** * The pane output fan-out buffer

    [src/plugins/pane-runtime-plugin/src/runtime.rs], [EscSeqPhase] and
    [OutputFanoutBuffer]: the bounded byte ring each pane keeps, the read
    cursor of every attached client, the escape-sequence spans that tell where
    a fresh terminal parser may start, and the node-wide accounting that all
    the buffers of a server share.

    Offsets are absolute positions in the pane's output stream, [u64]s kept as
    [Z].  The shared [AtomicUsize] is a value passed in and returned; what the
    other buffers' threads do to it between this thread's atomic operations is
    an explicit argument of [push_chunk_with_node_cap]. *)

From S2P Require Import Prelude.

(** ** Escape-sequence phases *)

Inductive EscSeqPhase : Set :=
| Ground | Escape | Csi | Osc | OscEsc | Dcs | DcsEsc | Sos | SosEsc.

#[export] Instance EscSeqPhase_eq_dec : EqDecision EscSeqPhase.
Proof. solve_decision. Defined.

Definition ESC : Z := 27.

(** [EscSeqPhase::advance]. *)
Definition advance (self : EscSeqPhase) (byte : Z) : EscSeqPhase :=
  if decide (byte = 24 \/ byte = 26) then Ground else
  match self with
  | Ground => if decide (byte = ESC) then Escape else Ground
  | Escape =>
      if decide (byte = 91) then Csi
      else if decide (byte = 93) then Osc
      else if decide (byte = 80) then Dcs
      else if decide (byte = 88 \/ byte = 94 \/ byte = 95) then Sos
      else if decide (byte = ESC \/ 32 <= byte <= 47) then Escape
      else Ground
  | Csi =>
      if decide (64 <= byte <= 126) then Ground
      else if decide (byte = ESC) then Escape
      else Csi
  | Osc =>
      if decide (byte = 7) then Ground
      else if decide (byte = ESC) then OscEsc
      else Osc
  | OscEsc =>
      if decide (byte = 92) then Ground
      else if decide (byte = ESC) then Escape
      else Osc
  | Dcs => if decide (byte = ESC) then DcsEsc else Dcs
  | DcsEsc =>
      if decide (byte = 92) then Ground
      else if decide (byte = ESC) then Escape
      else Dcs
  | Sos => if decide (byte = ESC) then SosEsc else Sos
  | SosEsc =>
      if decide (byte = 92) then Ground
      else if decide (byte = ESC) then Escape
      else Sos
  end.

Definition is_ground (self : EscSeqPhase) : bool := bool_decide (self = Ground).

(** ** The buffer *)

Definition ClientId := N.

Definition U64_MAX : Z := 18446744073709551615.
Definition MAX_NODE_OUTPUT_BUFFER_BYTES : Z := 256 * 1048576.

Record OutputFanoutBuffer := mkBuffer {
  max_bytes : Z;
  start_offset : Z;
  data : list Z;
  cursors : gmap ClientId Z;
  esc_phase : EscSeqPhase;
  esc_spans : list (Z * Z);
}.

Record OutputRead := mkRead {
  read_bytes : list Z;
  stream_start : Z;
  stream_end : Z;
  stream_gap : bool;
}.

Definition with_accounting (max_bytes : Z) : OutputFanoutBuffer := {|
  max_bytes := Z.max max_bytes 1;
  start_offset := 0;
  data := [];
  cursors := ∅;
  esc_phase := Ground;
  esc_spans := [];
|}.

Definition end_offset (self : OutputFanoutBuffer) : Z := start_offset self + zlen (data self).

Definition set_cursors (self : OutputFanoutBuffer) (cs : gmap ClientId Z) : OutputFanoutBuffer :=
  mkBuffer (max_bytes self) (start_offset self) (data self) cs (esc_phase self) (esc_spans self).

Definition register_client_at_tail (self : OutputFanoutBuffer) (client_id : ClientId)
  : OutputFanoutBuffer :=
  set_cursors self (<[client_id := end_offset self]> (cursors self)).

Definition unregister_client (self : OutputFanoutBuffer) (client_id : ClientId)
  : OutputFanoutBuffer :=
  set_cursors self (delete client_id (cursors self)).

Definition acknowledge_snapshot (self : OutputFanoutBuffer) (client_id : ClientId) (offset : Z)
  : OutputFanoutBuffer :=
  match cursors self !! client_id with
  | None => self
  | Some current =>
      set_cursors self
        (<[client_id := Z.min (Z.max current offset) (end_offset self)]> (cursors self))
  end.

Definition advance_client_to_end (self : OutputFanoutBuffer) (client_id : ClientId)
  : OutputFanoutBuffer :=
  match cursors self !! client_id with
  | None => self
  | Some _ => set_cursors self (<[client_id := end_offset self]> (cursors self))
  end.

(** *** Pushing a chunk: the escape-sequence spans *)

(** [if let Some(last) = self.esc_spans.back_mut() && last.1 == u64::MAX]. *)
Fixpoint close_last (spans : list (Z * Z)) (resume : Z) : list (Z * Z) :=
  match spans with
  | [] => []
  | [(esc_start, safe_resume)] =>
      if decide (safe_resume = U64_MAX) then [(esc_start, resume)]
      else [(esc_start, safe_resume)]
  | s :: rest => s :: close_last rest resume
  end.

(** The loop over the chunk's bytes; [offset] is [base_offset + i]. *)
Fixpoint track_phase (offset : Z) (chunk : list Z) (phase : EscSeqPhase)
    (spans : list (Z * Z)) : EscSeqPhase * list (Z * Z) :=
  match chunk with
  | [] => (phase, spans)
  | byte :: rest =>
      let next := advance phase byte in
      let spans :=
        if is_ground phase && negb (is_ground next)
        then spans ++ [(offset + 1, U64_MAX)]
        else if negb (is_ground phase) && is_ground next
        then close_last spans (offset + 1)
        else spans in
      track_phase (offset + 1) rest next spans
  end.

(** *** Pushing a chunk: eviction

    One entry of the environment is what the other threads add to the shared
    counter before this thread's load, and between that load and its
    compare-exchange.  An exhausted environment interferes no more. *)
Definition Env := list (Z * Z).

Definition env_next (env : Env) : (Z * Z) * Env :=
  match env with
  | [] => ((0, 0), [])
  | d :: env => (d, env)
  end.

(** The state the eviction loop threads: retained bytes, their first offset and
    the node's counter. *)
Record Evict := mkEvict { ev_data : list Z; ev_start : Z; ev_retained : Z }.

Fixpoint evict_loop (fuel : nat) (max_bytes node_max_bytes : Z) (env : Env)
    (contention_retries : Z) (st : Evict) : option Evict :=
  match fuel with
  | O => None
  | S fuel =>
      let '((before_load, before_cas), env) := env_next env in
      let local_excess := saturating_sub (zlen (ev_data st)) max_bytes in
      let retained := ev_retained st + before_load in
      let node_excess := saturating_sub retained node_max_bytes in
      let remove := Z.min (Z.max local_excess node_excess) (zlen (ev_data st)) in
      if decide (remove = 0) then Some (mkEvict (ev_data st) (ev_start st) retained)
      else if decide (before_cas <> 0) then
        let contention_retries := contention_retries + 1 in
        if decide (contention_retries < 8) then
          evict_loop fuel max_bytes node_max_bytes env contention_retries
            (mkEvict (ev_data st) (ev_start st) (retained + before_cas))
        else
          evict_loop fuel max_bytes node_max_bytes env 0
            (mkEvict (drop 1 (ev_data st)) (saturating_add 64 (ev_start st) 1)
               (retained + before_cas - 1))
      else
        evict_loop fuel max_bytes node_max_bytes env 0
          (mkEvict (drop (Z.to_nat remove) (ev_data st))
             (saturating_add 64 (ev_start st) remove) (retained - remove))
  end.

(** Enough iterations for every environment ([evict_loop_total]). *)
Definition evict_fuel (data : list Z) : nat := 8 * length data + 1.

(** [while let Some(&(_, safe_resume)) = self.esc_spans.front()]. *)
Fixpoint prune_spans (start_offset : Z) (spans : list (Z * Z)) : list (Z * Z) :=
  match spans with
  | [] => []
  | (esc_start, safe_resume) :: rest =>
      if decide (safe_resume <> U64_MAX /\ safe_resume <= start_offset)
      then prune_spans start_offset rest
      else spans
  end.

(** The buffer after the push and the node's counter; [None] would be an
    eviction loop that did not finish. *)
Definition push_chunk_with_node_cap (self : OutputFanoutBuffer) (retained : Z)
    (chunk : list Z) (node_max_bytes : Z) (env : Env)
  : option (OutputFanoutBuffer * Z) :=
  let base_offset := end_offset self in
  let retained := retained + zlen chunk in
  let data := data self ++ chunk in
  let '(phase, spans) := track_phase base_offset chunk (esc_phase self) (esc_spans self) in
  match evict_loop (evict_fuel data) (max_bytes self) node_max_bytes env 0
          (mkEvict data (start_offset self) retained) with
  | None => None
  | Some ev =>
      Some (mkBuffer (max_bytes self) (ev_start ev) (ev_data ev) (cursors self) phase
              (prune_spans (ev_start ev) spans), ev_retained ev)
  end.

Definition push_chunk (self : OutputFanoutBuffer) (retained : Z) (chunk : list Z) (env : Env)
  : option (OutputFanoutBuffer * Z) :=
  push_chunk_with_node_cap self retained chunk MAX_NODE_OUTPUT_BUFFER_BYTES env.

(** [Drop for OutputFanoutBuffer]: the counter after the buffer is gone. *)
Definition drop_buffer (self : OutputFanoutBuffer) (retained : Z) : Z :=
  retained - zlen (data self).

(** *** Reading *)

(** [VecDeque::binary_search_by] on the spans' starts: [Ok] of the index of an
    equal element, [Err] of the insertion point. *)
Fixpoint binary_search (spans : list (Z * Z)) (target : Z) (index : nat) : result nat nat :=
  match spans with
  | [] => Err index
  | (esc_start, _) :: rest =>
      if decide (esc_start = target) then Ok index
      else if decide (esc_start < target) then binary_search rest target (S index)
      else Err index
  end.

(** The scan of the window [idx..min(len, idx + 2)]. *)
Fixpoint check_window (window : list (Z * Z)) (target end_ : Z) : Z :=
  match window with
  | [] => target
  | (esc_start, safe_resume) :: rest =>
      if decide (esc_start <= target /\ target < safe_resume)
      then if decide (safe_resume = U64_MAX) then end_ else safe_resume
      else check_window rest target end_
  end.

Definition first_safe_offset_at_or_after (self : OutputFanoutBuffer) (target : Z) : Z :=
  let idx :=
    match binary_search (esc_spans self) target 0 with
    | Ok i => i
    | Err insert_point => (insert_point - 1)%nat
    end in
  check_window (take 2 (drop idx (esc_spans self))) target (end_offset self).

Definition slice (data : list Z) (start_index to_read : Z) : list Z :=
  take (Z.to_nat to_read) (drop (Z.to_nat start_index) data).

Definition read_for_client (self : OutputFanoutBuffer) (client_id : ClientId) (max : Z)
  : OutputRead * OutputFanoutBuffer :=
  let limit := Z.max max 1 in
  let end_ := end_offset self in
  let safe_resume := first_safe_offset_at_or_after self (start_offset self) in
  let cursor := default end_ (cursors self !! client_id) in
  let gap := bool_decide (cursor < start_offset self) in
  let cursor := if gap then safe_resume else cursor in
  let available := saturating_sub end_ cursor in
  if decide (available = 0) then
    (mkRead [] cursor cursor gap, set_cursors self (<[client_id := cursor]> (cursors self)))
  else
    let to_read := Z.min available limit in
    let bytes := slice (data self) (cursor - start_offset self) to_read in
    let cursor' := saturating_add 64 cursor (zlen bytes) in
    (mkRead bytes cursor cursor' gap, set_cursors self (<[client_id := cursor']> (cursors self))).

Definition read_at (self : OutputFanoutBuffer) (cursor limit : Z) : OutputRead :=
  let end_ := end_offset self in
  let gap := bool_decide (cursor < start_offset self \/ end_ < cursor) in
  let start := Z.min (Z.max cursor (start_offset self)) end_ in
  if decide (limit = 0 \/ start = end_) then mkRead [] start start gap
  else
    let to_read := Z.min (saturating_sub end_ start) limit in
    let bytes := slice (data self) (saturating_sub start (start_offset self)) to_read in
    mkRead bytes start (saturating_add 64 start (zlen bytes)) gap.

Definition read_recent_with_offsets (self : OutputFanoutBuffer) (max : Z) : OutputRead :=
  let end_ := end_offset self in
  if decide (data self = [] \/ max = 0) then mkRead [] end_ end_ false
  else
    let to_read := Z.min (zlen (data self)) max in
    let intended_start := end_ - to_read in
    let safe_start := first_safe_offset_at_or_after self intended_start in
    if decide (end_ <= safe_start) then mkRead [] end_ end_ false
    else
      mkRead (drop (Z.to_nat (safe_start - start_offset self)) (data self))
        safe_start end_ false.

(** ** The stream a buffer stands for

    [phases s] is the phase of a ground-state parser after the whole of [s];
    [phase_at s k] its phase at offset [k], so [phase_at s k = Ground] says that
    a fresh parser may start there. *)

Definition phases (s : list Z) : EscSeqPhase := foldl advance Ground s.
Definition phase_at (s : list Z) (k : Z) : EscSeqPhase := phases (take (Z.to_nat k) s).

Definition covers (spans : list (Z * Z)) (k : Z) : Prop :=
  exists sp, sp ∈ spans /\ sp.1 <= k < sp.2.

Definition span_ok (len : Z) (sp : Z * Z) : Prop :=
  1 <= sp.1 <= len /\ sp.1 < sp.2 /\ (sp.2 <= len \/ sp.2 = U64_MAX).

(** What the span list means for the stream [s], for offsets from [lo] on. *)
Record spans_inv (lo : Z) (s : list Z) (spans : list (Z * Z)) : Prop := {
  si_sorted : StronglySorted (fun a b => a.2 < b.1) spans;
  si_ok : Forall (span_ok (zlen s)) spans;
  si_open : phases s <> Ground -> exists init a, spans = init ++ [(a, U64_MAX)];
  si_closed : phases s = Ground -> Forall (fun sp => sp.2 <> U64_MAX) spans;
  si_covers : forall k, lo <= k <= zlen s -> phase_at s k <> Ground <-> covers spans k;
}.

(** The buffer [self] retains the end of the stream [s]: the abstraction
    relation between the ring and everything the pane ever wrote. *)
Record represents (s : list Z) (self : OutputFanoutBuffer) : Prop := {
  rp_small : zlen s < U64_MAX;
  rp_start : 0 <= start_offset self <= zlen s;
  rp_data : data self = drop (Z.to_nat (start_offset self)) s;
  rp_phase : esc_phase self = phases s;
  rp_spans : spans_inv (start_offset self) s (esc_spans self);
  rp_cursors : map_Forall (fun _ c => 0 <= c <= zlen s) (cursors self);
}.

(** ** Phases *)

Lemma phases_snoc s b : phases (s ++ [b]) = advance (phases s) b.
Proof. unfold phases. by rewrite foldl_app. Qed.

Lemma phase_at_app s k t : 0 <= k <= zlen s -> phase_at (s ++ t) k = phase_at s k.
Proof. intros Hk. unfold phase_at. rewrite take_app_le; [done|int_lia]. Qed.

Lemma phase_at_end s k : zlen s <= k -> phase_at s k = phases s.
Proof. intros. unfold phase_at. rewrite take_ge; [done|int_lia]. Qed.

Lemma phases_nil : phases [] = Ground.
Proof. done. Qed.

(** ** Spans: one byte at a time *)

Lemma close_last_open init a r :
  close_last (init ++ [(a, U64_MAX)]) r = init ++ [(a, r)].
Proof.
  induction init as [|[x y] init IH]; [done|].
  simpl. destruct (init ++ [(a, U64_MAX)]) eqn:E.
  - by destruct init.
  - by rewrite IH.
Qed.

Lemma covers_app l1 l2 k : covers (l1 ++ l2) k <-> covers l1 k \/ covers l2 k.
Proof. unfold covers. setoid_rewrite elem_of_app. naive_solver. Qed.

Lemma covers_single a b k : covers [(a, b)] k <-> a <= k < b.
Proof. unfold covers. setoid_rewrite list_elem_of_singleton. naive_solver. Qed.

Lemma span_ok_grow len len' sp : len <= len' -> span_ok len sp -> span_ok len' sp.
Proof. unfold span_ok. lia. Qed.

Lemma spans_ok_snoc s (b : Z) spans :
  Forall (span_ok (zlen s)) spans -> Forall (span_ok (zlen (s ++ [b]))) spans.
Proof.
  rewrite !Forall_forall. intros Hok sp Hin. apply span_ok_grow with (zlen s); [|by apply Hok].
  rewrite zlen_app. pose proof (zlen_nonneg [b]). lia.
Qed.

Lemma sorted_snoc_iff l x :
  StronglySorted (fun a b : Z * Z => a.2 < b.1) (l ++ [x]) <->
  StronglySorted (fun a b : Z * Z => a.2 < b.1) l /\ Forall (fun a => a.2 < x.1) l.
Proof.
  rewrite StronglySorted_app. setoid_rewrite list_elem_of_singleton.
  rewrite Forall_forall. split; [naive_solver|].
  intros [Hl Hx]. split_and!; [naive_solver|done|repeat constructor].
Qed.

Lemma phase_at_snoc_covers s b spans spans' lo :
  0 <= lo ->
  (forall k, lo <= k <= zlen s -> phase_at s k <> Ground <-> covers spans k) ->
  (forall k, lo <= k <= zlen s -> covers spans' k <-> covers spans k) ->
  (lo <= zlen s + 1 -> advance (phases s) b <> Ground <-> covers spans' (zlen s + 1)) ->
  forall k, lo <= k <= zlen (s ++ [b]) ->
    phase_at (s ++ [b]) k <> Ground <-> covers spans' k.
Proof.
  intros Hlo Hold Hsame Hnew k Hk. rewrite zlen_app, zlen_cons, zlen_nil in Hk.
  destruct (decide (k <= zlen s)) as [Hle|Hgt].
  - rewrite phase_at_app by lia. rewrite Hsame by lia. apply Hold. lia.
  - assert (k = zlen s + 1) as -> by lia.
    rewrite phase_at_end by (rewrite zlen_app, zlen_cons, zlen_nil; lia).
    rewrite phases_snoc. apply Hnew. lia.
Qed.

Lemma spans_inv_open lo s b spans :
  0 <= lo -> zlen s + 1 < U64_MAX -> spans_inv lo s spans ->
  phases s = Ground -> advance (phases s) b <> Ground ->
  spans_inv lo (s ++ [b]) (spans ++ [(zlen s + 1, U64_MAX)]).
Proof.
  intros Hlo Hlen [Hs Hok _ Hcl Hcov] Hg Hn.
  pose proof (zlen_nonneg s). specialize (Hcl Hg).
  assert (Hend : Forall (fun a : Z * Z => a.2 < zlen s + 1) spans).
  { apply Forall_forall. intros sp Hin.
    rewrite Forall_forall in Hok, Hcl. specialize (Hok sp Hin). specialize (Hcl sp Hin).
    unfold span_ok in Hok. lia. }
  split.
  - by apply sorted_snoc_iff.
  - apply Forall_app. split.
    + by apply spans_ok_snoc.
    + apply Forall_singleton. unfold span_ok. simpl.
      rewrite zlen_app, zlen_cons, zlen_nil. lia.
  - intros _. by eexists _, _.
  - rewrite phases_snoc. done.
  - apply phase_at_snoc_covers with spans; [done..| |].
    + intros k Hk. rewrite covers_app, covers_single. split; [intros [|]; [done|lia]|by left].
    + intros _. rewrite covers_app, covers_single. split; [right; lia|done].
Qed.

Lemma spans_inv_close lo s b spans :
  0 <= lo -> zlen s + 1 < U64_MAX -> spans_inv lo s spans ->
  phases s <> Ground -> advance (phases s) b = Ground ->
  spans_inv lo (s ++ [b]) (close_last spans (zlen s + 1)).
Proof.
  intros Hlo Hlen [Hs Hok Hop _ Hcov] Hg Hn.
  destruct (Hop Hg) as (init & a & ->). rewrite close_last_open.
  apply sorted_snoc_iff in Hs as [Hs Hlt].
  apply Forall_app in Hok as [Hok Hlast]. rewrite Forall_singleton in Hlast.
  unfold span_ok in Hlast. simpl in Hlast, Hlt.
  split.
  - by apply sorted_snoc_iff.
  - apply Forall_app. split.
    + by apply spans_ok_snoc.
    + apply Forall_singleton. unfold span_ok. simpl.
      rewrite zlen_app, zlen_cons, zlen_nil. lia.
  - rewrite phases_snoc. done.
  - intros _. apply Forall_app. split.
    + apply Forall_forall. intros sp Hin.
      rewrite Forall_forall in Hlt. specialize (Hlt sp Hin). lia.
    + apply Forall_singleton. simpl. lia.
  - apply phase_at_snoc_covers with (init ++ [(a, U64_MAX)]); [done..| |].
    + intros k Hk. rewrite !covers_app, !covers_single.
      split; (intros [|]; [by left|right; lia]).
    + intros _. rewrite Hn, covers_app, covers_single. split; [done|].
      intros [(sp & Hin & Hsp)|]; [|lia].
      rewrite Forall_forall in Hlt. specialize (Hlt sp Hin). lia.
Qed.

Lemma spans_inv_stay lo s b spans :
  0 <= lo -> zlen s + 1 < U64_MAX -> spans_inv lo s spans ->
  (phases s = Ground <-> advance (phases s) b = Ground) ->
  spans_inv lo (s ++ [b]) spans.
Proof.
  intros Hlo Hlen [Hs Hok Hop Hcl Hcov] Hiff.
  split.
  - done.
  - by apply spans_ok_snoc.
  - rewrite phases_snoc. naive_solver.
  - rewrite phases_snoc. naive_solver.
  - apply phase_at_snoc_covers with spans; [done..|].
    intros Hle. split.
    + intros Hn. destruct Hop as (init & a & ->); [naive_solver|].
      apply covers_app. right. apply covers_single.
      apply Forall_app in Hok as [_ Hlast]. rewrite Forall_singleton in Hlast.
      unfold span_ok in Hlast. simpl in Hlast. lia.
    + intros (sp & Hin & Hsp) Hg. rewrite <- Hiff in Hg. specialize (Hcl Hg).
      rewrite Forall_forall in Hok, Hcl. specialize (Hok sp Hin).
      specialize (Hcl sp Hin). unfold span_ok in Hok. lia.
Qed.

Lemma is_ground_true p : is_ground p = true <-> p = Ground.
Proof. apply bool_decide_eq_true. Qed.

Lemma is_ground_false p : is_ground p = false <-> p <> Ground.
Proof. apply bool_decide_eq_false. Qed.

Lemma track_phase_inv lo s chunk spans phase' spans' :
  0 <= lo -> zlen (s ++ chunk) < U64_MAX -> spans_inv lo s spans ->
  track_phase (zlen s) chunk (phases s) spans = (phase', spans') ->
  phase' = phases (s ++ chunk) /\ spans_inv lo (s ++ chunk) spans'.
Proof.
  revert s spans. induction chunk as [|b chunk IH]; intros s spans Hlo Hlen Hinv Ht.
  - simpl in Ht. injection Ht as <- <-. by rewrite app_nil_r.
  - replace (s ++ b :: chunk) with ((s ++ [b]) ++ chunk) in * by by rewrite <- app_assoc.
    assert (Hb : zlen (s ++ [b]) = zlen s + 1) by by rewrite zlen_app, zlen_cons, zlen_nil.
    assert (Hlen1 : zlen s + 1 < U64_MAX).
    { rewrite zlen_app, Hb in Hlen. pose proof (zlen_nonneg chunk). lia. }
    cbn [track_phase] in Ht. rewrite <- phases_snoc, <- Hb in Ht.
    eapply IH; [done|done| |exact Ht].
    rewrite Hb. rewrite phases_snoc.
    destruct (is_ground (phases s)) eqn:E1, (is_ground (advance (phases s) b)) eqn:E2; simpl;
    rewrite ?is_ground_true, ?is_ground_false in E1; rewrite ?is_ground_true, ?is_ground_false in E2.
    + apply spans_inv_stay; naive_solver.
    + by apply spans_inv_open.
    + by apply spans_inv_close.
    + apply spans_inv_stay; naive_solver.
Qed.

(** ** Eviction *)

(** What the other threads added to the counter while a prefix of the
    environment was consumed. *)
Definition env_flat (env : Env) : list Z := env ≫= (fun d => [d.1; d.2]).
Definition Zsum (l : list Z) : Z := foldr Z.add 0 l.
Definition env_sum (env : Env) (d : Z) : Prop := exists k, d = Zsum (take k (env_flat env)).

Lemma env_sum_next env d0 d1 env' d :
  env_next env = ((d0, d1), env') -> env_sum env' d -> env_sum env (d0 + d1 + d).
Proof.
  intros He [k ->]. destruct env as [|[x y] env]; simpl in He; injection He as <- <- <-.
  - exists O. destruct k; reflexivity.
  - exists (S (S k)). change (env_flat ((x, y) :: env)) with (x :: y :: env_flat env).
    cbn [take Zsum foldr]. fold (Zsum (take k (env_flat env))). lia.
Qed.

Lemma env_sum_load env d0 d1 env' :
  env_next env = ((d0, d1), env') -> env_sum env d0.
Proof.
  intros He. destruct env as [|[x y] env]; simpl in He; injection He as <- <- <-.
  - by exists O.
  - exists 1%nat. unfold env_flat, Zsum. simpl. lia.
Qed.

Lemma zlen_drop {A} n (l : list A) : 0 <= n <= zlen l -> zlen (drop (Z.to_nat n) l) = zlen l - n.
Proof. intros H. unfold zlen in *. rewrite length_drop. lia. Qed.

(** Whatever the other threads do, the loop finishes within its fuel. *)
Lemma evict_loop_total fuel mb nm env retries st :
  0 <= retries < 8 -> (0 < fuel)%nat ->
  8 * zlen (ev_data st) + 1 - retries <= Z.of_nat fuel ->
  is_Some (evict_loop fuel mb nm env retries st).
Proof.
  revert env retries st. induction fuel as [|fuel IH]; intros env retries st Hr H0 Hf; [lia|].
  cbn [evict_loop]. destruct (env_next env) as [[d0 d1] env'] eqn:He.
  case_decide as Hrm; [eauto|].
  assert (Hpos : 0 < zlen (ev_data st)).
  { pose proof (zlen_nonneg (ev_data st)). unfold saturating_sub in Hrm. lia. }
  set (remove := Z.min _ _) in *.
  assert (0 < remove <= zlen (ev_data st)) by (subst remove; unfold saturating_sub in *; lia).
  case_decide.
  - case_decide.
    + apply IH; simpl; lia.
    + apply IH; simpl; [lia|lia|]. change 1%nat with (Z.to_nat 1). rewrite zlen_drop by lia. lia.
  - apply IH; simpl; [lia|lia|]. rewrite zlen_drop by lia. lia.
Qed.

(** What an eviction leaves: a suffix of what was there, at most the pane's
    budget, within the node's unless empty, and a counter that moved by the
    evicted bytes and the other threads' changes alone. *)
Record evicted (s : list Z) (mb nm : Z) (env : Env) (st ev : Evict) : Prop := {
  ec_start : ev_start st <= ev_start ev <= zlen s;
  ec_data : ev_data ev = drop (Z.to_nat (ev_start ev)) s;
  ec_local : zlen (ev_data ev) <= mb;
  ec_node : ev_data ev = [] \/ ev_retained ev <= nm;
  ec_account : exists d, env_sum env d /\
    ev_retained ev - zlen (ev_data ev) = ev_retained st - zlen (ev_data st) + d;
}.

Lemma drop_suffix (s : list Z) a n :
  0 <= a -> 0 <= n -> drop (Z.to_nat n) (drop (Z.to_nat a) s) = drop (Z.to_nat (a + n)) s.
Proof. intros. rewrite drop_drop. f_equal. lia. Qed.

Lemma evict_loop_spec fuel s mb nm env retries st ev :
  zlen s < U64_MAX -> 0 <= mb ->
  0 <= ev_start st <= zlen s -> ev_data st = drop (Z.to_nat (ev_start st)) s ->
  evict_loop fuel mb nm env retries st = Some ev -> evicted s mb nm env st ev.
Proof.
  intros Hs Hmb. revert env retries st. induction fuel as [|fuel IH];
    intros env retries st Hst Hd H; [done|].
  cbn [evict_loop] in H. destruct (env_next env) as [[d0 d1] env'] eqn:He.
  assert (Hlen : zlen (ev_data st) = zlen s - ev_start st) by (rewrite Hd, zlen_drop; lia).
  set (remove := Z.min _ _) in H.
  case_decide as Hrm.
  { injection H as <-. split; simpl.
    - lia.
    - done.
    - subst remove. unfold saturating_sub in Hrm. lia.
    - subst remove. unfold saturating_sub in Hrm.
      destruct (ev_data st) as [|b l]; [by left|right]. rewrite zlen_cons in Hrm.
      pose proof (zlen_nonneg l). lia.
    - exists d0. split; [by eapply env_sum_load|]. lia. }
  assert (Hr : 0 < remove <= zlen (ev_data st)).
  { pose proof (zlen_nonneg (ev_data st)). subst remove. unfold saturating_sub in *. lia. }
  assert (Hstep : forall retries st',
    evict_loop fuel mb nm env' retries st' = Some ev ->
    (exists n, 0 <= n <= zlen (ev_data st) /\ ev_start st' = ev_start st + n /\
      ev_data st' = drop (Z.to_nat n) (ev_data st) /\
      ev_retained st' = ev_retained st + d0 + d1 - n) ->
    evicted s mb nm env st ev).
  { intros r' st' Hev (n & Hn & Hs' & Hd' & Hret).
    apply IH in Hev as [P1 P2 P3 P4 (d & Hdsum & Hacc)]; [|lia|].
    - split; [lia|done..|]. exists (d0 + d1 + d). split; [by eapply env_sum_next|].
      rewrite Hacc, Hret, Hd', zlen_drop by lia. lia.
    - rewrite Hd', Hd, drop_suffix by lia. by rewrite Hs'. }
  case_decide as Hcas; [case_decide|].
  - eapply Hstep; [exact H|]. exists 0. simpl. split_and!; [lia..|done|lia].
  - eapply Hstep; [exact H|]. exists 1. simpl.
    split_and!; [lia..|unfold saturating_add, max_u; unfold U64_MAX in *; lia|done|lia].
  - eapply Hstep; [exact H|]. exists remove. simpl.
    split_and!; [lia..|unfold saturating_add, max_u; unfold U64_MAX in *; lia|done|].
    lia.
Qed.

(** ** Pruning *)

Lemma prune_spans_suffix lo spans :
  exists dropped, spans = dropped ++ prune_spans lo spans /\
    Forall (fun sp => sp.2 <> U64_MAX /\ sp.2 <= lo) dropped.
Proof.
  induction spans as [|[a b] spans (dropped & IHe & IHf)]; simpl.
  - by exists [].
  - case_decide as Hp; [|by exists []].
    exists ((a, b) :: dropped). simpl. rewrite <- IHe. split; [done|].
    by apply Forall_cons.
Qed.

Lemma spans_inv_prune lo lo' s spans :
  lo <= lo' -> spans_inv lo s spans -> spans_inv lo' s (prune_spans lo' spans).
Proof.
  intros Hlo [Hs Hok Hop Hcl Hcov].
  destruct (prune_spans_suffix lo' spans) as (dropped & He & Hf).
  rewrite He in Hs, Hok, Hop, Hcl, Hcov. rewrite Forall_forall in Hf.
  split.
  - clear -Hs. induction dropped as [|x dropped IH]; [done|].
    apply StronglySorted_inv in Hs as [Hs _]. by apply IH.
  - by apply Forall_app in Hok as [_ Hok].
  - intros Hg. destruct (Hop Hg) as (init & a & Hi).
    destruct (prune_spans lo' spans) as [|x l _] eqn:Ep using rev_ind.
    + exfalso. rewrite app_nil_r in Hi. subst dropped.
      destruct (Hf (a, U64_MAX)) as [Hx _]; [set_solver|done].
    + rewrite app_assoc in Hi. apply app_inj_tail in Hi as [_ ->]. by exists l, a.
  - intros Hg. specialize (Hcl Hg). by apply Forall_app in Hcl as [_ Hcl].
  - intros k Hk. rewrite Hcov by lia. rewrite covers_app. split; [|by right].
    intros [(sp & Hin & Hsp)|]; [|done].
    destruct (Hf sp Hin). lia.
Qed.

(** ** Safe offsets *)

Lemma binary_search_shift spans t i :
  binary_search spans t i =
  match binary_search spans t 0 with Ok j => Ok (i + j)%nat | Err j => Err (i + j)%nat end.
Proof.
  revert i. induction spans as [|[a b] spans IH]; intros i; simpl.
  - f_equal. lia.
  - case_decide; [f_equal; lia|]. case_decide; [|f_equal; lia].
    rewrite (IH (S i)), (IH 1%nat). destruct (binary_search spans t 0); f_equal; lia.
Qed.

Lemma sorted_lookup_lt (spans : list (Z * Z)) i j x y :
  StronglySorted (fun a b => a.2 < b.1) spans ->
  spans !! i = Some x -> spans !! j = Some y -> (i < j)%nat -> x.2 < y.1.
Proof.
  intros Hs Hi Hj Hlt. rewrite <- (take_drop j spans) in Hs.
  eapply (StronglySorted_app_1_elem_of _ _ _ x y Hs).
  - apply elem_of_take. eauto.
  - rewrite (drop_S _ y j) by done. set_solver.
Qed.

(** The index the search settles on is that of the only span that can contain
    the target. *)
Lemma binary_search_spec spans t j sp :
  StronglySorted (fun a b => a.2 < b.1) spans -> Forall (fun sp => sp.1 < sp.2) spans ->
  spans !! j = Some sp -> sp.1 <= t < sp.2 ->
  match binary_search spans t 0 with
  | Ok i => i
  | Err p => (p - 1)%nat
  end = j.
Proof.
  revert j. induction spans as [|[a b] spans IH]; intros j Hs Hf Hj Hsp; [done|].
  apply StronglySorted_inv in Hs as [Hs Hab]. apply Forall_cons in Hf as [Hlt Hf].
  simpl in *. rewrite Forall_forall in Hab. destruct j as [|j]; simpl in Hj.
  - injection Hj as <-. simpl in Hsp. case_decide; [done|]. rewrite decide_True by lia.
    destruct spans as [|[c d] spans]; [done|]. simpl.
    specialize (Hab (c, d) ltac:(set_solver)). simpl in Hab.
    rewrite decide_False, decide_False by lia. done.
  - assert (Hin : sp ∈ spans) by by eapply list_elem_of_lookup_2.
    specialize (Hab sp Hin).
    rewrite decide_False, decide_True by lia. rewrite binary_search_shift.
    specialize (IH j Hs Hf Hj Hsp). destruct (binary_search spans t 0) as [i|p] eqn:E.
    + lia.
    + destruct p as [|p]; [|lia]. simpl in IH. subst j.
      destruct spans as [|[c d] spans]; [done|]. simpl in Hj. injection Hj as <-.
      simpl in E, Hsp. repeat case_decide; [done| |lia].
      rewrite binary_search_shift in E. by destruct (binary_search spans t 0).
Qed.

Lemma check_window_spec w t e :
  (exists a b, (a, b) ∈ w /\ a <= t < b /\
     check_window w t e = if decide (b = U64_MAX) then e else b) \/
  (~ covers w t /\ check_window w t e = t).
Proof.
  induction w as [|[a b] w IH]; simpl.
  - right. split; [|done]. intros (sp & Hin & _). set_solver.
  - case_decide as Hc.
    + left. exists a, b. split_and!; [set_solver|lia|lia|done].
    + destruct IH as [(a' & b' & Hin & Hr & He)|[Hn He]].
      * left. exists a', b'. split_and!; [set_solver|lia|lia|done].
      * right. split; [|done]. intros (sp & Hin & Hsp).
        apply elem_of_cons in Hin as [->|Hin]; [naive_solver|].
        apply Hn. by exists sp.
Qed.

Lemma covers_take_drop n m spans t :
  covers (take n (drop m spans)) t -> covers spans t.
Proof.
  intros (sp & Hin & Hsp). exists sp. split; [|done].
  eapply subseteq_take in Hin. by eapply subseteq_drop in Hin.
Qed.

Lemma spans_inv_strict lo s spans : spans_inv lo s spans -> Forall (fun sp => sp.1 < sp.2) spans.
Proof.
  intros Hinv. apply si_ok in Hinv. rewrite Forall_forall in *.
  intros sp Hin. by apply Hinv.
Qed.

(** A closed span ends in the ground phase. *)
Lemma span_end_ground lo s spans a b :
  spans_inv lo s spans -> (a, b) ∈ spans -> b <> U64_MAX -> lo <= b ->
  b <= zlen s /\ phase_at s b = Ground.
Proof.
  intros Hinv Hin Hb Hlo. pose proof (spans_inv_strict _ _ _ Hinv) as Hst.
  destruct Hinv as [Hs Hok _ _ Hcov].
  rewrite Forall_forall in Hok, Hst. pose proof (Hok _ Hin) as Hab. unfold span_ok in Hab. simpl in Hab.
  assert (Hle : b <= zlen s) by lia. split; [done|].
  destruct (decide (phase_at s b = Ground)) as [|Hn]; [done|exfalso].
  apply Hcov in Hn as (sp & Hin' & Hsp); [|lia].
  apply list_elem_of_lookup_1 in Hin as [i Hi]. pose proof Hin' as Hin2.
  apply list_elem_of_lookup_1 in Hin' as [j Hj].
  destruct (lt_eq_lt_dec i j) as [[Hij|Hij]|Hij].
  - pose proof (sorted_lookup_lt _ _ _ _ _ Hs Hi Hj Hij). simpl in *. lia.
  - subst j. rewrite Hi in Hj. injection Hj as <-. simpl in Hsp. lia.
  - pose proof (sorted_lookup_lt _ _ _ _ _ Hs Hj Hi Hij). simpl in *. lia.
Qed.

Lemma represents_end s self : represents s self -> end_offset self = zlen s.
Proof.
  intros [_ Hst Hd _ _ _]. unfold end_offset. rewrite Hd, zlen_drop; lia.
Qed.

Lemma first_safe_spec s self t :
  represents s self -> start_offset self <= t <= zlen s ->
  let r := first_safe_offset_at_or_after self t in
  t <= r <= zlen s /\ (forall k, t <= k < r -> phase_at s k <> Ground) /\
  (phase_at s r = Ground \/ r = zlen s /\ phases s <> Ground).
Proof.
  intros Hrep Ht r. pose proof (represents_end _ _ Hrep) as Hend.
  pose proof (rp_spans _ _ Hrep) as Hinv. pose proof (rp_small _ _ Hrep) as Hsm.
  pose proof (spans_inv_strict _ _ _ Hinv) as Hst.
  subst r. unfold first_safe_offset_at_or_after. rewrite Hend.
  set (idx := match binary_search _ _ _ with Ok i => i | Err p => _ end).
  destruct (check_window_spec (take 2 (drop idx (esc_spans self))) t (zlen s))
    as [(a & b & Hin & Hab & ->)|[Hn ->]].
  - apply subseteq_take, subseteq_drop in Hin.
    assert (Hcov : forall k, t <= k <= zlen s -> k < b -> phase_at s k <> Ground).
    { intros k Hk Hkb. apply (si_covers _ _ _ Hinv); [lia|].
      exists (a, b). simpl. split; [done|lia]. }
    case_decide as Hb.
    + subst b. split; [lia|]. split; [intros k Hk; apply Hcov; lia|].
      right. split; [done|]. rewrite <- (phase_at_end s (zlen s)) by lia. apply Hcov; lia.
    + destruct (span_end_ground _ _ _ _ _ Hinv Hin Hb) as [Hle Hg]; [lia|].
      split; [lia|]. split; [intros k Hk; apply Hcov; lia|by left].
  - split; [lia|]. split; [lia|]. left.
    destruct (decide (phase_at s t = Ground)) as [|Hg]; [done|exfalso; apply Hn].
    apply (si_covers _ _ _ Hinv) in Hg as (sp & Hin & Hsp); [|lia].
    apply list_elem_of_lookup_1 in Hin as [j Hj].
    assert (idx = j) as Hidx.
    { subst idx. eapply binary_search_spec; [apply Hinv|done..]. }
    exists sp. split; [|done]. rewrite Hidx.
    rewrite (drop_S _ sp j) by done. simpl. set_solver.
Qed.

(** ** Operations preserve the representation *)

Lemma represents_new mb : represents [] (with_accounting mb).
Proof.
  split; try done.
  split; try done; [constructor| ].
  intros k Hk. split.
  - unfold phase_at. rewrite take_nil. done.
  - intros (sp & Hin & _). set_solver.
Qed.

Lemma represents_set_cursors s self cs :
  represents s self -> map_Forall (fun _ c => 0 <= c <= zlen s) cs ->
  represents s (set_cursors self cs).
Proof. intros [H1 H2 H3 H4 H5 _] Hcs. by split. Qed.

Lemma cursor_insert s self client c :
  represents s self -> 0 <= c <= zlen s ->
  represents s (set_cursors self (<[client := c]> (cursors self))).
Proof.
  intros Hrep Hc. apply represents_set_cursors; [done|].
  apply map_Forall_insert_2; [done|]. apply Hrep.
Qed.

Lemma cursor_default s self client :
  represents s self -> 0 <= default (zlen s) (cursors self !! client) <= zlen s.
Proof.
  intros Hrep. destruct (cursors self !! client) as [c|] eqn:E; simpl.
  - by apply (rp_cursors _ _ Hrep) in E.
  - pose proof (zlen_nonneg s). lia.
Qed.

Lemma push_spec s self retained chunk nm env :
  represents s self -> zlen (s ++ chunk) < U64_MAX -> 0 <= max_bytes self ->
  exists self' retained',
    push_chunk_with_node_cap self retained chunk nm env = Some (self', retained') /\
    represents (s ++ chunk) self' /\
    cursors self' = cursors self /\ max_bytes self' = max_bytes self /\
    start_offset self <= start_offset self' /\
    zlen (data self') <= max_bytes self /\
    (data self' = [] \/ retained' <= nm) /\
    (exists d, env_sum env d /\
       retained' - zlen (data self') = retained - zlen (data self) + d).
Proof.
  intros Hrep Hlen Hmb. pose proof (represents_end _ _ Hrep) as Hend.
  destruct Hrep as [Hsm Hst Hd Hph Hsp Hcur].
  unfold push_chunk_with_node_cap. rewrite Hend, Hph.
  destruct (track_phase (zlen s) chunk (phases s) (esc_spans self)) as [phase spans] eqn:Ht.
  apply (track_phase_inv (start_offset self)) in Ht as [-> Hinv]; [|lia|done|done].
  assert (Hdata : data self ++ chunk = drop (Z.to_nat (start_offset self)) (s ++ chunk)).
  { rewrite Hd, drop_app_le; [done|]. unfold zlen in Hst. lia. }
  destruct (evict_loop_total (evict_fuel (data self ++ chunk)) (max_bytes self) nm env 0
    (mkEvict (data self ++ chunk) (start_offset self) (retained + zlen chunk))) as [ev Hev];
    [lia|unfold evict_fuel; lia|unfold evict_fuel, zlen; simpl; lia|].
  rewrite Hev. eexists _, _. split; [done|].
  apply (evict_loop_spec _ (s ++ chunk)) in Hev as [P1 P2 P3 P4 (d & P5 & P6)];
    [|done|done|rewrite zlen_app in *; pose proof (zlen_nonneg chunk); simpl; lia|done].
  simpl in *. split_and!; try done.
  - split; simpl; [done|lia|done|done| |].
    + apply spans_inv_prune with (start_offset self); [lia|done].
    + intros c x Hx. apply Hcur in Hx. rewrite zlen_app in *.
      pose proof (zlen_nonneg chunk). lia.
  - lia.
  - exists d. split; [done|]. rewrite P6, zlen_app. lia.
Qed.

Lemma slice_spec s self a n :
  represents s self -> start_offset self <= a -> 0 <= n ->
  slice (data self) (a - start_offset self) n = take (Z.to_nat n) (drop (Z.to_nat a) s).
Proof.
  intros Hrep Ha Hn. unfold slice. rewrite (rp_data _ _ Hrep).
  rewrite drop_suffix; [|apply (rp_start _ _ Hrep)|lia]. do 3 f_equal. lia.
Qed.

Lemma zlen_slice (s : list Z) a n :
  0 <= a -> 0 <= n -> a + n <= zlen s -> zlen (take (Z.to_nat n) (drop (Z.to_nat a) s)) = n.
Proof. intros. unfold zlen in *. rewrite length_take, length_drop. lia. Qed.

(** The bytes of the stream between two offsets. *)
Definition between (s : list Z) (a b : Z) : list Z := take (Z.to_nat (b - a)) (drop (Z.to_nat a) s).

Lemma between_app s a b c :
  0 <= a <= b -> b <= c -> between s a b ++ between s b c = between s a c.
Proof.
  intros Hab Hbc. unfold between.
  replace (Z.to_nat b) with (Z.to_nat a + Z.to_nat (b - a))%nat by lia.
  rewrite <- drop_drop.
  replace (Z.to_nat (c - a)) with (Z.to_nat (b - a) + Z.to_nat (c - b))%nat by lia.
  by rewrite take_take_drop.
Qed.

(** What one read returns, and the cursor it leaves. *)
Record delivered (s : list Z) (self self' : OutputFanoutBuffer) (client : ClientId) (max : Z)
    (r : OutputRead) : Prop := {
  dl_cursor : cursors self' = <[client := stream_end r]> (cursors self);
  dl_rest : start_offset self' = start_offset self /\ data self' = data self /\
    max_bytes self' = max_bytes self;
  dl_range : start_offset self <= stream_start r <= stream_end r /\ stream_end r <= zlen s;
  dl_bytes : read_bytes r = between s (stream_start r) (stream_end r);
  dl_limit : zlen (read_bytes r) <= Z.max max 1;
  dl_progress : stream_start r < zlen s -> 0 < zlen (read_bytes r);
  dl_gap : stream_gap r = bool_decide
    (default (zlen s) (cursors self !! client) < start_offset self);
  dl_contiguous : stream_gap r = false ->
    stream_start r = default (zlen s) (cursors self !! client);
  dl_safe : stream_gap r = true ->
    stream_start r = first_safe_offset_at_or_after self (start_offset self);
}.

Lemma read_spec s self client max r self' :
  represents s self -> read_for_client self client max = (r, self') ->
  represents s self' /\ delivered s self self' client max r.
Proof.
  intros Hrep H. pose proof (represents_end _ _ Hrep) as Hend.
  pose proof (rp_start _ _ Hrep) as Hst. pose proof (rp_small _ _ Hrep) as Hsm.
  pose proof (cursor_default s self client Hrep) as Hc.
  destruct (first_safe_spec s self (start_offset self) Hrep) as (Hsafe & _ & _); [lia|].
  unfold read_for_client in H. rewrite Hend in H.
  set (c0 := default (zlen s) (cursors self !! client)) in *.
  set (gap := bool_decide (c0 < start_offset self)) in *.
  set (safe := first_safe_offset_at_or_after self (start_offset self)) in *.
  set (c := if gap then safe else c0) in *.
  assert (Hcr : start_offset self <= c <= zlen s).
  { subst c gap. case_bool_decide; lia. }
  assert (Hfalse : gap = false -> c = c0) by (subst c; by intros ->).
  assert (Htrue : gap = true -> c = safe) by (subst c; by intros ->).
  assert (Ha : saturating_sub (zlen s) c = zlen s - c) by (unfold saturating_sub; lia).
  rewrite Ha in H. case_decide as Hz.
  - injection H as <- <-. split; [apply cursor_insert; [done|lia]|].
    split; simpl; rewrite ?zlen_nil; try done; try lia.
    unfold between. rewrite Z.sub_diag. by rewrite take_0.
  - rewrite (slice_spec s) in H by (done || lia).
    assert (Hl : zlen (take (Z.to_nat (Z.min (zlen s - c) (Z.max max 1))) (drop (Z.to_nat c) s))
      = Z.min (zlen s - c) (Z.max max 1)) by (apply zlen_slice; lia).
    rewrite Hl in H.
    assert (Hsat : saturating_add 64 c (Z.min (zlen s - c) (Z.max max 1))
      = c + Z.min (zlen s - c) (Z.max max 1)).
    { unfold saturating_add, max_u. unfold U64_MAX in Hsm. lia. }
    rewrite Hsat in H. injection H as <- <-.
    split; [apply cursor_insert; [done|lia]|].
    split; simpl; try done; try lia; rewrite ?Hl; try lia.
    unfold between. do 2 f_equal. lia.
Qed.

Lemma read_at_spec s self cursor limit :
  represents s self -> 0 <= limit ->
  let r := read_at self cursor limit in
  stream_start r = Z.min (Z.max cursor (start_offset self)) (zlen s) /\
  stream_end r = stream_start r + Z.min limit (zlen s - stream_start r) /\
  read_bytes r = between s (stream_start r) (stream_end r) /\
  stream_gap r = bool_decide (cursor < start_offset self \/ zlen s < cursor).
Proof.
  intros Hrep Hl. pose proof (represents_end _ _ Hrep) as Hend.
  pose proof (rp_start _ _ Hrep) as Hst. pose proof (rp_small _ _ Hrep) as Hsm.
  unfold read_at. rewrite Hend.
  set (st := Z.min (Z.max cursor (start_offset self)) (zlen s)).
  assert (Hr : start_offset self <= st <= zlen s) by (subst st; lia).
  assert (E1 : saturating_sub (zlen s) st = zlen s - st) by (unfold saturating_sub; lia).
  assert (E2 : saturating_sub st (start_offset self) = st - start_offset self)
    by (unfold saturating_sub; lia).
  rewrite E1, E2, (slice_spec s) by (done || lia).
  assert (Hlen : zlen (take (Z.to_nat (Z.min (zlen s - st) limit)) (drop (Z.to_nat st) s))
    = Z.min (zlen s - st) limit) by (apply zlen_slice; lia).
  case_decide as Hz; simpl.
  - split_and!; [done|lia| |done]. unfold between. rewrite Z.sub_diag. by rewrite take_0.
  - rewrite Hlen. unfold saturating_add, max_u. change (2 ^ 64 - 1) with U64_MAX.
    split_and!; [done|lia| |done]. unfold between. do 2 f_equal. lia.
Qed.

Lemma read_recent_spec s self max :
  represents s self -> 0 <= max ->
  let r := read_recent_with_offsets self max in
  stream_end r = zlen s /\
  start_offset self <= stream_start r <= zlen s /\
  zlen s - max <= stream_start r /\
  read_bytes r = between s (stream_start r) (stream_end r) /\
  (read_bytes r <> [] -> phase_at s (stream_start r) = Ground) /\
  (forall k, Z.max (start_offset self) (zlen s - max) <= k < stream_start r ->
     phase_at s k <> Ground).
Proof.
  intros Hrep Hmax. pose proof (represents_end _ _ Hrep) as Hend.
  pose proof (rp_start _ _ Hrep) as Hst. pose proof (rp_data _ _ Hrep) as Hd.
  assert (Hlen : zlen (data self) = zlen s - start_offset self) by (rewrite Hd, zlen_drop; lia).
  assert (Hemp : forall k, between s k k = []).
  { intros k. unfold between. rewrite Z.sub_diag. by rewrite take_0. }
  unfold read_recent_with_offsets. rewrite Hend. case_decide as Hz.
  - assert (start_offset self = zlen s \/ max = 0).
    { destruct Hz as [Hz|Hz]; [|by right]. left. rewrite Hz, zlen_nil in Hlen. lia. }
    simpl. rewrite Hemp. split_and!; try done; lia.
  - set (t := zlen s - Z.min (zlen (data self)) max).
    assert (Ht : t = Z.max (start_offset self) (zlen s - max)) by lia.
    destruct (first_safe_spec s self t Hrep) as (Hr & Hk & Hsafe); [lia|].
    rewrite <- Ht. set (r := first_safe_offset_at_or_after self t) in *.
    case_decide as Hge; simpl.
    + assert (r = zlen s) by lia. rewrite Hemp.
      split_and!; [done|lia|lia|lia|done|done|]. intros k. rewrite <- H. apply Hk.
    + assert (Hs : drop (Z.to_nat (r - start_offset self)) (data self) = between s r (zlen s)).
      { rewrite Hd, drop_suffix by lia. unfold between.
        replace (start_offset self + (r - start_offset self)) with r by lia.
        rewrite take_ge; [done|]. rewrite length_drop. unfold zlen. lia. }
      rewrite Hs. split_and!; [done|lia|lia|lia|done| |exact Hk].
      intros _. destruct Hsafe as [|[He _]]; [done|lia].
Qed.

(** ** Runs of one pane's buffer

    A labelled step is one call on the buffer; the second component of the
    state is the node's counter, which other panes may change at any time. *)

Inductive label :=
| LPush (chunk : list Z)
| LRead (client : ClientId) (r : OutputRead)
| LCursor (client : ClientId)
| LOther.

Definition PaneState : Type := OutputFanoutBuffer * Z.

Inductive pane_step : PaneState -> label -> PaneState -> Prop :=
| step_push b n chunk cap env b' n' :
    push_chunk_with_node_cap b n chunk cap env = Some (b', n') ->
    pane_step (b, n) (LPush chunk) (b', n')
| step_read b n client max r b' :
    read_for_client b client max = (r, b') ->
    pane_step (b, n) (LRead client r) (b', n)
| step_register b n client :
    pane_step (b, n) (LCursor client) (register_client_at_tail b client, n)
| step_unregister b n client :
    pane_step (b, n) (LCursor client) (unregister_client b client, n)
| step_acknowledge b n client offset :
    pane_step (b, n) (LCursor client) (acknowledge_snapshot b client offset, n)
| step_advance b n client :
    pane_step (b, n) (LCursor client) (advance_client_to_end b client, n)
| step_other b n n' :
    pane_step (b, n) LOther (b, n').

Inductive pane_run : PaneState -> list label -> PaneState -> Prop :=
| run_nil st : pane_run st [] st
| run_snoc st ls st' l st'' :
    pane_run st ls st' -> pane_step st' l st'' -> pane_run st (ls ++ [l]) st''.

Definition pushed_by (l : label) : list Z :=
  match l with
  | LPush chunk => chunk
  | _ => []
  end.
Definition pushed (ls : list label) : list Z := ls ≫= pushed_by.

(** Whether a label may move the read cursor of [client]. *)
Definition moves (client : ClientId) (l : label) : bool :=
  match l with
  | LRead c _ | LCursor c => bool_decide (c = client)
  | _ => false
  end.

Lemma pushed_snoc ls l : pushed (ls ++ [l]) = pushed ls ++ pushed_by l.
Proof. unfold pushed. rewrite bind_app. simpl. by rewrite app_nil_r. Qed.

Record step_inv (mb : Z) (s : list Z) (b : OutputFanoutBuffer) : Prop := {
  sv_rep : represents s b;
  sv_max : max_bytes b = mb;
  sv_bound : zlen (data b) <= mb;
}.

Lemma set_cursors_inv mb s b cs :
  step_inv mb s b -> map_Forall (fun _ c => 0 <= c <= zlen s) cs ->
  step_inv mb s (set_cursors b cs).
Proof. intros [H1 H2 H3] Hc. split; [by apply represents_set_cursors|done|done]. Qed.

Lemma cursor_ops_inv mb s b client offset :
  step_inv mb s b ->
  step_inv mb s (register_client_at_tail b client) /\
  step_inv mb s (unregister_client b client) /\
  step_inv mb s (acknowledge_snapshot b client offset) /\
  step_inv mb s (advance_client_to_end b client).
Proof.
  intros Hinv. pose proof (sv_rep _ _ _ Hinv) as Hrep.
  pose proof (represents_end _ _ Hrep) as Hend. pose proof (rp_cursors _ _ Hrep) as Hcs.
  pose proof (zlen_nonneg s).
  unfold register_client_at_tail, unregister_client, acknowledge_snapshot, advance_client_to_end.
  rewrite Hend. split_and!.
  - apply set_cursors_inv; [done|]. apply map_Forall_insert_2; [lia|done].
  - apply set_cursors_inv; [done|]. by apply map_Forall_delete.
  - destruct (cursors b !! client) as [c|] eqn:E; [|done]. apply Hcs in E.
    apply set_cursors_inv; [done|]. apply map_Forall_insert_2; [lia|done].
  - destruct (cursors b !! client) as [c|] eqn:E; [|done].
    apply set_cursors_inv; [done|]. apply map_Forall_insert_2; [lia|done].
Qed.

Lemma pane_step_inv mb s b n l b' n' :
  0 <= mb -> step_inv mb s b -> pane_step (b, n) l (b', n') ->
  zlen (s ++ pushed_by l) < U64_MAX ->
  step_inv mb (s ++ pushed_by l) b' /\ start_offset b <= start_offset b'.
Proof.
  intros Hmb Hinv Hstep Hlen. pose proof Hinv as [Hrep Hmax Hb].
  assert (Hcur : forall client offset, _) by exact (fun c o => cursor_ops_inv _ _ _ c o Hinv).
  inversion Hstep; subst; simpl in *; rewrite ?app_nil_r in *.
  - destruct (push_spec s b n chunk cap env) as (b2 & n2 & He & Hr & _ & Hm & Hs & Hd & _);
      [done..|lia|]. simplify_eq. split; [|done]. split; [done|lia|lia].
  - match goal with H : read_for_client _ _ _ = _ |- _ =>
      apply (read_spec s) in H as [Hr [_ (Hs & Hd & Hm) _ _ _ _ _ _ _]]; [|done] end.
    rewrite Hs. split; [|lia]. split; [done|congruence..].
  - split; [apply (Hcur client 0)|done].
  - split; [apply (Hcur client 0)|done].
  - split; [apply (Hcur client offset)|]. unfold acknowledge_snapshot. by destruct (_ !! _).
  - split; [apply (Hcur client 0)|]. unfold advance_client_to_end. by destruct (_ !! _).
  - done.
Qed.

Lemma pane_run_inv mb s b n ls b' n' :
  0 <= mb -> step_inv mb s b -> pane_run (b, n) ls (b', n') ->
  zlen (s ++ pushed ls) < U64_MAX -> step_inv mb (s ++ pushed ls) b'.
Proof.
  intros Hmb Hinv Hrun. remember (b, n) as st eqn:Est. remember (b', n') as st' eqn:Est'.
  revert b' n' Est'. induction Hrun as [st|st ls [b1 n1] l [b2 n2] Hrun IH Hstep];
    intros b' n' Est' Hlen; simplify_eq.
  - simpl. by rewrite app_nil_r.
  - rewrite pushed_snoc, app_assoc in *.
    assert (Hl : zlen (s ++ pushed ls) < U64_MAX).
    { rewrite (zlen_app (s ++ pushed ls)) in Hlen. pose proof (zlen_nonneg (pushed_by l)). lia. }
    specialize (IH eq_refl _ _ eq_refl Hl).
    by eapply pane_step_inv in Hstep as [Hs _].
Qed.

Lemma new_inv mb : step_inv (Z.max mb 1) [] (with_accounting mb).
Proof. split; [apply represents_new|done|]. simpl. rewrite zlen_nil. lia. Qed.

Lemma reachable_inv mb n0 ls b n :
  pane_run (with_accounting mb, n0) ls (b, n) -> zlen (pushed ls) < U64_MAX ->
  step_inv (Z.max mb 1) (pushed ls) b.
Proof.
  intros Hrun Hlen. apply (pane_run_inv (Z.max mb 1) []) in Hrun; [done|lia|apply new_inv|done].
Qed.

Lemma pane_step_cursor c b n l b' n' :
  0 <= max_bytes b -> pane_step (b, n) l (b', n') -> moves c l = false ->
  cursors b' !! c = cursors b !! c.
Proof.
  intros Hmb Hstep Hmv.
  inversion Hstep; subst; simpl in *; try apply bool_decide_eq_false in Hmv.
  - match goal with H : push_chunk_with_node_cap _ _ _ _ _ = _ |- _ =>
      unfold push_chunk_with_node_cap in H; rename H into Hp end.
    destruct (track_phase _ _ _ _). case_match; by simplify_eq.
  - match goal with H : read_for_client _ _ _ = _ |- _ =>
      unfold read_for_client in H; rename H into Hp end.
    case_decide; simplify_eq; simpl; by rewrite lookup_insert_ne.
  - by rewrite lookup_insert_ne.
  - by rewrite lookup_delete_ne.
  - unfold acknowledge_snapshot. case_match; [|done]. simpl. by rewrite lookup_insert_ne.
  - unfold advance_client_to_end. case_match; [|done]. simpl. by rewrite lookup_insert_ne.
  - done.
Qed.

Lemma pane_run_cursor c mb s b n ls b' n' :
  0 <= mb -> step_inv mb s b -> pane_run (b, n) ls (b', n') ->
  zlen (s ++ pushed ls) < U64_MAX ->
  Forall (fun l => moves c l = false) ls -> cursors b' !! c = cursors b !! c.
Proof.
  intros Hmb Hinv Hrun. remember (b, n) as st eqn:Est. remember (b', n') as st' eqn:Est'.
  revert b' n' Est'. induction Hrun as [st|st ls [b1 n1] l [b2 n2] Hrun IH Hstep];
    intros b' n' Est' Hlen Hall; simplify_eq; [done|].
  apply Forall_app in Hall as [Hall Hl]. rewrite Forall_singleton in Hl.
  rewrite pushed_snoc, app_assoc in Hlen.
  assert (Hlen' : zlen (s ++ pushed ls) < U64_MAX).
  { rewrite (zlen_app (s ++ pushed ls)) in Hlen. pose proof (zlen_nonneg (pushed_by l)). lia. }
  transitivity (cursors b1 !! c); [|by eapply IH].
  eapply pane_step_cursor; [|exact Hstep|done].
  eapply pane_run_inv in Hrun as [_ -> _]; [done..].
Qed.

Lemma between_grow s t a b : 0 <= a -> b <= zlen s -> between (s ++ t) a b = between s a b.
Proof.
  intros Ha Hb. unfold between. destruct (decide (a <= zlen s)) as [Hle|Hgt].
  - rewrite drop_app_le by (unfold zlen in *; lia).
    rewrite take_app_le; [done|]. rewrite length_drop. unfold zlen in *. lia.
  - replace (Z.to_nat (b - a)) with 0%nat by lia. by rewrite !take_0.
Qed.

(** ** Properties *)

(** C29: pushing a chunk always finishes, whatever the other panes do to the
    shared counter between its atomic operations; the pane then holds a suffix
    of its stream no longer than its budget, it holds nothing at all if the
    node is over budget; and nothing leaks from the counter: without the bytes
    this pane holds (what dropping the pane leaves) it is what it was before the
    push plus what the others contributed. *)
Theorem push_chunk_bounded_and_accounted (s : list Z) (self : OutputFanoutBuffer)
    (retained : Z) (chunk : list Z) (node_max : Z) (env : Env) :
  represents s self -> zlen (s ++ chunk) < U64_MAX -> 0 <= max_bytes self ->
  exists self' retained',
    push_chunk_with_node_cap self retained chunk node_max env = Some (self', retained') /\
    represents (s ++ chunk) self' /\
    zlen (data self') <= max_bytes self /\
    (data self' = [] \/ retained' <= node_max) /\
    (exists d, env_sum env d /\ drop_buffer self' retained' = drop_buffer self retained + d).
Proof.
  intros Hrep Hlen Hmb.
  destruct (push_spec s self retained chunk node_max env) as
    (b & r & He & Hr & _ & _ & _ & Hd & Hn & Ha); [done..|].
  by exists b, r.
Qed.

Lemma push_chunk_bounded_and_accounted_witness :
  exists self' retained',
    push_chunk_with_node_cap (with_accounting 8) 4 [97; 98; 99] 4 [(0, 1); (1, 0)]
      = Some (self', retained') /\ represents [97; 98; 99] self'.
Proof.
  destruct (push_chunk_bounded_and_accounted [] (with_accounting 8) 4 [97; 98; 99] 4
    [(0, 1); (1, 0)]) as (b & r & He & Hr & _).
  - apply represents_new.
  - vm_compute. reflexivity.
  - vm_compute. discriminate.
  - exists b, r. split; [exact He|exact Hr].
Defined.

(** C3: after any sequence of pushes, reads, registrations, acknowledgements
    and detachments, the buffer holds exactly a suffix of everything pushed,
    within the pane's budget, and every cursor lies in the stream. The span
    list covers exactly the retained offsets at which a parser that began in
    the ground state is inside an escape sequence: from the byte after the ESC,
    since the ESC byte itself is a safe start, to the byte after the
    terminator. *)
Theorem fanout_refines_stream (mb n0 : Z) (ls : list label) (b : OutputFanoutBuffer) (n : Z) :
  pane_run (with_accounting mb, n0) ls (b, n) -> zlen (pushed ls) < U64_MAX ->
  represents (pushed ls) b /\ zlen (data b) <= Z.max mb 1 /\ end_offset b = zlen (pushed ls).
Proof.
  intros Hrun Hlen. destruct (reachable_inv _ _ _ _ _ Hrun Hlen) as [Hr _ Hb].
  split_and!; [done|done|by apply represents_end].
Qed.

Lemma fanout_refines_stream_witness :
  exists b n, pane_run (with_accounting 4, 0) [LPush [65; 27; 91; 109; 66]] (b, n) /\
    end_offset b = 5 /\ data b = [27; 91; 109; 66] /\
    ~ covers (esc_spans b) 1 /\ covers (esc_spans b) 2 /\ covers (esc_spans b) 3 /\
    ~ covers (esc_spans b) 4.
Proof.
  destruct (push_chunk_with_node_cap (with_accounting 4) 0 [65; 27; 91; 109; 66] 100 []) as [[b n]|] eqn:E;
    [|discriminate E].
  assert (Hrun : pane_run (with_accounting 4, 0) [LPush [65; 27; 91; 109; 66]] (b, n)).
  { apply (run_snoc _ [] (with_accounting 4, 0)); [constructor|]. by econstructor. }
  exists b, n. split; [exact Hrun|].
  assert (start_offset b = 1) as Hs by (vm_compute in E; injection E as <- _; reflexivity).
  destruct (fanout_refines_stream 4 0 [LPush [65; 27; 91; 109; 66]] b n Hrun) as (Hr & _ & ->); [reflexivity|].
  pose proof (si_covers _ _ _ (rp_spans _ _ Hr)) as Hc. rewrite Hs in Hc.
  split_and!; [reflexivity|rewrite (rp_data _ _ Hr), Hs; reflexivity|..];
    rewrite <- Hc; vm_compute; intuition discriminate.
Defined.

(** C28: two successive reads of one client, with any other activity in
    between, either are contiguous, so that their bytes concatenate to the
    stream between the first read's start and the second read's end, or the
    second one reports a gap, exactly when bytes the client had not read were
    evicted. *)
Theorem reads_contiguous_or_gap (mb n0 : Z) (ls0 ls : list label)
    (b0 b1 b2 b3 : OutputFanoutBuffer) (n1 n2 : Z) (c : ClientId) (m1 m2 : Z) (r1 r2 : OutputRead) :
  pane_run (with_accounting mb, n0) ls0 (b0, n1) ->
  read_for_client b0 c m1 = (r1, b1) ->
  pane_run (b1, n1) ls (b2, n2) ->
  Forall (fun l => moves c l = false) ls ->
  zlen (pushed ls0 ++ pushed ls) < U64_MAX ->
  read_for_client b2 c m2 = (r2, b3) ->
  stream_gap r2 = bool_decide (stream_end r1 < start_offset b2) /\
  read_bytes r2 = between (pushed ls0 ++ pushed ls) (stream_start r2) (stream_end r2) /\
  (stream_gap r2 = false ->
     stream_start r2 = stream_end r1 /\
     read_bytes r1 ++ read_bytes r2
       = between (pushed ls0 ++ pushed ls) (stream_start r1) (stream_end r2)).
Proof.
  intros Hrun0 Hr1 Hrun Hall Hlen Hr2.
  assert (Hlen0 : zlen (pushed ls0) < U64_MAX).
  { rewrite zlen_app in Hlen. pose proof (zlen_nonneg (pushed ls)). lia. }
  pose proof (reachable_inv _ _ _ _ _ Hrun0 Hlen0) as Hinv0.
  pose proof (rp_start _ _ (sv_rep _ _ _ Hinv0)) as Hst0.
  assert (Hinv1 : step_inv (Z.max mb 1) (pushed ls0) b1).
  { destruct (pane_step_inv (Z.max mb 1) (pushed ls0) b0 n1 (LRead c r1) b1 n1) as [H1 _];
      simpl; rewrite ?app_nil_r; try done; [lia|by econstructor|].
    simpl in H1. by rewrite app_nil_r in H1. }
  apply (read_spec (pushed ls0)) in Hr1 as [_ D1]; [|apply Hinv0].
  assert (Hmb : 0 <= Z.max mb 1) by lia.
  pose proof (pane_run_inv _ _ _ _ _ _ _ Hmb Hinv1 Hrun Hlen) as Hinv2.
  pose proof (pane_run_cursor c _ _ _ _ _ _ _ Hmb Hinv1 Hrun Hlen Hall) as Hcur.
  rewrite (dl_cursor _ _ _ _ _ _ D1), lookup_insert_eq in Hcur.
  apply (read_spec (pushed ls0 ++ pushed ls)) in Hr2 as [_ D2]; [|apply Hinv2].
  pose proof (dl_gap _ _ _ _ _ _ D2) as Hg. pose proof (dl_contiguous _ _ _ _ _ _ D2) as Hc.
  rewrite Hcur in Hg, Hc. simpl in Hg, Hc.
  split_and!; [done|apply D2|]. intros Hng. specialize (Hc Hng). split; [done|].
  rewrite (dl_bytes _ _ _ _ _ _ D1), (dl_bytes _ _ _ _ _ _ D2), Hc.
  pose proof (dl_range _ _ _ _ _ _ D1). pose proof (dl_range _ _ _ _ _ _ D2).
  rewrite <- (between_grow (pushed ls0) (pushed ls)) by lia.
  apply between_app; lia.
Qed.

(** A run used by the witnesses: one client at the tail, then a chunk larger
    than the pane's budget of four bytes. *)
Definition example_registered : OutputFanoutBuffer :=
  register_client_at_tail (with_accounting 4) 1%N.

Definition example_pushed (b : OutputFanoutBuffer) (chunk : list Z) : OutputFanoutBuffer :=
  match push_chunk_with_node_cap b 0 chunk 100 [] with
  | Some (b', _) => b'
  | None => b
  end.

Lemma example_registered_run :
  pane_run (with_accounting 4, 0) [LCursor 1%N] (example_registered, 0).
Proof. apply (run_snoc _ [] (with_accounting 4, 0)); constructor. Qed.

Lemma reads_contiguous_or_gap_witness :
  exists b2 n2 r1 r2 b1 b3,
    read_for_client example_registered 1%N 10 = (r1, b1) /\
    pane_run (b1, 0) [LPush [65; 66; 67]] (b2, n2) /\
    read_for_client b2 1%N 2 = (r2, b3) /\
    stream_start r2 = stream_end r1 /\ read_bytes r2 = [65; 66].
Proof.
  destruct (read_for_client example_registered 1%N 10) as [r1 b1] eqn:E1.
  destruct (push_chunk_with_node_cap b1 0 [65; 66; 67] 100 []) as [[b2 n2]|] eqn:E2;
    [|vm_compute in E1; injection E1 as <- <-; vm_compute in E2; discriminate E2].
  assert (Hrun : pane_run (b1, 0) [LPush [65; 66; 67]] (b2, n2)).
  { apply (run_snoc _ [] (b1, 0)); [constructor|]. by econstructor. }
  destruct (read_for_client b2 1%N 2) as [r2 b3] eqn:E3.
  destruct (reads_contiguous_or_gap 4 0 [LCursor 1%N] [LPush [65; 66; 67]]
    example_registered b1 b2 b3 0 n2 1%N 10 2 r1 r2) as (_ & Hb & Hc).
  - exact example_registered_run.
  - exact E1.
  - exact Hrun.
  - repeat constructor.
  - vm_compute. reflexivity.
  - exact E3.
  - exists b2, n2, r1, r2, b1, b3. split; [reflexivity|]. split; [exact Hrun|].
    split; [exact E3|].
    vm_compute in E1. injection E1 as <- <-. vm_compute in E2. injection E2 as <- <-.
    vm_compute in E3. injection E3 as <- <-. split; [apply Hc; reflexivity|].
    rewrite Hb. reflexivity.
Defined.

(** bytes handed to a fresh parser start where one may start: a read that
    repairs a gap and a snapshot of the recent output both begin at the first
    retained offset (from the start of the ring, or from the requested
    distance to its end) at which the stream is in the ground phase, if they
    return any byte. *)
Theorem fresh_parsers_start_in_ground (s : list Z) (self self' : OutputFanoutBuffer)
    (c : ClientId) (max : Z) (r : OutputRead) :
  represents s self -> 0 <= max ->
  read_for_client self c max = (r, self') ->
  (stream_gap r = true -> read_bytes r <> [] ->
     phase_at s (stream_start r) = Ground /\
     forall k, start_offset self <= k < stream_start r -> phase_at s k <> Ground) /\
  (let q := read_recent_with_offsets self max in
   read_bytes q <> [] ->
     phase_at s (stream_start q) = Ground /\ stream_end q = zlen s /\
     forall k, Z.max (start_offset self) (zlen s - max) <= k < stream_start q ->
       phase_at s k <> Ground).
Proof.
  intros Hrep Hmax Hr. split.
  - intros Hgap Hne. apply (read_spec s) in Hr as [_ D]; [|done].
    pose proof (rp_start _ _ Hrep).
    destruct (first_safe_spec s self (start_offset self) Hrep) as (Hrange & Hk & Hs); [lia|].
    rewrite <- (dl_safe _ _ _ _ _ _ D Hgap) in *. split; [|done].
    destruct Hs as [|[He _]]; [done|]. exfalso. apply Hne.
    rewrite (dl_bytes _ _ _ _ _ _ D), He. pose proof (dl_range _ _ _ _ _ _ D).
    unfold between. replace (Z.to_nat _) with 0%nat by lia. done.
  - intros q Hne. destruct (read_recent_spec s self max Hrep Hmax) as (? & _ & _ & _ & Hg & Hk).
    split_and!; [by apply Hg|done|done].
Qed.

(** The chunk [ESC \[ 3 1 m H i], pushed to a client that is behind. *)
Definition example_behind : OutputFanoutBuffer :=
  example_pushed example_registered [65; 66; 27; 91; 51; 49; 109; 72; 105].

Lemma fresh_parsers_start_in_ground_witness :
  exists r self', read_for_client example_behind 1%N 10 = (r, self') /\
    stream_gap r = true /\ read_bytes r = [72; 105] /\
    phase_at [65; 66; 27; 91; 51; 49; 109; 72; 105] (stream_start r) = Ground.
Proof.
  destruct (read_for_client example_behind 1%N 10) as [r self'] eqn:E.
  destruct (push_spec [] example_registered 0 [65; 66; 27; 91; 51; 49; 109; 72; 105] 100 [])
    as (b & n & He & Hrep & _).
  - apply cursor_insert; [apply represents_new|vm_compute; split; discriminate].
  - vm_compute. reflexivity.
  - vm_compute. discriminate.
  - assert (Hb : b = example_behind) by (unfold example_behind, example_pushed; by rewrite He).
    rewrite Hb in Hrep.
    destruct (fresh_parsers_start_in_ground [65; 66; 27; 91; 51; 49; 109; 72; 105]
      example_behind self' 1%N 10 r Hrep) as [Hg _]; [lia|exact E|].
    vm_compute in E. injection E as <- <-.
    eexists _, _. split; [reflexivity|]. split; [reflexivity|]. split; [reflexivity|].
    apply Hg; [reflexivity|discriminate].
Defined.

(** the repair can still resume inside a sequence.  When the eviction
    happens while the sequence is open, the gap read returns no byte and puts
    the cursor at the end of the buffer; the next read continues from there,
    in the middle of the sequence, without reporting a gap. *)
Theorem gap_repair_resumes_mid_sequence :
  exists b1 r1 b2 r2 b3,
    b1 = example_pushed example_registered [65; 27; 91; 51; 56; 59] /\
    read_for_client b1 1%N 10 = (r1, b2) /\
    stream_gap r1 = true /\ read_bytes r1 = [] /\
    read_for_client (example_pushed b2 [49; 109; 72]) 1%N 10 = (r2, b3) /\
    stream_gap r2 = false /\ read_bytes r2 = [49; 109; 72] /\
    phase_at [65; 27; 91; 51; 56; 59; 49; 109; 72] (stream_start r2) = Csi.
Proof.
  eexists _, _, _, _, _. split; [reflexivity|]. split; [vm_compute; reflexivity|].
  split; [reflexivity|]. split; [reflexivity|]. split; [vm_compute; reflexivity|].
  repeat split.
Qed.
