(* ===== verification/Utf8.v ===== *)
(** * UTF-8

    The part of Rust's [std::str] and [char] that the decoders use: validation
    with its error positions, scalar values and their widths. *)

From S2P Require Import Prelude.

(** [std::str::from_utf8]: the scalars of the longest valid prefix, its length
    in bytes, and for an error its length, or [None] when the input ends inside
    a character. *)

Inductive utf8_outcome :=
| Utf8_ok
| Utf8_error (error_len : option nat).

Definition is_continuation (b : Z) : bool := bool_decide (128 <= b <= 191).

(** [error_len] for the character that starts the input, or its scalar value and
    width. *)
Definition second_ok (first second : Z) : bool :=
  if decide (first = 224) then bool_decide (160 <= second <= 191)
  else if decide (first = 237) then bool_decide (128 <= second <= 159)
  else if decide (first = 240) then bool_decide (144 <= second <= 191)
  else if decide (first = 244) then bool_decide (128 <= second <= 143)
  else is_continuation second.

Definition decode_char (bytes : list Z) : option nat + (Z * nat) :=
  match bytes with
  | [] => inl None
  | a :: rest =>
      if decide (a < 128) then inr (a, 1%nat)
      else if decide (194 <= a <= 223) then
        match rest with
        | [] => inl None
        | b :: _ => if is_continuation b
                    then inr ((a - 192) * 64 + (b - 128), 2%nat) else inl (Some 1%nat)
        end
      else if decide (224 <= a <= 239) then
        match rest with
        | [] => inl None
        | b :: rest =>
            if negb (second_ok a b) then inl (Some 1%nat)
            else match rest with
                 | [] => inl None
                 | c :: _ => if is_continuation c
                             then inr ((a - 224) * 4096 + (b - 128) * 64 + (c - 128), 3%nat)
                             else inl (Some 2%nat)
                 end
        end
      else if decide (240 <= a <= 244) then
        match rest with
        | [] => inl None
        | b :: rest =>
            if negb (second_ok a b) then inl (Some 1%nat)
            else match rest with
                 | [] => inl None
                 | c :: rest =>
                     if negb (is_continuation c) then inl (Some 2%nat)
                     else match rest with
                          | [] => inl None
                          | d :: _ =>
                              if is_continuation d
                              then inr ((a - 240) * 262144 + (b - 128) * 4096
                                        + (c - 128) * 64 + (d - 128), 4%nat)
                              else inl (Some 3%nat)
                          end
                 end
        end
      else inl (Some 1%nat)
  end.

(** One character takes at least one byte, so the input's length is enough
    fuel. *)
Fixpoint from_utf8_loop (fuel : nat) (bytes : list Z) (valid_up_to : nat) (chars : list Z)
  : list Z * nat * utf8_outcome :=
  match fuel, bytes with
  | _, [] => (chars, valid_up_to, Utf8_ok)
  | O, _ => (chars, valid_up_to, Utf8_ok)
  | S fuel, _ =>
      match decode_char bytes with
      | inl e => (chars, valid_up_to, Utf8_error e)
      | inr (c, n) => from_utf8_loop fuel (drop n bytes) (valid_up_to + n) (chars ++ [c])
      end
  end.

Definition from_utf8 (bytes : list Z) : list Z * nat * utf8_outcome :=
  from_utf8_loop (length bytes) bytes 0 [].

(** [char::len_utf8]. *)
Definition len_utf8 (c : Z) : nat :=
  if decide (c < 128) then 1%nat else if decide (c < 2048) then 2%nat
  else if decide (c < 65536) then 3%nat else 4%nat.

(** Whether [std::str::from_utf8] accepts the bytes. *)
Definition is_utf8 (bytes : list Z) : bool :=
  match (from_utf8 bytes).2 with Utf8_ok => true | Utf8_error _ => false end.

(** [char::from_u32]. *)
Definition char_from_u32 (v : Z) : option Z :=
  if decide (0 <= v < 55296 \/ 57344 <= v <= 1114111) then Some v else None.
