(* ===== verification/Ser.v ===== *)
(** * The binary serializer

    [src/packages/codec/src/serde_adapter/ser.rs], with the encoding modes
    ([mode.rs]), the type tags ([tag.rs]) and the errors ([error.rs]) it shares with
    the deserializer.

    A [&mut Serializer] that a method threads through is state passing: a method
    is a [Ser], from the serializer before it to the serializer after it.  The
    nested [value.serialize(self)] of a generic value is an argument of type
    [Ser].  Text is its UTF-8 bytes, and a float is its IEEE-754 bit pattern. *)

From stdpp Require Import pretty.
From S2P Require Import Prelude Varint.

Inductive EncodingMode : Set := Stable | TypedStable | Positional.

#[export] Instance EncodingMode_eq_dec : EqDecision EncodingMode.
Proof. solve_decision. Defined.

Inductive TypeTag : Set :=
| TagUnit | TagBool | TagI8 | TagI16 | TagI32 | TagI64 | TagU8 | TagU16 | TagU32 | TagU64
| TagF32 | TagF64 | TagChar | TagString | TagBytes | TagNone | TagSome | TagSeq | TagMap
| TagStruct | TagEnum.

#[export] Instance TypeTag_eq_dec : EqDecision TypeTag.
Proof. solve_decision. Defined.

(** [tag as u8]. *)
Definition tag_u8 (tag : TypeTag) : Z :=
  match tag with
  | TagUnit => 0 | TagBool => 1 | TagI8 => 2 | TagI16 => 3 | TagI32 => 4 | TagI64 => 5
  | TagU8 => 6 | TagU16 => 7 | TagU32 => 8 | TagU64 => 9 | TagF32 => 10 | TagF64 => 11
  | TagChar => 12 | TagString => 13 | TagBytes => 14 | TagNone => 15 | TagSome => 16
  | TagSeq => 17 | TagMap => 18 | TagStruct => 19 | TagEnum => 20
  end.

Inductive Error :=
| Message (msg : string)
| UnexpectedEof
| TrailingBytes
| VarintOverflow
| LengthOverflow
| InvalidUtf8
| InvalidVariant
| InvalidBool
| InvalidChar
| UnsupportedType (ty : string)
| CompressionFailed (msg : string)
| DecompressionFailed (msg : string)
| CompressionAlgorithmUnavailable (algorithm : string)
| UnknownCompressionAlgorithm (id : Z)
| DecompressedLengthMismatch (expected actual : Z).

(** [x.to_le_bytes()] of an [n]-byte integer. *)
Fixpoint to_le_bytes (n : nat) (x : Z) : list Z :=
  match n with
  | O => []
  | S n => x mod 256 :: to_le_bytes n (x / 256)
  end.

Record Serializer := mkSerializer { output : list Z; ser_mode : EncodingMode }.

Definition Ser := Serializer -> result Error Serializer.

Definition Serializer_new (mode : EncodingMode) : Serializer := mkSerializer [] mode.

Definition put (bytes : list Z) (self : Serializer) : Serializer :=
  mkSerializer (output self ++ bytes) (ser_mode self).

Definition with_output (f : list Z -> list Z) (self : Serializer) : Serializer :=
  mkSerializer (f (output self)) (ser_mode self).

(** [&str] and [&[u8]] are length-prefixed. *)
Definition write_str (value : list Z) (self : Serializer) : Serializer :=
  put value (with_output (fun out => encode_usize out (zlen value)) self).

Definition is_stable_named (self : Serializer) : bool :=
  match ser_mode self with Stable | TypedStable => true | Positional => false end.

Definition is_typed (self : Serializer) : bool := bool_decide (ser_mode self = TypedStable).

Definition write_tag (tag : TypeTag) (self : Serializer) : Serializer :=
  if is_typed self then put [tag_u8 tag] self else self.

(** [varint::encode_usize(&mut self.output, n)]. *)
Definition write_usize (n : Z) (self : Serializer) : Serializer :=
  with_output (fun out => encode_usize out n) self.

Definition to_vec_with_mode (value : Ser) (mode : EncodingMode) : result Error (list Z) :=
  rbind (value (Serializer_new mode)) (fun serializer => Ok (output serializer)).

(** ** [impl ser::Serializer for &mut Serializer] *)

Definition serialize_bool (v : bool) : Ser := fun self =>
  Ok (put [if v then 1 else 0] (write_tag TagBool self)).

Definition serialize_i8 (v : Z) : Ser := fun self =>
  Ok (with_output (fun out => encode_i16 out v) (write_tag TagI8 self)).
Definition serialize_i16 (v : Z) : Ser := fun self =>
  Ok (with_output (fun out => encode_i16 out v) (write_tag TagI16 self)).
Definition serialize_i32 (v : Z) : Ser := fun self =>
  Ok (with_output (fun out => encode_i32 out v) (write_tag TagI32 self)).
Definition serialize_i64 (v : Z) : Ser := fun self =>
  Ok (with_output (fun out => encode_i64 out v) (write_tag TagI64 self)).
Definition serialize_u8 (v : Z) : Ser := fun self =>
  Ok (put [v] (write_tag TagU8 self)).
Definition serialize_u16 (v : Z) : Ser := fun self =>
  Ok (with_output (fun out => encode_u16 out v) (write_tag TagU16 self)).
Definition serialize_u32 (v : Z) : Ser := fun self =>
  Ok (with_output (fun out => encode_u32 out v) (write_tag TagU32 self)).
Definition serialize_u64 (v : Z) : Ser := fun self =>
  Ok (with_output (fun out => encode_u64 out v) (write_tag TagU64 self)).
Definition serialize_f32 (v : Z) : Ser := fun self =>
  Ok (put (to_le_bytes 4 v) (write_tag TagF32 self)).
Definition serialize_f64 (v : Z) : Ser := fun self =>
  Ok (put (to_le_bytes 8 v) (write_tag TagF64 self)).
Definition serialize_char (v : Z) : Ser := fun self =>
  Ok (with_output (fun out => encode_u32 out v) (write_tag TagChar self)).

Definition serialize_str (v : list Z) : Ser := fun self =>
  Ok (write_str v (write_tag TagString self)).

Definition serialize_bytes (v : list Z) : Ser := fun self =>
  Ok (put v (write_usize (zlen v) (write_tag TagBytes self))).

Definition serialize_none : Ser := fun self =>
  let self := write_tag TagNone self in
  Ok (if is_typed self then self else put [0] self).

Definition serialize_some (value : Ser) : Ser := fun self =>
  let self := write_tag TagSome self in
  value (if is_typed self then self else put [1] self).

Definition serialize_unit : Ser := fun self => Ok (write_tag TagUnit self).
Definition serialize_unit_struct : Ser := fun self => Ok (write_tag TagUnit self).

Definition serialize_unit_variant (variant_index : Z) (variant : list Z) : Ser := fun self =>
  let self := write_tag TagEnum self in
  match ser_mode self with
  | Stable | TypedStable =>
      let self := write_str variant self in
      Ok (if is_typed self then write_usize 0 self else self)
  | Positional => Ok (with_output (fun out => encode_u32 out variant_index) self)
  end.

Definition serialize_newtype_struct (value : Ser) : Ser := value.

Definition serialize_newtype_variant (variant_index : Z) (variant : list Z) (value : Ser) : Ser :=
  fun self =>
  let self := write_tag TagEnum self in
  value
    match ser_mode self with
    | Stable | TypedStable =>
        let self := write_str variant self in
        if is_typed self then write_usize 1 self else self
    | Positional => with_output (fun out => encode_u32 out variant_index) self
    end.

Definition serialize_seq (len : option Z) : Ser := fun self =>
  rbind (ok_or len (Message "sequence length must be known up front")) (fun len =>
    Ok (write_usize len (write_tag TagSeq self))).

Definition serialize_tuple (len : Z) : Ser := fun self =>
  let self := write_tag TagSeq self in
  Ok (if is_typed self then write_usize len self else self).

Definition serialize_tuple_struct (len : Z) : Ser := fun self =>
  let self := write_tag TagSeq self in
  Ok (if is_typed self then write_usize len self else self).

Definition serialize_tuple_variant (variant_index : Z) (variant : list Z) (len : Z) : Ser :=
  fun self =>
  let self := write_tag TagEnum self in
  match ser_mode self with
  | Stable | TypedStable =>
      let self := write_str variant self in
      Ok (if is_typed self then write_usize len self else self)
  | Positional => Ok (with_output (fun out => encode_u32 out variant_index) self)
  end.

Definition serialize_map (len : option Z) : Ser := fun self =>
  rbind (ok_or len (Message "map length must be known up front")) (fun len =>
    Ok (write_usize len (write_tag TagMap self))).

Definition serialize_struct (len : Z) : Ser := fun self =>
  let self := write_tag TagStruct self in
  Ok (if is_stable_named self then write_usize len self else self).

Definition serialize_struct_variant (variant_index : Z) (variant : list Z) (len : Z) : Ser :=
  fun self =>
  let self := write_tag TagEnum self in
  match ser_mode self with
  | Stable | TypedStable => Ok (write_usize len (write_str variant self))
  | Positional => Ok (with_output (fun out => encode_u32 out variant_index) self)
  end.

(** ** The compound serializers *)

(** [SerializeSeq], [SerializeTuple], [SerializeTupleStruct] and
    [SerializeTupleVariant]. *)
Definition serialize_element (value : Ser) : Ser := value.

(** [SerializeMap]. *)
Definition serialize_key (key : Ser) : Ser := key.
Definition serialize_value (value : Ser) : Ser := value.

(** [SerializeStruct] and [SerializeStructVariant]. *)
Definition serialize_field (key : list Z) (value : Ser) : Ser := fun self =>
  value (if is_stable_named self then write_str key self else self).
