(* ===== verification/De.v ===== *)
(** * The binary deserializer

    [src/packages/codec/src/serde_adapter/de.rs].  A method on [&mut Deserializer]
    is an [M]: it takes the deserializer and returns its result together with the
    deserializer after it, also when it fails.  A serde visitor is the record of
    its callbacks; a callback that receives the deserializer, or an access to it,
    is itself an [M].  A seed can be run on the deserializer or on a borrowed
    string ([str::into_deserializer]). *)

From stdpp Require Import pretty.
From S2P Require Import Prelude Utf8 Varint Ser.

Record DecodeLimits := mkLimits {
  max_input_bytes : Z;
  max_blob_bytes : Z;
  max_container_entries : Z;
  max_total_entries : Z;
}.

Record Deserializer := mkDeserializer {
  input : list Z;
  pos : Z;
  mode : EncodingMode;
  tagged_identifier : bool;
  limits : option DecodeLimits;
  remaining_entries : Z;
}.

Definition M (A : Type) : Type := Deserializer -> result Error A * Deserializer.

Definition ret {A} (a : A) : M A := fun d => (Ok a, d).
Definition throw {A} (e : Error) : M A := fun d => (Err e, d).
Definition bind {A B} (m : M A) (k : A -> M B) : M B := fun d =>
  match m d with
  | (Ok a, d) => k a d
  | (Err e, d) => (Err e, d)
  end.
Definition lift {A} (r : result Error A) : M A := fun d => (r, d).
Definition gets {A} (f : Deserializer -> A) : M A := fun d => (Ok (f d), d).

Declare Scope de_scope.
Notation "'let!' x ':=' m 'in' k" := (bind m (fun x => k))
  (at level 200, x pattern, m at level 100, k at level 200, right associativity) : de_scope.
Open Scope de_scope.

Definition Deserializer_new (input : list Z) (mode : EncodingMode) : Deserializer :=
  mkDeserializer input 0 mode false None (max_u 64).

Definition set_pos (d : Deserializer) (p : Z) : Deserializer :=
  mkDeserializer (input d) p (mode d) (tagged_identifier d) (limits d) (remaining_entries d).
Definition set_tagged (d : Deserializer) (b : bool) : Deserializer :=
  mkDeserializer (input d) (pos d) (mode d) b (limits d) (remaining_entries d).
Definition set_remaining (d : Deserializer) (n : Z) : Deserializer :=
  mkDeserializer (input d) (pos d) (mode d) (tagged_identifier d) (limits d) n.

Definition remaining (d : Deserializer) : list Z := drop (Z.to_nat (pos d)) (input d).

Definition consume (n : Z) : M (list Z) := fun d =>
  match checked_add 64 (pos d) n with
  | None => (Err UnexpectedEof, d)
  | Some end_ =>
      if decide (zlen (input d) < end_) then (Err UnexpectedEof, d)
      else (Ok (take (Z.to_nat n) (drop (Z.to_nat (pos d)) (input d))), set_pos d end_)
  end.

(** [bytes[i]] of a slice of known length. *)
Definition byte_at (bytes : list Z) (i : nat) : Z := default 0 (bytes !! i).

Definition read_u8 : M Z :=
  let! bytes := consume 1 in ret (byte_at bytes 0).

Definition tag_of_u8 (b : Z) : option TypeTag :=
  match b with
  | 0 => Some TagUnit | 1 => Some TagBool | 2 => Some TagI8 | 3 => Some TagI16
  | 4 => Some TagI32 | 5 => Some TagI64 | 6 => Some TagU8 | 7 => Some TagU16
  | 8 => Some TagU32 | 9 => Some TagU64 | 10 => Some TagF32 | 11 => Some TagF64
  | 12 => Some TagChar | 13 => Some TagString | 14 => Some TagBytes | 15 => Some TagNone
  | 16 => Some TagSome | 17 => Some TagSeq | 18 => Some TagMap | 19 => Some TagStruct
  | 20 => Some TagEnum | _ => None
  end.

Definition read_tag : M (option TypeTag) :=
  let! m := gets mode in
  if decide (m <> TypedStable) then ret None
  else
    let! b := read_u8 in
    match tag_of_u8 b with
    | Some tag => ret (Some tag)
    | None => throw (Message "invalid type tag")
    end.

(** The [Debug] form of a tag. *)
Definition tag_debug (tag : TypeTag) : string :=
  match tag with
  | TagUnit => "Unit" | TagBool => "Bool" | TagI8 => "I8" | TagI16 => "I16" | TagI32 => "I32"
  | TagI64 => "I64" | TagU8 => "U8" | TagU16 => "U16" | TagU32 => "U32" | TagU64 => "U64"
  | TagF32 => "F32" | TagF64 => "F64" | TagChar => "Char" | TagString => "String"
  | TagBytes => "Bytes" | TagNone => "None" | TagSome => "Some" | TagSeq => "Seq"
  | TagMap => "Map" | TagStruct => "Struct" | TagEnum => "Enum"
  end.

Definition expect_tag (expected : TypeTag) : M unit :=
  let! tag := read_tag in
  match tag with
  | Some actual =>
      if decide (actual <> expected)
      then throw (Message ("unexpected type tag: expected " +:+ tag_debug expected +:+ ", got "
                           +:+ tag_debug actual))
      else ret tt
  | None => ret tt
  end.

(** A varint reader over the remaining input. *)
Definition read_varint (decode : list Z -> option (Z * Z)) : M Z := fun d =>
  match decode (remaining d) with
  | None => (Err UnexpectedEof, d)
  | Some (value, consumed) => (Ok value, set_pos d (pos d + consumed))
  end.

Definition read_varint_u64 : M Z := read_varint decode_u64.
Definition read_varint_u32 : M Z := read_varint decode_u32.
Definition read_varint_u16 : M Z := read_varint decode_u16.
Definition read_varint_i16 : M Z := read_varint decode_i16.
Definition read_varint_i32 : M Z := read_varint decode_i32.
Definition read_varint_i64 : M Z := read_varint decode_i64.

Definition read_varint_usize : M Z :=
  let! value := read_varint decode_usize in
  fun d =>
    match limits d with
    | Some l =>
        if decide (max_container_entries l < value \/ remaining_entries d < value)
        then (Err (Message "container entry budget exceeded"), d)
        else (Ok value, set_remaining d (remaining_entries d - value))
    | None => (Ok value, d)
    end.

Definition read_bytes : M (list Z) :=
  let! len := read_varint decode_usize in
  let! l := gets limits in
  if match l with Some l => bool_decide (max_blob_bytes l < len) | None => false end
  then throw (Message "blob byte budget exceeded")
  else consume len.

Definition read_str : M (list Z) :=
  let! bytes := read_bytes in
  if is_utf8 bytes then ret bytes else throw InvalidUtf8.

(** [T::deserialize(&mut deserializer)] of a generic [T] is the argument. *)
Definition from_bytes_bounded {T} (deserialize : M T) (bytes : list Z) (l : DecodeLimits)
  : result Error T :=
  if decide (max_input_bytes l < zlen bytes)
  then Err (Message "input byte budget exceeded")
  else
    let d := mkDeserializer bytes 0 Positional false (Some l) (max_total_entries l) in
    match deserialize d with
    | (Err e, _) => Err e
    | (Ok value, d) => if decide (pos d <> zlen (input d)) then Err TrailingBytes else Ok value
    end.

Definition from_bytes_with_mode {T} (deserialize : M T) (bytes : list Z) (m : EncodingMode)
  : result Error T :=
  match deserialize (Deserializer_new bytes m) with
  | (Err e, _) => Err e
  | (Ok value, d) => if decide (pos d <> zlen (input d)) then Err TrailingBytes else Ok value
  end.

(** ** Accesses *)

(** [DeserializeSeed] on the deserializer, and on a borrowed string. *)
Record Seed (T : Type) := mkSeed {
  from_de : M T;
  from_str : list Z -> result Error T;
}.
Arguments mkSeed {T}.
Arguments from_de {T}.
Arguments from_str {T}.

(** [CountedAccess]; its [de] is the state. *)
Record CountedAccess := mkAccess { left : Z; raw_keys : bool }.

Definition next_element_seed {T} (seed : M T) (acc : CountedAccess)
  : M (option T * CountedAccess) :=
  if decide (left acc = 0) then ret (None, acc)
  else
    let! v := seed in
    ret (Some v, mkAccess (left acc - 1) (raw_keys acc)).

(** Runs a seed with [tagged_identifier] set to [b] and restores it. *)
Definition with_tagged {T} (b : bool) (m : M T) : M T := fun d =>
  let '(r, d') := m (set_tagged d b) in (r, set_tagged d' (tagged_identifier d)).

Definition next_key_seed {T} (seed : Seed T) (acc : CountedAccess)
  : M (option T * CountedAccess) :=
  if decide (left acc = 0) then ret (None, acc)
  else
    let acc := mkAccess (left acc - 1) (raw_keys acc) in
    if raw_keys acc then
      let! key := read_str in
      let! k := lift (from_str seed key) in
      ret (Some k, acc)
    else
      let! k := with_tagged true (from_de seed) in
      ret (Some k, acc).

Definition next_value_seed {T} (seed : M T) (acc : CountedAccess) : M T := fun d =>
  if raw_keys acc && bool_decide (head (remaining d) = Some (tag_u8 TagString))
  then with_tagged true seed d
  else with_tagged (tagged_identifier d) seed d.

(** The two enum accesses: the deserializer itself, and [InternallyTaggedEnum]
    with the variant name already read. *)
Inductive EnumAccess :=
| Direct
| InternallyTagged (variant : list Z) (fields_left : Z).

Definition variant_seed {T} (e : EnumAccess) (seed : Seed T) : M T :=
  match e with
  | Direct => from_de seed
  | InternallyTagged variant _ => lift (from_str seed variant)
  end.

Definition pretty_usize (n : Z) : string := pretty (Z.to_N n).

Definition unit_variant (e : EnumAccess) : M unit :=
  match e with
  | Direct =>
      let! m := gets mode in
      if decide (m = TypedStable) then
        let! n := read_varint_usize in
        if decide (n <> 0)
        then throw (Message ("unit variant expected 0 fields, found " +:+ pretty_usize n))
        else ret tt
      else ret tt
  | InternallyTagged _ _ => ret tt
  end.

Definition newtype_variant_seed {T} (e : EnumAccess) (seed : M T) : M T :=
  match e with
  | Direct =>
      let! m := gets mode in
      if decide (m = TypedStable) then
        let! n := read_varint_usize in
        if decide (n <> 1)
        then throw (Message ("newtype variant expected 1 field, found " +:+ pretty_usize n))
        else seed
      else seed
  | InternallyTagged _ _ => seed
  end.

Definition tuple_variant {T} (e : EnumAccess) (len : Z) (visit_seq : CountedAccess -> M T) : M T :=
  match e with
  | Direct =>
      let! m := gets mode in
      let! n := if decide (m = TypedStable) then read_varint_usize else ret len in
      visit_seq (mkAccess n false)
  | InternallyTagged _ n => visit_seq (mkAccess n false)
  end.

Definition struct_variant {T} (e : EnumAccess) (fields : Z)
    (visit_seq visit_map : CountedAccess -> M T) : M T :=
  match e with
  | Direct =>
      let! m := gets mode in
      match m with
      | Stable | TypedStable =>
          let! len := read_varint_usize in visit_map (mkAccess len true)
      | Positional => visit_seq (mkAccess fields false)
      end
  | InternallyTagged _ n => visit_map (mkAccess n true)
  end.

(** ** [impl de::Deserializer for &mut Deserializer] *)

Record Visitor (V : Type) := mkVisitor {
  visit_unit : M V;
  visit_bool : bool -> M V;
  visit_i8 : Z -> M V;
  visit_i16 : Z -> M V;
  visit_i32 : Z -> M V;
  visit_i64 : Z -> M V;
  visit_u8 : Z -> M V;
  visit_u16 : Z -> M V;
  visit_u32 : Z -> M V;
  visit_u64 : Z -> M V;
  visit_f32 : Z -> M V;
  visit_f64 : Z -> M V;
  visit_char : Z -> M V;
  visit_borrowed_str : list Z -> M V;
  visit_string : list Z -> M V;
  visit_borrowed_bytes : list Z -> M V;
  visit_none : M V;
  visit_some : M V;
  visit_newtype_struct : M V;
  visit_seq : CountedAccess -> M V;
  visit_map : CountedAccess -> M V;
  visit_enum : EnumAccess -> M V;
}.
Arguments mkVisitor {V}.
Arguments visit_unit {V}.
Arguments visit_bool {V}.
Arguments visit_i8 {V}.
Arguments visit_i16 {V}.
Arguments visit_i32 {V}.
Arguments visit_i64 {V}.
Arguments visit_u8 {V}.
Arguments visit_u16 {V}.
Arguments visit_u32 {V}.
Arguments visit_u64 {V}.
Arguments visit_f32 {V}.
Arguments visit_f64 {V}.
Arguments visit_char {V}.
Arguments visit_borrowed_str {V}.
Arguments visit_string {V}.
Arguments visit_borrowed_bytes {V}.
Arguments visit_none {V}.
Arguments visit_some {V}.
Arguments visit_newtype_struct {V}.
Arguments visit_seq {V}.
Arguments visit_map {V}.
Arguments visit_enum {V}.

(** The bytes of a little-endian integer. *)
Fixpoint from_le_bytes (bytes : list Z) : Z :=
  match bytes with
  | [] => 0
  | b :: rest => b + 256 * from_le_bytes rest
  end.

Section Methods.
Context {V : Type} (visitor : Visitor V).

(** What follows the tag, shared by the typed methods and [deserialize_any]. *)
Definition bool_body : M V :=
  let! b := read_u8 in
  match b with
  | 0 => visit_bool visitor false
  | 1 => visit_bool visitor true
  | _ => throw InvalidBool
  end.
Definition i8_body : M V :=
  let! v := read_varint_i16 in
  let! v := lift (ok_or (try_from_s 8 v) (Message "i8 overflow")) in
  visit_i8 visitor v.
Definition i16_body : M V := let! v := read_varint_i16 in visit_i16 visitor v.
Definition i32_body : M V := let! v := read_varint_i32 in visit_i32 visitor v.
Definition i64_body : M V := let! v := read_varint_i64 in visit_i64 visitor v.
Definition u8_body : M V := let! v := read_u8 in visit_u8 visitor v.
Definition u16_body : M V := let! v := read_varint_u16 in visit_u16 visitor v.
Definition u32_body : M V := let! v := read_varint_u32 in visit_u32 visitor v.
Definition u64_body : M V := let! v := read_varint_u64 in visit_u64 visitor v.
Definition f32_body : M V := let! bytes := consume 4 in visit_f32 visitor (from_le_bytes bytes).
Definition f64_body : M V := let! bytes := consume 8 in visit_f64 visitor (from_le_bytes bytes).
Definition char_body : M V :=
  let! v := read_varint_u32 in
  let! c := lift (ok_or (char_from_u32 v) InvalidChar) in
  visit_char visitor c.
Definition str_body : M V := let! s := read_str in visit_borrowed_str visitor s.
Definition bytes_body : M V := let! b := read_bytes in visit_borrowed_bytes visitor b.
Definition seq_body : M V :=
  let! len := read_varint_usize in visit_seq visitor (mkAccess len false).
Definition map_body : M V :=
  let! len := read_varint_usize in visit_map visitor (mkAccess len false).
Definition struct_body : M V :=
  let! len := read_varint_usize in visit_map visitor (mkAccess len true).

Definition deserialize_any : M V :=
  let! tag := read_tag in
  match tag with
  | None => throw (UnsupportedType "deserialize_any (non-self-describing format)")
  | Some tag =>
      match tag with
      | TagUnit => visit_unit visitor
      | TagBool => bool_body
      | TagI8 => i8_body
      | TagI16 => i16_body
      | TagI32 => i32_body
      | TagI64 => i64_body
      | TagU8 => u8_body
      | TagU16 => u16_body
      | TagU32 => u32_body
      | TagU64 => u64_body
      | TagF32 => f32_body
      | TagF64 => f64_body
      | TagChar => char_body
      | TagString => str_body
      | TagBytes => bytes_body
      | TagNone => visit_none visitor
      | TagSome => visit_some visitor
      | TagSeq => seq_body
      | TagMap => map_body
      | TagStruct => struct_body
      | TagEnum =>
          let! variant := read_str in
          let! len := read_varint_usize in
          if decide (len = 0) then visit_borrowed_str visitor variant
          else visit_enum visitor (InternallyTagged variant len)
      end
  end.

Definition deserialize_bool : M V := let! _ := expect_tag TagBool in bool_body.
Definition deserialize_i8 : M V := let! _ := expect_tag TagI8 in i8_body.
Definition deserialize_i16 : M V := let! _ := expect_tag TagI16 in i16_body.
Definition deserialize_i32 : M V := let! _ := expect_tag TagI32 in i32_body.
Definition deserialize_i64 : M V := let! _ := expect_tag TagI64 in i64_body.
Definition deserialize_u8 : M V := let! _ := expect_tag TagU8 in u8_body.
Definition deserialize_u16 : M V := let! _ := expect_tag TagU16 in u16_body.
Definition deserialize_u32 : M V := let! _ := expect_tag TagU32 in u32_body.
Definition deserialize_u64 : M V := let! _ := expect_tag TagU64 in u64_body.
Definition deserialize_f32 : M V := let! _ := expect_tag TagF32 in f32_body.
Definition deserialize_f64 : M V := let! _ := expect_tag TagF64 in f64_body.
Definition deserialize_char : M V := let! _ := expect_tag TagChar in char_body.
Definition deserialize_str : M V := let! _ := expect_tag TagString in str_body.
Definition deserialize_string : M V :=
  let! _ := expect_tag TagString in
  let! s := read_str in visit_string visitor s.
Definition deserialize_bytes : M V := let! _ := expect_tag TagBytes in bytes_body.
Definition deserialize_byte_buf : M V := let! _ := expect_tag TagBytes in bytes_body.

Definition deserialize_option : M V :=
  let! m := gets mode in
  if decide (m = TypedStable) then
    let! tag := read_tag in
    match tag with
    | Some TagNone => visit_none visitor
    | Some TagSome => visit_some visitor
    | Some actual => throw (Message ("unexpected option type tag: " +:+ tag_debug actual))
    | None => throw (Message "unreachable")
    end
  else
    let! b := read_u8 in
    match b with
    | 0 => visit_none visitor
    | 1 => visit_some visitor
    | _ => throw InvalidBool
    end.

Definition deserialize_unit : M V := let! _ := expect_tag TagUnit in visit_unit visitor.
Definition deserialize_unit_struct : M V := let! _ := expect_tag TagUnit in visit_unit visitor.
Definition deserialize_newtype_struct : M V := visit_newtype_struct visitor.
Definition deserialize_seq : M V := let! _ := expect_tag TagSeq in seq_body.

Definition deserialize_tuple (len : Z) : M V :=
  let! _ := expect_tag TagSeq in
  let! m := gets mode in
  let! n := if decide (m = TypedStable) then read_varint_usize else ret len in
  visit_seq visitor (mkAccess n false).

Definition deserialize_tuple_struct (len : Z) : M V :=
  let! _ := expect_tag TagSeq in
  let! m := gets mode in
  let! n := if decide (m = TypedStable) then read_varint_usize else ret len in
  visit_seq visitor (mkAccess n false).

Definition deserialize_map : M V := let! _ := expect_tag TagMap in map_body.

Definition deserialize_struct (fields : Z) : M V :=
  let! _ := expect_tag TagStruct in
  let! m := gets mode in
  match m with
  | Stable | TypedStable => struct_body
  | Positional => visit_seq visitor (mkAccess fields false)
  end.

Definition deserialize_enum : M V :=
  let! _ := expect_tag TagEnum in
  with_tagged false (visit_enum visitor Direct).

Definition deserialize_identifier : M V :=
  let! m := gets mode in
  match m with
  | Stable => str_body
  | TypedStable =>
      let! tagged := gets tagged_identifier in
      if (tagged : bool) then let! _ := expect_tag TagString in str_body else str_body
  | Positional => let! v := read_varint_u32 in visit_u32 visitor v
  end.

Definition deserialize_ignored_any : M V := visit_unit visitor.

End Methods.
