(* ===== verification/SerdeData.v ===== *)
(** * Values of serde's data model

    The codec's clients are types with serde implementations.  This file describes
    them by their shape in serde's data model (scalars, options, newtypes,
    sequences, tuples, maps, structs and enums, arbitrarily nested), and gives for
    every shape the calls its implementation makes on the serializer of [Ser.v]
    and the visitor it hands to the deserializer of [De.v]: fields are matched by
    name or position, unknown fields are ignored through
    [deserialize_ignored_any], a missing optional field is [None], a duplicate or
    missing field and an unknown variant are errors.  The codec's theorems in
    [SerdeProps.v] quantify over all shapes. *)

From S2P Require Import Prelude Utf8 Varint Ser De.

Inductive scalar : Set :=
| SUnit | SBool | SI8 | SI16 | SI32 | SI64 | SU8 | SU16 | SU32 | SU64 | SF32 | SF64 | SChar
| SStr | SBytes.

Inductive ty :=
| TScalar (s : scalar)
| TOption (t : ty)
| TNewtype (t : ty)
| TSeq (t : ty)
| TTuple (fs : fields)
| TMap (k v : ty)
| TStruct (fs : fields)
| TEnum (vs : variants)
with fields :=
| FNil
| FCons (name : list Z) (t : ty) (fs : fields)
with variants :=
| VNil
| VCons (name : list Z) (k : vkind) (vs : variants)
with vkind :=
| KUnit
| KNewtype (t : ty)
| KTuple (fs : fields)
| KStruct (fs : fields).

Scheme ty_mut := Induction for ty Sort Prop
  with fields_mut := Induction for fields Sort Prop
  with variants_mut := Induction for variants Sort Prop
  with vkind_mut := Induction for vkind Sort Prop.
Combined Scheme ty_combined from ty_mut, fields_mut, variants_mut, vkind_mut.

Definition scalar_val (s : scalar) : Type :=
  match s with
  | SUnit => unit
  | SBool => bool
  | SStr | SBytes => list Z
  | _ => Z
  end.

Fixpoint val (t : ty) : Type :=
  match t with
  | TScalar s => scalar_val s
  | TOption t => option (val t)
  | TNewtype t => val t
  | TSeq t => list (val t)
  | TTuple fs => fields_val fs
  | TMap k v => list (val k * val v)
  | TStruct fs => fields_val fs
  | TEnum vs => variants_val vs
  end
with fields_val (fs : fields) : Type :=
  match fs with
  | FNil => unit
  | FCons _ t fs => val t * fields_val fs
  end
with variants_val (vs : variants) : Type :=
  match vs with
  | VNil => Empty_set
  | VCons _ k vs => kind_val k + variants_val vs
  end
with kind_val (k : vkind) : Type :=
  match k with
  | KUnit => unit
  | KNewtype t => val t
  | KTuple fs => fields_val fs
  | KStruct fs => fields_val fs
  end.

Fixpoint field_names (fs : fields) : list (list Z) :=
  match fs with FNil => [] | FCons n _ fs => n :: field_names fs end.
Fixpoint variant_names (vs : variants) : list (list Z) :=
  match vs with VNil => [] | VCons n _ vs => n :: variant_names vs end.

Definition field_count (fs : fields) : Z := zlen (field_names fs).

(** ** Serializing *)

Definition ser_scalar (s : scalar) : scalar_val s -> Ser :=
  match s with
  | SUnit => fun _ => serialize_unit
  | SBool => serialize_bool
  | SI8 => serialize_i8
  | SI16 => serialize_i16
  | SI32 => serialize_i32
  | SI64 => serialize_i64
  | SU8 => serialize_u8
  | SU16 => serialize_u16
  | SU32 => serialize_u32
  | SU64 => serialize_u64
  | SF32 => serialize_f32
  | SF64 => serialize_f64
  | SChar => serialize_char
  | SStr => serialize_str
  | SBytes => serialize_bytes
  end.

Definition seq_ser (a b : Ser) : Ser := fun self => rbind (a self) b.

Fixpoint ser_list {A} (f : A -> Ser) (l : list A) : Ser :=
  match l with
  | [] => fun self => Ok self
  | x :: l => seq_ser (f x) (ser_list f l)
  end.

(** [named]: whether the compound serializer writes field names. *)
Fixpoint ser (t : ty) : val t -> Ser :=
  match t with
  | TScalar s => ser_scalar s
  | TOption t => fun v =>
      match v with Some v => serialize_some (ser t v) | None => serialize_none end
  | TNewtype t => fun v => serialize_newtype_struct (ser t v)
  | TSeq t => fun v =>
      seq_ser (serialize_seq (Some (zlen v))) (ser_list (fun x => serialize_element (ser t x)) v)
  | TTuple fs => fun v => seq_ser (serialize_tuple (field_count fs)) (ser_fields fs false v)
  | TMap k t => fun v =>
      seq_ser (serialize_map (Some (zlen v)))
        (ser_list (fun x => seq_ser (serialize_key (ser k x.1)) (serialize_value (ser t x.2))) v)
  | TStruct fs => fun v => seq_ser (serialize_struct (field_count fs)) (ser_fields fs true v)
  | TEnum vs => fun v => ser_variants vs 0 v
  end
with ser_fields (fs : fields) (named : bool) : fields_val fs -> Ser :=
  match fs with
  | FNil => fun _ self => Ok self
  | FCons n t fs => fun v =>
      seq_ser (if named then serialize_field n (ser t v.1) else serialize_element (ser t v.1))
        (ser_fields fs named v.2)
  end
with ser_variants (vs : variants) (index : Z) : variants_val vs -> Ser :=
  match vs with
  | VNil => fun v => match v with end
  | VCons n k vs => fun v =>
      match v with
      | inl v => ser_kind k index n v
      | inr v => ser_variants vs (index + 1) v
      end
  end
with ser_kind (k : vkind) (index : Z) (name : list Z) : kind_val k -> Ser :=
  match k with
  | KUnit => fun _ => serialize_unit_variant index name
  | KNewtype t => fun v => serialize_newtype_variant index name (ser t v)
  | KTuple fs => fun v =>
      seq_ser (serialize_tuple_variant index name (field_count fs)) (ser_fields fs false v)
  | KStruct fs => fun v =>
      seq_ser (serialize_struct_variant index name (field_count fs)) (ser_fields fs true v)
  end.

(** ** Visitors *)

Definition bad {A} : M A := throw (Message "invalid type").

(** A visitor from the callbacks of its data-model groups. *)
Definition visitor_with {V} (unit_ : M V) (bool_ : bool -> M V) (int_ : Z -> M V)
    (text_ : list Z -> M V) (none_ some_ newtype_ : M V) (seq_ map_ : CountedAccess -> M V)
    (enum_ : EnumAccess -> M V) : Visitor V :=
  mkVisitor unit_ bool_ int_ int_ int_ int_ int_ int_ int_ int_ int_ int_ int_ text_ text_ text_
    none_ some_ newtype_ seq_ map_ enum_.

Definition none1 {A V} : A -> M V := fun _ => bad.

Definition unit_visitor : Visitor unit :=
  visitor_with (ret tt) none1 none1 none1 bad bad bad none1 none1 none1.
Definition bool_visitor : Visitor bool :=
  visitor_with bad ret none1 none1 bad bad bad none1 none1 none1.
Definition int_visitor : Visitor Z :=
  visitor_with bad none1 ret none1 bad bad bad none1 none1 none1.
Definition text_visitor : Visitor (list Z) :=
  visitor_with bad none1 none1 ret bad bad bad none1 none1 none1.
Definition option_visitor {A} (inner : M A) : Visitor (option A) :=
  visitor_with bad none1 none1 none1 (ret None) (let! v := inner in ret (Some v)) bad
    none1 none1 none1.
Definition newtype_visitor {A} (inner : M A) : Visitor A :=
  visitor_with bad none1 none1 none1 bad bad inner none1 none1 none1.
Definition compound_visitor {A} (seq_ map_ : CountedAccess -> M A) : Visitor A :=
  visitor_with bad none1 none1 none1 bad bad bad seq_ map_ none1.
Definition enum_visitor {A} (enum_ : EnumAccess -> M A) : Visitor A :=
  visitor_with bad none1 none1 none1 bad bad bad none1 none1 enum_.

(** A field or variant identifier. *)
Inductive ident := ByName (name : list Z) | ByIndex (index : Z).

Definition ident_visitor : Visitor ident :=
  visitor_with bad none1 (fun i => ret (ByIndex i)) (fun n => ret (ByName n)) bad bad bad
    none1 none1 none1.

Definition ident_seed : Seed ident :=
  mkSeed (deserialize_identifier ident_visitor) (fun n => Ok (ByName n)).

(** Elements until the access is exhausted: one step more than it counts. *)
Fixpoint seq_loop {A} (fuel : nat) (seed : M A) (acc : CountedAccess) : M (list A) :=
  match fuel with
  | O => bad
  | S fuel =>
      let! (v, acc) := next_element_seed seed acc in
      match v with
      | None => ret []
      | Some v => let! rest := seq_loop fuel seed acc in ret (v :: rest)
      end
  end.

Definition access_fuel (acc : CountedAccess) : nat := S (Z.to_nat (left acc)).

Definition collect_seq {A} (seed : M A) (acc : CountedAccess) : M (list A) :=
  seq_loop (access_fuel acc) seed acc.

(** Entries until the access is exhausted, folded with [step]. *)
Fixpoint map_loop {K P} (fuel : nat) (key : Seed K) (step : P -> K -> CountedAccess -> M P)
    (p : P) (acc : CountedAccess) : M P :=
  match fuel with
  | O => bad
  | S fuel =>
      let! (k, acc) := next_key_seed key acc in
      match k with
      | None => ret p
      | Some k => let! p := step p k acc in map_loop fuel key step p acc
      end
  end.

Definition fold_map {K P} (key : Seed K) (step : P -> K -> CountedAccess -> M P) (p : P)
    (acc : CountedAccess) : M P :=
  map_loop (access_fuel acc) key step p acc.

(** The fields found so far. *)
Fixpoint partial (fs : fields) : Type :=
  match fs with
  | FNil => unit
  | FCons _ t fs => option (val t) * partial fs
  end.

Fixpoint no_fields (fs : fields) : partial fs :=
  match fs with
  | FNil => tt
  | FCons _ _ fs => (None, no_fields fs)
  end.

Definition missing (t : ty) : result Error (val t) :=
  match t with
  | TOption _ => Ok None
  | _ => Err (Message "missing field")
  end.

Fixpoint finish_fields (fs : fields) : partial fs -> result Error (fields_val fs) :=
  match fs with
  | FNil => fun _ => Ok tt
  | FCons _ t fs => fun p =>
      rbind (match p.1 with Some v => Ok v | None => missing t end) (fun v =>
        rbind (finish_fields fs p.2) (fun vs => Ok (v, vs)))
  end.

(** ** Deserializing *)

Definition de_scalar (s : scalar) : M (scalar_val s) :=
  match s with
  | SUnit => deserialize_unit unit_visitor
  | SBool => deserialize_bool bool_visitor
  | SI8 => deserialize_i8 int_visitor
  | SI16 => deserialize_i16 int_visitor
  | SI32 => deserialize_i32 int_visitor
  | SI64 => deserialize_i64 int_visitor
  | SU8 => deserialize_u8 int_visitor
  | SU16 => deserialize_u16 int_visitor
  | SU32 => deserialize_u32 int_visitor
  | SU64 => deserialize_u64 int_visitor
  | SF32 => deserialize_f32 int_visitor
  | SF64 => deserialize_f64 int_visitor
  | SChar => deserialize_char int_visitor
  | SStr => deserialize_string text_visitor
  | SBytes => deserialize_byte_buf text_visitor
  end.

Definition invalid_length {A} : M A := throw (Message "invalid length").

Fixpoint de (t : ty) : M (val t) :=
  match t with
  | TScalar s => de_scalar s
  | TOption t => deserialize_option (option_visitor (de t))
  | TNewtype t => deserialize_newtype_struct (newtype_visitor (de t))
  | TSeq t => deserialize_seq (compound_visitor (collect_seq (de t)) none1)
  | TTuple fs => deserialize_tuple (compound_visitor (de_seq fs) none1) (field_count fs)
  | TMap k t =>
      deserialize_map (compound_visitor none1
        (fold_map (mkSeed (de k) (fun _ => Err (Message "invalid type")))
           (fun l key acc => let! v := next_value_seed (de t) acc in ret (l ++ [(key, v)])) []))
  | TStruct fs =>
      deserialize_struct
        (compound_visitor (de_seq fs)
           (fun acc =>
              let! p := fold_map ident_seed (de_store fs) (no_fields fs) acc in
              lift (finish_fields fs p)))
        (field_count fs)
  | TEnum vs =>
      deserialize_enum (enum_visitor (fun e =>
        let! id := variant_seed e ident_seed in de_variants vs 0 id e))
  end
(** [visit_seq] of a tuple or struct. *)
with de_seq (fs : fields) : CountedAccess -> M (fields_val fs) :=
  match fs with
  | FNil => fun _ => ret tt
  | FCons _ t fs => fun acc =>
      let! (v, acc) := next_element_seed (de t) acc in
      match v with
      | None => invalid_length
      | Some v => let! rest := de_seq fs acc in ret (v, rest)
      end
  end
(** One entry of [visit_map] of a struct. *)
with de_store (fs : fields) : partial fs -> ident -> CountedAccess -> M (partial fs) :=
  match fs with
  | FNil => fun _ _ acc =>
      let! _ := next_value_seed (deserialize_ignored_any unit_visitor) acc in ret tt
  | FCons n t fs => fun p key acc =>
      if match key with ByName k => bool_decide (k = n) | ByIndex _ => false end then
        match p.1 with
        | Some _ => throw (Message "duplicate field")
        | None => let! v := next_value_seed (de t) acc in ret (Some v, p.2)
        end
      else let! rest := de_store fs p.2 key acc in ret (p.1, rest)
  end
with de_variants (vs : variants) (index : Z) (id : ident) (e : EnumAccess)
  : M (variants_val vs) :=
  match vs with
  | VNil => throw (Message "unknown variant")
  | VCons n k vs =>
      if match id with ByName m => bool_decide (m = n) | ByIndex i => bool_decide (i = index) end
      then let! v := de_kind k e in ret (inl v)
      else let! v := de_variants vs (index + 1) id e in ret (inr v)
  end
with de_kind (k : vkind) (e : EnumAccess) : M (kind_val k) :=
  match k with
  | KUnit => unit_variant e
  | KNewtype t => newtype_variant_seed e (de t)
  | KTuple fs => tuple_variant e (field_count fs) (de_seq fs)
  | KStruct fs =>
      struct_variant e (field_count fs) (de_seq fs)
        (fun acc =>
           let! p := fold_map ident_seed (de_store fs) (no_fields fs) acc in
           lift (finish_fields fs p))
  end.
