(* ===== verification/SerdeProps.v ===== *)
(** * Correctness of the codec

    Round trips of every shape of value in every encoding mode, and what a
    successful decode under limits guarantees. *)

From S2P Require Import Prelude Utf8 Varint Ser De SerdeData.

(** ** Writing and reading a fixed encoding *)

(** The serializer call appends [enc] and nothing else. *)
Definition writes (md : EncodingMode) (s : Ser) (enc : list Z) : Prop :=
  forall self, ser_mode self = md -> s self = Ok (put enc self).

Record ready (md : EncodingMode) (d : Deserializer) : Prop := {
  rd_mode : mode d = md;
  rd_limits : limits d = None;
  rd_pos : 0 <= pos d <= zlen (input d);
  rd_size : zlen (input d) < 2 ^ 64;
}.

(** At the start of [enc], whatever follows, the deserializer call returns [a] and
    moves past [enc], changing nothing else; with [untagged], only where
    identifiers are untagged. *)
Definition reads {A} (md : EncodingMode) (untagged : bool) (m : M A) (enc : list Z) (a : A)
  : Prop :=
  forall d rest, ready md d -> (untagged = true -> tagged_identifier d = false) ->
    remaining d = enc ++ rest -> m d = (Ok a, set_pos d (pos d + zlen enc)).

Lemma ready_set_pos md d n :
  ready md d -> 0 <= n <= zlen (input d) -> ready md (set_pos d n).
Proof. intros [] H. by split. Qed.

Lemma remaining_advance d e rest :
  0 <= pos d -> remaining d = e ++ rest -> remaining (set_pos d (pos d + zlen e)) = rest.
Proof.
  unfold remaining, zlen. simpl. intros Hp H.
  rewrite Z2Nat.inj_add, Nat2Z.id by lia. rewrite <- drop_drop, H. by rewrite drop_app_length.
Qed.

Lemma set_pos_twice d a b : set_pos (set_pos d a) b = set_pos d b.
Proof. done. Qed.

Lemma set_pos_same d : set_pos d (pos d) = d.
Proof. by destruct d. Qed.

Lemma remaining_fits d e rest :
  0 <= pos d <= zlen (input d) -> remaining d = e ++ rest -> pos d + zlen e <= zlen (input d).
Proof.
  unfold remaining, zlen. intros Hp H. apply (f_equal length) in H.
  rewrite length_drop, length_app in H. lia.
Qed.

Section Framework.
Context (md : EncodingMode) (u : bool).

Lemma reads_weaken {A} (m : M A) enc a : reads md false m enc a -> reads md u m enc a.
Proof. intros H d rest Hr _. by apply H. Qed.

Lemma reads_ret {A} (a : A) : reads md u (ret a) [] a.
Proof.
  intros d rest _ _ _. unfold ret. by rewrite zlen_nil, Z.add_0_r, set_pos_same.
Qed.

Lemma reads_lift {A} (a : A) : reads md u (lift (Ok a)) [] a.
Proof. apply reads_ret. Qed.

Lemma reads_bind {A B} (m : M A) (k : A -> M B) e1 e2 a b :
  reads md u m e1 a -> reads md u (k a) e2 b -> reads md u (bind m k) (e1 ++ e2) b.
Proof.
  intros H1 H2 d rest Hr Hu Hrem. unfold bind. rewrite <- app_assoc in Hrem.
  rewrite (H1 d _ Hr Hu Hrem).
  pose proof (rd_pos _ _ Hr) as Hp.
  rewrite (H2 (set_pos d (pos d + zlen e1)) rest).
  - simpl. by rewrite set_pos_twice, zlen_app, Z.add_assoc.
  - apply ready_set_pos; [done|]. pose proof (zlen_nonneg e1).
    pose proof (remaining_fits _ _ _ Hp Hrem). lia.
  - done.
  - apply remaining_advance; [lia|done].
Qed.

Lemma reads_bind_nil {A B} (m : M A) (k : A -> M B) e a b :
  reads md u m [] a -> reads md u (k a) e b -> reads md u (bind m k) e b.
Proof. apply (reads_bind m k [] e). Qed.

Lemma reads_bind_ret {A B} (m : M A) (f : A -> B) e a :
  reads md u m e a -> reads md u (bind m (fun x => ret (f x))) e (f a).
Proof. intros H. rewrite <- (app_nil_r e). eapply reads_bind; [done|]. apply reads_ret. Qed.

Lemma reads_mode : reads md u (gets mode) [] md.
Proof.
  intros d rest Hr _ _. unfold gets. by rewrite (rd_mode _ _ Hr), zlen_nil, Z.add_0_r, set_pos_same.
Qed.

Lemma reads_consume enc : reads md u (consume (zlen enc)) enc enc.
Proof.
  intros d rest Hr _ Hrem. pose proof (rd_pos _ _ Hr) as Hp.
  pose proof (remaining_fits _ _ _ Hp Hrem) as Hfit. pose proof (rd_size _ _ Hr).
  unfold consume, checked_add. rewrite decide_True by lia. rewrite decide_False by lia.
  do 2 f_equal. unfold remaining in Hrem. rewrite Hrem. unfold zlen. rewrite Nat2Z.id.
  by rewrite take_app_length.
Qed.

Lemma reads_u8 b : reads md u read_u8 [b] b.
Proof. apply (reads_bind_ret (consume 1) (fun bytes => byte_at bytes 0) [b] [b]).
  by apply (reads_consume [b]). Qed.

Lemma reads_varint decode enc v :
  (forall rest, decode (enc ++ rest) = Some (v, zlen enc)) ->
  reads md u (read_varint decode) enc v.
Proof. intros H d rest _ _ Hrem. unfold read_varint. by rewrite Hrem, H. Qed.

Lemma reads_usize n : in_u 64 n -> reads md u read_varint_usize (encode_u64 [] n) n.
Proof.
  intros Hn. unfold read_varint_usize.
  rewrite <- (app_nil_r (encode_u64 [] n)). eapply reads_bind.
  - apply reads_varint. intros rest. apply decode_encode_narrow; [lia|done].
  - intros d rest Hr _ _. rewrite (rd_limits _ _ Hr).
    by rewrite zlen_nil, Z.add_0_r, set_pos_same.
Qed.

Lemma reads_bytes bytes :
  in_u 64 (zlen bytes) -> reads md u read_bytes (encode_u64 [] (zlen bytes) ++ bytes) bytes.
Proof.
  intros Hn. unfold read_bytes. eapply reads_bind.
  - apply reads_varint. intros rest. apply decode_encode_narrow; [lia|done].
  - intros d rest Hr Hu Hrem. unfold bind, gets. rewrite (rd_limits _ _ Hr).
    by apply (reads_consume bytes d rest).
Qed.

Lemma reads_str bytes :
  in_u 64 (zlen bytes) -> is_utf8 bytes = true ->
  reads md u read_str (encode_u64 [] (zlen bytes) ++ bytes) bytes.
Proof.
  intros Hn Hutf. unfold read_str. rewrite <- (app_nil_r (_ ++ bytes)).
  eapply reads_bind; [by apply reads_bytes|]. rewrite Hutf. apply reads_ret.
Qed.

(** The tag byte, in typed mode only. *)
Definition tag_bytes (tag : TypeTag) : list Z :=
  if decide (md = TypedStable) then [tag_u8 tag] else [].

Lemma reads_read_tag tag :
  md = TypedStable -> reads md u read_tag [tag_u8 tag] (Some tag).
Proof.
  intros Hmd. unfold read_tag. apply (reads_bind_nil _ _ _ md); [apply reads_mode|].
  rewrite decide_False by tauto. rewrite <- (app_nil_r [tag_u8 tag]).
  eapply reads_bind; [apply reads_u8|].
  assert (tag_of_u8 (tag_u8 tag) = Some tag) as -> by (by destruct tag). apply reads_ret.
Qed.

Lemma reads_expect_tag tag : reads md u (expect_tag tag) (tag_bytes tag) tt.
Proof.
  unfold expect_tag, tag_bytes. case_decide as Hmd.
  - rewrite <- (app_nil_r [tag_u8 tag]).
    eapply reads_bind; [by apply reads_read_tag|]. cbv beta iota.
    rewrite decide_False by tauto. apply reads_ret.
  - apply (reads_bind_nil _ _ _ None); [|apply reads_ret].
    unfold read_tag. apply (reads_bind_nil _ _ _ md); [apply reads_mode|].
    rewrite decide_True by done. apply reads_ret.
Qed.

Lemma reads_with_tag {A} tag (k : M A) e a :
  reads md u k e a -> reads md u (bind (expect_tag tag) (fun _ => k)) (tag_bytes tag ++ e) a.
Proof. intros H. eapply reads_bind; [apply reads_expect_tag|done]. Qed.

Lemma reads_with_tagged {A} b (m : M A) e a :
  reads md false m e a -> reads md u (with_tagged b m) e a.
Proof.
  intros H d rest Hr _ Hrem. unfold with_tagged.
  rewrite (H (set_tagged d b) rest); [by destruct d| |done|done].
  destruct Hr. by split.
Qed.

Lemma reads_with_untagged {A} (m : M A) e a :
  reads md true m e a -> reads md u (with_tagged false m) e a.
Proof.
  intros H d rest Hr _ Hrem. unfold with_tagged.
  rewrite (H (set_tagged d false) rest); [by destruct d| |done|done].
  destruct Hr. by split.
Qed.

(** ** Serializer side *)

Lemma put_put a b self : put b (put a self) = put (a ++ b) self.
Proof. unfold put. simpl. by rewrite app_assoc. Qed.

Lemma put_nil self : put [] self = self.
Proof. destruct self. unfold put. simpl. by rewrite app_nil_r. Qed.

Lemma writes_seq a b e1 e2 : writes md a e1 -> writes md b e2 -> writes md (seq_ser a b) (e1 ++ e2).
Proof.
  intros H1 H2 self Hm. unfold seq_ser. rewrite H1 by done. simpl. rewrite H2 by done.
  by rewrite put_put.
Qed.

Lemma writes_nil : writes md (fun self => Ok self) [].
Proof. intros self _. by rewrite put_nil. Qed.

Lemma write_tag_put tag self : ser_mode self = md -> write_tag tag self = put (tag_bytes tag) self.
Proof.
  intros Hm. unfold write_tag, is_typed, tag_bytes. rewrite Hm.
  destruct (decide (md = TypedStable)).
  - by rewrite bool_decide_eq_true_2.
  - by rewrite bool_decide_eq_false_2, put_nil.
Qed.

Lemma write_usize_put n self : write_usize n self = put (encode_u64 [] n) self.
Proof. unfold write_usize, with_output, put, encode_usize. by rewrite encode_u64_app. Qed.

Lemma write_str_put v self : write_str v self = put (encode_u64 [] (zlen v) ++ v) self.
Proof.
  unfold write_str. change (with_output _ self) with (write_usize (zlen v) self).
  by rewrite write_usize_put, put_put.
Qed.

Lemma is_typed_put e self : ser_mode self = md ->
  is_typed (put e self) = bool_decide (md = TypedStable).
Proof. intros Hm. unfold is_typed, put. simpl. by rewrite Hm. Qed.

End Framework.

(** A value written by [s] is read back by [m]. *)
Definition roundtrips {A} (md : EncodingMode) (s : Ser) (m : M A) (a : A) : Prop :=
  exists enc, writes md s enc /\ reads md false m enc a.

(** ** Scalars *)

Definition fits_scalar (s : scalar) : scalar_val s -> Prop :=
  match s with
  | SUnit => fun _ => True
  | SBool => fun _ => True
  | SI8 => in_s 8
  | SI16 => i16
  | SI32 => i32
  | SI64 => i64
  | SU8 => u8
  | SU16 => u16
  | SU32 | SF32 => u32
  | SU64 | SF64 => u64
  | SChar => fun c => is_Some (char_from_u32 c)
  | SStr => fun s => u64 (zlen s) /\ is_utf8 s = true
  | SBytes => fun s => u64 (zlen s)
  end.

Lemma to_le_bytes_length n x : length (to_le_bytes n x) = n.
Proof. revert x; induction n; intros; simpl; auto. Qed.

Lemma from_to_le_bytes n x :
  0 <= x < 256 ^ Z.of_nat n -> from_le_bytes (to_le_bytes n x) = x.
Proof.
  revert x; induction n as [|n IH]; intros x Hx; simpl; [simpl in Hx; lia|].
  rewrite Nat2Z.inj_succ, Z.pow_succ_r in Hx by lia.
  rewrite IH.
  - pose proof (Z.div_mod x 256). lia.
  - split; [apply Z.div_pos; lia|]. apply Z.div_lt_upper_bound; lia.
Qed.

Section Scalars.
Context (md : EncodingMode).

(** A tag, then a body that both sides agree on. *)
Lemma roundtrips_tagged {A} tag (body : Serializer -> Serializer) (k : M A) enc a :
  (forall self, body self = put enc self) -> reads md false k enc a ->
  roundtrips md (fun self => Ok (body (write_tag tag self))) (bind (expect_tag tag) (fun _ => k)) a.
Proof.
  intros Hb Hk. exists (tag_bytes md tag ++ enc). split.
  - intros self Hm. by rewrite (write_tag_put md), Hb, put_put.
  - by apply reads_with_tag.
Qed.

Lemma with_encode_put (f : list Z -> list Z) n self :
  (forall out, f out = encode_u64 out n) -> with_output f self = put (encode_u64 [] n) self.
Proof. intros H. unfold with_output, put. by rewrite H, encode_u64_app. Qed.

Lemma reads_varint_ret decode (visit : Z -> M Z) n v :
  (forall rest, decode (encode_u64 [] n ++ rest) = Some (v, zlen (encode_u64 [] n))) ->
  visit = ret -> reads md false (bind (read_varint decode) visit) (encode_u64 [] n) v.
Proof.
  intros H ->. rewrite <- (app_nil_r (encode_u64 [] n)).
  eapply reads_bind; [by apply reads_varint|apply reads_ret].
Qed.

Lemma reads_float n (visit : Z -> M Z) x :
  0 <= x < 256 ^ Z.of_nat n -> visit = ret ->
  reads md false (bind (consume (Z.of_nat n)) (fun bytes => visit (from_le_bytes bytes)))
    (to_le_bytes n x) x.
Proof.
  intros Hx ->. rewrite <- (from_to_le_bytes n x Hx) at 2.
  apply (reads_bind_ret md false (consume (Z.of_nat n)) from_le_bytes).
  replace (Z.of_nat n) with (zlen (to_le_bytes n x)); [apply reads_consume|].
  unfold zlen. by rewrite to_le_bytes_length.
Qed.

Lemma roundtrips_scalar (s : scalar) (v : scalar_val s) :
  fits_scalar s v -> roundtrips md (ser_scalar s v) (de_scalar s) v.
Proof.
  destruct s; simpl; intros Hf.
  - destruct v. exists (tag_bytes md TagUnit). split.
    + intros self Hm. unfold serialize_unit. by rewrite (write_tag_put md).
    + rewrite <- (app_nil_r (tag_bytes _ _)). apply reads_with_tag, reads_ret.
  - apply (roundtrips_tagged TagBool (put [if v then 1 else 0]) _ [if v then 1 else 0]); [done|].
    unfold bool_body. rewrite <- (app_nil_r [_]). eapply reads_bind; [apply reads_u8|].
    destruct v; apply reads_ret.
  - eapply roundtrips_tagged; [intros; by apply with_encode_put|].
    unfold i8_body. rewrite <- (app_nil_r (encode_u64 _ _)).
    eapply (reads_bind _ _ _ _ _ _ v).
    + apply reads_varint. intros rest. apply (decode_encode_narrow_signed 16); [lia|].
      by apply (in_s_weaken 8).
    + rewrite try_from_s_in by done. cbn [ok_or]. apply (reads_bind_nil _ _ _ _ _ v); apply reads_ret.
  - eapply roundtrips_tagged; [intros; by apply with_encode_put|].
    apply reads_varint_ret; [|done]. intros. by apply (decode_encode_narrow_signed 16).
  - eapply roundtrips_tagged; [intros; by apply with_encode_put|].
    apply reads_varint_ret; [|done]. intros. by apply (decode_encode_narrow_signed 32).
  - eapply roundtrips_tagged; [intros; by apply with_encode_put|].
    apply reads_varint_ret; [|done]. intros. by apply decode_encode_i64.
  - eapply (roundtrips_tagged TagU8 (put [v])); [done|].
    unfold u8_body. rewrite <- (app_nil_r [v]). eapply reads_bind; [apply reads_u8|apply reads_ret].
  - eapply roundtrips_tagged; [intros; by apply with_encode_put|].
    apply reads_varint_ret; [|done]. intros. by apply decode_encode_narrow.
  - eapply roundtrips_tagged; [intros; by apply with_encode_put|].
    apply reads_varint_ret; [|done]. intros. by apply decode_encode_narrow.
  - eapply roundtrips_tagged; [intros; by apply with_encode_put|].
    apply reads_varint_ret; [|done]. intros. by apply decode_encode_u64.
  - eapply (roundtrips_tagged TagF32 (put (to_le_bytes 4 v))); [done|].
    by apply (reads_float 4).
  - eapply (roundtrips_tagged TagF64 (put (to_le_bytes 8 v))); [done|].
    by apply (reads_float 8).
  - destruct Hf as [c Hc]. assert (Hcv : c = v /\ u32 v).
    { unfold char_from_u32 in Hc. case_decide; [|done]. injection Hc as <-. int_lia. }
    destruct Hcv as [-> Hu].
    eapply roundtrips_tagged; [intros; by apply with_encode_put|].
    unfold char_body. rewrite <- (app_nil_r (encode_u64 _ _)).
    eapply (reads_bind _ _ _ _ _ _ v).
    + apply reads_varint. intros rest. by apply decode_encode_narrow.
    + rewrite Hc. cbn [ok_or]. apply (reads_bind_nil _ _ _ _ _ v); apply reads_ret.
  - destruct Hf as [Hl Hu]. eapply (roundtrips_tagged TagString (write_str v)).
    + intros self. apply write_str_put.
    + rewrite <- (app_nil_r (_ ++ v)). eapply reads_bind; [by apply reads_str|apply reads_ret].
  - eapply (roundtrips_tagged TagBytes (fun self => put v (write_usize (zlen v) self))).
    + intros self. by rewrite write_usize_put, put_put.
    + unfold bytes_body. rewrite <- (app_nil_r (_ ++ v)).
      eapply reads_bind; [by apply reads_bytes|apply reads_ret].
Qed.

End Scalars.

(** ** Well-formed shapes and values in range *)

Definition name_ok (n : list Z) : Prop := u64 (zlen n) /\ is_utf8 n = true.

Definition names_ok (ns : list (list Z)) : Prop := NoDup ns /\ Forall name_ok ns.

Fixpoint wf_ty (t : ty) : Prop :=
  match t with
  | TScalar _ => True
  | TOption t | TNewtype t | TSeq t => wf_ty t
  | TTuple fs => wf_fields fs /\ u64 (field_count fs)
  | TMap k v => wf_ty k /\ wf_ty v
  | TStruct fs => wf_fields fs /\ u64 (field_count fs) /\ names_ok (field_names fs)
  | TEnum vs => wf_variants vs /\ zlen (variant_names vs) < 2 ^ 32 /\ names_ok (variant_names vs)
  end
with wf_fields (fs : fields) : Prop :=
  match fs with
  | FNil => True
  | FCons _ t fs => wf_ty t /\ wf_fields fs
  end
with wf_variants (vs : variants) : Prop :=
  match vs with
  | VNil => True
  | VCons _ k vs => wf_kind k /\ wf_variants vs
  end
with wf_kind (k : vkind) : Prop :=
  match k with
  | KUnit => True
  | KNewtype t => wf_ty t
  | KTuple fs => wf_fields fs /\ u64 (field_count fs)
  | KStruct fs => wf_fields fs /\ u64 (field_count fs) /\ names_ok (field_names fs)
  end.

(** Integers within their width, valid text, lengths that fit a [usize]. *)
Fixpoint fits (t : ty) : val t -> Prop :=
  match t with
  | TScalar s => fits_scalar s
  | TOption t => fun v => match v with Some v => fits t v | None => True end
  | TNewtype t => fits t
  | TSeq t => fun v => u64 (zlen v) /\ Forall (fits t) v
  | TTuple fs => fits_fields fs
  | TMap k t => fun v => u64 (zlen v) /\ Forall (fun x => fits k x.1 /\ fits t x.2) v
  | TStruct fs => fits_fields fs
  | TEnum vs => fits_variants vs
  end
with fits_fields (fs : fields) : fields_val fs -> Prop :=
  match fs with
  | FNil => fun _ => True
  | FCons _ t fs => fun v => fits t v.1 /\ fits_fields fs v.2
  end
with fits_variants (vs : variants) : variants_val vs -> Prop :=
  match vs with
  | VNil => fun v => match v with end
  | VCons _ k vs => fun v =>
      match v with inl v => fits_kind k v | inr v => fits_variants vs v end
  end
with fits_kind (k : vkind) : kind_val k -> Prop :=
  match k with
  | KUnit => fun _ => True
  | KNewtype t => fits t
  | KTuple fs => fits_fields fs
  | KStruct fs => fits_fields fs
  end.

(** The fields of a complete value, as the struct visitor collects them. *)
Fixpoint all_fields (fs : fields) : fields_val fs -> partial fs :=
  match fs with
  | FNil => fun _ => tt
  | FCons _ _ fs => fun v => (Some v.1, all_fields fs v.2)
  end.

Lemma finish_all_fields fs v : finish_fields fs (all_fields fs v) = Ok v.
Proof.
  induction fs as [|n t fs IH]; simpl; [by destruct v|].
  rewrite IH. by destruct v.
Qed.

Section Compounds.
Context (md : EncodingMode).

Lemma reads_next_value {A} u (seed : M A) acc e a :
  reads md false seed e a -> reads md u (next_value_seed seed acc) e a.
Proof.
  intros H d rest Hr Hu Hrem. unfold next_value_seed.
  destruct (_ && _); by apply (reads_with_tagged md u _ _ _ _ H d rest).
Qed.

Lemma reads_next_element {A} u (seed : M A) n raw e a :
  n <> 0 -> reads md u seed e a ->
  reads md u (next_element_seed seed (mkAccess n raw)) e (Some a, mkAccess (n - 1) raw).
Proof.
  intros Hn H. unfold next_element_seed. cbn [left raw_keys]. rewrite decide_False by done.
  by apply (reads_bind_ret md u seed (fun v => (Some v, mkAccess (n - 1) raw))).
Qed.

Definition str_bytes (s : list Z) : list Z := encode_u64 [] (zlen s) ++ s.

Lemma reads_next_raw_key u n name :
  n <> 0 -> name_ok name ->
  reads md u (next_key_seed ident_seed (mkAccess n true)) (str_bytes name)
    (Some (ByName name), mkAccess (n - 1) true).
Proof.
  intros Hn [Hl Hu]. unfold next_key_seed. cbn [left raw_keys]. rewrite decide_False by done.
  rewrite <- (app_nil_r (str_bytes name)). eapply reads_bind; [by apply reads_str|].
  eapply reads_bind_nil; [apply reads_lift|apply reads_ret].
Qed.

Lemma access_fuel_enough {A} (l : list A) raw :
  (length l < access_fuel (mkAccess (zlen l) raw))%nat.
Proof. unfold access_fuel, zlen. simpl. rewrite Nat2Z.id. lia. Qed.

(** Sequences. *)
Lemma roundtrips_seq {A} (f : A -> Ser) (seed : M A) l :
  Forall (fun x => roundtrips md (f x) seed x) l ->
  exists enc, writes md (ser_list f l) enc /\
    forall fuel, (length l < fuel)%nat ->
      reads md false (seq_loop fuel seed (mkAccess (zlen l) false)) enc l.
Proof.
  induction 1 as [|x l (e1 & Hw1 & Hr1) _ (e2 & Hw2 & Hr2)].
  - exists []. split; [apply writes_nil|]. intros [|fuel] Hf; [simpl in Hf; lia|].
    apply (reads_bind_nil _ _ _ _ _ (None, mkAccess 0 false)); apply reads_ret.
  - exists (e1 ++ e2). split; [by apply writes_seq|]. intros [|fuel] Hf; [simpl in Hf; lia|].
    simpl. eapply reads_bind.
    + apply reads_next_element; [rewrite zlen_cons; pose proof (zlen_nonneg l); lia|done].
    + rewrite zlen_cons. replace (zlen l + 1 - 1) with (zlen l) by lia. cbv beta iota.
      apply (reads_bind_ret md false _ (cons x)). apply Hr2. simpl in Hf. lia.
Qed.

(** Maps. *)
Lemma roundtrips_map {K T} (fk : K -> Ser) (ft : T -> Ser) (sk : M K) (st : M T) bad_key l :
  Forall (fun x => roundtrips md (fk x.1) sk x.1 /\ roundtrips md (ft x.2) st x.2) l ->
  exists enc, writes md (ser_list (fun x => seq_ser (fk x.1) (ft x.2)) l) enc /\
    forall fuel acc, (length l < fuel)%nat ->
      reads md false
        (map_loop fuel (mkSeed sk bad_key)
           (fun r key acc => let! v := next_value_seed st acc in ret (r ++ [(key, v)])) acc
           (mkAccess (zlen l) false)) enc (acc ++ l).
Proof.
  induction 1 as [|[k v] l [(e1 & Hw1 & Hr1) (e2 & Hw2 & Hr2)] _ (e3 & Hw3 & Hr3)].
  - exists []. split; [apply writes_nil|]. intros [|fuel] acc Hf; [simpl in Hf; lia|].
    rewrite app_nil_r. apply (reads_bind_nil _ _ _ _ _ (None, mkAccess 0 false)); apply reads_ret.
  - exists ((e1 ++ e2) ++ e3). split; [by apply writes_seq; [apply writes_seq|]|].
    intros [|fuel] acc Hf; [simpl in Hf; lia|]. simpl. rewrite <- app_assoc.
    pose proof (zlen_nonneg l).
    apply (reads_bind md false _ _ e1 _ (Some k, mkAccess (zlen l) false)).
    + unfold next_key_seed. cbn [left raw_keys from_de]. rewrite zlen_cons, decide_False by lia.
      replace (zlen l + 1 - 1) with (zlen l) by lia.
      apply (reads_bind_ret md false _ (fun k => (Some k, mkAccess (zlen l) false))).
      by apply reads_with_tagged.
    + cbv beta iota. apply (reads_bind md false _ _ e2 _ (acc ++ [(k, v)])).
      * apply (reads_bind_ret md false _ (fun v => acc ++ [(k, v)])). by apply reads_next_value.
      * replace (acc ++ (k, v) :: l) with ((acc ++ [(k, v)]) ++ l) by (by rewrite <- app_assoc).
        apply Hr3. simpl in Hf. lia.
Qed.

(** Struct entries: reading the keys [keys] takes the collected fields from [p]
    to [p']. *)
Inductive entries {P} (step : P -> ident -> CountedAccess -> M P)
  : P -> list (list Z) -> list Z -> P -> Prop :=
| entries_nil p : entries step p [] [] p
| entries_cons p key e1 p1 keys e2 p2 :
    (forall acc, reads md false (step p (ByName key) acc) e1 p1) ->
    entries step p1 keys e2 p2 ->
    entries step p (key :: keys) ((str_bytes key ++ e1) ++ e2) p2.

Lemma entries_reads {P} (step : P -> ident -> CountedAccess -> M P) p keys enc p' fuel :
  entries step p keys enc p' -> Forall name_ok keys -> (length keys < fuel)%nat ->
  reads md false (map_loop fuel ident_seed step p (mkAccess (zlen keys) true)) enc p'.
Proof.
  intros H. revert fuel. induction H as [p|p key e1 p1 keys e2 p2 Hstep _ IH]; intros fuel Hn Hf.
  - destruct fuel; [simpl in Hf; lia|].
    apply (reads_bind_nil _ _ _ _ _ (None, mkAccess 0 true)); apply reads_ret.
  - apply Forall_cons in Hn as [Hk Hn]. destruct fuel; [simpl in Hf; lia|]. simpl.
    rewrite <- app_assoc. pose proof (zlen_nonneg keys).
    apply (reads_bind md false _ _ (str_bytes key) _ (Some (ByName key), mkAccess (zlen keys) true)).
    + rewrite zlen_cons. replace (mkAccess (zlen keys) true) with (mkAccess (zlen keys + 1 - 1) true)
        by (f_equal; lia). apply reads_next_raw_key; [lia|done].
    + cbv beta iota. eapply reads_bind; [apply Hstep|]. apply IH; [done|]. simpl in Hf. lia.
Qed.

Lemma entries_lift n t fs (q : option (val t)) p keys enc p' :
  n ∉ keys -> entries (de_store fs) p keys enc p' ->
  entries (de_store (FCons n t fs)) (q, p) keys enc (q, p').
Proof.
  intros Hn H. induction H as [p|p key e1 p1 keys e2 p2 Hstep _ IH]; [constructor|].
  apply not_elem_of_cons in Hn as [Hne Hn]. apply (entries_cons _ _ _ _ (q, p1)); [|by apply IH].
  intros acc. simpl. rewrite bool_decide_eq_false_2 by done.
  apply (reads_bind_ret md false _ (fun rest => (q, rest))). apply Hstep.
Qed.

End Compounds.

Section Roundtrip.
Context (md : EncodingMode).

(** Fields read by position. *)
Definition by_position (fs : fields) (named : bool) (v : fields_val fs) : Prop :=
  exists enc, writes md (ser_fields fs named v) enc /\
    forall n raw, field_count fs <= n -> reads md false (de_seq fs (mkAccess n raw)) enc v.

(** Fields read by name. *)
Definition by_name (fs : fields) (v : fields_val fs) : Prop :=
  exists enc, writes md (ser_fields fs true v) enc /\
    entries md (de_store fs) (no_fields fs) (field_names fs) enc (all_fields fs v).

Definition good_ty (t : ty) : Prop :=
  wf_ty t -> forall v, fits t v -> roundtrips md (ser t v) (de t) v.

Definition good_fields (fs : fields) : Prop :=
  wf_fields fs -> forall v, fits_fields fs v ->
    by_position fs false v /\
    (md = Positional -> by_position fs true v) /\
    (md <> Positional -> NoDup (field_names fs) -> by_name fs v).

(** The bytes that identify a variant, and what its identifier is read as. *)
Definition ident_bytes (index : Z) (name : list Z) : list Z :=
  match md with Positional => encode_u64 [] index | _ => str_bytes name end.
Definition ident_of (index : Z) (name : list Z) : ident :=
  match md with Positional => ByIndex index | _ => ByName name end.

Definition good_kind (k : vkind) : Prop :=
  wf_kind k -> forall index name v, fits_kind k v ->
    exists enc, writes md (ser_kind k index name v)
                  (tag_bytes md TagEnum ++ ident_bytes index name ++ enc) /\
      reads md false (de_kind k Direct) enc v.

Definition good_variants (vs : variants) : Prop :=
  wf_variants vs -> NoDup (variant_names vs) -> forall index v, fits_variants vs v ->
    exists i name enc,
      writes md (ser_variants vs index v)
        (tag_bytes md TagEnum ++ ident_bytes i name ++ enc) /\
      name ∈ variant_names vs /\ index <= i < index + zlen (variant_names vs) /\
      reads md false (de_variants vs index (ident_of i name) Direct) enc v.

Lemma field_count_cons n t fs : field_count (FCons n t fs) = field_count fs + 1.
Proof. apply zlen_cons. Qed.

Lemma field_count_nonneg fs : 0 <= field_count fs.
Proof. apply zlen_nonneg. Qed.

Lemma writes_field n s e :
  writes md s e ->
  writes md (serialize_field n s) ((if decide (md = Positional) then [] else str_bytes n) ++ e).
Proof.
  intros H self Hm. unfold serialize_field, is_stable_named. rewrite Hm.
  destruct md; simpl; rewrite ?write_str_put, H by done; by rewrite ?put_put.
Qed.

Lemma by_position_cons named n t fs v vs :
  roundtrips md (ser t v) (de t) v -> (named = true -> md = Positional) ->
  by_position fs named vs -> by_position (FCons n t fs) named (v, vs).
Proof.
  intros (e1 & Hw1 & Hr1) Hn (e2 & Hw2 & Hr2). exists (e1 ++ e2). split.
  - apply writes_seq; [|done]. destruct named; [|done].
    pose proof (writes_field n _ _ Hw1) as H. by rewrite decide_True in H by auto.
  - intros k raw Hk. rewrite field_count_cons in Hk. pose proof (field_count_nonneg fs).
    simpl. eapply reads_bind; [apply reads_next_element; [lia|done]|]. cbv beta iota.
    apply (reads_bind_ret md false _ (pair v)). apply Hr2. lia.
Qed.

Lemma by_name_cons n t fs v vs :
  md <> Positional -> n ∉ field_names fs ->
  roundtrips md (ser t v) (de t) v -> by_name fs vs -> by_name (FCons n t fs) (v, vs).
Proof.
  intros Hmd Hn (e1 & Hw1 & Hr1) (e2 & Hw2 & Hr2). exists ((str_bytes n ++ e1) ++ e2). split.
  - apply writes_seq; [|done].
    pose proof (writes_field n _ _ Hw1) as H. by rewrite decide_False in H by done.
  - simpl. apply (entries_cons _ _ _ _ _ (Some v, no_fields fs)).
    + intros acc. simpl. rewrite bool_decide_eq_true_2 by done.
      apply (reads_bind_ret md false _ (fun x => (Some x, no_fields fs))). by apply reads_next_value.
    + by apply entries_lift.
Qed.

Lemma good_fields_cons n t fs : good_ty t -> good_fields fs -> good_fields (FCons n t fs).
Proof.
  intros Ht Hfs [Hwt Hwf] [v vs] [Hfv Hfvs]. simpl in Hfv, Hfvs.
  specialize (Ht Hwt v Hfv). destruct (Hfs Hwf vs Hfvs) as (H1 & H2 & H3). split_and!.
  - by apply by_position_cons.
  - intros Hmd. apply by_position_cons; auto.
  - intros Hmd Hnd. apply NoDup_cons in Hnd as [Hn Hnd]. apply by_name_cons; auto.
Qed.

(** What follows the tag of a struct, or the identifier of a struct variant. *)
Definition struct_reader (fs : fields) (acc : CountedAccess) : M (fields_val fs) :=
  let! p := fold_map ident_seed (de_store fs) (no_fields fs) acc in lift (finish_fields fs p).

Lemma struct_fields fs v :
  good_fields fs -> wf_fields fs -> u64 (field_count fs) -> names_ok (field_names fs) ->
  fits_fields fs v ->
  exists enc,
    writes md (ser_fields fs true v) enc /\
    (md = Positional -> reads md false (de_seq fs (mkAccess (field_count fs) false)) enc v) /\
    (md <> Positional ->
       reads md false (bind read_varint_usize (fun len => struct_reader fs (mkAccess len true)))
         (encode_u64 [] (field_count fs) ++ enc) v).
Proof.
  intros Hg Hwf Hu [Hnd Hok] Hf. destruct (Hg Hwf v Hf) as (_ & H2 & H3).
  destruct (decide (md = Positional)) as [Hmd|Hmd].
  - destruct (H2 Hmd) as (enc & Hw & Hr). exists enc. split_and!; [done| |done].
    intros _. by apply Hr.
  - destruct (H3 Hmd Hnd) as (enc & Hw & Hr). exists enc. split_and!; [done|done|]. intros _.
    eapply reads_bind; [by apply reads_usize|].
    rewrite <- (app_nil_r enc). unfold struct_reader.
    eapply reads_bind.
    + apply (entries_reads md _ _ _ _ _ _ Hr Hok), access_fuel_enough.
    + rewrite finish_all_fields. apply reads_lift.
Qed.

(** The header of an enum value: tag and identifier. *)
Definition variant_header (index : Z) (name : list Z) (self : Serializer) : Serializer :=
  match ser_mode self with
  | Positional => with_output (fun out => encode_u32 out index) self
  | _ => write_str name self
  end.

Lemma variant_header_put index name self :
  ser_mode self = md ->
  variant_header index name (write_tag TagEnum self)
    = put (tag_bytes md TagEnum ++ ident_bytes index name) self.
Proof.
  intros Hm. rewrite (write_tag_put md) by done. rewrite <- put_put.
  unfold variant_header, ident_bytes. simpl. rewrite Hm.
  destruct md; rewrite ?write_str_put; try done. by apply with_encode_put.
Qed.

(** The field count written after the identifier in typed mode. *)
Definition typed_count (n : Z) : list Z :=
  if decide (md = TypedStable) then encode_u64 [] n else [].

Lemma write_typed_count n self e :
  ser_mode self = md ->
  (if is_typed (put e self) then write_usize n (put e self) else put e self)
    = put (e ++ typed_count n) self.
Proof.
  intros Hm. rewrite (is_typed_put md) by done. unfold typed_count.
  destruct (decide (md = TypedStable)).
  - by rewrite bool_decide_eq_true_2, write_usize_put, put_put.
  - by rewrite bool_decide_eq_false_2, app_nil_r.
Qed.

Lemma reads_typed_count {A} n default_ (k : Z -> M A) e a :
  u64 n -> (md <> TypedStable -> default_ = n) -> reads md false (k n) e a ->
  reads md false
    (bind (gets mode) (fun m =>
       bind (if decide (m = TypedStable) then read_varint_usize else ret default_) k))
    (typed_count n ++ e) a.
Proof.
  intros Hn Hd Hk. apply (reads_bind_nil _ _ _ _ _ md); [apply reads_mode|]. unfold typed_count.
  destruct (decide (md = TypedStable)) as [Hmd|Hmd].
  - eapply reads_bind; [by apply reads_usize|done].
  - rewrite Hd by done. eapply reads_bind; [apply reads_ret|done].
Qed.

(** The three variant serializers that end in a typed count. *)
Lemma variant_with_count index name n self :
  ser_mode self = md ->
  (match ser_mode (write_tag TagEnum self) with
   | Stable | TypedStable =>
       if is_typed (write_str name (write_tag TagEnum self))
       then write_usize n (write_str name (write_tag TagEnum self))
       else write_str name (write_tag TagEnum self)
   | Positional => with_output (fun out => encode_u32 out index) (write_tag TagEnum self)
   end) = put (tag_bytes md TagEnum ++ ident_bytes index name ++ typed_count n) self.
Proof.
  intros Hm. rewrite (write_tag_put md) by done. unfold ident_bytes, typed_count, is_typed.
  simpl. rewrite Hm.
  destruct md; simpl; rewrite ?write_str_put, ?write_usize_put, ?put_put, ?app_nil_r; try done.
  rewrite (with_encode_put _ index) by done. by rewrite put_put.
Qed.

Lemma good_kind_unit : good_kind KUnit.
Proof.
  intros _ index name [] _. exists (typed_count 0). split.
  - intros self Hm. simpl. unfold serialize_unit_variant.
    rewrite <- (variant_with_count index name 0 self Hm).
    by destruct (ser_mode (write_tag TagEnum self)).
  - simpl. apply (reads_bind_nil _ _ _ _ _ md); [apply reads_mode|]. unfold typed_count.
    destruct (decide (md = TypedStable)); [|apply reads_ret].
    rewrite <- (app_nil_r (encode_u64 _ _)). eapply reads_bind; [apply reads_usize; int_lia|].
    rewrite decide_False by lia. apply reads_ret.
Qed.

Lemma good_kind_newtype t : good_ty t -> good_kind (KNewtype t).
Proof.
  intros Ht Hwf index name v Hf. destruct (Ht Hwf v Hf) as (e & Hw & Hr).
  exists (typed_count 1 ++ e). split.
  - intros self Hm. simpl. unfold serialize_newtype_variant.
    rewrite (variant_with_count index name 1 self Hm), Hw by done.
    by rewrite put_put, <- !app_assoc.
  - simpl. apply (reads_bind_nil _ _ _ _ _ md); [apply reads_mode|]. unfold typed_count.
    destruct (decide (md = TypedStable)); [|done].
    eapply reads_bind; [apply reads_usize; int_lia|]. by rewrite decide_False by lia.
Qed.

Lemma good_kind_tuple fs : good_fields fs -> good_kind (KTuple fs).
Proof.
  intros Hfs [Hwf Hu] index name v Hf. destruct (Hfs Hwf v Hf) as ((e & Hw & Hr) & _).
  exists (typed_count (field_count fs) ++ e). split.
  - intros self Hm. simpl. unfold seq_ser, serialize_tuple_variant.
    transitivity (rbind (Ok (put (tag_bytes md TagEnum ++ ident_bytes index name ++
                    typed_count (field_count fs)) self)) (ser_fields fs false v)).
    + f_equal. rewrite <- (variant_with_count index name (field_count fs) self Hm).
      by destruct (ser_mode (write_tag TagEnum self)).
    + simpl. rewrite Hw by done. by rewrite put_put, <- !app_assoc.
  - simpl. apply reads_typed_count; [done|done|]. by apply Hr.
Qed.

Lemma good_kind_struct fs : good_fields fs -> good_kind (KStruct fs).
Proof.
  intros Hfs (Hwf & Hu & Hn) index name v Hf.
  destruct (struct_fields fs v Hfs Hwf Hu Hn Hf) as (e & Hw & Hp & Hs).
  exists ((if decide (md = Positional) then [] else encode_u64 [] (field_count fs)) ++ e). split.
  - intros self Hm. simpl. unfold seq_ser, serialize_struct_variant.
    transitivity (rbind (Ok (put ((tag_bytes md TagEnum ++ ident_bytes index name) ++
      (if decide (md = Positional) then [] else encode_u64 [] (field_count fs))) self))
      (ser_fields fs true v)).
    + f_equal. rewrite <- put_put, <- variant_header_put by done. unfold variant_header.
      destruct (decide (md = Positional)) as [Hmd|Hmd].
      * rewrite put_nil. rewrite (write_tag_put md) by done. simpl. by rewrite Hm, Hmd.
      * rewrite (write_tag_put md) by done. simpl. rewrite Hm.
        destruct md; try done; by rewrite write_usize_put.
    + simpl. rewrite Hw by done. by rewrite put_put, <- !app_assoc.
  - simpl. apply (reads_bind_nil _ _ _ _ _ md); [apply reads_mode|].
    destruct (decide (md = Positional)) as [Hmd|Hmd].
    + specialize (Hp Hmd). destruct md; done.
    + specialize (Hs Hmd). destruct md; done.
Qed.

Lemma good_variants_cons n k vs : good_kind k -> good_variants vs -> good_variants (VCons n k vs).
Proof.
  intros Hk Hvs [Hwk Hwvs] Hnd index v Hf. apply NoDup_cons in Hnd as [Hn Hnd].
  simpl in Hf. pose proof (zlen_nonneg (variant_names vs)).
  cbn [variant_names]. rewrite zlen_cons. destruct v as [v|v].
  - destruct (Hk Hwk index n v Hf) as (e & Hw & Hr). exists index, n, e.
    split_and!; [done|apply elem_of_cons; by left|lia|lia|].
    simpl. assert ((match ident_of index n with ByName m => bool_decide (m = n)
                    | ByIndex i => bool_decide (i = index) end) = true) as ->.
    { unfold ident_of. destruct md; by apply bool_decide_eq_true_2. }
    by apply (reads_bind_ret md false _ inl).
  - destruct (Hvs Hwvs Hnd (index + 1) v Hf) as (i & name & e & Hw & Hin & Hi & Hr).
    exists i, name, e. split_and!; [done|apply elem_of_cons; by right|lia|lia|].
    simpl. assert ((match ident_of i name with ByName m => bool_decide (m = n)
                    | ByIndex i => bool_decide (i = index) end) = false) as ->.
    { unfold ident_of. destruct md; apply bool_decide_eq_false_2; try lia; by intros ->. }
    by apply (reads_bind_ret md false _ inr).
Qed.

(** An identifier is read back where identifiers are untagged. *)
Lemma reads_ident index name :
  u32 index -> name_ok name ->
  reads md true (deserialize_identifier ident_visitor) (ident_bytes index name)
    (ident_of index name).
Proof.
  intros Hi [Hl Hu]. unfold deserialize_identifier, ident_bytes, ident_of.
  apply (reads_bind_nil _ _ _ _ _ md); [apply reads_mode|].
  assert (Hstr : reads md true (str_body ident_visitor) (str_bytes name) (ByName name)).
  { rewrite <- (app_nil_r (str_bytes name)). eapply reads_bind; [by apply reads_str|apply reads_ret]. }
  destruct md eqn:Hmd; [done| |].
  - apply (reads_bind_nil _ _ _ _ _ false); [|done].
    intros d rest Hr Htag _. unfold gets.
    by rewrite Htag, zlen_nil, Z.add_0_r, set_pos_same.
  - rewrite <- (app_nil_r (encode_u64 _ _)). eapply reads_bind; [|apply reads_ret].
    apply reads_varint. intros rest. by apply decode_encode_narrow.
Qed.

Lemma good_enum vs : good_variants vs -> good_ty (TEnum vs).
Proof.
  intros Hvs (Hwf & Hlen & Hnd & Hok) v Hf.
  destruct (Hvs Hwf Hnd 0 v Hf) as (i & name & e & Hw & Hin & Hi & Hr).
  exists (tag_bytes md TagEnum ++ ident_bytes i name ++ e). split; [done|].
  simpl. apply reads_with_tag, reads_with_untagged. simpl. eapply reads_bind.
  - apply reads_ident.
    + revert Hi Hlen. unfold in_u. lia.
    + by apply (proj1 (Forall_forall _ _) Hok).
  - by apply reads_weaken.
Qed.

Lemma good_option t : good_ty t -> good_ty (TOption t).
Proof.
  intros Ht Hwf v Hf.
  set (mark := if decide (md = TypedStable) then [] else [if v then 1 else 0]).
  assert (Hmark : forall tag k a e,
    (tag = if v then TagSome else TagNone) ->
    reads md false k e a ->
    (k = if v then visit_some (option_visitor (de t)) else visit_none (option_visitor (de t))) ->
    reads md false (deserialize_option (option_visitor (de t))) (tag_bytes md tag ++ mark ++ e) a).
  { intros tag k a e Htag Hk Hkv. unfold deserialize_option, mark, tag_bytes.
    apply (reads_bind_nil _ _ _ _ _ md); [apply reads_mode|].
    destruct (decide (md = TypedStable)) as [Hmd|Hmd].
    - eapply reads_bind; [by apply reads_read_tag|]. subst tag k. by destruct v.
    - apply (reads_bind md false _ _ [if v then 1 else 0] e (if v then 1 else 0)); [apply reads_u8|].
      subst k. by destruct v. }
  assert (Hw : forall tag self, ser_mode self = md ->
    (if is_typed (write_tag tag self) then write_tag tag self
     else put [if v then 1 else 0] (write_tag tag self)) = put (tag_bytes md tag ++ mark) self).
  { intros tag self Hm. rewrite (write_tag_put md), (is_typed_put md) by done. unfold mark.
    destruct (decide (md = TypedStable)).
    - by rewrite bool_decide_eq_true_2, app_nil_r.
    - by rewrite bool_decide_eq_false_2, put_put. }
  destruct v as [v|].
  - destruct (Ht Hwf v Hf) as (e & Hwe & Hre).
    exists (tag_bytes md TagSome ++ mark ++ e). split.
    + intros self Hm. simpl. unfold serialize_some. rewrite Hw, Hwe by done.
      by rewrite put_put, <- app_assoc.
    + eapply Hmark; [done|by apply (reads_bind_ret md false (de t) Some)|done].
  - exists (tag_bytes md TagNone ++ mark). split.
    + intros self Hm. simpl. unfold serialize_none. by rewrite Hw.
    + rewrite <- (app_nil_r mark). eapply Hmark; [done|apply reads_ret|done].
Qed.

(** A tag, a length and a body. *)
Lemma roundtrips_counted {A} tag n (body : Ser) (k : Z -> M A) e a :
  u64 n -> writes md body e -> reads md false (k n) e a ->
  roundtrips md (seq_ser (fun self => Ok (write_usize n (write_tag tag self))) body)
    (bind (expect_tag tag) (fun _ => bind read_varint_usize k)) a.
Proof.
  intros Hn Hw Hk. exists (tag_bytes md tag ++ encode_u64 [] n ++ e). split.
  - intros self Hm. unfold seq_ser. cbn [rbind].
    rewrite (write_tag_put md), write_usize_put, put_put, Hw by done.
    by rewrite put_put, <- app_assoc.
  - apply reads_with_tag. eapply reads_bind; [by apply reads_usize|done].
Qed.

Lemma good_seq t : good_ty t -> good_ty (TSeq t).
Proof.
  intros Ht Hwf v [Hl Hf].
  destruct (roundtrips_seq md (ser t) (de t) v) as (e & Hw & Hr).
  { eapply Forall_impl; [exact Hf|]. intros x. by apply Ht. }
  apply (roundtrips_counted TagSeq (zlen v) _ _ e); [done|done|].
  apply Hr, access_fuel_enough.
Qed.

Lemma good_map k t : good_ty k -> good_ty t -> good_ty (TMap k t).
Proof.
  intros Hk Ht [Hwk Hwt] v [Hl Hf].
  destruct (roundtrips_map md (ser k) (ser t) (de k) (de t) (fun _ => Err (Message "invalid type")) v)
    as (e & Hw & Hr).
  { eapply Forall_impl; [exact Hf|]. intros x [H1 H2]. split; [by apply Hk|by apply Ht]. }
  apply (roundtrips_counted TagMap (zlen v) _ _ e); [done|done|].
  apply (Hr _ []), access_fuel_enough.
Qed.

Lemma good_tuple fs : good_fields fs -> good_ty (TTuple fs).
Proof.
  intros Hfs [Hwf Hu] v Hf. destruct (Hfs Hwf v Hf) as ((e & Hw & Hr) & _).
  exists (tag_bytes md TagSeq ++ typed_count (field_count fs) ++ e). split.
  - intros self Hm. simpl. unfold seq_ser, serialize_tuple. cbn [rbind].
    rewrite (write_tag_put md), write_typed_count, Hw by done. by rewrite put_put, <- app_assoc.
  - simpl. apply reads_with_tag, reads_typed_count; [done|done|]. by apply Hr.
Qed.

Lemma good_struct fs : good_fields fs -> good_ty (TStruct fs).
Proof.
  intros Hfs (Hwf & Hu & Hn) v Hf.
  destruct (struct_fields fs v Hfs Hwf Hu Hn Hf) as (e & Hw & Hp & Hs).
  exists (tag_bytes md TagStruct ++
          (if decide (md = Positional) then [] else encode_u64 [] (field_count fs)) ++ e). split.
  - intros self Hm. simpl. unfold seq_ser, serialize_struct, is_stable_named. cbn [rbind].
    rewrite (write_tag_put md) by done. simpl. rewrite Hm.
    destruct (decide (md = Positional)) as [Hmd|Hmd].
    + rewrite Hmd at 1. simpl. rewrite Hw by done. by rewrite put_put.
    + assert ((match md with Stable | TypedStable => true | Positional => false end) = true) as ->
        by (by destruct md).
      rewrite write_usize_put, put_put, Hw by done. by rewrite put_put, <- app_assoc.
  - simpl. apply reads_with_tag, (reads_bind_nil _ _ _ _ _ md); [apply reads_mode|].
    destruct (decide (md = Positional)) as [Hmd|Hmd].
    + specialize (Hp Hmd). destruct md; done.
    + specialize (Hs Hmd). destruct md; done.
Qed.

Lemma all_good :
  (forall t, good_ty t) /\ (forall fs, good_fields fs) /\ (forall vs, good_variants vs) /\
  (forall k, good_kind k).
Proof.
  apply ty_combined.
  - intros s _ v. apply roundtrips_scalar.
  - apply good_option.
  - done.
  - apply good_seq.
  - apply good_tuple.
  - intros. by apply good_map.
  - apply good_struct.
  - apply good_enum.
  - intros _ [] _. split_and!.
    + exists []. split; [apply writes_nil|]. intros. apply reads_ret.
    + intros _. exists []. split; [apply writes_nil|]. intros. apply reads_ret.
    + intros _ _. exists []. split; [apply writes_nil|constructor].
  - intros. by apply good_fields_cons.
  - intros _ _ _ [].
  - intros. by apply good_variants_cons.
  - apply good_kind_unit.
  - apply good_kind_newtype.
  - apply good_kind_tuple.
  - apply good_kind_struct.
Qed.

End Roundtrip.

(** ** The codec's round trips *)

(** Every value has one encoding, after which its deserializer stops whatever
    follows. *)
Lemma encoding_delimited (md : EncodingMode) (t : ty) (v : val t) :
  wf_ty t -> fits t v ->
  exists enc, to_vec_with_mode (ser t v) md = Ok enc /\
    forall rest, zlen (enc ++ rest) < 2 ^ 64 ->
      de t (Deserializer_new (enc ++ rest) md)
        = (Ok v, set_pos (Deserializer_new (enc ++ rest) md) (zlen enc)).
Proof.
  intros Hwf Hf. destruct (all_good md) as (Hgood & _).
  destruct (Hgood t Hwf v Hf) as (enc & Hw & Hr). exists enc. split.
  - unfold to_vec_with_mode. by rewrite Hw.
  - intros rest Hlen. rewrite (Hr _ rest); [done| |done|done].
    split; simpl; try done. pose proof (zlen_nonneg (enc ++ rest)). lia.
Qed.

Lemma encoding_decodes (md : EncodingMode) (t : ty) (v : val t) :
  wf_ty t -> fits t v ->
  exists enc, to_vec_with_mode (ser t v) md = Ok enc /\
    (zlen enc < 2 ^ 64 -> from_bytes_with_mode (de t) enc md = Ok v).
Proof.
  intros Hwf Hf. destruct (encoding_delimited md t v Hwf Hf) as (enc & He & Hde).
  exists enc. split; [done|]. intros Hlen. specialize (Hde []). rewrite app_nil_r in Hde.
  unfold from_bytes_with_mode. rewrite Hde by done. simpl. by rewrite decide_False by tauto.
Qed.

(** C1: in every encoding mode and for every shape of value (scalars, options,
    newtypes, sequences, tuples, maps with any key, structs and enums, nested
    arbitrarily) serialization succeeds, deserializing the bytes returns the
    value, and the same bytes with anything appended are rejected as trailing. *)
Theorem codec_roundtrip (md : EncodingMode) (t : ty) (v : val t) :
  wf_ty t -> fits t v ->
  exists bytes, to_vec_with_mode (ser t v) md = Ok bytes /\
    (zlen bytes < 2 ^ 64 -> from_bytes_with_mode (de t) bytes md = Ok v) /\
    (forall rest, rest <> [] -> zlen (bytes ++ rest) < 2 ^ 64 ->
       from_bytes_with_mode (de t) (bytes ++ rest) md = Err TrailingBytes).
Proof.
  intros Hwf Hf. destruct (encoding_delimited md t v Hwf Hf) as (enc & He & Hde).
  destruct (encoding_decodes md t v Hwf Hf) as (enc' & He' & Hd).
  assert (enc' = enc) as -> by congruence. exists enc. split_and!; [done|done|]. intros rest Hne Hlen.
  unfold from_bytes_with_mode. rewrite Hde by done. simpl.
  rewrite decide_True; [done|]. rewrite zlen_app. destruct rest; [done|].
  rewrite zlen_cons. pose proof (zlen_nonneg rest). lia.
Qed.

(** A map from a two-variant enum to structs with an optional pair, typed. *)
Definition sample_ty : ty :=
  TMap (TEnum (VCons [97] KUnit (VCons [98] (KNewtype (TScalar SI16)) VNil)))
    (TStruct (FCons [120] (TOption (TTuple (FCons [] (TScalar SU8) (FCons [] (TScalar SStr) FNil))))
       FNil)).

Definition sample_val : val sample_ty :=
  [(inl tt, (Some (7, ([104; 105], tt)), tt)); (inr (inl (-300)), (None, tt))].

Lemma ascii_name_ok b : 0 <= b < 128 -> name_ok [b].
Proof.
  intros Hb. split; [unfold zlen; cbn [length]; int_lia|]. unfold is_utf8, from_utf8.
  cbn. by rewrite decide_True by lia.
Qed.

Lemma sample_wf : wf_ty sample_ty.
Proof.
  assert (Hs : names_ok [[120]]).
  { split; [apply NoDup_singleton|]. rewrite Forall_singleton. apply ascii_name_ok. lia. }
  assert (He : names_ok [[97]; [98]]).
  { split; [|repeat (constructor; [apply ascii_name_ok; lia|]); constructor].
    apply NoDup_cons. split; [|apply NoDup_singleton]. rewrite list_elem_of_singleton. done. }
  assert (H2 : u64 2) by int_lia. assert (H1 : u64 1) by int_lia.
  unfold sample_ty. cbn [wf_ty wf_fields wf_variants wf_kind]. unfold field_count, zlen.
  cbn [field_names variant_names length].
  repeat match goal with |- _ /\ _ => split end; try exact I; try exact H1; try exact H2;
    try exact Hs; try exact He. reflexivity.
Qed.

Lemma sample_fits : fits sample_ty sample_val.
Proof.
  assert (H2 : u64 2) by int_lia. assert (H7 : u8 7) by int_lia.
  assert (H3 : i16 (-300)) by int_lia.
  unfold sample_ty, sample_val. cbn [fits fits_variants fits_kind fits_fields fits_scalar].
  split; [exact H2|]. apply Forall_cons. split; [|apply Forall_singleton]; cbn [fst snd];
    repeat match goal with |- _ /\ _ => split end; try exact I; try exact H2; try exact H7;
    try exact H3. vm_compute. reflexivity.
Qed.

Lemma codec_roundtrip_witness :
  exists bytes, to_vec_with_mode (ser sample_ty sample_val) TypedStable = Ok bytes /\
    (zlen bytes < 2 ^ 64 -> from_bytes_with_mode (de sample_ty) bytes TypedStable = Ok sample_val) /\
    (forall rest, rest <> [] -> zlen (bytes ++ rest) < 2 ^ 64 ->
       from_bytes_with_mode (de sample_ty) (bytes ++ rest) TypedStable = Err TrailingBytes).
Proof.
  exact (codec_roundtrip TypedStable sample_ty sample_val sample_wf sample_fits).
Defined.

(** skipping an unknown field consumes none of its bytes, so a reader whose
    schema lacks a field does not skip it but reads on inside it.  Here the bytes
    of [{a: "b", b: None}] in the name-based mode decode, for a reader that only
    knows [b], to [b = Some (98, 0)], without an error. *)
Theorem unknown_field_misread :
  let pair := TTuple (FCons [] (TScalar SU8) (FCons [] (TScalar SU8) FNil)) in
  let writer := TStruct (FCons [97] (TScalar SStr) (FCons [98] (TOption pair) FNil)) in
  let reader := TStruct (FCons [98] (TOption pair) FNil) in
  exists bytes,
    to_vec_with_mode (ser writer ([98], (None, tt))) Stable = Ok bytes /\
    from_bytes_with_mode (de writer) bytes Stable = Ok ([98], (None, tt)) /\
    from_bytes_with_mode (de reader) bytes Stable = Ok (Some (98, (0, tt)), tt).
Proof.
  exists [2; 1; 97; 1; 98; 1; 98; 0]. split; [|split]; vm_compute; reflexivity.
Qed.
