(* ===== verification/SerdeLimits.v ===== *)
(** * Decoding under limits

    [from_bytes_bounded] decodes untrusted positional input under a budget.  This
    file proves what a successful decode guarantees about the value it returns:
    every declared length was admitted by the budget. *)

From S2P Require Import Prelude Utf8 Varint Ser De SerdeData.

(** ** What a value declares *)

Definition sum_of {A} (f : A -> Z) (l : list A) : Z := foldr (fun x n => f x + n) 0 l.

(** The entries of all its sequences and maps. *)
Fixpoint declared (t : ty) : val t -> Z :=
  match t with
  | TScalar _ => fun _ => 0
  | TOption t => fun v => match v with Some v => declared t v | None => 0 end
  | TNewtype t => declared t
  | TSeq t => fun v => zlen v + sum_of (declared t) v
  | TTuple fs | TStruct fs => declared_fields fs
  | TMap k t => fun v => zlen v + sum_of (fun x => declared k x.1 + declared t x.2) v
  | TEnum vs => declared_variants vs
  end
with declared_fields (fs : fields) : fields_val fs -> Z :=
  match fs with
  | FNil => fun _ => 0
  | FCons _ t fs => fun v => declared t v.1 + declared_fields fs v.2
  end
with declared_variants (vs : variants) : variants_val vs -> Z :=
  match vs with
  | VNil => fun _ => 0
  | VCons _ k vs => fun v =>
      match v with inl v => declared_kind k v | inr v => declared_variants vs v end
  end
with declared_kind (k : vkind) : kind_val k -> Z :=
  match k with
  | KUnit => fun _ => 0
  | KNewtype t => declared t
  | KTuple fs | KStruct fs => declared_fields fs
  end.

Section Limits.
Context (l : DecodeLimits).

Definition scalar_within (s : scalar) : scalar_val s -> Prop :=
  match s with
  | SStr | SBytes => fun b => zlen b <= max_blob_bytes l
  | _ => fun _ => True
  end.

(** Every blob and every container within its own limit. *)
Fixpoint within (t : ty) : val t -> Prop :=
  match t with
  | TScalar s => scalar_within s
  | TOption t => fun v => match v with Some v => within t v | None => True end
  | TNewtype t => within t
  | TSeq t => fun v => zlen v <= max_container_entries l /\ Forall (within t) v
  | TTuple fs | TStruct fs => within_fields fs
  | TMap k t => fun v =>
      zlen v <= max_container_entries l /\ Forall (fun x => within k x.1 /\ within t x.2) v
  | TEnum vs => within_variants vs
  end
with within_fields (fs : fields) : fields_val fs -> Prop :=
  match fs with
  | FNil => fun _ => True
  | FCons _ t fs => fun v => within t v.1 /\ within_fields fs v.2
  end
with within_variants (vs : variants) : variants_val vs -> Prop :=
  match vs with
  | VNil => fun _ => True
  | VCons _ k vs => fun v =>
      match v with inl v => within_kind k v | inr v => within_variants vs v end
  end
with within_kind (k : vkind) : kind_val k -> Prop :=
  match k with
  | KUnit => fun _ => True
  | KNewtype t => within t
  | KTuple fs | KStruct fs => within_fields fs
  end.

(** ** A logic for successful runs *)

Record limited (d : Deserializer) : Prop := {
  li_mode : mode d = Positional;
  li_limits : limits d = Some l;
  li_entries : 0 <= remaining_entries d;
}.

(** A successful run keeps the deserializer limited; its result and the entries it
    took from the budget satisfy [R]. *)
Definition spends {A} (m : M A) (R : A -> Z -> Prop) : Prop :=
  forall d a d', limited d -> m d = (Ok a, d') ->
    limited d' /\ R a (remaining_entries d - remaining_entries d').

Lemma spends_bind {A B} (m : M A) (k : A -> M B) R1 R2 :
  spends m R1 -> (forall a n, R1 a n -> spends (k a) (fun b n' => R2 b (n + n'))) ->
  spends (bind m k) R2.
Proof.
  intros Hm Hk d b d' Hd. unfold bind. destruct (m d) as [[a|e] d1] eqn:Hma; [|done]. intros Hb.
  destruct (Hm d a d1 Hd Hma) as [Hd1 HR]. destruct (Hk a _ HR d1 b d' Hd1 Hb) as [Hd' HR'].
  split; [done|]. by replace (remaining_entries d - remaining_entries d') with
    (remaining_entries d - remaining_entries d1 + (remaining_entries d1 - remaining_entries d')) by lia.
Qed.

Lemma spends_mono {A} (m : M A) (R R' : A -> Z -> Prop) :
  spends m R -> (forall a n, R a n -> R' a n) -> spends m R'.
Proof. intros H HR d a d' Hd Hm. destruct (H d a d' Hd Hm). auto. Qed.

Lemma spends_ret {A} (a : A) (R : A -> Z -> Prop) : R a 0 -> spends (ret a) R.
Proof. intros H d b d' Hd [= <- <-]. by rewrite Z.sub_diag. Qed.

Lemma spends_throw {A} e (R : A -> Z -> Prop) : spends (throw e) R.
Proof. by intros d a d' _ ?. Qed.

Lemma spends_lift {A} (r : result Error A) (R : A -> Z -> Prop) :
  (forall a, r = Ok a -> R a 0) -> spends (lift r) R.
Proof. intros H d a d' Hd [= Hr <-]. rewrite Z.sub_diag. auto. Qed.

Lemma spends_gets {A} (f : Deserializer -> A) (R : A -> Z -> Prop) :
  (forall d, limited d -> R (f d) 0) -> spends (gets f) R.
Proof. intros H d a d' Hd [= <- <-]. rewrite Z.sub_diag. auto. Qed.

(** Reads that leave the budget alone. *)
Definition free {A} (m : M A) (Q : A -> Prop) : Prop := spends m (fun a n => n = 0 /\ Q a).

Lemma free_bind {A B} (m : M A) (k : A -> M B) Q R :
  free m Q -> (forall a, Q a -> spends (k a) R) -> spends (bind m k) R.
Proof.
  intros Hm Hk. eapply spends_bind; [exact Hm|]. intros a n [-> Ha].
  eapply spends_mono; [by apply Hk|]. intros b n. by rewrite Z.add_0_l.
Qed.

Lemma free_consume n : free (consume n) (fun bytes => 0 <= n -> zlen bytes <= n).
Proof.
  intros d bytes d' [] H. unfold consume in H. destruct (checked_add _ _ _); [|done].
  case_decide; [done|]. injection H as <- <-. split; [by split|]. simpl. split; [lia|].
  intros Hn. unfold zlen. rewrite length_take. lia.
Qed.

Lemma free_varint decode (Q : Z -> Prop) :
  (forall rest v n, decode rest = Some (v, n) -> Q v) -> free (read_varint decode) Q.
Proof.
  intros HQ d v d' [] H. unfold read_varint in H. destruct (decode _) as [[v' n]|] eqn:Hd; [|done].
  injection H as <- <-. split; [by split|]. simpl. split; [lia|by eapply HQ].
Qed.

Lemma decode_usize_nonneg rest v n : decode_usize rest = Some (v, n) -> 0 <= v.
Proof.
  unfold decode_usize, decode_narrow. destruct (decode_u64 rest) as [[w k]|]; [|done].
  unfold try_from_u. case_decide; [|done]. intros [= <- _]. lia.
Qed.

Lemma spends_usize :
  spends read_varint_usize (fun v n => n = v /\ 0 <= v <= max_container_entries l).
Proof.
  eapply free_bind; [apply free_varint, decode_usize_nonneg|]. intros v Hv d v' d' [] H.
  rewrite li_limits0 in H. case_decide; [done|]. injection H as <- <-.
  split; [split; simpl; done || lia|]. simpl. lia.
Qed.

Lemma free_read_bytes : free read_bytes (fun b => zlen b <= max_blob_bytes l).
Proof.
  eapply free_bind; [apply free_varint, decode_usize_nonneg|]. intros len Hlen.
  eapply free_bind; [apply (spends_gets limits (fun x n => n = 0 /\ x = Some l))|].
  - by intros d [].
  - intros x ->. destruct (bool_decide (max_blob_bytes l < len)) eqn:Hb; [apply spends_throw|].
    apply bool_decide_eq_false in Hb. eapply spends_mono; [apply free_consume|].
    intros b n [-> H]. split; [done|]. specialize (H Hlen). lia.
Qed.

Lemma free_read_str : free read_str (fun b => zlen b <= max_blob_bytes l).
Proof.
  eapply free_bind; [apply free_read_bytes|]. intros b Hb.
  destruct (is_utf8 b); [by apply spends_ret|apply spends_throw].
Qed.

Lemma free_mode : free (gets mode) (fun m => m = Positional).
Proof. apply spends_gets. by intros d []. Qed.

Lemma free_expect_tag tag : free (expect_tag tag) (fun _ => True).
Proof.
  unfold expect_tag, read_tag. eapply free_bind.
  - eapply free_bind; [apply free_mode|]. intros m ->. rewrite decide_True by done.
    by apply (spends_ret None (fun o n => n = 0 /\ o = None)).
  - intros o ->. by apply spends_ret.
Qed.

Lemma spends_tagged {A} tag (k : M A) R :
  spends k R -> spends (bind (expect_tag tag) (fun _ => k)) R.
Proof. intros H. eapply free_bind; [apply free_expect_tag|done]. Qed.

Lemma spends_with_tagged {A} b (m : M A) R : spends m R -> spends (with_tagged b m) R.
Proof.
  intros H d a d' [] Hm. unfold with_tagged in Hm.
  destruct (m (set_tagged d b)) as [r d1] eqn:Hd1. injection Hm as -> <-.
  destruct (H (set_tagged d b) a d1) as [[] HR]; [by split|done|]. by split.
Qed.

Lemma spends_next_value {A} (m : M A) acc R : spends m R -> spends (next_value_seed m acc) R.
Proof.
  intros H d a d' Hd. unfold next_value_seed.
  destruct (_ && _); by apply (spends_with_tagged _ _ _ H).
Qed.

Lemma free_u8 : free read_u8 (fun _ => True).
Proof. eapply free_bind; [apply free_consume|]. intros. by apply spends_ret. Qed.

(** ** Every shape *)

Lemma free_scalar s : free (de_scalar s) (scalar_within s).
Proof.
  destruct s; simpl; apply spends_tagged;
    try (eapply free_bind; [apply (free_varint _ (fun _ => True)); done|]; intros v _).
  - by apply spends_ret.
  - eapply free_bind; [apply free_u8|]. intros [|[]|] _; try apply spends_throw; by apply spends_ret.
  - apply (free_bind _ _ (fun _ => True)); [|intros; by apply spends_ret]. apply spends_lift. done.
  - by apply spends_ret.
  - by apply spends_ret.
  - by apply spends_ret.
  - eapply free_bind; [apply free_u8|]. intros. by apply spends_ret.
  - by apply spends_ret.
  - by apply spends_ret.
  - by apply spends_ret.
  - eapply free_bind; [apply free_consume|]. intros. by apply spends_ret.
  - eapply free_bind; [apply free_consume|]. intros. by apply spends_ret.
  - apply (free_bind _ _ (fun _ => True)); [|intros; by apply spends_ret]. apply spends_lift. done.
  - eapply free_bind; [apply free_read_str|]. intros. by apply spends_ret.
  - eapply free_bind; [apply free_read_bytes|]. intros. by apply spends_ret.
Qed.

(** Mapping the result. *)
Lemma spends_map {A B} (m : M A) (f : A -> B) (R : B -> Z -> Prop) :
  spends m (fun a n => R (f a) n) -> spends (bind m (fun a => ret (f a))) R.
Proof.
  intros H. eapply spends_bind; [exact H|]. intros a n Hr. apply spends_ret. by rewrite Z.add_0_r.
Qed.

Lemma sum_of_app {A} (f : A -> Z) a b : sum_of f (a ++ b) = sum_of f a + sum_of f b.
Proof. induction a as [|x a IH]; simpl; [done|]. rewrite IH. lia. Qed.

Lemma spends_seq_loop {A} (seed : M A) (c : A -> Z) (Q : A -> Prop) fuel n raw :
  spends seed (fun a k => k = c a /\ Q a) -> 0 <= n ->
  spends (seq_loop fuel seed (mkAccess n raw))
    (fun xs k => k = sum_of c xs /\ Forall Q xs /\ zlen xs = n).
Proof.
  intros Hs. revert n. induction fuel as [|fuel IH]; intros n Hn; simpl; [apply spends_throw|].
  unfold next_element_seed. cbn [left raw_keys]. case_decide as H0.
  - apply (free_bind _ _ (fun x => x = (None, mkAccess n raw))); [by apply spends_ret|].
    intros ? ->. apply spends_ret. split_and!; [done|constructor|]. by rewrite zlen_nil.
  - apply (spends_bind _ _ (fun x k => exists a, x = (Some a, mkAccess (n - 1) raw) /\
      k = c a /\ Q a)).
    + apply spends_map. eapply spends_mono; [exact Hs|]. intros a k [-> HQ]. by exists a.
    + intros x k (a & -> & -> & HQ). eapply spends_bind; [apply IH; lia|].
      intros xs k (-> & HF & Hl). apply spends_ret. split_and!; [simpl; lia|by constructor|].
      rewrite zlen_cons. lia.
Qed.

Lemma spends_map_loop {K T} (sk : M K) (st : M T) bad_key (ck : K -> Z) (ct : T -> Z)
    (Qk : K -> Prop) (Qt : T -> Prop) fuel n acc0 :
  spends sk (fun a k => k = ck a /\ Qk a) -> spends st (fun a k => k = ct a /\ Qt a) -> 0 <= n ->
  spends (map_loop fuel (mkSeed sk bad_key)
            (fun r key acc => let! v := next_value_seed st acc in ret (r ++ [(key, v)])) acc0
            (mkAccess n false))
    (fun r k => exists xs, r = acc0 ++ xs /\ k = sum_of (fun x => ck x.1 + ct x.2) xs /\
       Forall (fun x => Qk x.1 /\ Qt x.2) xs /\ zlen xs = n).
Proof.
  intros Hk Ht. revert n acc0. induction fuel as [|fuel IH]; intros n acc0 Hn; simpl;
    [apply spends_throw|].
  unfold next_key_seed. cbn [left raw_keys from_de]. case_decide as H0.
  - apply (free_bind _ _ (fun x => x = (None, mkAccess n false))); [by apply spends_ret|].
    intros ? ->. apply spends_ret. exists []. rewrite app_nil_r.
    split_and!; [done|done|constructor|]. by rewrite zlen_nil.
  - apply (spends_bind _ _ (fun x k => exists a, x = (Some a, mkAccess (n - 1) false) /\
      k = ck a /\ Qk a)).
    + apply spends_map. eapply spends_mono; [apply spends_with_tagged, Hk|].
      intros a k [-> HQ]. by exists a.
    + intros x k (a & -> & -> & HQ).
      apply (spends_bind _ _ (fun x k => exists v, x = acc0 ++ [(a, v)] /\ k = ct v /\ Qt v)).
      * apply spends_map. eapply spends_mono; [apply spends_next_value, Ht|].
        intros v k [-> HQt]. by exists v.
      * intros r k (v & -> & -> & HQt). eapply spends_mono; [apply IH; lia|].
        intros r k (xs & -> & -> & HF & Hl). exists ((a, v) :: xs). rewrite <- app_assoc.
        split_and!; [done|simpl; lia|by constructor|]. rewrite zlen_cons. lia.
Qed.

Definition bounded_ty (t : ty) : Prop :=
  spends (de t) (fun v n => n = declared t v /\ within t v).
Definition bounded_fields (fs : fields) : Prop :=
  forall acc, spends (de_seq fs acc) (fun v n => n = declared_fields fs v /\ within_fields fs v).
Definition bounded_variants (vs : variants) : Prop :=
  forall index id, spends (de_variants vs index id Direct)
    (fun v n => n = declared_variants vs v /\ within_variants vs v).
Definition bounded_kind (k : vkind) : Prop :=
  spends (de_kind k Direct) (fun v n => n = declared_kind k v /\ within_kind k v).

Lemma bounded_option t : bounded_ty t -> bounded_ty (TOption t).
Proof.
  intros Ht. eapply free_bind; [apply free_mode|]. intros m ->. rewrite decide_False by done.
  eapply free_bind; [apply free_u8|]. intros b _.
  assert (Hsome : spends (visit_some (option_visitor (de t)))
    (fun v n => n = declared (TOption t) v /\ within (TOption t) v)) by (by apply spends_map).
  destruct b as [|[]|]; try apply spends_throw; [by apply spends_ret|done].
Qed.

Lemma bounded_seq t : bounded_ty t -> bounded_ty (TSeq t).
Proof.
  intros Ht. apply spends_tagged. eapply spends_bind; [apply spends_usize|]. intros len n [-> Hl].
  eapply spends_mono; [apply (spends_seq_loop (de t) (declared t) (within t) _ len false Ht); lia|].
  intros xs k (-> & HF & Hx).
  change (len + sum_of (declared t) xs = zlen xs + sum_of (declared t) xs /\
          zlen xs <= max_container_entries l /\ Forall (within t) xs).
  subst len. split; [reflexivity|]. split; [apply Hl|done].
Qed.

Lemma bounded_map k t : bounded_ty k -> bounded_ty t -> bounded_ty (TMap k t).
Proof.
  intros Hk Ht. apply spends_tagged. eapply spends_bind; [apply spends_usize|].
  intros len n [-> Hl].
  eapply spends_mono;
    [apply (spends_map_loop (de k) (de t) _ (declared k) (declared t) (within k) (within t) _ len
       [] Hk Ht); lia|].
  intros r j (xs & -> & -> & HF & Hx). cbn [app].
  change (len + sum_of (fun x => declared k x.1 + declared t x.2) xs
            = zlen xs + sum_of (fun x => declared k x.1 + declared t x.2) xs /\
          zlen xs <= max_container_entries l /\ Forall (fun x => within k x.1 /\ within t x.2) xs).
  subst len. split; [reflexivity|]. split; [apply Hl|done].
Qed.

Lemma bounded_fields_cons n t fs :
  bounded_ty t -> bounded_fields fs -> bounded_fields (FCons n t fs).
Proof.
  intros Ht Hfs [k raw]. simpl. unfold next_element_seed. cbn [left raw_keys]. case_decide.
  - apply (free_bind _ _ (fun x => x.1 = None)); [by apply spends_ret|].
    intros [x acc] Hx. simpl in Hx. subst x. apply spends_throw.
  - apply (spends_bind _ _ (fun x j => exists a, x.1 = Some a /\ j = declared t a /\ within t a)).
    + apply spends_map. eapply spends_mono; [exact Ht|]. intros a j [-> Hw]. by exists a.
    + intros [x acc] j (a & Hx & -> & Hw). simpl in Hx. subst x. apply spends_map.
      eapply spends_mono; [apply Hfs|]. intros vs j (-> & Hws). simpl. split_and!; [lia|done|done].
Qed.

Lemma bounded_enum vs : bounded_variants vs -> bounded_ty (TEnum vs).
Proof.
  intros Hvs. apply spends_tagged, spends_with_tagged. simpl.
  eapply (free_bind _ _ (fun _ => True)); [|intros id _; apply Hvs].
  unfold deserialize_identifier. eapply free_bind; [apply free_mode|]. intros m ->.
  eapply free_bind; [by apply (free_varint _ (fun _ => True))|]. intros. by apply spends_ret.
Qed.

Lemma bounded_kinds :
  bounded_kind KUnit /\ (forall t, bounded_ty t -> bounded_kind (KNewtype t)) /\
  (forall fs, bounded_fields fs -> bounded_kind (KTuple fs)) /\
  (forall fs, bounded_fields fs -> bounded_kind (KStruct fs)).
Proof.
  split_and!; intros; (eapply free_bind; [apply free_mode|]); intros m ->;
    rewrite ?decide_False by done.
  - by apply spends_ret.
  - done.
  - eapply (free_bind _ _ (fun _ => True)); [by apply spends_ret|]. intros n _. apply H.
  - apply H.
Qed.

Lemma all_bounded : forall t, bounded_ty t.
Proof.
  destruct bounded_kinds as (K1 & K2 & K3 & K4).
  apply (ty_mut bounded_ty bounded_fields bounded_variants bounded_kind); intros.
  - eapply spends_mono; [apply free_scalar|]. by intros v n [-> H].
  - by apply bounded_option.
  - done.
  - by apply bounded_seq.
  - apply spends_tagged. eapply free_bind; [apply free_mode|]. intros m ->.
    rewrite decide_False by done.
    eapply (free_bind _ _ (fun _ => True)); [by apply spends_ret|]. intros n _. apply H.
  - by apply bounded_map.
  - apply spends_tagged. eapply free_bind; [apply free_mode|]. intros m ->. apply H.
  - by apply bounded_enum.
  - intros acc. by apply spends_ret.
  - by apply bounded_fields_cons.
  - intros index id. apply spends_throw.
  - intros index id. simpl. destruct (match id with ByName _ => _ | ByIndex _ => _ end).
    + by apply spends_map.
    + apply spends_map, H0.
  - done.
  - auto.
  - auto.
  - auto.
Qed.

(** C23: a value decoded from untrusted bytes under limits never exceeds them: the
    input is within [max_input_bytes], every string and byte buffer within
    [max_blob_bytes], every sequence and map within [max_container_entries], and
    all their entries together within [max_total_entries]; zero-sized elements,
    which cost no input bytes, are counted like any other. *)
Theorem bounded_decode_within_limits (t : ty) (bytes : list Z) (v : val t) :
  0 <= max_total_entries l -> from_bytes_bounded (de t) bytes l = Ok v ->
  zlen bytes <= max_input_bytes l /\ declared t v <= max_total_entries l /\ within t v.
Proof.
  intros Ht. unfold from_bytes_bounded. case_decide as Hb; [done|]. cbn zeta.
  set (d0 := mkDeserializer bytes 0 Positional false (Some l) (max_total_entries l)).
  destruct (de t d0) as [[a|e] d'] eqn:Hd; [|done]. case_decide; [done|]. intros [= ->].
  destruct (all_bounded t d0 v d') as [[_ _ Hr] [Hn Hw]]; [by split|done|].
  simpl in Hn. split_and!; [lia|lia|done].
Qed.

End Limits.

(** Two sequences of units in a sequence: eight entries in three bytes. *)
Lemma bounded_decode_within_limits_witness :
  let l := mkLimits 64 8 4 8 in
  let t := TSeq (TSeq (TScalar SUnit)) in
  3 <= 64 /\ declared t [[tt; tt; tt]; [tt; tt; tt]] <= 8 /\
  within l t [[tt; tt; tt]; [tt; tt; tt]] /\
  is_ok (from_bytes_bounded (de t) [2; 3; 3] (mkLimits 64 8 4 7)) = false.
Proof.
  destruct (bounded_decode_within_limits (mkLimits 64 8 4 8) (TSeq (TSeq (TScalar SUnit)))
    [2; 3; 3] [[tt; tt; tt]; [tt; tt; tt]]) as (H1 & H2 & H3).
  - vm_compute. discriminate.
  - vm_compute. reflexivity.
  - split; [exact H1|]. split; [exact H2|]. split; [exact H3|]. vm_compute. reflexivity.
Defined.
