(* ===== verification/Compression.v ===== *)
(** * Payload and frame compression

    packages/ipc/src/compression.rs and the wire identifier of
    packages/attach-image-protocol/src/lib.rs: the codec trait, its zstd and lz4
    implementations, and the helpers that choose a codec, compress when it pays
    and decompress by identifier.  The zstd and lz4 libraries are parameters
    ([CompressionLibs]) with their documented behaviour ([LibraryLaws]); the
    promise a codec makes to the framing layer is the class [WireCodec], which the
    two implementations discharge. *)

From S2P Require Import Prelude.

Open Scope bmux_scope.

Inductive CompressionId : Set := CompressionNone | Zstd | Lz4.

#[export] Instance CompressionId_eq_dec : EqDecision CompressionId.
Proof. solve_decision. Defined.

(** [id as u8]: the enum's [repr(u8)] discriminants. *)
Definition id_byte (id : CompressionId) : Z :=
  match id with CompressionNone => 0 | Zstd => 1 | Lz4 => 2 end.

Definition from_byte (b : Z) : option CompressionId :=
  match b with
  | 0 => Some CompressionNone
  | 1 => Some Zstd
  | 2 => Some Lz4
  | _ => None
  end.

Inductive CompressionHint : Set := BulkPayload | FrameHint.

Inductive CompressionError :=
| DecompressFailed (msg : string)
| UnknownCodec (id : Z).

(** The trait object [dyn CompressionCodec]. *)
Record CompressionCodec := mkCompressionCodec {
  id : CompressionId;
  compress : list Z -> CompressionHint -> option (list Z);
  decompress : list Z -> result CompressionError (list Z);
  threshold : CompressionHint -> Z
}.

(** The functions of the zstd and lz4 crates the codecs call: a compressor with
    its level, a decompressor with its output capacity, lz4 with a length
    prefix. *)
Record CompressionLibs := mkCompressionLibs {
  zstd_bulk_compress : list Z -> Z -> option (list Z);
  zstd_bulk_decompress : list Z -> Z -> result string (list Z);
  lz4_compress_prepend_size : list Z -> list Z;
  lz4_decompress_size_prepended : list Z -> result string (list Z)
}.

(** What the crates document: decompression inverts compression when the output
    fits the given capacity, never produces more than the capacity, and the lz4
    length prefix is a [u32]. *)
Class LibraryLaws (L : CompressionLibs) : Prop := {
  zstd_inverse : forall x level y cap,
    zstd_bulk_compress L x level = Some y -> zlen x <= cap ->
    zstd_bulk_decompress L y cap = Ok x;
  zstd_capacity : forall y cap x, zstd_bulk_decompress L y cap = Ok x -> zlen x <= cap;
  lz4_inverse : forall x,
    zlen x < 2 ^ 32 ->
    lz4_decompress_size_prepended L (lz4_compress_prepend_size L x) = Ok x
}.

(** The crate features that compile the codecs in. *)
Record Features := mkFeatures { compression_zstd : bool; compression_lz4 : bool }.

Section Codecs.

Context (F : Features) (L : CompressionLibs).

Definition map_decompress {A} (r : result string A) : result CompressionError A :=
  match r with Ok a => Ok a | Err msg => Err (DecompressFailed msg) end.

Definition default_threshold (hint : CompressionHint) : Z :=
  match hint with BulkPayload => 4096 | FrameHint => 256 end.

Definition ZSTD_DECOMPRESS_CAP : Z := 64 * 1024 * 1024.

Record ZstdCodec := mkZstdCodec { bulk_level : Z; frame_level : Z }.

Definition ZstdCodec_new : ZstdCodec := mkZstdCodec 3 1.
Definition ZstdCodec_with_levels (bulk frame : Z) : ZstdCodec := mkZstdCodec bulk frame.
Definition ZstdCodec_with_level (level : Z) : ZstdCodec := mkZstdCodec level 1.

Definition zstd_codec (self : ZstdCodec) : CompressionCodec := {|
  id := Zstd;
  compress input hint :=
    let level := match hint with BulkPayload => bulk_level self | FrameHint => frame_level self end in
    match zstd_bulk_compress L input level with
    | Some compressed => if decide (zlen compressed < zlen input) then Some compressed else None
    | None => None
    end;
  decompress input := map_decompress (zstd_bulk_decompress L input ZSTD_DECOMPRESS_CAP);
  threshold := default_threshold
|}.

Definition lz4_codec : CompressionCodec := {|
  id := Lz4;
  compress input _ :=
    let compressed := lz4_compress_prepend_size L input in
    if decide (zlen compressed < zlen input) then Some compressed else None;
  decompress input := map_decompress (lz4_decompress_size_prepended L input);
  threshold := default_threshold
|}.

Definition compress_if_worthwhile (codec : option CompressionCodec) (data : list Z)
    (hint : CompressionHint) : list Z * CompressionId :=
  match codec with
  | None => (data, CompressionNone)
  | Some codec =>
      if decide (zlen data < threshold codec hint) then (data, CompressionNone)
      else
        match compress codec data hint with
        | None => (data, CompressionNone)
        | Some compressed => (compressed, id codec)
        end
  end.

Definition decompress_by_id (data : list Z) (cid : CompressionId)
  : result CompressionError (list Z) :=
  match cid with
  | CompressionNone => Ok data
  | Zstd =>
      if compression_zstd F then decompress (zstd_codec ZstdCodec_new) data
      else Err (UnknownCodec (id_byte Zstd))
  | Lz4 =>
      if compression_lz4 F then decompress lz4_codec data
      else Err (UnknownCodec (id_byte Lz4))
  end.

Definition resolve_codec (cid : CompressionId) : option CompressionCodec :=
  match cid with
  | CompressionNone => None
  | Zstd => if compression_zstd F then Some (zstd_codec ZstdCodec_new) else None
  | Lz4 => if compression_lz4 F then Some lz4_codec else None
  end.

Definition default_payload_codec : option CompressionCodec :=
  if compression_zstd F then Some (zstd_codec ZstdCodec_new)
  else if compression_lz4 F then Some lz4_codec
  else None.

Definition default_frame_codec : option CompressionCodec :=
  if compression_lz4 F then Some lz4_codec
  else if compression_zstd F then Some (zstd_codec ZstdCodec_new)
  else None.

(** ** What a codec promises to its clients

    Whatever the peer compresses (up to the decompressor's cap), decompressing by
    the identifier that goes on the wire returns, and the output is smaller. *)
Class WireCodec (c : CompressionCodec) : Prop := {
  wire_inverse : forall x hint y,
    zlen x <= ZSTD_DECOMPRESS_CAP -> compress c x hint = Some y ->
    decompress_by_id y (id c) = Ok x;
  wire_smaller : forall x hint y, compress c x hint = Some y -> zlen y < zlen x
}.

Context `{!LibraryLaws L}.

Lemma zstd_wire_codec self : compression_zstd F = true -> WireCodec (zstd_codec self).
Proof.
  intros HF. split; simpl; intros x hint y; [intros Hx; rewrite HF|];
    destruct (zstd_bulk_compress _ _ _) as [z|] eqn:E; try done; case_decide; try done;
    intros [= ->]; [|done].
  simpl. by rewrite (zstd_inverse _ _ _ _ E Hx).
Qed.

Lemma lz4_wire_codec : compression_lz4 F = true -> WireCodec lz4_codec.
Proof.
  intros HF. split; simpl; intros x hint y; [intros Hx; rewrite HF|];
    case_decide; try done; intros [= <-]; [|done].
  simpl. rewrite lz4_inverse; [done|]. unfold ZSTD_DECOMPRESS_CAP in Hx. int_lia.
Qed.

Lemma resolve_codec_wire cid c : resolve_codec cid = Some c -> WireCodec c /\ id c = cid.
Proof.
  destruct cid; simpl; [done| |].
  - destruct (compression_zstd F) eqn:E; [|done]. intros [= <-].
    split; [by apply zstd_wire_codec|done].
  - destruct (compression_lz4 F) eqn:E; [|done]. intros [= <-].
    split; [by apply lz4_wire_codec|done].
Qed.

Lemma default_codecs_wire c :
  default_payload_codec = Some c \/ default_frame_codec = Some c -> WireCodec c.
Proof.
  unfold default_payload_codec, default_frame_codec. intros H.
  destruct (compression_zstd F) eqn:Ez, (compression_lz4 F) eqn:El;
    destruct H as [[= <-]|[= <-]]; by (apply zstd_wire_codec || apply lz4_wire_codec).
Qed.

Lemma from_byte_id_byte cid : from_byte (id_byte cid) = Some cid.
Proof. by destruct cid. Qed.

Lemma from_byte_None b : from_byte b = None <-> b <> 0 /\ b <> 1 /\ b <> 2.
Proof.
  split.
  - intros H. split_and!; intros ->; discriminate H.
  - intros (H0 & H1 & H2). unfold from_byte. destruct b as [|[p|p|]|]; try done; try lia.
    destruct p; done || lia.
Qed.

End Codecs.

#[export] Hint Resolve zstd_wire_codec lz4_wire_codec : bmux.

(** ** Round trip of the payload helpers *)

(** whatever codec identifier was negotiated and whichever features are
    compiled in, [compress_if_worthwhile] never grows the data, and
    [decompress_by_id] with the identifier it returned gives the data back,
    exactly when the data is within the zstd decompressor's 64 MiB cap or was not
    compressed with zstd; the lz4 length prefix bounds the lz4 case at 4 GiB. *)
Theorem payload_compression_roundtrip (F : Features) (L : CompressionLibs) cid data hint :
  LibraryLaws L ->
  let '(out, used) := compress_if_worthwhile (resolve_codec F L cid) data hint in
  zlen out <= zlen data /\
  (zlen data < 2 ^ 32 ->
   decompress_by_id F L out used = Ok data <-> (used = Zstd -> zlen data <= ZSTD_DECOMPRESS_CAP)).
Proof.
  intros HL. unfold compress_if_worthwhile.
  assert (Hraw : zlen data <= zlen data /\ (zlen data < 2 ^ 32 ->
    decompress_by_id F L data CompressionNone = Ok data
      <-> (CompressionNone = Zstd -> zlen data <= ZSTD_DECOMPRESS_CAP))).
  { split; [lia|]. simpl. intuition discriminate. }
  destruct cid; simpl; [done| |].
  - destruct (compression_zstd F) eqn:HF; [|done]. cbn [threshold compress zstd_codec id].
    case_decide; [done|]. destruct (zstd_bulk_compress L data _) as [z|] eqn:E; [|done].
    case_decide as Hz; [|done]. split; [lia|]. intros _. simpl. rewrite HF. split.
    + intros Hd _. destruct (zstd_bulk_decompress L z _) eqn:Ed; [|done].
      injection Hd as ->. by apply zstd_capacity in Ed.
    + intros Hcap. by rewrite (zstd_inverse _ _ _ _ E (Hcap eq_refl)).
  - destruct (compression_lz4 F) eqn:HF; [|done]. cbn [threshold compress lz4_codec id].
    case_decide; [done|]. case_decide; [|done]. split; [lia|]. intros Hlen. simpl.
    rewrite HF, lz4_inverse by done. simpl. intuition discriminate.
Qed.

(** A run-length compressor satisfies the laws: a constant run becomes three
    cells, anything else is stored behind a zero. *)
Definition rle_compress (x : list Z) : list Z :=
  match x with
  | b :: _ => if decide (x = replicate (length x) b) then [1; b; zlen x] else 0 :: x
  | [] => [0]
  end.

Definition rle_decompress (y : list Z) (cap : Z) : result string (list Z) :=
  let out := match y with
             | [1; b; n] => Ok (replicate (Z.to_nat n) b)
             | 0 :: x => Ok x
             | _ => Err "corrupt"%string
             end in
  let? x := out in
  if decide (zlen x <= cap) then Ok x else Err "capacity"%string.

Definition rle_libs : CompressionLibs :=
  mkCompressionLibs (fun x _ => Some (rle_compress x)) rle_decompress rle_compress
    (fun y => rle_decompress y (2 ^ 32)).

Lemma rle_inverse x cap : zlen x <= cap -> rle_decompress (rle_compress x) cap = Ok x.
Proof.
  intros Hx. destruct x as [|b x]; [unfold rle_decompress; simpl; by rewrite decide_True|].
  unfold rle_compress. case_decide as E; unfold rle_decompress; cbn [rbind].
  - assert (Z.to_nat (zlen (b :: x)) = length (b :: x)) as -> by (unfold zlen; lia).
    rewrite <- E. by rewrite decide_True.
  - by rewrite decide_True.
Qed.

#[export] Instance rle_laws : LibraryLaws rle_libs.
Proof.
  split; simpl.
  - intros x level y cap [= <-]. apply rle_inverse.
  - intros y cap x. unfold rle_decompress. intros (z & _ & Hz)%rbind_ok.
    case_decide; naive_solver.
  - intros x Hx. apply rle_inverse. lia.
Qed.

Lemma payload_compression_roundtrip_witness :
  let data := replicate 5000 7 in
  let F := mkFeatures true true in
  LibraryLaws rle_libs /\
  compress_if_worthwhile (resolve_codec F rle_libs Zstd) data BulkPayload = ([1; 7; 5000], Zstd) /\
  zlen [1; 7; 5000] <= zlen data /\
  (zlen data < 2 ^ 32 ->
   decompress_by_id F rle_libs [1; 7; 5000] Zstd = Ok data
   <-> (Zstd = Zstd -> zlen data <= ZSTD_DECOMPRESS_CAP)).
Proof.
  intros data F.
  assert (E : compress_if_worthwhile (resolve_codec F rle_libs Zstd) data BulkPayload
    = ([1; 7; 5000], Zstd)) by (vm_compute; reflexivity).
  pose proof (payload_compression_roundtrip F rle_libs Zstd data BulkPayload rle_laws) as H.
  rewrite E in H. exact (conj rle_laws (conj E H)).
Defined.
