(* ===== verification/Frame.v ===== *)
(** * IPC framing

    packages/ipc/src/frame.rs, with the envelope of packages/ipc/src/lib.rs: an
    envelope is encoded by the positional codec (modelled in [Ser.v] and [De.v])
    and sent behind a four-byte length; the compressed format adds a byte with the
    compression identifier.  A slice expression whose range is not within the
    buffer panics, so the decoders return an [outcome]. *)

From S2P Require Import Prelude Utf8 Varint Ser De SerdeData SerdeProps Compression.

Open Scope bmux_scope.

(** ** The envelope *)

Definition CURRENT_PROTOCOL_VERSION : Z := 4.

Inductive EnvelopeKind : Set := Request | Response | Event.

Record Envelope := mkEnvelope {
  version : Z;
  request_id : Z;
  kind : EnvelopeKind;
  payload : list Z
}.

Definition Envelope_new (request_id : Z) (kind : EnvelopeKind) (payload : list Z) : Envelope :=
  mkEnvelope CURRENT_PROTOCOL_VERSION request_id kind payload.

(** The names serde derives. *)
Definition ascii_bytes (s : string) : list Z :=
  (fun a => Z.of_N (Ascii.N_of_ascii a)) <$> String.list_ascii_of_string s.

Definition kind_ty : ty :=
  TEnum (VCons (ascii_bytes "request") KUnit
    (VCons (ascii_bytes "response") KUnit
      (VCons (ascii_bytes "event") KUnit VNil))).

(** The derived [Serialize] and [Deserialize] of [Envelope]: a struct of a
    newtype over [u16], a [u64], a unit-variant enum and raw bytes. *)
Definition envelope_ty : ty :=
  TStruct (FCons (ascii_bytes "version") (TNewtype (TScalar SU16))
    (FCons (ascii_bytes "request_id") (TScalar SU64)
      (FCons (ascii_bytes "kind") kind_ty
        (FCons (ascii_bytes "payload") (TScalar SBytes) FNil)))).

Definition kind_val_of (k : EnvelopeKind) : val kind_ty :=
  match k with
  | Request => inl tt
  | Response => inr (inl tt)
  | Event => inr (inr (inl tt))
  end.

Definition kind_of_val (v : val kind_ty) : EnvelopeKind :=
  match v with
  | inl _ => Request
  | inr (inl _) => Response
  | inr (inr (inl _)) => Event
  | inr (inr (inr e)) => match e with end
  end.

Definition envelope_val (e : Envelope) : val envelope_ty :=
  (version e, (request_id e, (kind_val_of (kind e), (payload e, tt)))).

Definition envelope_of_val (v : val envelope_ty) : Envelope :=
  let '(ver, (rid, (k, (p, _)))) := v in mkEnvelope ver rid (kind_of_val k) p.

Definition to_positional_vec (value : Ser) : result Error (list Z) :=
  to_vec_with_mode value Positional.

Definition from_positional_bytes {T} (deserialize : M T) (bytes : list Z) : result Error T :=
  from_bytes_with_mode deserialize bytes Positional.

Definition encode (e : Envelope) : result Error (list Z) :=
  to_positional_vec (ser envelope_ty (envelope_val e)).

Definition decode (bytes : list Z) : result Error Envelope :=
  let? v := from_positional_bytes (de envelope_ty) bytes in Ok (envelope_of_val v).

(** ** Frames *)

Definition FRAME_LEN_BYTES : Z := 4.
Definition MAX_FRAME_PAYLOAD_SIZE : Z := 8 * 1048576.
Definition MAX_COMPRESSED_FRAME_SIZE : Z := 16 * 1048576.

Inductive FrameEncodeError :=
| EncodePayloadTooLarge (actual max : Z)
| Serialize (e : Error).

Inductive FrameDecodeError :=
| PayloadTooLarge (actual max : Z)
| IncompleteFrame
| FrameTrailingBytes
| UnsupportedVersion (actual expected : Z)
| Decompress (e : CompressionError)
| UnknownCompression (id : Z)
| Deserialize (e : Error).

Inductive outcome (A : Type) : Type :=
| Returns (a : A)
| Panics.
Arguments Returns {A} a.
Arguments Panics {A}.

(** [&bytes[from..to]]. *)
Definition slice (bytes : list Z) (from to : Z) : outcome (list Z) :=
  if decide (0 <= from <= to /\ to <= zlen bytes)
  then Returns (take (Z.to_nat (to - from)) (drop (Z.to_nat from) bytes))
  else Panics.

(** [bytes.drain(..n)]. *)
Definition drain (bytes : list Z) (n : Z) : list Z := drop (Z.to_nat n) bytes.

(** [u32::from_le_bytes([bytes[0], bytes[1], bytes[2], bytes[3]])], after the
    length check. *)
Definition header_len (bytes : list Z) : option Z :=
  match bytes with
  | b0 :: b1 :: b2 :: b3 :: _ => Some (from_le_bytes4 b0 b1 b2 b3)
  | _ => None
  end.

Definition check_envelope_payload (e : Envelope) : result FrameEncodeError unit :=
  if decide (zlen (payload e) > MAX_FRAME_PAYLOAD_SIZE)
  then Err (EncodePayloadTooLarge (zlen (payload e)) MAX_FRAME_PAYLOAD_SIZE)
  else Ok tt.

Definition map_serialize {A} (r : result Error A) : result FrameEncodeError A :=
  match r with Ok a => Ok a | Err e => Err (Serialize e) end.

Definition encode_frame (e : Envelope) : result FrameEncodeError (list Z) :=
  let? _ := check_envelope_payload e in
  let? payload := map_serialize (encode e) in
  if decide (zlen payload > MAX_FRAME_PAYLOAD_SIZE)
  then Err (EncodePayloadTooLarge (zlen payload) MAX_FRAME_PAYLOAD_SIZE)
  else
    let? payload_len := ok_or (try_from_u 32 (zlen payload))
      (EncodePayloadTooLarge (zlen payload) MAX_FRAME_PAYLOAD_SIZE) in
    Ok (to_le_bytes4 payload_len ++ payload).

Definition frame_payload_len (bytes : list Z) : result FrameDecodeError (option Z) :=
  match header_len bytes with
  | None => Ok None
  | Some payload_len =>
      if decide (payload_len > MAX_FRAME_PAYLOAD_SIZE)
      then Err (PayloadTooLarge payload_len MAX_FRAME_PAYLOAD_SIZE)
      else Ok (Some payload_len)
  end.

Definition decode_envelope_payload (payload : list Z) : result FrameDecodeError Envelope :=
  match decode payload with
  | Err e => Err (Deserialize e)
  | Ok envelope =>
      if decide (version envelope <> CURRENT_PROTOCOL_VERSION)
      then Err (UnsupportedVersion (version envelope) CURRENT_PROTOCOL_VERSION)
      else Ok envelope
  end.

Definition decode_frame_exact (frame : list Z) : outcome (result FrameDecodeError Envelope) :=
  match frame_payload_len frame with
  | Err e => Returns (Err e)
  | Ok None => Returns (Err IncompleteFrame)
  | Ok (Some payload_len) =>
      let total_len := FRAME_LEN_BYTES + payload_len in
      if decide (zlen frame < total_len) then Returns (Err IncompleteFrame)
      else if decide (zlen frame > total_len) then Returns (Err FrameTrailingBytes)
      else
        match slice frame FRAME_LEN_BYTES total_len with
        | Panics => Panics
        | Returns payload => Returns (decode_envelope_payload payload)
        end
  end.

Definition map_some {E A} (r : result E A) : result E (option A) :=
  match r with Ok a => Ok (Some a) | Err e => Err e end.

(** The result and the buffer it leaves. *)
Definition try_decode_frame (buffer : list Z)
  : outcome (result FrameDecodeError (option Envelope) * list Z) :=
  match frame_payload_len buffer with
  | Err e => Returns (Err e, buffer)
  | Ok None => Returns (Ok None, buffer)
  | Ok (Some payload_len) =>
      let total_len := FRAME_LEN_BYTES + payload_len in
      if decide (zlen buffer < total_len) then Returns (Ok None, buffer)
      else
        match slice buffer FRAME_LEN_BYTES total_len with
        | Panics => Panics
        | Returns payload =>
            Returns (map_some (decode_envelope_payload payload), drain buffer total_len)
        end
  end.

(** ** Compressed frames *)

Section Compressed.

Context (F : Features) (L : CompressionLibs).

(** The bytes to send and the compression byte. *)
Definition choose_payload (codec : option CompressionCodec) (serialized : list Z) : list Z * Z :=
  match codec with
  | Some codec =>
      if decide (zlen serialized >= threshold codec FrameHint) then
        match compress codec serialized FrameHint with
        | Some compressed =>
            if decide (zlen compressed < zlen serialized) then (compressed, id_byte (id codec))
            else (serialized, 0)
        | None => (serialized, 0)
        end
      else (serialized, 0)
  | None => (serialized, 0)
  end.

Definition encode_frame_compressed (e : Envelope) (codec : option CompressionCodec)
  : result FrameEncodeError (list Z) :=
  let? _ := check_envelope_payload e in
  let? serialized := map_serialize (encode e) in
  if decide (zlen serialized > MAX_FRAME_PAYLOAD_SIZE)
  then Err (EncodePayloadTooLarge (zlen serialized) MAX_FRAME_PAYLOAD_SIZE)
  else
    let '(payload_bytes, comp_byte) := choose_payload codec serialized in
    let total_len := 1 + zlen payload_bytes in
    let? total_len_u32 := ok_or (try_from_u 32 total_len)
      (EncodePayloadTooLarge total_len MAX_COMPRESSED_FRAME_SIZE) in
    Ok (to_le_bytes4 total_len_u32 ++ comp_byte :: payload_bytes).

(** The decompression step both decoders share: the bytes of the envelope. *)
Definition open_payload (comp_byte : Z) (payload_bytes : list Z)
  : result FrameDecodeError (list Z) :=
  match from_byte comp_byte with
  | Some CompressionNone => Ok payload_bytes
  | Some cid =>
      match decompress_by_id F L payload_bytes cid with
      | Err e => Err (Decompress e)
      | Ok data =>
          if decide (zlen data > MAX_FRAME_PAYLOAD_SIZE)
          then Err (PayloadTooLarge (zlen data) MAX_FRAME_PAYLOAD_SIZE)
          else Ok data
      end
  | None => Err (UnknownCompression comp_byte)
  end.

Definition decode_frame_compressed (frame : list Z)
  : outcome (result FrameDecodeError Envelope) :=
  if decide (zlen frame < FRAME_LEN_BYTES + 1) then Returns (Err IncompleteFrame)
  else
    match header_len frame with
    | None => Panics
    | Some total_len =>
        if decide (total_len > MAX_COMPRESSED_FRAME_SIZE)
        then Returns (Err (PayloadTooLarge total_len MAX_COMPRESSED_FRAME_SIZE))
        else
          let expected := FRAME_LEN_BYTES + total_len in
          if decide (zlen frame < expected) then Returns (Err IncompleteFrame)
          else if decide (zlen frame > expected) then Returns (Err FrameTrailingBytes)
          else
            match frame !! Z.to_nat FRAME_LEN_BYTES,
                  slice frame (FRAME_LEN_BYTES + 1) expected with
            | Some comp_byte, Returns payload_bytes =>
                Returns (let? decompressed := open_payload comp_byte payload_bytes in
                         decode_envelope_payload decompressed)
            | _, _ => Panics
            end
    end.

Definition try_decode_frame_compressed (buffer : list Z)
  : outcome (result FrameDecodeError (option Envelope) * list Z) :=
  if decide (zlen buffer < FRAME_LEN_BYTES + 1) then Returns (Ok None, buffer)
  else
    match header_len buffer with
    | None => Panics
    | Some total_len =>
        if decide (total_len > MAX_COMPRESSED_FRAME_SIZE)
        then Returns (Err (PayloadTooLarge total_len MAX_COMPRESSED_FRAME_SIZE), buffer)
        else
          let expected := FRAME_LEN_BYTES + total_len in
          if decide (zlen buffer < expected) then Returns (Ok None, buffer)
          else
            match buffer !! Z.to_nat FRAME_LEN_BYTES,
                  slice buffer (FRAME_LEN_BYTES + 1) expected with
            | Some comp_byte, Returns payload_bytes =>
                Returns (let? decompressed := open_payload comp_byte payload_bytes in
                         map_some (decode_envelope_payload decompressed),
                         drain buffer expected)
            | _, _ => Panics
            end
    end.

End Compressed.

(** ** The transport's frame reader and writer

    packages/ipc/src/transport.rs.  A stream is the bytes its peer has still to
    deliver before it closes; [reserved] is the size of the buffer the reader
    resizes before it reads the body. *)

Inductive IoError := UnexpectedEofError.

Inductive IpcTransportError :=
| Io (e : IoError)
| FrameEncode (e : FrameEncodeError)
| FrameDecode (e : FrameDecodeError).

Definition read_exact (n : Z) (stream : list Z) : result IoError (list Z) * list Z :=
  if decide (zlen stream < n) then (Err UnexpectedEofError, [])
  else (Ok (take (Z.to_nat n) stream), drop (Z.to_nat n) stream).

Record FrameRead := mkFrameRead {
  received : outcome (result IpcTransportError Envelope);
  stream_rest : list Z;
  reserved : Z
}.

Definition map_frame_decode (r : outcome (result FrameDecodeError Envelope))
  : outcome (result IpcTransportError Envelope) :=
  match r with
  | Returns (Ok e) => Returns (Ok e)
  | Returns (Err e) => Returns (Err (FrameDecode e))
  | Panics => Panics
  end.

Section Transport.

Context (F : Features) (L : CompressionLibs).

Definition read_frame_by (decode_frame : list Z -> outcome (result FrameDecodeError Envelope))
    (stream : list Z) : FrameRead :=
  match read_exact 4 stream with
  | (Err e, stream) => mkFrameRead (Returns (Err (Io e))) stream 0
  | (Ok len_bytes, stream) =>
      match header_len len_bytes with
      | None => mkFrameRead Panics stream 0
      | Some payload_len =>
          match read_exact payload_len stream with
          | (Err e, stream) => mkFrameRead (Returns (Err (Io e))) stream (4 + payload_len)
          | (Ok body, stream) =>
              mkFrameRead (map_frame_decode (decode_frame (len_bytes ++ body))) stream
                (4 + payload_len)
          end
      end
  end.

Definition read_frame (stream : list Z) : FrameRead := read_frame_by decode_frame_exact stream.

Definition read_frame_compressed (stream : list Z) : FrameRead :=
  read_frame_by (decode_frame_compressed F L) stream.

(** The two halves of an erased stream: the writer's codec, the reader's flag. *)
Record IpcStreamWriter := mkIpcStreamWriter {
  written : list Z;
  frame_codec : option CompressionCodec
}.

Record IpcStreamReader := mkIpcStreamReader {
  incoming : list Z;
  compressed_frames : bool
}.

Definition write_frame (frame : list Z) (w : IpcStreamWriter) : IpcStreamWriter :=
  mkIpcStreamWriter (written w ++ frame) (frame_codec w).

Definition send_envelope (e : Envelope) (w : IpcStreamWriter)
  : result IpcTransportError unit * IpcStreamWriter :=
  let frame := match frame_codec w with
               | Some _ => encode_frame_compressed e (frame_codec w)
               | None => encode_frame e
               end in
  match frame with
  | Err err => (Err (FrameEncode err), w)
  | Ok frame => (Ok tt, write_frame frame w)
  end.

Definition enable_frame_compression (codec : CompressionCodec) (w : IpcStreamWriter)
  : IpcStreamWriter := mkIpcStreamWriter (written w) (Some codec).

Definition recv_envelope (r : IpcStreamReader)
  : outcome (result IpcTransportError Envelope) * IpcStreamReader :=
  let read := if compressed_frames r then read_frame_compressed (incoming r)
              else read_frame (incoming r) in
  (received read, mkIpcStreamReader (stream_rest read) (compressed_frames r)).

Definition enable_frame_decompression (r : IpcStreamReader) : IpcStreamReader :=
  mkIpcStreamReader (incoming r) true.

End Transport.

(** ** Encoding envelopes *)

Record envelope_wf (e : Envelope) : Prop := {
  wf_version : u16 (version e);
  wf_request_id : u64 (request_id e);
  wf_payload : u64 (zlen (payload e))
}.

Lemma name_ok_ascii s :
  zlen (ascii_bytes s) < 2 ^ 64 -> is_utf8 (ascii_bytes s) = true -> name_ok (ascii_bytes s).
Proof. intros. split; [|done]. pose proof (zlen_nonneg (ascii_bytes s)). int_lia. Qed.

Lemma envelope_ty_wf : wf_ty envelope_ty.
Proof.
  unfold envelope_ty, kind_ty. cbn [wf_ty wf_fields wf_variants wf_kind].
  assert (Hs : names_ok [ascii_bytes "version"; ascii_bytes "request_id"; ascii_bytes "kind"; ascii_bytes "payload"]).
  { split; [by apply (bool_decide_unpack _); vm_compute|].
    by repeat (apply Forall_cons; split; [apply name_ok_ascii; vm_compute; reflexivity|]). }
  assert (Hk : names_ok [ascii_bytes "request"; ascii_bytes "response"; ascii_bytes "event"]).
  { split; [by apply (bool_decide_unpack _); vm_compute|].
    by repeat (apply Forall_cons; split; [apply name_ok_ascii; vm_compute; reflexivity|]). }
  assert (H4 : u64 4) by int_lia.
  split_and!; try exact I; first [exact H4|exact Hs|exact Hk|reflexivity].
Qed.

Lemma envelope_fits e : envelope_wf e -> fits envelope_ty (envelope_val e).
Proof.
  intros [Hv Hr Hp]. unfold envelope_ty, kind_ty.
  split; [exact Hv|]. split; [exact Hr|]. split; [simpl; destruct (kind e); exact I|].
  split; [exact Hp|exact I].
Qed.

Lemma envelope_of_val_of e : envelope_of_val (envelope_val e) = e.
Proof. by destruct e as [v r [] p]. Qed.

Lemma decode_encode e :
  envelope_wf e ->
  exists bytes, encode e = Ok bytes /\ (zlen bytes < 2 ^ 64 -> decode bytes = Ok e).
Proof.
  intros Hwf.
  destruct (encoding_decodes Positional envelope_ty (envelope_val e)) as (enc & He & Hd).
  - apply envelope_ty_wf.
  - by apply envelope_fits.
  - exists enc. split; [done|]. intros Hlen. unfold decode, from_positional_bytes.
    rewrite (Hd Hlen). unfold rbind. by rewrite envelope_of_val_of.
Qed.

Definition kind_index (k : EnvelopeKind) : Z :=
  match k with Request => 0 | Response => 1 | Event => 2 end.

(** The wire form of an envelope: four varints and the payload. *)
Lemma encode_shape e :
  encode e = Ok (encode_usize (encode_u32 (encode_u64 (encode_u16 [] (version e)) (request_id e))
                                 (kind_index (kind e))) (zlen (payload e)) ++ payload e).
Proof. by destruct e as [v r [] p]. Qed.

Lemma encode_length e bytes : encode e = Ok bytes -> zlen (payload e) <= zlen bytes.
Proof.
  rewrite encode_shape. intros [= <-]. rewrite zlen_app.
  match goal with |- _ <= zlen ?l + _ => pose proof (zlen_nonneg l) end. lia.
Qed.

Lemma header_len_app n l : u32 n -> header_len (to_le_bytes4 n ++ l) = Some n.
Proof. intros Hn. simpl. by rewrite from_to_le_bytes4. Qed.

Lemma slice_app (pre mid post : list Z) :
  slice (pre ++ mid ++ post) (zlen pre) (zlen pre + zlen mid) = Returns mid.
Proof.
  unfold slice. rewrite decide_True.
  - f_equal. replace (Z.to_nat (zlen pre + zlen mid - zlen pre)) with (length mid)
      by (unfold zlen; lia).
    unfold zlen. rewrite Nat2Z.id, drop_app_length. by rewrite take_app_length.
  - rewrite !zlen_app. pose proof (zlen_nonneg pre). pose proof (zlen_nonneg mid).
    pose proof (zlen_nonneg post). lia.
Qed.

Lemma drain_app n (pre post : list Z) : zlen pre = n -> drain (pre ++ post) n = post.
Proof. intros <-. unfold drain, zlen. by rewrite Nat2Z.id, drop_app_length. Qed.

(** A proper prefix of a frame has either no header yet or the whole header and
    part of the body. *)
Lemma frame_prefix n body p q :
  u32 n -> to_le_bytes4 n ++ body = p ++ q -> q <> [] ->
  zlen p < 4 /\ header_len p = None \/ header_len p = Some n /\ zlen p < 4 + zlen body.
Proof.
  intros Hn E Hq.
  assert (Hlen : zlen p < 4 + zlen body).
  { apply (f_equal zlen) in E. rewrite !zlen_app, to_le_bytes4_length in E.
    destruct q; [done|]. rewrite zlen_cons in E. pose proof (zlen_nonneg q). lia. }
  destruct p as [|a [|b [|c [|d p]]]]; try (left; split; [unfold zlen; simpl; lia|done]).
  right. split; [|done]. simpl in E. injection E as <- <- <- <- _. simpl.
  by rewrite from_to_le_bytes4.
Qed.

(** What the exact and the incremental decoder of a format owe to its encoder:
    the frame decodes to the envelope, and alone; followed by other bytes it is
    the first frame of the stream; cut short it is an incomplete frame, and the
    buffer is kept. *)
Record delimits (exact : list Z -> outcome (result FrameDecodeError Envelope))
    (incremental : list Z -> outcome (result FrameDecodeError (option Envelope) * list Z))
    (frame : list Z) (e : Envelope) : Prop := {
  delimits_exact : exact frame = Returns (Ok e);
  delimits_trailing : forall rest, rest <> [] ->
    exact (frame ++ rest) = Returns (Err FrameTrailingBytes);
  delimits_stream : forall rest, incremental (frame ++ rest) = Returns (Ok (Some e), rest);
  delimits_prefix : forall p q, frame = p ++ q -> q <> [] ->
    exact p = Returns (Err IncompleteFrame) /\ incremental p = Returns (Ok None, p)
}.

Lemma decode_envelope_payload_encode e bytes :
  envelope_wf e -> version e = CURRENT_PROTOCOL_VERSION ->
  encode e = Ok bytes -> zlen bytes < 2 ^ 64 ->
  decode_envelope_payload bytes = Ok e.
Proof.
  intros Hwf Hv He Hlen. destruct (decode_encode e Hwf) as (bytes' & He' & Hd).
  assert (bytes' = bytes) as -> by congruence.
  unfold decode_envelope_payload. rewrite Hd by done. by rewrite decide_False by tauto.
Qed.

Lemma encode_frame_ok e frame :
  encode_frame e = Ok frame ->
  exists bytes, encode e = Ok bytes /\ zlen bytes <= MAX_FRAME_PAYLOAD_SIZE /\
    frame = to_le_bytes4 (zlen bytes) ++ bytes.
Proof.
  unfold encode_frame. intros (? & _ & H)%rbind_ok.
  apply rbind_ok in H as (bytes & He & H). exists bytes.
  destruct (encode e) as [b|]; [|done]. injection He as ->.
  destruct (decide (zlen bytes > MAX_FRAME_PAYLOAD_SIZE)) as [|Hle]; [done|].
  apply rbind_ok in H as (n & Hn & H). unfold try_from_u in Hn.
  case_decide; [|done]. injection Hn as <-. injection H as <-. split; [done|]. split; [lia|done].
Qed.

Lemma frame_payload_len_app n body :
  0 <= n <= MAX_FRAME_PAYLOAD_SIZE -> frame_payload_len (to_le_bytes4 n ++ body) = Ok (Some n).
Proof.
  intros Hn. unfold frame_payload_len. unfold MAX_FRAME_PAYLOAD_SIZE in *.
  rewrite header_len_app by int_lia. by rewrite decide_False by lia.
Qed.

Lemma slice_frame n pre body post :
  zlen pre = n -> slice (pre ++ body ++ post) n (n + zlen body) = Returns body.
Proof. intros <-. apply slice_app. Qed.

Lemma frame_delimits e bytes :
  zlen bytes <= MAX_FRAME_PAYLOAD_SIZE -> decode_envelope_payload bytes = Ok e ->
  delimits decode_frame_exact try_decode_frame (to_le_bytes4 (zlen bytes) ++ bytes) e.
Proof.
  intros Hle Hdec. pose proof (zlen_nonneg bytes) as H0.
  assert (Hlen : forall rest, zlen ((to_le_bytes4 (zlen bytes) ++ bytes) ++ rest)
    = FRAME_LEN_BYTES + zlen bytes + zlen rest).
  { intros rest. rewrite !zlen_app, to_le_bytes4_length. unfold FRAME_LEN_BYTES. lia. }
  split.
  - specialize (Hlen []). rewrite app_nil_r, zlen_nil in Hlen. unfold decode_frame_exact.
    rewrite frame_payload_len_app by lia. rewrite !decide_False by lia.
    rewrite <- (app_nil_r bytes) at 2. rewrite slice_frame by done. by rewrite Hdec.
  - intros rest Hrest. unfold decode_frame_exact.
    rewrite <- app_assoc, frame_payload_len_app, app_assoc by lia.
    destruct rest as [|b rest]; [done|]. pose proof (zlen_nonneg rest).
    specialize (Hlen (b :: rest)). rewrite zlen_cons in Hlen.
    rewrite decide_False by lia. by rewrite decide_True by lia.
  - intros rest. specialize (Hlen rest). pose proof (zlen_nonneg rest). unfold try_decode_frame.
    rewrite <- app_assoc in *. rewrite frame_payload_len_app by lia. rewrite decide_False by lia.
    rewrite slice_frame by done. rewrite Hdec, app_assoc, drain_app; [done|].
    by rewrite zlen_app.
  - intros p q E Hq.
    assert (Hu : u32 (zlen bytes)) by (unfold MAX_FRAME_PAYLOAD_SIZE in *; int_lia).
    unfold decode_frame_exact, try_decode_frame, frame_payload_len.
    destruct (frame_prefix _ _ _ _ Hu E Hq) as [[Hp Hh]|[Hh Hp]]; rewrite Hh; [done|].
    rewrite !decide_False by lia. unfold FRAME_LEN_BYTES. by rewrite !decide_True by lia.
Qed.

(** an envelope of the current protocol version that [encode_frame] accepts
    is delimited by its frame: [decode_frame_exact] returns it and rejects the
    frame with anything appended, [try_decode_frame] returns it and leaves exactly
    what follows it in the buffer, and on every proper prefix both wait for more
    without touching the buffer.  [encode_frame] accepts exactly the envelopes
    whose encoding is within the limit, and reports the others as too large. *)
Theorem frame_roundtrip (e : Envelope) :
  envelope_wf e -> version e = CURRENT_PROTOCOL_VERSION ->
  exists bytes, encode e = Ok bytes /\
    if decide (zlen bytes <= MAX_FRAME_PAYLOAD_SIZE) then
      exists frame, encode_frame e = Ok frame /\
        delimits decode_frame_exact try_decode_frame frame e
    else exists actual,
      encode_frame e = Err (EncodePayloadTooLarge actual MAX_FRAME_PAYLOAD_SIZE) /\
      MAX_FRAME_PAYLOAD_SIZE < actual.
Proof.
  intros Hwf Hv. destruct (decode_encode e Hwf) as (bytes & He & _).
  exists bytes. split; [done|]. pose proof (encode_length e bytes He) as Hpay.
  pose proof (zlen_nonneg bytes) as H0.
  case_decide as Hle; unfold encode_frame, check_envelope_payload; rewrite He; simpl.
  - rewrite decide_False by lia. simpl. rewrite decide_False by lia.
    rewrite try_from_u_in by (unfold MAX_FRAME_PAYLOAD_SIZE in *; int_lia).
    eexists. split; [done|]. apply frame_delimits; [done|].
    apply decode_envelope_payload_encode; try done. unfold MAX_FRAME_PAYLOAD_SIZE in *. int_lia.
  - case_decide; simpl.
    + eexists. split; [done|lia].
    + rewrite decide_True by lia. eexists. split; [done|lia].
Qed.

Lemma frame_roundtrip_witness :
  let e := Envelope_new 300 Response [104; 105] in
  envelope_wf e /\
  exists bytes, encode e = Ok bytes /\
    if decide (zlen bytes <= MAX_FRAME_PAYLOAD_SIZE) then
      exists frame, encode_frame e = Ok frame /\
        delimits decode_frame_exact try_decode_frame frame e
    else exists actual,
      encode_frame e = Err (EncodePayloadTooLarge actual MAX_FRAME_PAYLOAD_SIZE) /\
      MAX_FRAME_PAYLOAD_SIZE < actual.
Proof.
  intros e. assert (Hwf : envelope_wf e).
  { split; unfold zlen; simpl; [unfold CURRENT_PROTOCOL_VERSION| |]; int_lia. }
  split; [exact Hwf|]. exact (frame_roundtrip e Hwf eq_refl).
Defined.

(** ** Compressed frames *)

Section CompressedProps.

Context (F : Features) (L : CompressionLibs).

Lemma compressed_delimits comp_byte body bytes e :
  1 + zlen body <= MAX_COMPRESSED_FRAME_SIZE ->
  open_payload F L comp_byte body = Ok bytes -> decode_envelope_payload bytes = Ok e ->
  delimits (decode_frame_compressed F L) (try_decode_frame_compressed F L)
    (to_le_bytes4 (1 + zlen body) ++ comp_byte :: body) e.
Proof.
  intros Hle Hopen Hdec. pose proof (zlen_nonneg body) as H0.
  assert (Hu : u32 (1 + zlen body)) by (unfold MAX_COMPRESSED_FRAME_SIZE in *; int_lia).
  set (hd := to_le_bytes4 (1 + zlen body)).
  assert (Hlen : forall rest, zlen ((hd ++ comp_byte :: body) ++ rest)
    = FRAME_LEN_BYTES + (1 + zlen body) + zlen rest).
  { intros rest. rewrite !zlen_app, zlen_cons. unfold FRAME_LEN_BYTES, hd.
    rewrite to_le_bytes4_length. lia. }
  assert (Hhd : forall l, header_len (hd ++ l) = Some (1 + zlen body)).
  { intros l. by apply header_len_app. }
  assert (Hslice : forall rest, slice ((hd ++ comp_byte :: body) ++ rest) (FRAME_LEN_BYTES + 1)
    (FRAME_LEN_BYTES + (1 + zlen body)) = Returns body).
  { intros rest. replace (FRAME_LEN_BYTES + (1 + zlen body))
      with (FRAME_LEN_BYTES + 1 + zlen body) by lia.
    rewrite (app_assoc _ [comp_byte] body : hd ++ comp_byte :: body = _), <- app_assoc.
    by apply slice_frame. }
  assert (H4 : FRAME_LEN_BYTES = 4) by done.
  split.
  - specialize (Hlen []). specialize (Hslice []). rewrite app_nil_r in *. rewrite zlen_nil in Hlen.
    unfold decode_frame_compressed. rewrite decide_False, Hhd by lia. rewrite !decide_False by lia.
    rewrite Hslice. simpl. rewrite Hopen. simpl. by rewrite Hdec.
  - intros [|b rest] Hrest; [done|]. specialize (Hlen (b :: rest)). rewrite zlen_cons in Hlen.
    pose proof (zlen_nonneg rest). unfold decode_frame_compressed. rewrite decide_False by lia.
    rewrite <- app_assoc, Hhd, app_assoc. rewrite !decide_False by lia. by rewrite decide_True by lia.
  - intros rest. specialize (Hlen rest). pose proof (zlen_nonneg rest).
    unfold try_decode_frame_compressed. rewrite decide_False by lia.
    rewrite <- app_assoc at 1. rewrite Hhd. rewrite !decide_False by lia. rewrite Hslice. simpl.
    rewrite Hopen. simpl. rewrite Hdec. simpl.
    rewrite (drain_app _ (hd ++ comp_byte :: body) rest); [done|].
    rewrite zlen_app, zlen_cons. unfold hd. rewrite to_le_bytes4_length. lia.
  - intros p q E Hq. unfold decode_frame_compressed, try_decode_frame_compressed.
    destruct (frame_prefix _ _ _ _ Hu E Hq) as [[Hp Hh]|[Hh Hp]];
      [by rewrite !decide_True by lia|].
    rewrite zlen_cons in Hp. case_decide; [done|]. rewrite Hh.
    split; rewrite decide_False by lia; by rewrite decide_True by lia.
Qed.

Lemma open_chosen codec serialized :
  (forall c, codec = Some c -> WireCodec F L c) ->
  zlen serialized <= MAX_FRAME_PAYLOAD_SIZE ->
  let '(body, comp_byte) := choose_payload codec serialized in
  zlen body <= zlen serialized /\ open_payload F L comp_byte body = Ok serialized.
Proof.
  intros Hc Hlen. unfold choose_payload.
  assert (Hraw : zlen serialized <= zlen serialized /\
    open_payload F L 0 serialized = Ok serialized) by (split; [lia|done]).
  destruct codec as [c|]; [|done]. case_decide; [|done].
  destruct (compress c serialized FrameHint) as [z|] eqn:E; [|done]. case_decide; [|done].
  split; [lia|]. destruct (Hc c eq_refl) as [Hinv _]. apply Hinv in E.
  - revert E. unfold open_payload. rewrite from_byte_id_byte.
    destruct (id c); intros E; [by injection E as ->| |]; rewrite E; by rewrite decide_False by lia.
  - unfold MAX_FRAME_PAYLOAD_SIZE, ZSTD_DECOMPRESS_CAP in *. lia.
Qed.

End CompressedProps.

Lemma encode_frame_compressed_ok e bytes codec :
  encode e = Ok bytes -> zlen bytes <= MAX_FRAME_PAYLOAD_SIZE ->
  (let '(body, _) := choose_payload codec bytes in zlen body <= zlen bytes) ->
  encode_frame_compressed e codec
    = let '(body, comp_byte) := choose_payload codec bytes in
      Ok (to_le_bytes4 (1 + zlen body) ++ comp_byte :: body).
Proof.
  intros He Hle Hbody. pose proof (encode_length e bytes He).
  unfold encode_frame_compressed, check_envelope_payload.
  rewrite decide_False by lia. simpl. rewrite He. simpl. rewrite decide_False by lia.
  destruct (choose_payload codec bytes) as [body comp_byte]. pose proof (zlen_nonneg body).
  rewrite try_from_u_in; [done|]. unfold MAX_FRAME_PAYLOAD_SIZE in *. int_lia.
Qed.

(** with any codec that keeps its promise to the wire, or none, the
    compressed format delimits every envelope of the current version whose
    encoding is within the limit: whichever of the two payloads the encoder
    chooses, both decoders return the envelope, reject trailing bytes, keep what
    follows and wait on every proper prefix; the frame is at most five bytes
    longer than the encoding. *)
Theorem compressed_frame_roundtrip (F : Features) (L : CompressionLibs) (e : Envelope)
    (codec : option CompressionCodec) (bytes : list Z) :
  (forall c, codec = Some c -> WireCodec F L c) ->
  envelope_wf e -> version e = CURRENT_PROTOCOL_VERSION ->
  encode e = Ok bytes -> zlen bytes <= MAX_FRAME_PAYLOAD_SIZE ->
  exists frame, encode_frame_compressed e codec = Ok frame /\
    zlen frame <= 5 + zlen bytes /\
    delimits (decode_frame_compressed F L) (try_decode_frame_compressed F L) frame e.
Proof.
  intros Hc Hwf Hv He Hle. pose proof (open_chosen F L codec bytes Hc Hle) as Hopen.
  pose proof (encode_frame_compressed_ok e bytes codec He Hle) as Henc.
  destruct (choose_payload codec bytes) as [body comp_byte]. destruct Hopen as [Hlen Hopen].
  eexists. split; [by apply Henc|]. split.
  - rewrite zlen_app, zlen_cons, to_le_bytes4_length. lia.
  - eapply compressed_delimits; [|done|].
    + unfold MAX_FRAME_PAYLOAD_SIZE, MAX_COMPRESSED_FRAME_SIZE in *. lia.
    + apply decode_envelope_payload_encode; try done. unfold MAX_FRAME_PAYLOAD_SIZE in *. int_lia.
Qed.

Lemma compressed_frame_roundtrip_witness :
  let F := mkFeatures false true in
  let e := Envelope_new 1 Event (replicate 400 9) in
  let bytes := [4; 1; 2; 144; 3] ++ replicate 400 9 in
  envelope_wf e /\
  exists frame, encode_frame_compressed e (default_frame_codec F rle_libs) = Ok frame /\
    zlen frame <= 5 + zlen bytes /\
    delimits (decode_frame_compressed F rle_libs) (try_decode_frame_compressed F rle_libs) frame e.
Proof.
  intros F e bytes. assert (Hwf : envelope_wf e).
  { split; unfold zlen; simpl; [unfold CURRENT_PROTOCOL_VERSION| |]; int_lia. }
  split; [exact Hwf|]. apply (compressed_frame_roundtrip F rle_libs e _ bytes).
  - intros c Hc. apply default_codecs_wire; [exact rle_laws|]. right. exact Hc.
  - exact Hwf.
  - reflexivity.
  - vm_compute. reflexivity.
  - vm_compute. discriminate.
Defined.

(** ** Delivery over a stream *)

(** What the two ends of a connection do in step: an envelope is sent and
    received, or both switch to compressed frames. *)
Inductive exchange :=
| Deliver (e : Envelope)
| Switch (codec : CompressionCodec).

Fixpoint send_all (steps : list exchange) (w : IpcStreamWriter)
  : result IpcTransportError IpcStreamWriter :=
  match steps with
  | [] => Ok w
  | Deliver e :: steps =>
      match send_envelope e w with
      | (Ok _, w) => send_all steps w
      | (Err err, _) => Err err
      end
  | Switch codec :: steps => send_all steps (enable_frame_compression codec w)
  end.

Section Delivery.

Context (F : Features) (L : CompressionLibs).

Fixpoint recv_all (steps : list exchange) (r : IpcStreamReader)
  : list (outcome (result IpcTransportError Envelope)) * IpcStreamReader :=
  match steps with
  | [] => ([], r)
  | Deliver _ :: steps =>
      let '(got, r) := recv_envelope F L r in
      let '(rest, r) := recv_all steps r in
      (got :: rest, r)
  | Switch _ :: steps => recv_all steps (enable_frame_decompression r)
  end.

Definition delivered (steps : list exchange) : list Envelope :=
  omap (fun s => match s with Deliver e => Some e | Switch _ => None end) steps.

Definition exchange_ok (s : exchange) : Prop :=
  match s with
  | Deliver e => envelope_wf e /\ version e = CURRENT_PROTOCOL_VERSION /\
      exists bytes, encode e = Ok bytes /\ zlen bytes <= MAX_FRAME_PAYLOAD_SIZE
  | Switch c => WireCodec F L c
  end.

Lemma read_frame_by_delimited exact n body rest e :
  u32 n -> zlen body = n -> exact (to_le_bytes4 n ++ body) = Returns (Ok e) ->
  read_frame_by exact ((to_le_bytes4 n ++ body) ++ rest)
    = mkFrameRead (Returns (Ok e)) rest (4 + n).
Proof.
  intros Hn Hbody Hex. unfold read_frame_by, read_exact. pose proof (zlen_nonneg rest).
  pose proof (zlen_nonneg body).
  rewrite decide_False by (rewrite !zlen_app, to_le_bytes4_length; lia).
  rewrite <- app_assoc. change (Z.to_nat 4) with (length (to_le_bytes4 n)).
  rewrite take_app_length, drop_app_length.
  rewrite <- (app_nil_r (to_le_bytes4 n)) at 1. rewrite header_len_app by done.
  rewrite decide_False by (rewrite zlen_app; lia).
  replace (Z.to_nat n) with (length body) by (unfold zlen in *; lia).
  by rewrite take_app_length, drop_app_length, Hex.
Qed.

(** One envelope: what [send_envelope] writes, [recv_envelope] takes off the
    stream. *)
Lemma send_recv e w :
  exchange_ok (Deliver e) -> (forall c, frame_codec w = Some c -> WireCodec F L c) ->
  exists frame, send_envelope e w = (Ok tt, write_frame frame w) /\
    forall rest, recv_envelope F L
        (mkIpcStreamReader (frame ++ rest) (bool_decide (is_Some (frame_codec w))))
      = (Returns (Ok e), mkIpcStreamReader rest (bool_decide (is_Some (frame_codec w)))).
Proof.
  intros (Hwf & Hv & bytes & He & Hle) Hc. unfold send_envelope, recv_envelope.
  assert (Hdec : decode_envelope_payload bytes = Ok e).
  { apply decode_envelope_payload_encode; try done. unfold MAX_FRAME_PAYLOAD_SIZE in *. int_lia. }
  assert (Hmax : MAX_FRAME_PAYLOAD_SIZE + 1 < 2 ^ 32) by done. pose proof (zlen_nonneg bytes).
  destruct (frame_codec w) as [c|] eqn:Ec; simpl.
  - pose proof (open_chosen F L (Some c) bytes Hc Hle) as Hopen.
    pose proof (encode_frame_compressed_ok e bytes (Some c) He Hle) as Henc.
    destruct (choose_payload (Some c) bytes) as [body comp_byte]. destruct Hopen as [Hlen Hopen].
    rewrite Henc by done. eexists. split; [done|]. intros rest. pose proof (zlen_nonneg body).
    unfold read_frame_compressed. erewrite read_frame_by_delimited; [done|unfold in_u; lia| |].
    + rewrite zlen_cons. lia.
    + eapply compressed_delimits; [|done..].
      unfold MAX_FRAME_PAYLOAD_SIZE, MAX_COMPRESSED_FRAME_SIZE in *. lia.
  - unfold encode_frame, check_envelope_payload. rewrite He.
    pose proof (encode_length e bytes He). rewrite decide_False by lia. simpl.
    rewrite decide_False by lia. rewrite try_from_u_in by (unfold in_u; lia).
    exists (to_le_bytes4 (zlen bytes) ++ bytes). split; [done|]. intros rest. unfold read_frame.
    rewrite (read_frame_by_delimited _ _ bytes _ e); [done|unfold in_u; lia|done|].
    by apply frame_delimits.
Qed.

Lemma send_recv_all steps w tail :
  Forall exchange_ok steps -> (forall c, frame_codec w = Some c -> WireCodec F L c) ->
  exists bytes flag w', send_all steps w = Ok w' /\ written w' = written w ++ bytes /\
    recv_all steps
        (mkIpcStreamReader (bytes ++ tail) (bool_decide (is_Some (frame_codec w))))
      = ((fun e => Returns (Ok e)) <$> delivered steps, mkIpcStreamReader tail flag).
Proof.
  intros Hok. revert w. induction Hok as [|[e|c] steps Hs Hok IH]; intros w Hc.
  - exists [], (bool_decide (is_Some (frame_codec w))), w. by rewrite app_nil_r.
  - destruct (send_recv e w Hs Hc) as (frame & Hsend & Hrecv).
    destruct (IH (write_frame frame w) Hc) as (bytes & flag & w' & Hall & Hw & Hr).
    exists (frame ++ bytes), flag, w'. cbn [send_all recv_all]. rewrite Hsend, <- app_assoc, Hrecv.
    split; [done|]. split; [rewrite Hw; simpl; by rewrite app_assoc|].
    cbn [write_frame frame_codec] in Hr. by rewrite Hr.
  - destruct (IH (enable_frame_compression c w)) as (bytes & flag & w' & Hall & Hw & Hr).
    { intros c' [= <-]. exact Hs. }
    by exists bytes, flag, w'.
Qed.

End Delivery.

(** C22: envelopes sent over a connection arrive unchanged and in order.  For any
    sequence of sends, with both ends switching at the same points to compressed
    frames with codecs that keep their promise, every send succeeds and the
    receiver's reads return exactly the envelopes sent and leave exactly the bytes
    that follow them. *)
Theorem envelopes_delivered_in_order (F : Features) (L : CompressionLibs) (steps : list exchange) :
  Forall (exchange_ok F L) steps ->
  exists w, send_all steps (mkIpcStreamWriter [] None) = Ok w /\
    forall tail, exists flag,
      recv_all F L steps (mkIpcStreamReader (written w ++ tail) false)
      = ((fun e => Returns (Ok e)) <$> delivered steps, mkIpcStreamReader tail flag).
Proof.
  intros Hok. pose proof (fun tail => send_recv_all F L steps (mkIpcStreamWriter [] None) tail Hok) as H.
  destruct (H [] ltac:(done)) as (bytes & flag & w & Hs & Hw & _).
  exists w. split; [done|]. intros tail.
  destruct (H tail ltac:(done)) as (bytes' & flag' & w' & Hs' & Hw' & Hr').
  assert (w' = w) as -> by congruence. exists flag'. by rewrite Hw'.
Qed.

Lemma envelopes_delivered_in_order_witness :
  let F := mkFeatures true true in
  let steps := [Deliver (Envelope_new 1 Request [1; 2]); Switch (lz4_codec rle_libs);
                Deliver (Envelope_new 2 Response (replicate 300 5))] in
  Forall (exchange_ok F rle_libs) steps /\
  exists w, send_all steps (mkIpcStreamWriter [] None) = Ok w /\
    forall tail, exists flag,
      recv_all F rle_libs steps (mkIpcStreamReader (written w ++ tail) false)
      = ((fun e => Returns (Ok e)) <$> delivered steps, mkIpcStreamReader tail flag).
Proof.
  intros F steps. assert (Hok : Forall (exchange_ok F rle_libs) steps).
  { assert (Hdel : forall r k p bytes, u64 r -> u64 (zlen p) -> encode (Envelope_new r k p) = Ok bytes ->
      zlen bytes <= MAX_FRAME_PAYLOAD_SIZE -> exchange_ok F rle_libs (Deliver (Envelope_new r k p))).
    { intros r k p bytes Hr Hp He Hb. split.
      - split; simpl; [unfold CURRENT_PROTOCOL_VERSION; int_lia|done|done].
      - split; [done|]. by exists bytes. }
    apply Forall_cons. split; [|apply Forall_cons; split; [|apply Forall_singleton]].
    - apply (Hdel _ _ _ [4; 1; 0; 2; 1; 2]); [int_lia|unfold zlen; simpl; int_lia|reflexivity|done].
    - apply lz4_wire_codec; [exact rle_laws|reflexivity].
    - apply (Hdel _ _ _ ([4; 2; 1; 172; 2] ++ replicate 300 5));
        [int_lia|unfold zlen; simpl; int_lia|reflexivity|vm_compute; discriminate]. }
  split; [exact Hok|]. exact (envelopes_delivered_in_order F rle_libs steps Hok).
Defined.

(** ** Arbitrary input *)

Lemma header_len_Some bytes : 4 <= zlen bytes -> is_Some (header_len bytes).
Proof.
  intros H. destruct bytes as [|a [|b [|c [|d l]]]]; try (unfold zlen in H; simpl in H; lia).
  by eexists.
Qed.

Lemma header_len_range bytes n :
  Forall u8 bytes -> header_len bytes = Some n -> u32 n /\ 4 <= zlen bytes.
Proof.
  intros Hu. destruct bytes as [|a [|b [|c [|d l]]]]; try done. simpl. intros [= <-].
  apply Forall_cons in Hu as [Ha Hu]. apply Forall_cons in Hu as [Hb Hu].
  apply Forall_cons in Hu as [Hc Hu]. apply Forall_cons in Hu as [Hd _].
  split; [by apply from_le_bytes4_range|]. unfold zlen. simpl. lia.
Qed.

Lemma slice_ok bytes from to :
  0 <= from <= to -> to <= zlen bytes -> exists l, slice bytes from to = Returns l.
Proof. intros. unfold slice. rewrite decide_True by done. by eexists. Qed.

(** ** Arbitrary bytes *)

(** A frame of the wire: a little-endian length and that many bytes. *)
Definition wire_frame (content : list Z) : list Z := to_le_bytes4 (zlen content) ++ content.

(** Bytes that end before the frame they start does. *)
Definition cut_frame (limit : Z) (bytes : list Z) : Prop :=
  zlen bytes < 4 \/
  exists n part, bytes = to_le_bytes4 n ++ part /\ zlen part < n /\ n <= limit.

(** Bytes that declare a frame over the limit. *)
Definition oversized (limit n : Z) (bytes : list Z) : Prop :=
  u32 n /\ limit < n /\ exists body, bytes = to_le_bytes4 n ++ body.

(** What an exact decoder makes of a frame and the bytes after it. *)
Definition alone (rest : list Z) (r : result FrameDecodeError Envelope)
  : result FrameDecodeError Envelope :=
  match rest with [] => r | _ :: _ => Err FrameTrailingBytes end.

(** The content of a compressed frame. *)
Definition open_content (F : Features) (L : CompressionLibs) (content : list Z)
  : result FrameDecodeError Envelope :=
  match content with
  | [] => Err IncompleteFrame
  | comp_byte :: body =>
      let? data := open_payload F L comp_byte body in decode_envelope_payload data
  end.

Lemma header_split bytes :
  Forall u8 bytes -> 4 <= zlen bytes ->
  exists n body, u32 n /\ bytes = to_le_bytes4 n ++ body.
Proof.
  intros Hu Hlen.
  destruct bytes as [|a [|b [|c [|d l]]]]; try (unfold zlen in Hlen; simpl in Hlen; lia).
  repeat apply Forall_cons in Hu as [? Hu].
  exists (from_le_bytes4 a b c d), l. split; [by apply from_le_bytes4_range|].
  unfold to_le_bytes4, from_le_bytes4. simpl. repeat f_equal; div_lia.
Qed.

(** Any bytes start with a frame, are cut short, or declare too much. *)
Lemma wire_cases limit bytes :
  Forall u8 bytes ->
  (exists content rest, bytes = wire_frame content ++ rest /\ zlen content <= limit) \/
  cut_frame limit bytes \/ exists n, oversized limit n bytes.
Proof.
  intros Hu. destruct (decide (zlen bytes < 4)) as [|Hlen]; [by right; left; left|].
  destruct (header_split bytes Hu) as (n & body & Hn & ->); [lia|].
  destruct (decide (limit < n)); [right; right; exists n; split_and!; eauto|].
  destruct (decide (zlen body < n)); [right; left; right; exists n, body; split_and!; [done|lia..]|].
  left. exists (take (Z.to_nat n) body), (drop (Z.to_nat n) body). unfold wire_frame.
  assert (Ht : zlen (take (Z.to_nat n) body) = n)
    by (unfold zlen in *; rewrite length_take; unfold in_u in Hn; lia).
  rewrite Ht, <- app_assoc, take_drop. split; [done|lia].
Qed.

Lemma header_len_short bytes : zlen bytes < 4 -> header_len bytes = None.
Proof.
  destruct bytes as [|a [|b [|c [|d l]]]]; try done. unfold zlen. simpl. lia.
Qed.

Lemma zlen_wire_frame content rest :
  zlen (wire_frame content ++ rest) = 4 + zlen content + zlen rest.
Proof. unfold wire_frame. rewrite !zlen_app, to_le_bytes4_length. lia. Qed.

Lemma plain_frame content rest :
  zlen content <= MAX_FRAME_PAYLOAD_SIZE ->
  try_decode_frame (wire_frame content ++ rest)
    = Returns (map_some (decode_envelope_payload content), rest) /\
  decode_frame_exact (wire_frame content ++ rest)
    = Returns (alone rest (decode_envelope_payload content)).
Proof.
  intros Hle. pose proof (zlen_wire_frame content rest) as Hlen.
  pose proof (zlen_nonneg content). pose proof (zlen_nonneg rest).
  assert (H4 : FRAME_LEN_BYTES = 4) by done.
  assert (Hh : frame_payload_len (wire_frame content ++ rest) = Ok (Some (zlen content))).
  { unfold wire_frame. rewrite <- app_assoc. apply frame_payload_len_app. lia. }
  assert (Hs : slice (wire_frame content ++ rest) FRAME_LEN_BYTES (FRAME_LEN_BYTES + zlen content)
    = Returns content).
  { unfold wire_frame. rewrite <- app_assoc. by apply slice_frame. }
  unfold try_decode_frame, decode_frame_exact. rewrite Hh, Hs. split.
  - rewrite decide_False by lia. rewrite drain_app; [done|]. unfold wire_frame.
    by rewrite zlen_app.
  - rewrite decide_False by lia. destruct rest as [|b rest].
    + rewrite zlen_nil in Hlen. by rewrite decide_False by lia.
    + rewrite zlen_cons in Hlen. pose proof (zlen_nonneg rest). by rewrite decide_True by lia.
Qed.

Lemma plain_cut bytes :
  cut_frame MAX_FRAME_PAYLOAD_SIZE bytes ->
  try_decode_frame bytes = Returns (Ok None, bytes) /\
  decode_frame_exact bytes = Returns (Err IncompleteFrame).
Proof.
  unfold try_decode_frame, decode_frame_exact. intros [Hs|(n & part & -> & Hpart & Hn)].
  - unfold frame_payload_len. by rewrite header_len_short.
  - pose proof (zlen_nonneg part). rewrite frame_payload_len_app by lia.
    rewrite zlen_app, to_le_bytes4_length. unfold FRAME_LEN_BYTES. by rewrite !decide_True by lia.
Qed.

Lemma plain_oversized n bytes :
  oversized MAX_FRAME_PAYLOAD_SIZE n bytes ->
  try_decode_frame bytes = Returns (Err (PayloadTooLarge n MAX_FRAME_PAYLOAD_SIZE), bytes) /\
  decode_frame_exact bytes = Returns (Err (PayloadTooLarge n MAX_FRAME_PAYLOAD_SIZE)).
Proof.
  intros (Hu & Hn & body & ->). unfold try_decode_frame, decode_frame_exact, frame_payload_len.
  rewrite header_len_app by done. by rewrite decide_True by lia.
Qed.

Lemma compressed_nonempty F L comp_byte body rest :
  zlen body + 1 <= MAX_COMPRESSED_FRAME_SIZE ->
  decode_frame_compressed F L (wire_frame (comp_byte :: body) ++ rest) =
    Returns (alone rest (open_content F L (comp_byte :: body))).
Proof.
  intros Hle. pose proof (zlen_wire_frame (comp_byte :: body) rest) as Hlen.
  pose proof (zlen_nonneg body). pose proof (zlen_nonneg rest).
  assert (H4 : FRAME_LEN_BYTES = 4) by done. rewrite zlen_cons in Hlen.
  assert (Hh : header_len (wire_frame (comp_byte :: body) ++ rest) = Some (zlen body + 1)).
  { unfold wire_frame. rewrite <- app_assoc, zlen_cons. apply header_len_app.
    unfold MAX_COMPRESSED_FRAME_SIZE in Hle. int_lia. }
  assert (Hs : slice (wire_frame (comp_byte :: body) ++ rest) (FRAME_LEN_BYTES + 1)
    (FRAME_LEN_BYTES + (zlen body + 1)) = Returns body).
  { replace (FRAME_LEN_BYTES + (zlen body + 1)) with (FRAME_LEN_BYTES + 1 + zlen body) by lia.
    unfold wire_frame. rewrite (app_assoc _ [comp_byte] body : _ ++ comp_byte :: body = _).
    rewrite <- app_assoc. by apply slice_frame. }
  unfold decode_frame_compressed. rewrite Hh, Hs. rewrite !decide_False by lia.
  destruct rest as [|b rest].
  - rewrite zlen_nil in Hlen. by rewrite decide_False by lia.
  - rewrite zlen_cons in Hlen. pose proof (zlen_nonneg rest). by rewrite decide_True by lia.
Qed.

Lemma compressed_cut F L bytes :
  cut_frame MAX_COMPRESSED_FRAME_SIZE bytes ->
  decode_frame_compressed F L bytes = Returns (Err IncompleteFrame).
Proof.
  assert (H4 : FRAME_LEN_BYTES = 4) by done.
  unfold decode_frame_compressed. intros [Hs|(n & part & -> & Hpart & Hn)];
    [by rewrite decide_True by lia|].
  case_decide; [done|]. pose proof (zlen_nonneg part).
  rewrite header_len_app by (unfold MAX_COMPRESSED_FRAME_SIZE in Hn; int_lia).
  rewrite zlen_app, to_le_bytes4_length. rewrite decide_False by lia. by rewrite decide_True by lia.
Qed.

Lemma compressed_short F L bytes :
  zlen bytes = 4 -> decode_frame_compressed F L bytes = Returns (Err IncompleteFrame).
Proof.
  intros H. unfold decode_frame_compressed, FRAME_LEN_BYTES. by rewrite decide_True by lia.
Qed.

Lemma compressed_empty F L b rest :
  decode_frame_compressed F L (wire_frame [] ++ b :: rest) = Returns (Err FrameTrailingBytes).
Proof.
  unfold decode_frame_compressed. pose proof (zlen_nonneg rest).
  assert (Hlen : zlen (wire_frame [] ++ b :: rest) = 5 + zlen rest)
    by (rewrite zlen_wire_frame, zlen_nil, zlen_cons; lia).
  rewrite Hlen. change (header_len (wire_frame [] ++ b :: rest)) with (Some 0).
  unfold FRAME_LEN_BYTES, MAX_COMPRESSED_FRAME_SIZE.
  rewrite !decide_False by lia. by rewrite decide_True by lia.
Qed.

Lemma compressed_frame F L content rest :
  zlen content <= MAX_COMPRESSED_FRAME_SIZE ->
  decode_frame_compressed F L (wire_frame content ++ rest) =
    Returns (alone rest (open_content F L content)).
Proof.
  destruct content as [|comp_byte body].
  - intros _. destruct rest as [|b rest]; [by apply compressed_short|apply compressed_empty].
  - rewrite zlen_cons. apply compressed_nonempty.
Qed.

Lemma compressed_oversized F L n bytes :
  oversized MAX_COMPRESSED_FRAME_SIZE n bytes -> 4 < zlen bytes ->
  decode_frame_compressed F L bytes
    = Returns (Err (PayloadTooLarge n MAX_COMPRESSED_FRAME_SIZE)).
Proof.
  intros (Hu & Hn & body & ->) Hlen. unfold decode_frame_compressed, FRAME_LEN_BYTES.
  rewrite decide_False by lia. rewrite header_len_app by done. by rewrite decide_True by lia.
Qed.

(** C38: what the decoders make of arbitrary bytes, by the first frame in them.
    If the bytes start with a frame (a little-endian length within the limit and
    that many bytes), [try_decode_frame] decodes exactly its content and leaves
    exactly the bytes after it, also when the content is rejected, and
    [decode_frame_exact] decodes the content or reports the bytes after it.  If
    they are cut short (fewer than four bytes, or fewer than a length within the
    limit declares), the first waits and keeps the buffer and the second reports
    an incomplete frame.  If they declare a length over the limit, both report
    that length and the buffer is kept.  One of the three holds of any bytes, so no
    index is out of range.  [decode_frame_compressed] follows the same frames with
    its own limit: the first byte of the content selects the decompression of the
    others, a content without that byte is incomplete alone and trailing bytes
    otherwise, and it needs five bytes before it looks at the length. *)
Theorem decoders_follow_the_wire (F : Features) (L : CompressionLibs) (bytes : list Z) :
  Forall u8 bytes ->
  ((exists content rest, bytes = wire_frame content ++ rest /\
      zlen content <= MAX_FRAME_PAYLOAD_SIZE) \/
   cut_frame MAX_FRAME_PAYLOAD_SIZE bytes \/
   exists n, oversized MAX_FRAME_PAYLOAD_SIZE n bytes) /\
  (forall content rest, bytes = wire_frame content ++ rest ->
     zlen content <= MAX_FRAME_PAYLOAD_SIZE ->
     try_decode_frame bytes = Returns (map_some (decode_envelope_payload content), rest) /\
     decode_frame_exact bytes = Returns (alone rest (decode_envelope_payload content))) /\
  (cut_frame MAX_FRAME_PAYLOAD_SIZE bytes ->
     try_decode_frame bytes = Returns (Ok None, bytes) /\
     decode_frame_exact bytes = Returns (Err IncompleteFrame)) /\
  (forall n, oversized MAX_FRAME_PAYLOAD_SIZE n bytes ->
     try_decode_frame bytes = Returns (Err (PayloadTooLarge n MAX_FRAME_PAYLOAD_SIZE), bytes) /\
     decode_frame_exact bytes = Returns (Err (PayloadTooLarge n MAX_FRAME_PAYLOAD_SIZE))) /\
  (forall content rest, bytes = wire_frame content ++ rest ->
     zlen content <= MAX_COMPRESSED_FRAME_SIZE ->
     decode_frame_compressed F L bytes = Returns (alone rest (open_content F L content))) /\
  (cut_frame MAX_COMPRESSED_FRAME_SIZE bytes \/ zlen bytes = 4 ->
     decode_frame_compressed F L bytes = Returns (Err IncompleteFrame)) /\
  (forall n, oversized MAX_COMPRESSED_FRAME_SIZE n bytes -> 4 < zlen bytes ->
     decode_frame_compressed F L bytes =
       Returns (Err (PayloadTooLarge n MAX_COMPRESSED_FRAME_SIZE))).
Proof.
  intros Hu. split_and!.
  - by apply wire_cases.
  - intros content rest ->. apply plain_frame.
  - by apply plain_cut.
  - intros n. by apply plain_oversized.
  - intros content rest ->. apply compressed_frame.
  - intros [H|H]; [by apply compressed_cut|by apply compressed_short].
  - intros n. apply compressed_oversized.
Qed.

Lemma decoders_follow_the_wire_witness :
  let F := mkFeatures true true in
  let bytes := [2; 0; 0; 0; 7; 7; 1] in
  Forall u8 bytes /\ bytes = wire_frame [7; 7] ++ [1] /\
  try_decode_frame bytes = Returns (map_some (decode_envelope_payload [7; 7]), [1]) /\
  decode_frame_exact bytes = Returns (Err FrameTrailingBytes) /\
  decode_frame_compressed F rle_libs bytes = Returns (Err FrameTrailingBytes).
Proof.
  intros F bytes. assert (Hu : Forall u8 bytes) by (repeat constructor; int_lia).
  destruct (decoders_follow_the_wire F rle_libs bytes Hu) as (_ & Hp & _ & _ & Hc & _).
  destruct (Hp [7; 7] [1] eq_refl ltac:(by vm_compute)) as [Ht He].
  split; [exact Hu|]. split; [reflexivity|]. split; [exact Ht|]. split; [exact He|].
  exact (Hc [7; 7] [1] eq_refl ltac:(by vm_compute)).
Defined.

Lemma from_le_bytes4_zero a b c d :
  u8 a -> u8 b -> u8 c -> u8 d -> from_le_bytes4 a b c d = 0 ->
  a = 0 /\ b = 0 /\ c = 0 /\ d = 0.
Proof. unfold from_le_bytes4. int_lia. Qed.

(** the incremental decoder of the compressed format panics exactly on
    buffers of at least five bytes that start with a zero length: it slices from
    the byte after the compression identifier to the end of a frame that has no
    room for one.  The exact decoder rejects the same bytes. *)
Theorem zero_length_frame_panics (F : Features) (L : CompressionLibs) (bytes : list Z) :
  Forall u8 bytes ->
  try_decode_frame_compressed F L bytes = Panics <->
  exists b rest, bytes = [0; 0; 0; 0] ++ b :: rest.
Proof.
  intros Hu. assert (H4 : FRAME_LEN_BYTES = 4) by done. split.
  - unfold try_decode_frame_compressed. case_decide as Hlen; [done|].
    destruct (header_len_Some bytes) as [n Eh]; [lia|]. rewrite Eh.
    destruct (header_len_range _ _ Hu Eh) as [Hn _]. unfold in_u in Hn.
    case_decide; [done|]. case_decide as Hcut; [done|]. intros Hp.
    assert (n = 0) as ->.
    { destruct (decide (n = 0)); [done|].
      destruct (slice_ok bytes (FRAME_LEN_BYTES + 1) (FRAME_LEN_BYTES + n)) as [l El]; [lia|lia|].
      destruct (lookup_lt_is_Some_2 bytes (Z.to_nat FRAME_LEN_BYTES)) as [b Eb];
        [unfold zlen in *; lia|]. by rewrite El, Eb in Hp. }
    destruct bytes as [|a [|b [|c [|d [|x l]]]]]; try (unfold zlen in Hlen; simpl in Hlen; lia).
    repeat apply Forall_cons in Hu as [? Hu]. simpl in Eh. injection Eh as Eh.
    apply from_le_bytes4_zero in Eh as (-> & -> & -> & ->); [|done..]. by exists x, l.
  - intros (b & rest & ->). unfold try_decode_frame_compressed.
    assert (5 <= zlen ([0; 0; 0; 0] ++ b :: rest))
      by (simpl; rewrite !zlen_cons; pose proof (zlen_nonneg rest); lia).
    rewrite decide_False by lia. change (header_len ([0; 0; 0; 0] ++ b :: rest)) with (Some 0).
    cbv beta iota zeta. rewrite decide_False by done. rewrite decide_False by lia.
    unfold slice. rewrite (decide_False (P := 0 <= _ <= _ /\ _)) by lia. by case_match.
Qed.

Lemma zero_length_frame_panics_witness :
  let F := mkFeatures true true in
  Forall u8 [0; 0; 0; 0; 9] /\
  (try_decode_frame_compressed F rle_libs [0; 0; 0; 0; 9] = Panics <->
   exists b rest, [0; 0; 0; 0; 9] = [0; 0; 0; 0] ++ b :: rest).
Proof.
  intros F. assert (Hu : Forall u8 [0; 0; 0; 0; 9]) by (repeat constructor; int_lia).
  split; [exact Hu|]. exact (zero_length_frame_panics F rle_libs _ Hu).
Defined.

(** the limit on the uncompressed size of a frame is not enforced for frames
    marked as uncompressed: an envelope whose encoding exceeds
    [MAX_FRAME_PAYLOAD_SIZE], which no encoder accepts, is decoded from a frame
    with compression byte zero as long as the wire limit holds. *)
Theorem uncompressed_frame_exceeds_limit (F : Features) (L : CompressionLibs) (e : Envelope)
    (codec : option CompressionCodec) (bytes : list Z) :
  envelope_wf e -> version e = CURRENT_PROTOCOL_VERSION -> encode e = Ok bytes ->
  MAX_FRAME_PAYLOAD_SIZE < zlen bytes < MAX_COMPRESSED_FRAME_SIZE ->
  (forall frame, encode_frame e <> Ok frame /\ encode_frame_compressed e codec <> Ok frame) /\
  decode_frame_compressed F L (to_le_bytes4 (1 + zlen bytes) ++ 0 :: bytes) = Returns (Ok e).
Proof.
  intros Hwf Hv He Hlen. split.
  - intros frame. unfold encode_frame, encode_frame_compressed. rewrite He.
    destruct (check_envelope_payload e); simpl; [|done]. by rewrite !decide_True by lia.
  - eapply compressed_delimits; [lia|done|]. apply decode_envelope_payload_encode; try done.
    unfold MAX_COMPRESSED_FRAME_SIZE in *. int_lia.
Qed.

Definition big_envelope : Envelope := Envelope_new 0 Event (replicate (Z.to_nat 9437184) 0).

Lemma big_payload_length : zlen (payload big_envelope) = 9437184.
Proof.
  unfold zlen, big_envelope, Envelope_new. cbn [payload]. rewrite length_replicate.
  apply Z2Nat.id. lia.
Qed.

Lemma uncompressed_frame_exceeds_limit_witness :
  exists bytes, encode big_envelope = Ok bytes /\
    (forall frame, encode_frame big_envelope <> Ok frame /\
       encode_frame_compressed big_envelope None <> Ok frame) /\
    decode_frame_compressed (mkFeatures true true) rle_libs
      (to_le_bytes4 (1 + zlen bytes) ++ 0 :: bytes) = Returns (Ok big_envelope).
Proof.
  pose proof big_payload_length as Hp. eexists. split; [apply encode_shape|].
  apply uncompressed_frame_exceeds_limit.
  - split; [cbn; unfold CURRENT_PROTOCOL_VERSION; int_lia|cbn; int_lia|rewrite Hp; int_lia].
  - reflexivity.
  - apply encode_shape.
  - rewrite zlen_app, Hp. vm_compute. split; reflexivity.
Defined.
