(* ===== verification/CompressedStream.v ===== *)
(** * The compressed transport stream

    packages/ipc/src/compressed_stream.rs: a wrapper over an asynchronous byte
    stream that compresses each flush into a block (compressed length,
    uncompressed length, compressed bytes) and decompresses blocks on the way in.
    The wrapped stream is a script of what its polls answer: bytes in arbitrary
    fragments, [Pending], an error, the end.  Every poll of the wrapper is one
    function on its state and the script. *)

From S2P Require Import Prelude Compression.

Open Scope bmux_scope.

Inductive ReadState : Set := Header | Block | Data.

#[export] Instance ReadState_eq_dec : EqDecision ReadState.
Proof. solve_decision. Defined.

Inductive ErrorKind : Set := UnexpectedEof | InvalidData | Unsupported | WriteZero | Other.

(** ** The wrapped stream *)

(** What the polls for reading answer, in order: bytes (as many as fit the
    caller's buffer, the rest next time), not ready, an error; after the script
    the stream is at its end. *)
Inductive read_event :=
| Bytes (bs : list Z)
| ReadPending
| ReadError (e : ErrorKind).

(** The polls for writing: up to [n] bytes are taken, not ready, an error; after
    the script everything is taken. *)
Inductive write_event :=
| Accept (n : Z)
| WritePending
| WriteError (e : ErrorKind).

(** [poll_flush] and [poll_shutdown] of the wrapped stream. *)
Inductive done_event := Done | DonePending | DoneError (e : ErrorKind).

Record Inner := mkInner {
  reads : list read_event;
  writes : list write_event;
  dones : list done_event;
  sent : list Z;
  closed : bool
}.

Inductive Poll (A : Type) : Type :=
| Ready (a : A)
| ReadyErr (e : ErrorKind)
| Pending
| Unreachable.
Arguments Ready {A} a.
Arguments ReadyErr {A} e.
Arguments Pending {A}.
Arguments Unreachable {A}.

Definition set_reads (s : Inner) (r : list read_event) : Inner :=
  mkInner r (writes s) (dones s) (sent s) (closed s).

Definition inner_poll_read (capacity : Z) (s : Inner) : Poll (list Z) * Inner :=
  match reads s with
  | [] => (Ready [], s)
  | ReadPending :: r => (Pending, set_reads s r)
  | ReadError e :: r => (ReadyErr e, set_reads s r)
  | Bytes bs :: r =>
      (Ready (take (Z.to_nat capacity) bs),
       set_reads s (match drop (Z.to_nat capacity) bs with
                    | [] => r
                    | rest => Bytes rest :: r
                    end))
  end.

Definition inner_poll_write (bytes : list Z) (s : Inner) : Poll Z * Inner :=
  let accept n w := (Ready n, mkInner (reads s) w (dones s)
                                (sent s ++ take (Z.to_nat n) bytes) (closed s)) in
  let skip w := mkInner (reads s) w (dones s) (sent s) (closed s) in
  match writes s with
  | [] => accept (zlen bytes) []
  | Accept n :: w => accept (Z.min n (zlen bytes)) w
  | WritePending :: w => (Pending, skip w)
  | WriteError e :: w => (ReadyErr e, skip w)
  end.

(** One answer to a flush or shutdown; [close] marks the stream as shut down. *)
Definition inner_poll_done (close : bool) (s : Inner) : Poll unit * Inner :=
  let next d closed := mkInner (reads s) (writes s) d (sent s) closed in
  match dones s with
  | [] => (Ready tt, next [] (closed s || close))
  | Done :: d => (Ready tt, next d (closed s || close))
  | DonePending :: d => (Pending, next d (closed s))
  | DoneError e :: d => (ReadyErr e, next d (closed s))
  end.

(** ** The wrapper *)

Record CompressedStream := mkCompressedStream {
  inner : Inner;
  level : Z;
  write_buf : list Z;
  write_out : list Z;
  write_out_pos : Z;
  read_buf : list Z;
  read_pos : Z;
  header_buf : list Z;
  read_state : ReadState;
  block_buf : list Z;
  block_compressed_len : Z;
  block_uncompressed_len : Z
}.

Definition BLOCK_HEADER_LEN : Z := 8.

Definition CompressedStream_new (inner : Inner) (level : Z) : CompressedStream :=
  mkCompressedStream inner level [] [] 0 [] 0 [] Header [] 0 0.

Definition with_inner (s : CompressedStream) (i : Inner) : CompressedStream :=
  mkCompressedStream i (level s) (write_buf s) (write_out s) (write_out_pos s) (read_buf s)
    (read_pos s) (header_buf s) (read_state s) (block_buf s) (block_compressed_len s)
    (block_uncompressed_len s).

Definition with_header_buf (s : CompressedStream) (h : list Z) : CompressedStream :=
  mkCompressedStream (inner s) (level s) (write_buf s) (write_out s) (write_out_pos s)
    (read_buf s) (read_pos s) h (read_state s) (block_buf s) (block_compressed_len s)
    (block_uncompressed_len s).

Definition with_block_buf (s : CompressedStream) (b : list Z) : CompressedStream :=
  mkCompressedStream (inner s) (level s) (write_buf s) (write_out s) (write_out_pos s)
    (read_buf s) (read_pos s) (header_buf s) (read_state s) b (block_compressed_len s)
    (block_uncompressed_len s).

(** The block's lengths are known: start reading it. *)
Definition start_block (s : CompressedStream) (compressed_len uncompressed_len : Z)
  : CompressedStream :=
  mkCompressedStream (inner s) (level s) (write_buf s) (write_out s) (write_out_pos s)
    (read_buf s) (read_pos s) (header_buf s) Block [] compressed_len uncompressed_len.

(** The block is decompressed: serve it. *)
Definition start_data (s : CompressedStream) (data : list Z) : CompressedStream :=
  mkCompressedStream (inner s) (level s) (write_buf s) (write_out s) (write_out_pos s)
    data 0 (header_buf s) Data (block_buf s) (block_compressed_len s)
    (block_uncompressed_len s).

(** Serve up to [n] bytes of the decompressed block; when it is used up, prepare
    for the next header. *)
Definition serve (s : CompressedStream) (remaining : Z) : list Z * CompressedStream :=
  let available := drop (Z.to_nat (read_pos s)) (read_buf s) in
  let to_copy := Z.min (zlen available) remaining in
  let pos := read_pos s + to_copy in
  let used_up := bool_decide (pos >= zlen (read_buf s)) in
  (take (Z.to_nat to_copy) available,
   mkCompressedStream (inner s) (level s) (write_buf s) (write_out s) (write_out_pos s)
     (if used_up then [] else read_buf s) (if used_up then 0 else pos)
     (if used_up then [] else header_buf s) (if used_up then Header else read_state s)
     (block_buf s) (block_compressed_len s) (block_uncompressed_len s)).

(** The [while] loop over the header: [None] when it is complete, otherwise what
    [poll_read] returns. *)
Fixpoint fill_header (fuel : nat) (s : CompressedStream)
  : option (Poll (list Z)) * CompressedStream :=
  match fuel with
  | O => (None, s)
  | S fuel =>
      if decide (zlen (header_buf s) < BLOCK_HEADER_LEN) then
        match inner_poll_read 1 (inner s) with
        | (Ready [], i) => (Some (Ready []), with_inner s i)
        | (Ready (b :: _), i) =>
            fill_header fuel (with_header_buf (with_inner s i) (header_buf s ++ [b]))
        | (ReadyErr e, i) => (Some (ReadyErr e), with_inner s i)
        | (Pending, i) => (Some Pending, with_inner s i)
        | (Unreachable, i) => (Some Unreachable, with_inner s i)
        end
      else (None, s)
  end.

(** The [while] loop over the block. *)
Fixpoint fill_block (fuel : nat) (s : CompressedStream)
  : option (Poll (list Z)) * CompressedStream :=
  match fuel with
  | O => (None, s)
  | S fuel =>
      if decide (zlen (block_buf s) < block_compressed_len s) then
        let remaining := block_compressed_len s - zlen (block_buf s) in
        match inner_poll_read (Z.min remaining 8192) (inner s) with
        | (Ready [], i) => (Some (ReadyErr UnexpectedEof), with_inner s i)
        | (Ready bs, i) =>
            fill_block fuel (with_block_buf (with_inner s i) (block_buf s ++ bs))
        | (ReadyErr e, i) => (Some (ReadyErr e), with_inner s i)
        | (Pending, i) => (Some Pending, with_inner s i)
        | (Unreachable, i) => (Some Unreachable, with_inner s i)
        end
      else (None, s)
  end.

(** [u32::from_le_bytes] of the [i]-th four bytes of the header. *)
Definition header_u32 (h : list Z) (i : nat) : Z :=
  match drop i h with
  | b0 :: b1 :: b2 :: b3 :: _ => from_le_bytes4 b0 b1 b2 b3
  | _ => 0
  end.

Section Stream.

Context (F : Features) (L : CompressionLibs).

(** The [loop]: at most header, block and data follow each other before it
    returns. *)
Fixpoint poll_read_loop (fuel : nat) (remaining : Z) (s : CompressedStream)
  : Poll (list Z) * CompressedStream :=
  match fuel with
  | O => (Unreachable, s)
  | S fuel =>
      if decide (read_state s = Data /\ read_pos s < zlen (read_buf s)) then
        let '(data, s) := serve s remaining in (Ready data, s)
      else
        match read_state s with
        | Header =>
            match fill_header (Z.to_nat (BLOCK_HEADER_LEN - zlen (header_buf s))) s with
            | (Some r, s) => (r, s)
            | (None, s) =>
                poll_read_loop fuel remaining
                  (start_block s (header_u32 (header_buf s) 0) (header_u32 (header_buf s) 4))
            end
        | Block =>
            match fill_block (Z.to_nat (block_compressed_len s - zlen (block_buf s))) s with
            | (Some r, s) => (r, s)
            | (None, s) =>
                if compression_zstd F then
                  match zstd_bulk_decompress L (block_buf s) (block_uncompressed_len s) with
                  | Ok data => poll_read_loop fuel remaining (start_data s data)
                  | Err _ => (ReadyErr InvalidData, s)
                  end
                else (ReadyErr Unsupported, s)
            end
        | Data => (Unreachable, s)
        end
  end.

(** [remaining] is the room in the caller's buffer; the bytes put there are the
    result. *)
Definition poll_read (remaining : Z) (s : CompressedStream) : Poll (list Z) * CompressedStream :=
  poll_read_loop 3 remaining s.

Definition with_write (s : CompressedStream) (i : Inner) (buf out : list Z) (pos : Z)
  : CompressedStream :=
  mkCompressedStream i (level s) buf out pos (read_buf s) (read_pos s) (header_buf s)
    (read_state s) (block_buf s) (block_compressed_len s) (block_uncompressed_len s).

Definition poll_write (buf : list Z) (s : CompressedStream) : Poll Z * CompressedStream :=
  (Ready (zlen buf),
   with_write s (inner s) (write_buf s ++ buf) (write_out s) (write_out_pos s)).

(** A block on the wire; the lengths are cast to [u32]. *)
Definition block_bytes (compressed : list Z) (uncompressed_len : Z) : list Z :=
  to_le_bytes4 (wrap_u 32 (zlen compressed)) ++ to_le_bytes4 (wrap_u 32 uncompressed_len)
    ++ compressed.

(** The first step of [poll_flush]: compress the buffered writes, unless earlier
    output is still waiting. *)
Definition stage (s : CompressedStream) : result ErrorKind CompressedStream :=
  if decide (write_buf s <> [] /\ write_out_pos s >= zlen (write_out s)) then
    if compression_zstd F then
      match zstd_bulk_compress L (write_buf s) (level s) with
      | None => Err Other
      | Some compressed =>
          Ok (with_write s (inner s) [] (block_bytes compressed (zlen (write_buf s))) 0)
      end
    else Err Unsupported
  else Ok s.

(** The loop that writes [write_out]: every accepted write is progress. *)
Fixpoint write_loop (fuel : nat) (s : CompressedStream) : option (Poll unit) * CompressedStream :=
  match fuel with
  | O => (None, s)
  | S fuel =>
      if decide (write_out_pos s < zlen (write_out s)) then
        match inner_poll_write (drop (Z.to_nat (write_out_pos s)) (write_out s)) (inner s) with
        | (Ready n, i) =>
            let s' := with_write s i (write_buf s) (write_out s) in
            if decide (n = 0) then (Some (ReadyErr WriteZero), s' (write_out_pos s))
            else write_loop fuel (s' (write_out_pos s + n))
        | (ReadyErr e, i) => (Some (ReadyErr e), with_inner s i)
        | (Pending, i) => (Some Pending, with_inner s i)
        | (Unreachable, i) => (Some Unreachable, with_inner s i)
        end
      else (None, s)
  end.

Definition poll_flush (s : CompressedStream) : Poll unit * CompressedStream :=
  match stage s with
  | Err e => (ReadyErr e, s)
  | Ok s =>
      match write_loop (S (Z.to_nat (zlen (write_out s) - write_out_pos s))) s with
      | (Some r, s) => (r, s)
      | (None, s) => let '(r, i) := inner_poll_done false (inner s) in (r, with_inner s i)
      end
  end.

Definition poll_shutdown (s : CompressedStream) : Poll unit * CompressedStream :=
  let flushed := if decide (write_buf s <> []) then poll_flush s else (Ready tt, s) in
  match flushed with
  | (Ready _, s) => let '(r, i) := inner_poll_done true (inner s) in (r, with_inner s i)
  | other => other
  end.

End Stream.

(** ** Scripts without failures *)

Definition read_clean (e : read_event) : Prop :=
  match e with Bytes bs => bs <> [] | ReadPending => True | ReadError _ => False end.

Definition write_clean (e : write_event) : Prop :=
  match e with Accept n => 1 <= n | WritePending => True | WriteError _ => False end.

Definition done_clean (e : done_event) : Prop :=
  match e with DoneError _ => False | _ => True end.

(** The bytes a script delivers, and how often it is not ready. *)
Fixpoint script_bytes (r : list read_event) : list Z :=
  match r with
  | [] => []
  | Bytes bs :: r => bs ++ script_bytes r
  | _ :: r => script_bytes r
  end.

Fixpoint read_waits (r : list read_event) : nat :=
  match r with
  | [] => 0
  | ReadPending :: r => S (read_waits r)
  | _ :: r => read_waits r
  end.

Fixpoint write_waits (w : list write_event) : nat :=
  match w with
  | [] => 0
  | WritePending :: w => S (write_waits w)
  | _ :: w => write_waits w
  end.

Fixpoint done_waits (d : list done_event) : nat :=
  match d with
  | [] => 0
  | DonePending :: d => S (done_waits d)
  | _ :: d => done_waits d
  end.

Definition incoming (s : CompressedStream) : list Z := script_bytes (reads (inner s)).
Definition waits (s : CompressedStream) : nat := read_waits (reads (inner s)).
Definition quiet (s : CompressedStream) : Prop := Forall read_clean (reads (inner s)).

Lemma inner_poll_read_clean capacity i :
  1 <= capacity -> Forall read_clean (reads i) ->
  match inner_poll_read capacity i with
  | (Ready bs, i') =>
      Forall read_clean (reads i') /\ read_waits (reads i') = read_waits (reads i) /\
      script_bytes (reads i) = bs ++ script_bytes (reads i') /\ zlen bs <= capacity /\
      (bs = [] -> script_bytes (reads i) = [])
  | (Pending, i') =>
      Forall read_clean (reads i') /\ read_waits (reads i) = S (read_waits (reads i')) /\
      script_bytes (reads i) = script_bytes (reads i')
  | _ => False
  end.
Proof.
  intros Hcap Hclean. unfold inner_poll_read.
  destruct (reads i) as [|[bs| |e] r] eqn:E; simpl.
  - rewrite E. unfold zlen. simpl. split_and!; done || lia.
  - apply Forall_cons in Hclean as [Hbs Hr]. simpl in Hbs.
    assert (Hlen : zlen (take (Z.to_nat capacity) bs) <= capacity)
      by (unfold zlen; rewrite length_take; lia).
    assert (Hne : take (Z.to_nat capacity) bs <> []).
    { destruct bs, (Z.to_nat capacity) eqn:?; simpl; done || lia. }
    assert (Happ := take_drop (Z.to_nat capacity) bs).
    destruct (drop (Z.to_nat capacity) bs) as [|b rest] eqn:Ed; simpl.
    + rewrite app_nil_r in Happ. rewrite Happ. split_and!; try done. by rewrite Happ in Hlen.
    + split; [by constructor|]. split; [done|]. split; [rewrite <- Happ at 1; by rewrite <- app_assoc|]. done.
  - by apply Forall_cons in Hclean as [_ Hr].
  - by apply Forall_cons in Hclean as [[] _].
Qed.

(** ** Reading *)

Lemma fill_header_spec fuel s :
  quiet s -> zlen (header_buf s) <= BLOCK_HEADER_LEN ->
  fuel = Z.to_nat (BLOCK_HEADER_LEN - zlen (header_buf s)) ->
  exists i h, (fill_header fuel s).2 = with_header_buf (with_inner s i) h /\
    Forall read_clean (reads i) /\
    h ++ script_bytes (reads i) = header_buf s ++ incoming s /\ zlen h <= BLOCK_HEADER_LEN /\
    match (fill_header fuel s).1 with
    | None => zlen h = BLOCK_HEADER_LEN /\ read_waits (reads i) = waits s
    | Some (Ready bs) => bs = [] /\ script_bytes (reads i) = [] /\ zlen h < BLOCK_HEADER_LEN /\
        read_waits (reads i) = waits s
    | Some Pending => waits s = S (read_waits (reads i))
    | _ => False
    end.
Proof.
  revert s. induction fuel as [|fuel IH]; intros s Hq Hh Hfuel.
  - exists (inner s), (header_buf s). destruct s; simpl in *. split_and!; try done; lia.
  - simpl. rewrite decide_True by lia.
    pose proof (inner_poll_read_clean 1 (inner s) ltac:(lia) Hq) as Hr. unfold quiet, incoming, waits in *.
    destruct (inner_poll_read 1 (inner s)) as [[bs|e| |] i]; [|done| |done].
    + destruct Hr as (Hc & Hw & Hb & Hlen & Hnil). destruct bs as [|b bs].
      * exists i, (header_buf s). destruct s; simpl in *. rewrite Hnil in * by done.
        split_and!; try done; [by rewrite <- Hb|lia].
      * assert (bs = []) as -> by (destruct bs; [done|unfold zlen in Hlen; simpl in Hlen; lia]).
        destruct (IH (with_header_buf (with_inner s i) (header_buf s ++ [b])))
          as (i' & h' & Es & Hc' & Happ & Hle & Hres); simpl.
        -- done.
        -- rewrite zlen_app. unfold zlen at 2. simpl. lia.
        -- rewrite zlen_app. unfold zlen at 2. simpl. lia.
        -- exists i', h'. simpl in *. rewrite Es. split; [done|]. split; [done|].
           split; [by rewrite Happ, <- app_assoc, Hb|]. split; [done|].
           by rewrite <- Hw.
    + destruct Hr as (Hc & Hw & Hb). exists i, (header_buf s). destruct s; simpl in *.
      split_and!; try done. by rewrite Hb.
Qed.

Lemma fill_block_spec fuel s :
  quiet s -> zlen (block_buf s) <= block_compressed_len s ->
  (Z.to_nat (block_compressed_len s - zlen (block_buf s)) <= fuel)%nat ->
  block_compressed_len s <= zlen (block_buf s) + zlen (incoming s) ->
  exists i b, (fill_block fuel s).2 = with_block_buf (with_inner s i) b /\
    Forall read_clean (reads i) /\
    b ++ script_bytes (reads i) = block_buf s ++ incoming s /\
    zlen b <= block_compressed_len s /\
    match (fill_block fuel s).1 with
    | None => zlen b = block_compressed_len s /\ read_waits (reads i) = waits s
    | Some Pending => waits s = S (read_waits (reads i))
    | _ => False
    end.
Proof.
  revert s. induction fuel as [|fuel IH]; intros s Hq Hb Hfuel Havail.
  - exists (inner s), (block_buf s). destruct s; simpl in *. split_and!; try done; lia.
  - simpl. case_decide as Hlt.
    2: { exists (inner s), (block_buf s). destruct s; simpl in *. split_and!; try done; lia. }
    pose proof (inner_poll_read_clean
      (Z.min (block_compressed_len s - zlen (block_buf s)) 8192) (inner s) ltac:(lia) Hq) as Hr.
    unfold quiet, incoming, waits in *.
    destruct (inner_poll_read _ (inner s)) as [[bs|e| |] i]; [|done| |done].
    + destruct Hr as (Hc & Hw & Hbs & Hlen & Hnil). destruct bs as [|b bs].
      * rewrite Hnil, zlen_nil in Havail by done. lia.
      * pose proof (zlen_nonneg bs) as H0. rewrite zlen_cons in Hlen.
        destruct (IH (with_block_buf (with_inner s i) (block_buf s ++ b :: bs)))
          as (i' & b' & Es & Hc' & Happ & Hle & Hres); cbn [block_buf with_block_buf with_inner
            block_compressed_len inner]; rewrite ?zlen_app, ?zlen_cons; [done|lia|lia| |].
        -- rewrite Hbs, zlen_app, zlen_cons in Havail. lia.
        -- exists i', b'. simpl in *. rewrite Es. split; [done|]. split; [done|].
           split; [by rewrite Happ, <- app_assoc, Hbs|]. split; [done|]. by rewrite <- Hw.
    + destruct Hr as (Hc & Hw & Hbs). exists i, (block_buf s). destruct s; simpl in *.
      split_and!; try done. by rewrite Hbs.
Qed.

Lemma poll_read_loop_header F L fuel remaining s :
  read_state s = Header ->
  poll_read_loop F L (S fuel) remaining s =
    match fill_header (Z.to_nat (BLOCK_HEADER_LEN - zlen (header_buf s))) s with
    | (Some r, s) => (r, s)
    | (None, s) =>
        poll_read_loop F L fuel remaining
          (start_block s (header_u32 (header_buf s) 0) (header_u32 (header_buf s) 4))
    end.
Proof. intros Hs. simpl. rewrite decide_False by (rewrite Hs; naive_solver). by rewrite Hs. Qed.

Lemma poll_read_loop_block F L fuel remaining s :
  read_state s = Block ->
  poll_read_loop F L (S fuel) remaining s =
    match fill_block (Z.to_nat (block_compressed_len s - zlen (block_buf s))) s with
    | (Some r, s) => (r, s)
    | (None, s) =>
        if compression_zstd F then
          match zstd_bulk_decompress L (block_buf s) (block_uncompressed_len s) with
          | Ok data => poll_read_loop F L fuel remaining (start_data s data)
          | Err _ => (ReadyErr InvalidData, s)
          end
        else (ReadyErr Unsupported, s)
    end.
Proof. intros Hs. simpl. rewrite decide_False by (rewrite Hs; naive_solver). by rewrite Hs. Qed.

(** A complete header gives the lengths of its block. *)
Lemma split_header comp n rest h t :
  zlen comp < 2 ^ 32 -> u32 n ->
  h ++ t = block_bytes comp n ++ rest -> zlen h = BLOCK_HEADER_LEN ->
  header_u32 h 0 = zlen comp /\ header_u32 h 4 = n /\ t = comp ++ rest.
Proof.
  intros Hc Hn E Hh. unfold block_bytes in E. rewrite <- !app_assoc, app_assoc in E.
  apply app_inj_1 in E as [-> ->]; [|unfold zlen, BLOCK_HEADER_LEN in Hh; simpl; lia].
  pose proof (zlen_nonneg comp). assert (u32 (zlen comp)) by int_lia.
  rewrite !wrap_u_small by done. unfold header_u32, to_le_bytes4. simpl.
  by rewrite !from_to_le_bytes4.
Qed.

(** ** What a reader still has to deliver *)

Section Reader.

Context (F : Features) (L : CompressionLibs).
Hypothesis zstd_on : compression_zstd F = true.

(** A block of the wire: its compressed and its plain bytes. *)
Record good_block (b : list Z * list Z) : Prop := {
  good_plain : b.2 <> [];
  good_plain_len : zlen b.2 < 2 ^ 32;
  good_comp_len : zlen b.1 < 2 ^ 32;
  good_decompress : zstd_bulk_decompress L b.1 (zlen b.2) = Ok b.2
}.

Definition wire (blocks : list (list Z * list Z)) : list Z :=
  concat ((fun b => block_bytes b.1 (zlen b.2)) <$> blocks).

Definition plain (blocks : list (list Z * list Z)) : list Z := concat blocks.*2.

(** [delivers s d]: the stream will deliver exactly [d], given what its wrapped
    stream still holds. *)
Definition delivers (s : CompressedStream) (d : list Z) : Prop :=
  match read_state s with
  | Header => exists blocks, Forall good_block blocks /\
      header_buf s ++ incoming s = wire blocks /\ zlen (header_buf s) <= BLOCK_HEADER_LEN /\
      d = plain blocks
  | Block => exists b blocks, good_block b /\ Forall good_block blocks /\
      block_buf s ++ incoming s = b.1 ++ wire blocks /\ zlen (block_buf s) <= zlen b.1 /\
      block_compressed_len s = zlen b.1 /\ block_uncompressed_len s = zlen b.2 /\
      d = b.2 ++ plain blocks
  | Data => exists blocks, Forall good_block blocks /\ incoming s = wire blocks /\
      0 <= read_pos s < zlen (read_buf s) /\
      d = drop (Z.to_nat (read_pos s)) (read_buf s) ++ plain blocks
  end.


Lemma wire_prefix_empty h blocks :
  Forall good_block blocks -> h = wire blocks -> zlen h < BLOCK_HEADER_LEN -> blocks = [].
Proof.
  intros Hb -> Hlen. destruct blocks as [|b blocks]; [done|].
  unfold wire, block_bytes in Hlen. rewrite fmap_cons in Hlen. simpl in Hlen.
  rewrite !zlen_cons in Hlen. unfold BLOCK_HEADER_LEN in Hlen.
  match type of Hlen with context [zlen ?l] => pose proof (zlen_nonneg l) end. lia.
Qed.

(** What one poll may do: deliver the next bytes (none only at the end), or wait
    for the wrapped stream. *)
Definition read_step (s : CompressedStream) (d : list Z) (res : Poll (list Z) * CompressedStream)
  : Prop :=
  quiet res.2 /\
  match res.1 with
  | Ready data => exists d', d = data ++ d' /\ delivers res.2 d' /\
      (waits res.2 <= waits s)%nat /\ (data = [] -> d = [])
  | Pending => delivers res.2 d /\ (waits res.2 < waits s)%nat
  | _ => False
  end.

Lemma loop_data fuel capacity s d :
  quiet s -> delivers s d -> read_state s = Data -> 1 <= capacity ->
  read_step s d (poll_read_loop F L (S fuel) capacity s).
Proof.
  intros Hq Hd Hs Hcap. unfold delivers in Hd. rewrite Hs in Hd.
  destruct Hd as (blocks & Hb & Hw & Hpos & ->). simpl. rewrite decide_True by (split; [done|lia]).
  unfold read_step, serve. simpl. split; [done|].
  set (av := drop (Z.to_nat (read_pos s)) (read_buf s)).
  assert (Hav : zlen av = zlen (read_buf s) - read_pos s).
  { unfold zlen, av in *. rewrite length_drop. lia. }
  exists (drop (Z.to_nat (Z.min (zlen av) capacity)) av ++ plain blocks). split.
  { by rewrite app_assoc, take_drop. }
  split; [|split; [done|]].
  - unfold delivers, incoming. simpl. case_bool_decide as Hu; simpl.
    + exists blocks. split_and!; [done|done|unfold zlen, BLOCK_HEADER_LEN; simpl; lia|].
      rewrite drop_ge; [done|]. unfold zlen in *. lia.
    + rewrite Hs. exists blocks. split_and!; [done|done|lia|lia|]. f_equal.
      assert (Hn : 0 <= Z.min (zlen av) capacity) by lia. revert Hn.
      generalize (Z.min (zlen av) capacity). intros n Hn. unfold av. rewrite drop_drop.
      f_equal. lia.
  - intros Hnil. apply (f_equal zlen) in Hnil. unfold zlen in *. rewrite length_take in Hnil.
    simpl in Hnil. lia.
Qed.

Lemma loop_block fuel capacity s d :
  quiet s -> delivers s d -> read_state s = Block -> 1 <= capacity ->
  read_step s d (poll_read_loop F L (S (S fuel)) capacity s).
Proof.
  intros Hq Hd Hs Hcap. unfold delivers in Hd. rewrite Hs in Hd.
  destruct Hd as (b & blocks & Hb & Hbs & Hw & Hlen & Hc & Hu & ->).
  assert (Havail : block_compressed_len s <= zlen (block_buf s) + zlen (incoming s)).
  { rewrite <- zlen_app, Hw, zlen_app, Hc. pose proof (zlen_nonneg (wire blocks)). lia. }
  destruct (fill_block_spec (Z.to_nat (block_compressed_len s - zlen (block_buf s))) s Hq)
    as (i & buf & Es & Hq' & Happ & Hle & Hres); [by rewrite Hc|done|done|].
  rewrite poll_read_loop_block by done. destruct (fill_block _ s) as [r s']. simpl in Es, Hres. subst s'.
  destruct r as [[]|]; try done.
  - split; [done|]. split; [|unfold waits in *; simpl in *; lia]. unfold delivers. simpl. rewrite Hs.
    exists b, blocks. unfold incoming. simpl. rewrite Happ. split_and!; done || lia.
  - destruct Hres as [Hfull Hwait]. rewrite zstd_on.
    rewrite Hw in Happ. apply app_inj_1 in Happ as [-> Hrest]; [|unfold zlen in *; lia].
    cbn [block_buf with_block_buf block_uncompressed_len with_inner]. rewrite Hu.
    destruct Hb as [Hne Hpl Hcl Hdec]. rewrite Hdec.
    set (s2 := start_data (with_block_buf (with_inner s i) b.1) b.2).
    assert (Hstep : read_step s2 (b.2 ++ plain blocks) (poll_read_loop F L (S fuel) capacity s2)).
    { apply loop_data; try done. exists blocks. split_and!; try done.
      simpl. destruct b.2; [done|]. rewrite zlen_cons. pose proof (zlen_nonneg l). lia. }
    unfold read_step in *. unfold waits in *. simpl in Hstep. rewrite Hwait in Hstep. exact Hstep.
Qed.

Lemma loop_header fuel capacity s d :
  quiet s -> delivers s d -> read_state s = Header -> 1 <= capacity ->
  read_step s d (poll_read_loop F L (S (S (S fuel))) capacity s).
Proof.
  intros Hq Hd Hs Hcap. unfold delivers in Hd. rewrite Hs in Hd.
  destruct Hd as (blocks & Hbs & Hw & Hlen & ->).
  destruct (fill_header_spec (Z.to_nat (BLOCK_HEADER_LEN - zlen (header_buf s))) s Hq)
    as (i & h & Es & Hq' & Happ & Hle & Hres); [done|done|].
  rewrite poll_read_loop_header by done. destruct (fill_header _ s) as [r s']. simpl in Es, Hres. subst s'.
  rewrite Hw in Happ. destruct r as [[data| | |]|]; try done.
  - destruct Hres as (-> & Hend & Hh & Hwait). rewrite Hend, app_nil_r in Happ.
    apply wire_prefix_empty in Happ as Hnil; [|done|done]. subst blocks.
    split; [done|]. exists []. split_and!; [done| |unfold waits in *; simpl in *; lia|done].
    unfold delivers, incoming. simpl. rewrite Hs. exists []. rewrite Hend.
    by rewrite app_nil_r.
  - split; [done|]. split; [|unfold waits in *; simpl in *; lia]. unfold delivers, incoming. simpl. rewrite Hs.
    exists blocks. by rewrite Happ.
  - destruct Hres as [Hfull Hwait]. destruct blocks as [|b blocks].
    { apply (f_equal zlen) in Happ. rewrite zlen_app in Happ. unfold wire, BLOCK_HEADER_LEN in *.
      pose proof (zlen_nonneg (script_bytes (reads i))). simpl in Happ. rewrite zlen_nil in Happ. lia. }
    apply Forall_cons in Hbs as [Hb Hbs]. unfold wire in Happ. simpl in Happ.
    destruct (split_header b.1 (zlen b.2) (wire blocks) h (script_bytes (reads i)))
      as (Hc & Hu & Hrest); [apply Hb| |done|done|].
    { destruct Hb. pose proof (zlen_nonneg b.2). int_lia. }
    cbn [header_buf with_header_buf]. rewrite Hc, Hu.
    set (s2 := start_block _ _ _).
    assert (Hstep : read_step s2 (plain (b :: blocks)) (poll_read_loop F L (S (S fuel)) capacity s2)).
    { apply loop_block; try done. exists b, blocks. split_and!; try done. apply zlen_nonneg. }
    unfold read_step in *. unfold waits in *. simpl in Hstep. rewrite Hwait in Hstep. exact Hstep.
Qed.

Lemma poll_read_step capacity s d :
  quiet s -> delivers s d -> 1 <= capacity -> read_step s d (poll_read F L capacity s).
Proof.
  intros Hq Hd Hcap. unfold poll_read. destruct (read_state s) eqn:E.
  - by apply loop_header.
  - by apply loop_block.
  - by apply loop_data.
Qed.

End Reader.

(** ** Writing *)

Definition write_quiet (s : CompressedStream) : Prop :=
  Forall write_clean (writes (inner s)) /\ Forall done_clean (dones (inner s)).

Definition flush_waits (s : CompressedStream) : nat :=
  write_waits (writes (inner s)) + done_waits (dones (inner s)).

(** Output already staged and not yet taken by the wrapped stream. *)
Definition staged (s : CompressedStream) : list Z := drop (Z.to_nat (write_out_pos s)) (write_out s).

Definition write_pos_ok (s : CompressedStream) : Prop := 0 <= write_out_pos s <= zlen (write_out s).

Lemma staged_length s : write_pos_ok s -> zlen (staged s) = zlen (write_out s) - write_out_pos s.
Proof. unfold write_pos_ok, staged, zlen. rewrite length_drop. lia. Qed.

(** What the write loop achieves: bytes move from the staged output to the wrapped
    stream, and it ends with everything sent or because the stream is not ready. *)
Definition write_result (s : CompressedStream) (res : option (Poll unit) * CompressedStream)
  : Prop :=
  exists i pos, res.2 = with_write s i (write_buf s) (write_out s) pos /\
    reads i = reads (inner s) /\ dones i = dones (inner s) /\ closed i = closed (inner s) /\
    Forall write_clean (writes i) /\ 0 <= pos <= zlen (write_out s) /\
    sent i ++ drop (Z.to_nat pos) (write_out s) = sent (inner s) ++ staged s /\
    match res.1 with
    | None => pos = zlen (write_out s) /\
        (write_waits (writes i) <= write_waits (writes (inner s)))%nat
    | Some Pending => (write_waits (writes i) < write_waits (writes (inner s)))%nat
    | _ => False
    end.

(** The state after the wrapped stream took [n] staged bytes. *)
Definition accepted (s : CompressedStream) (n : Z) (w : list write_event) : CompressedStream :=
  with_write s
    (mkInner (reads (inner s)) w (dones (inner s)) (sent (inner s) ++ take (Z.to_nat n) (staged s))
       (closed (inner s))) (write_buf s) (write_out s) (write_out_pos s + n).

Lemma staged_accepted s n w :
  write_pos_ok s -> 0 <= n -> staged (accepted s n w) = drop (Z.to_nat n) (staged s).
Proof.
  unfold write_pos_ok, staged, accepted. intros. simpl. rewrite drop_drop. f_equal. lia.
Qed.

Lemma write_result_accepted s n w res :
  write_pos_ok s -> 0 <= n -> (write_waits w <= write_waits (writes (inner s)))%nat ->
  write_result (accepted s n w) res -> write_result s res.
Proof.
  intros Hpos Hn Hw (i & pos & Es & Hr & Hd & Hc & Hcl & Hp & Happ & Hres).
  exists i, pos. rewrite staged_accepted in Happ by done. simpl in *.
  split_and!; try done; [lia|lia| |].
  - by rewrite Happ, <- app_assoc, take_drop.
  - destruct res.1 as [[]|]; try done; lia.
Qed.

Lemma write_loop_spec fuel s :
  write_quiet s -> write_pos_ok s -> (length (staged s) < fuel)%nat ->
  write_result s (write_loop fuel s).
Proof.
  revert s. induction fuel as [|fuel IH]; intros s [Hw Hd] Hpos Hfuel; [lia|].
  pose proof (staged_length s Hpos) as Hlen. simpl. case_decide as Hlt.
  2: { exists (inner s), (write_out_pos s). unfold write_pos_ok in Hpos. destruct s; simpl in *.
       split_and!; done || lia. }
  assert (Haccept : forall n w, 1 <= n -> n <= zlen (staged s) -> Forall write_clean w ->
    (write_waits w <= write_waits (writes (inner s)))%nat ->
    write_result s (write_loop fuel (accepted s n w))).
  { intros n w H1 Hn Hcw Hww. apply (write_result_accepted s n w); [done|lia|done|].
    apply IH; [done| |].
    - unfold write_pos_ok in *. simpl. lia.
    - rewrite staged_accepted, length_drop by (done || lia). unfold zlen in *. lia. }
  unfold inner_poll_write. fold (staged s). destruct (writes (inner s)) as [|[n| |e] w] eqn:Ew.
  - simpl. rewrite decide_False by lia. apply Haccept; [lia|lia|done|done].
  - apply Forall_cons in Hw as [Hn Hw]. simpl in Hn. rewrite decide_False by lia.
    apply Haccept; [lia|lia|done|done].
  - apply Forall_cons in Hw as [_ Hw]. eexists _, (write_out_pos s). unfold write_pos_ok in Hpos.
    split; [unfold with_inner, with_write; done|]. simpl. rewrite Ew. simpl. split_and!; done || lia.
  - by apply Forall_cons in Hw as [[] _].
Qed.

Section Writer.

Context (F : Features) (L : CompressionLibs).
Hypothesis zstd_on : compression_zstd F = true.

(** What a flush compresses now: everything buffered, once nothing is staged. *)
Definition next_block (s : CompressedStream) : option (list Z) :=
  if decide (write_buf s <> [] /\ staged s = [])
  then (fun c => block_bytes c (zlen (write_buf s))) <$> zstd_bulk_compress L (write_buf s) (level s)
  else Some [].

Lemma staged_nil s :
  write_pos_ok s -> staged s = [] <-> write_out_pos s >= zlen (write_out s).
Proof.
  intros Hpos. pose proof (staged_length s Hpos) as Hlen. rewrite <- length_zero_iff_nil.
  unfold write_pos_ok, zlen in *. lia.
Qed.

Lemma stage_spec s block :
  write_pos_ok s -> next_block s = Some block ->
  exists s1, stage F L s = Ok s1 /\ inner s1 = inner s /\ level s1 = level s /\
    write_pos_ok s1 /\ staged s1 = staged s ++ block /\
    write_buf s1 = (if decide (staged s = []) then [] else write_buf s).
Proof.
  intros Hpos Hblock. pose proof (staged_nil s Hpos) as Hnil. unfold next_block in Hblock.
  unfold stage. destruct (decide (write_buf s <> [] /\ staged s = [])) as [[Hb He]|Hn].
  - rewrite (decide_True (P := _ /\ _)) by tauto. rewrite zstd_on.
    destruct (zstd_bulk_compress L (write_buf s) (level s)) as [c|]; [|done].
    injection Hblock as <-. eexists. split; [done|]. rewrite He, decide_True by done.
    split_and!; try done; simpl; lia || apply zlen_nonneg.
  - injection Hblock as <-. rewrite (decide_False (P := _ /\ _)) by tauto. exists s.
    rewrite app_nil_r. split_and!; try done. case_decide as He; [|done].
    destruct (decide (write_buf s = [])); [done|]. by destruct Hn.
Qed.

Lemma poll_flush_spec s block :
  write_quiet s -> write_pos_ok s -> next_block s = Some block ->
  let '(r, s') := poll_flush F L s in
  write_quiet s' /\ write_pos_ok s' /\ level s' = level s /\
  write_buf s' = (if decide (staged s = []) then [] else write_buf s) /\
  sent (inner s') ++ staged s' = sent (inner s) ++ staged s ++ block /\
  match r with
  | Ready _ => staged s' = [] /\ (flush_waits s' <= flush_waits s)%nat
  | Pending => (flush_waits s' < flush_waits s)%nat
  | _ => False
  end.
Proof.
  intros Hq Hpos Hblock.
  destruct (stage_spec s block Hpos Hblock) as (s1 & Hs1 & Hi & Hl & Hpos1 & Hst & Hbuf).
  unfold poll_flush. rewrite Hs1. rewrite <- (staged_length s1 Hpos1).
  replace (Z.to_nat (zlen (staged s1))) with (length (staged s1)) by (unfold zlen; lia).
  destruct (write_loop_spec (S (length (staged s1))) s1) as
    (i & pos & Es & Hr & Hd & Hc & Hcl & Hp & Happ & Hres); [by unfold write_quiet; rewrite Hi|done|lia|].
  rewrite Hi in *. destruct Hq as [_ Hdq].
  destruct (write_loop _ s1) as [[r|] s2]; simpl in Es, Hres; subst s2.
  - destruct r; try done. unfold write_quiet, flush_waits. simpl. rewrite Hd.
    split_and!; try done; [unfold staged at 1; simpl; by rewrite Happ, Hst|lia].
  - destruct Hres as [-> Hww].
    assert (Hdone : drop (Z.to_nat (zlen (write_out s1))) (write_out s1) = [])
      by (apply drop_ge; unfold zlen; lia).
    rewrite Hdone in Happ. unfold inner_poll_done. simpl. rewrite Hd.
    unfold write_quiet, flush_waits, staged, write_pos_ok.
    destruct (dones (inner s)) as [|[| |e] d] eqn:Ed; simpl; rewrite ?Hdone;
      try (apply Forall_cons in Hdq as [? Hdq]); split_and!; try done; rewrite ?Happ, ?Hst; try done; lia.
Qed.

(** Poll the flush until it is ready, at most [fuel] times. *)
Fixpoint flush_all (fuel : nat) (s : CompressedStream) : Poll unit * CompressedStream :=
  match fuel with
  | O => (Pending, s)
  | S fuel =>
      match poll_flush F L s with
      | (Pending, s) => flush_all fuel s
      | r => r
      end
  end.

(** Write and flush each message. *)
Fixpoint send_messages (fuel : nat) (messages : list (list Z)) (s : CompressedStream)
  : option CompressedStream :=
  match messages with
  | [] => Some s
  | m :: messages =>
      match flush_all fuel (poll_write m s).2 with
      | (Ready _, s) => send_messages fuel messages s
      | _ => None
      end
  end.

(** Nothing buffered, nothing staged. *)
Record flushed (s : CompressedStream) : Prop := {
  flushed_quiet : write_quiet s;
  flushed_pos : write_pos_ok s;
  flushed_buf : write_buf s = [];
  flushed_staged : staged s = []
}.

Lemma next_block_empty s : write_buf s = [] -> next_block s = Some [].
Proof. intros E. unfold next_block. rewrite decide_False; [done|]. rewrite E. tauto. Qed.

Lemma flush_all_spec fuel s block :
  write_quiet s -> write_pos_ok s -> (flush_waits s < fuel)%nat ->
  next_block s = Some block -> write_buf s = [] \/ staged s = [] ->
  exists s', flush_all fuel s = (Ready tt, s') /\ flushed s' /\ level s' = level s /\
    sent (inner s') = sent (inner s) ++ staged s ++ block /\ (flush_waits s' <= flush_waits s)%nat.
Proof.
  revert s block. induction fuel as [|fuel IH]; intros s block Hq Hpos Hfuel Hblock Hor; [lia|].
  simpl. pose proof (poll_flush_spec s block Hq Hpos Hblock) as Hf.
  destruct (poll_flush F L s) as [r s']. destruct Hf as (Hq' & Hpos' & Hl & Hbuf & Happ & Hres).
  assert (Hbuf' : write_buf s' = []).
  { rewrite Hbuf. case_decide; [done|]. by destruct Hor. }
  destruct r as [[]| | |]; try done.
  - destruct Hres as [Hst Hw]. exists s'. rewrite Hst, app_nil_r in Happ. by split_and!.
  - destruct (IH s' []) as (s2 & Hs2 & Hfl & Hl2 & Hsent & Hw2); try done.
    + lia.
    + by apply next_block_empty.
    + by left.
    + exists s2. rewrite Hsent, app_nil_r, Happ. split_and!; try done; [congruence|lia].
Qed.

Lemma send_messages_spec fuel messages s :
  flushed s -> (flush_waits s < fuel)%nat ->
  Forall (fun m => m <> [] /\ is_Some (zstd_bulk_compress L m (level s))) messages ->
  exists s' blocks, send_messages fuel messages s = Some s' /\ flushed s' /\
    sent (inner s') = sent (inner s) ++ wire blocks /\
    Forall2 (fun m b => b.2 = m /\ zstd_bulk_compress L m (level s) = Some b.1) messages blocks.
Proof.
  intros Hf Hw Hm. revert s Hf Hw Hm.
  induction messages as [|m messages IH]; intros s [Hq Hpos Hbuf Hst] Hw Hm.
  { exists s, []. rewrite app_nil_r. by split_and!. }
  apply Forall_cons in Hm as [[Hne [c Hc]] Hm]. simpl.
  set (s1 := with_write s (inner s) (write_buf s ++ m) (write_out s) (write_out_pos s)).
  assert (Hnext : next_block s1 = Some (block_bytes c (zlen m))).
  { unfold next_block, s1. simpl. rewrite Hbuf. simpl. rewrite decide_True by done.
    by rewrite Hc. }
  destruct (flush_all_spec fuel s1 _ Hq Hpos Hw Hnext (or_intror Hst))
    as (s2 & Hs2 & Hfl & Hl & Hsent & Hw2).
  rewrite Hs2. destruct (IH s2 Hfl) as (s' & blocks & Hs' & Hfl' & Hsent' & Hb).
  - change (flush_waits s1) with (flush_waits s) in Hw2. lia.
  - by rewrite Hl.
  - exists s', ((c, m) :: blocks). split; [done|]. split; [done|]. split.
    + rewrite Hsent', Hsent. change (staged s1) with (staged s). rewrite Hst. unfold wire. simpl.
      by rewrite <- app_assoc.
    + constructor; [done|]. by rewrite Hl in Hb.
Qed.

End Writer.

(** ** End to end *)

Section Delivery.

Context (F : Features) (L : CompressionLibs).

(** Poll once per entry of [capacities], collecting what is delivered. *)
Fixpoint read_all (capacities : list Z) (s : CompressedStream) : option (list Z) :=
  match capacities with
  | [] => Some []
  | c :: capacities =>
      match poll_read F L c s with
      | (Ready data, s) => (data ++.) <$> read_all capacities s
      | (Pending, s) => read_all capacities s
      | _ => None
      end
  end.

Hypothesis zstd_on : compression_zstd F = true.

Lemma read_all_prefix capacities s d :
  Forall (Z.le 1) capacities -> quiet s -> delivers L s d ->
  exists d1 d2, read_all capacities s = Some d1 /\ d = d1 ++ d2 /\
    ((length d + waits s < length capacities)%nat -> d2 = []).
Proof.
  intros Hc. revert s d. induction Hc as [|c capacities Hc Hcs IH]; intros s d Hq Hd.
  { exists [], d. simpl. split_and!; [done|done|lia]. }
  destruct (poll_read_step F L zstd_on c s d Hq Hd Hc) as [Hq' Hstep]. simpl.
  destruct (poll_read F L c s) as [[data| | |] s']; try done; simpl in *.
  - destruct Hstep as (d' & -> & Hd' & Hw & Hnil).
    destruct (IH s' d' Hq' Hd') as (d1 & d2 & -> & -> & Hend). exists (data ++ d1), d2.
    split; [done|]. split; [by rewrite app_assoc|]. intros Hlen.
    destruct data as [|b data].
    + specialize (Hnil eq_refl). simpl in Hnil. by apply app_eq_nil in Hnil as [_ ->].
    + apply Hend. simpl in Hlen. rewrite !length_app in *. lia.
  - destruct Hstep as [Hd' Hw]. destruct (IH s' d Hq' Hd') as (d1 & d2 & -> & -> & Hend).
    exists d1, d2. split_and!; [done|done|]. intros Hlen. apply Hend. lia.
Qed.

End Delivery.

(** C10: messages that are each written and flushed to completion arrive.
    Non-empty messages, shorter than 2^32 bytes as they are and compressed, are
    written one by one, each flushed until the flush is done before the next is
    written, through a transport that never fails but takes bytes in arbitrary
    pieces and is arbitrarily often not ready. All these flushes end. A peer that
    receives those wire bytes in arbitrary fragments, also arbitrarily often not
    ready, and polls with arbitrary buffer sizes reads, in order and without an
    error, exactly the concatenation of the messages, after at most one poll per
    byte and per wait. Without the flush in between this fails
    ([flush_and_shutdown_lose_data]). *)
Theorem compressed_stream_delivers (F : Features) (L : CompressionLibs) (level : Z) (fuel : nat)
    (messages : list (list Z)) (i : Inner) :
  LibraryLaws L -> compression_zstd F = true ->
  Forall (fun m => m <> [] /\ zlen m < 2 ^ 32 /\
    exists c, zstd_bulk_compress L m level = Some c /\ zlen c < 2 ^ 32) messages ->
  Forall write_clean (writes i) -> Forall done_clean (dones i) -> sent i = [] ->
  (write_waits (writes i) + done_waits (dones i) < fuel)%nat ->
  exists s, send_messages F L fuel messages (CompressedStream_new i level) = Some s /\
    forall script capacities peer,
      Forall read_clean script -> script_bytes script = sent (inner s) -> reads peer = script ->
      Forall (Z.le 1) capacities ->
      (length (concat messages) + read_waits script < length capacities)%nat ->
      read_all F L capacities (CompressedStream_new peer level) = Some (concat messages).
Proof.
  intros HL HF Hm Hw Hd Hsent Hfuel.
  destruct (send_messages_spec F L HF fuel messages (CompressedStream_new i level))
    as (s & blocks & Hs & _ & Hwire & Hb).
  - by split.
  - unfold flush_waits. simpl. lia.
  - eapply Forall_impl; [exact Hm|]. intros m (Hne & _ & c & Hc & _). split; [done|]. by eexists.
  - exists s. split; [done|]. intros script capacities peer Hclean Hbytes Hpeer Hcaps Hlen.
    simpl in Hwire. rewrite Hsent in Hwire. simpl in Hwire.
    assert (Hgood : Forall (good_block L) blocks /\ concat messages = plain blocks).
    { clear - HL Hm Hb. induction Hb as [|m b messages blocks [<- Hc] Hb IH]; [done|].
      apply Forall_cons in Hm as [(Hne & Hl & c & Hc' & Hcl) Hm]. destruct (IH Hm) as [Hg E].
      simpl in Hc. assert (c = b.1) as -> by congruence. split.
      - constructor; [|done]. split; try done. by apply (zstd_inverse b.2 level).
      - unfold plain in *. simpl. by rewrite E. }
    destruct Hgood as [Hgood Hplain].
    destruct (read_all_prefix F L HF capacities (CompressedStream_new peer level) (concat messages))
      as (d1 & d2 & Hr & Happ & Hend).
    + done.
    + unfold quiet. simpl. by rewrite Hpeer.
    + exists blocks. unfold incoming. simpl. rewrite Hpeer, Hbytes, Hwire. split_and!; done.
    + rewrite Hend in Happ by (unfold waits; simpl; by rewrite Hpeer). rewrite app_nil_r in Happ.
      by rewrite Happ.
Qed.

(** Two messages over a writer that takes three bytes, waits, then takes the rest
    and is not flushed at once; the peer polls with a one-byte buffer. *)
Lemma compressed_stream_delivers_witness :
  let F := mkFeatures true true in
  let messages := [[5; 5; 5; 5]; [1; 2]] in
  let i := mkInner [] [Accept 3; WritePending] [DonePending] [] false in
  exists s, send_messages F rle_libs 3 messages (CompressedStream_new i 1) = Some s /\
    forall script capacities peer,
      Forall read_clean script -> script_bytes script = sent (inner s) -> reads peer = script ->
      Forall (Z.le 1) capacities ->
      (length (concat messages) + read_waits script < length capacities)%nat ->
      read_all F rle_libs capacities (CompressedStream_new peer 1) = Some (concat messages).
Proof.
  intros F messages i. apply (compressed_stream_delivers F rle_libs 1 3 messages i).
  - exact rle_laws.
  - reflexivity.
  - apply Forall_cons. split; [|apply Forall_singleton]; (split; [discriminate|]);
      (split; [reflexivity|]); eexists; (split; [reflexivity|]); reflexivity.
  - repeat constructor; simpl; lia.
  - repeat constructor.
  - reflexivity.
  - simpl. lia.
Defined.

(** ** Where the stream falls short of its contract *)

(** a flush that reports success may leave data unsent.  Whenever output of
    an earlier flush is still staged, [poll_flush] sends that output only: data
    written since stays in the buffer although the result is ready, and
    [poll_shutdown] then closes the wrapped stream, so the data is lost.  A
    shutdown while output is staged and nothing is buffered closes the stream in
    the middle of a block. *)
Theorem flush_and_shutdown_lose_data (F : Features) (L : CompressionLibs) (s : CompressedStream) :
  write_pos_ok s -> staged s <> [] -> writes (inner s) = [] -> dones (inner s) = [] ->
  (exists s', poll_flush F L s = (Ready tt, s') /\ write_buf s' = write_buf s /\
     sent (inner s') = sent (inner s) ++ staged s) /\
  (exists s', poll_shutdown F L s = (Ready tt, s') /\ closed (inner s') = true /\
     write_buf s' = write_buf s /\
     sent (inner s') = sent (inner s) ++ (if decide (write_buf s = []) then [] else staged s)).
Proof.
  intros Hpos Hst Hw Hd. pose proof (staged_length s Hpos) as Hlen.
  assert (Hlt : write_out_pos s < zlen (write_out s)).
  { destruct (staged s) as [|z l]; [done|]. rewrite zlen_cons in Hlen.
    pose proof (zlen_nonneg l). lia. }
  assert (Hflush : exists s', poll_flush F L s = (Ready tt, s') /\ write_buf s' = write_buf s /\
    sent (inner s') = sent (inner s) ++ staged s /\ dones (inner s') = []).
  { unfold poll_flush, stage. rewrite decide_False by lia.
    assert (exists n, Z.to_nat (zlen (write_out s) - write_out_pos s) = S n) as [n ->]
      by (exists (Z.to_nat (zlen (write_out s) - write_out_pos s - 1)); lia).
    remember (S n) as m. simpl. rewrite decide_True by done. unfold inner_poll_write.
    rewrite Hw. fold (staged s). rewrite decide_False by lia. subst m. simpl.
    rewrite decide_False by lia. unfold inner_poll_done. simpl. rewrite Hd.
    eexists. split; [done|]. simpl. split; [done|]. split; [|done]. f_equal.
    unfold zlen. by rewrite Nat2Z.id, firstn_all. }
  destruct Hflush as (s' & Hf & Hbuf & Hsent & Hd'). split; [by exists s'|].
  unfold poll_shutdown. case_decide as Hb.
  - rewrite Hf. unfold inner_poll_done. rewrite Hd'. eexists. split; [done|]. simpl.
    rewrite decide_False by done. split_and!; try done. by destruct (closed (inner s')).
  - unfold inner_poll_done. rewrite Hd. eexists. split; [done|]. simpl.
    rewrite decide_True by (destruct (decide (write_buf s = [])); tauto). rewrite app_nil_r.
    split_and!; try done. by destruct (closed (inner s)).
Qed.

(** The state is reached by writing, a flush that takes three bytes and is then
    not ready, and another write. *)
Lemma flush_and_shutdown_lose_data_witness :
  let F := mkFeatures true true in
  let s0 := CompressedStream_new (mkInner [] [Accept 3; WritePending] [] [] false) 1 in
  let s1 := (poll_write [1; 2] s0).2 in
  let s2 := (poll_flush F rle_libs s1).2 in
  let s := (poll_write [3] s2).2 in
  (poll_flush F rle_libs s1).1 = Pending /\ write_buf s = [3] /\
  (exists s', poll_flush F rle_libs s = (Ready tt, s') /\ write_buf s' = [3] /\
     sent (inner s') = sent (inner s) ++ staged s) /\
  (exists s', poll_shutdown F rle_libs s = (Ready tt, s') /\ closed (inner s') = true /\
     write_buf s' = [3] /\
     sent (inner s') = sent (inner s) ++ (if decide ([3] = []) then [] else staged s)).
Proof.
  intros F s0 s1 s2 s. split; [vm_compute; reflexivity|]. split; [vm_compute; reflexivity|].
  apply (flush_and_shutdown_lose_data F rle_libs s).
  - vm_compute. split; discriminate.
  - vm_compute. discriminate.
  - vm_compute. reflexivity.
  - vm_compute. reflexivity.
Defined.

(** a peer can make the reader panic: after a complete header and block whose
    decompressed content is empty, in any fragments and whatever follows, the read
    loop reaches its [unreachable!] arm. *)
Theorem empty_block_panics (F : Features) (L : CompressionLibs) (level capacity : Z)
    (comp rest : list Z) (peer : Inner) :
  compression_zstd F = true -> zlen comp < 2 ^ 32 ->
  zstd_bulk_decompress L comp 0 = Ok [] ->
  Forall read_clean (reads peer) -> read_waits (reads peer) = 0%nat ->
  script_bytes (reads peer) = block_bytes comp 0 ++ rest ->
  (poll_read F L capacity (CompressedStream_new peer level)).1 = Unreachable.
Proof.
  intros HF Hlen Hdec Hclean Hwaits Hbytes. set (s := CompressedStream_new peer level).
  destruct (fill_header_spec 8 s Hclean) as (i & h & Es & Hq & Happ & Hle & Hres); [done|done|].
  change (waits s) with (read_waits (reads peer)) in Hres. rewrite Hwaits in Hres.
  change (header_buf s ++ incoming s) with (script_bytes (reads peer)) in Happ. rewrite Hbytes in Happ.
  unfold poll_read. rewrite poll_read_loop_header by done.
  change (Z.to_nat (BLOCK_HEADER_LEN - zlen (header_buf s))) with 8%nat.
  destruct (fill_header 8 s) as [r s']. simpl in Es, Hres. subst s'.
  destruct r as [[data| | |]|]; try done.
  { destruct Hres as (_ & Hend & Hh & _). rewrite Hend, app_nil_r in Happ. subst h.
    unfold block_bytes, BLOCK_HEADER_LEN in Hh. rewrite !zlen_app, !to_le_bytes4_length in Hh.
    pose proof (zlen_nonneg comp). pose proof (zlen_nonneg rest). lia. }
  destruct Hres as [Hfull Hwait].
  destruct (split_header comp 0 rest h (script_bytes (reads i))) as (Hc & Hu & Hrest);
    [done|int_lia|done|done|].
  cbn [header_buf with_header_buf]. rewrite Hc, Hu. set (s2 := start_block _ _ _).
  rewrite poll_read_loop_block by done.
  destruct (fill_block_spec (Z.to_nat (zlen comp)) s2 Hq) as (i2 & b & Es2 & _ & Happ2 & Hle2 & Hres2);
    cbn [s2 start_block block_buf block_compressed_len]; rewrite ?zlen_nil.
  - apply zlen_nonneg.
  - by rewrite Z.sub_0_r.
  - unfold incoming. simpl. rewrite Hrest, zlen_app. pose proof (zlen_nonneg rest). lia.
  - rewrite Z.sub_0_r. unfold waits in Hres2. simpl in Hres2. rewrite Hwait in Hres2.
    destruct (fill_block _ s2) as [[[]|] s']; simpl in Es2, Hres2; subst s'; try done.
    destruct Hres2 as [Hb _]. unfold incoming in Happ2. simpl in Happ2. rewrite Hrest in Happ2.
    apply app_inj_1 in Happ2 as [-> _]; [|unfold zlen in Hb; lia].
    rewrite HF. cbn [block_buf with_block_buf block_uncompressed_len with_inner s2 start_block].
    by rewrite Hdec.
Qed.

Lemma empty_block_panics_witness :
  let F := mkFeatures true false in
  let peer := mkInner [Bytes [1; 0; 0]; Bytes [0; 0; 0; 0; 0; 0; 9]] [] [] [] false in
  (poll_read F rle_libs 16 (CompressedStream_new peer 1)).1 = Unreachable.
Proof.
  intros F peer. apply (empty_block_panics F rle_libs 1 16 [0] [9] peer).
  - reflexivity.
  - reflexivity.
  - reflexivity.
  - repeat constructor; discriminate.
  - reflexivity.
  - reflexivity.
Defined.
