(* ===== verification/Float32.v ===== *)
(** * [f32]

    The single-precision arithmetic the pane layout uses, on the Standard
    Library's specification of IEEE 754 floats with 24 bits of precision:
    conversion from [u16], the four operations in use, comparison, [clamp],
    [round] and the saturating casts to unsigned integers. *)

From Stdlib Require Import SpecFloat.
From S2P Require Import Prelude.

Notation F32 := spec_float (only parsing).

Definition f32_add : F32 -> F32 -> F32 := SFadd 24 128.
Definition f32_sub : F32 -> F32 -> F32 := SFsub 24 128.
Definition f32_mul : F32 -> F32 -> F32 := SFmul 24 128.
Definition f32_div : F32 -> F32 -> F32 := SFdiv 24 128.
Definition f32_neg : F32 -> F32 := SFopp.
Definition f32_lt : F32 -> F32 -> bool := SFltb.
Definition f32_le : F32 -> F32 -> bool := SFleb.

(** [f32::from(n)] for a [u16]: exact. *)
Definition f32_from (n : Z) : F32 := binary_normalize 24 128 n 0 false.

(** The literals 0.1, 0.5, 0.9, 10.0, 90.0 and 100.0. *)
Definition f32_0_1 : F32 := S754_finite false 13421773 (-27).
Definition f32_0_5 : F32 := S754_finite false 8388608 (-24).
Definition f32_0_9 : F32 := S754_finite false 15099494 (-24).
Definition f32_10 : F32 := f32_from 10.
Definition f32_90 : F32 := f32_from 90.
Definition f32_100 : F32 := f32_from 100.

(** [x.clamp(min, max)]: a NaN stays a NaN. *)
Definition f32_clamp (x lo hi : F32) : F32 :=
  let x := if f32_lt x lo then lo else x in
  if f32_lt hi x then hi else x.

(** [(lo..=hi).contains(&x)]. *)
Definition f32_contains (lo hi x : F32) : bool := f32_le lo x && f32_le x hi.

(** [x.round()]: to the nearest integer, halves away from zero. *)
Definition f32_round (x : F32) : F32 :=
  match x with
  | S754_finite s m e =>
      if decide (0 <= e) then x
      else
        let n := (Zpos m + 2 ^ (- e - 1)) / 2 ^ (- e) in
        binary_normalize 24 128 (if s then - n else n) 0 s
  | _ => x
  end.

(** [x as uN]: truncating, saturating, zero for a NaN. *)
Definition f32_to_u (w : Z) (x : F32) : Z :=
  match x with
  | S754_zero _ | S754_nan => 0
  | S754_infinity s => if s then 0 else max_u w
  | S754_finite s m e =>
      if s then 0 else Z.min (if decide (0 <= e) then Zpos m * 2 ^ e else Zpos m / 2 ^ (- e)) (max_u w)
  end.

(** ** Lemmas *)

Lemma f32_to_u_range w x : 0 < w -> in_u w (f32_to_u w x).
Proof.
  intros Hw. assert (Hp : 0 < 2 ^ w) by (apply Z.pow_pos_nonneg; lia).
  unfold in_u, max_u, f32_to_u. destruct x as [s|s| |s m e]; [lia| |lia|].
  - destruct s; unfold max_u; lia.
  - destruct s; [lia|]. unfold max_u. case_decide.
    + assert (0 < 2 ^ e) by (apply Z.pow_pos_nonneg; lia). lia.
    + assert (0 <= Zpos m / 2 ^ (- e)) by (apply Z.div_pos; [lia|apply Z.pow_pos_nonneg; lia]). lia.
Qed.

Lemma compare_cont_swap m n : Pos.compare_cont Eq m n = CompOpp (Pos.compare_cont Eq n m).
Proof. change (Pos.compare m n = CompOpp (Pos.compare n m)). apply Pos.compare_antisym. Qed.

Lemma SFcompare_swap x y : SFcompare x y = CompOpp <$> SFcompare y x.
Proof.
  destruct x as [[]|[]| |[] m e], y as [[]|[]| |[] n f]; try done; simpl; f_equal;
    rewrite (Z.compare_antisym f e); destruct (f ?= e); simpl; try done;
    by rewrite compare_cont_swap, ?CompOpp_involutive.
Qed.

Lemma SFcompare_some x y : x <> S754_nan -> y <> S754_nan -> is_Some (SFcompare x y).
Proof. intros. destruct x, y; simpl; done. Qed.

(** Comparison is total off NaN. *)
Lemma f32_not_lt_le x y :
  x <> S754_nan -> y <> S754_nan -> f32_lt x y = false -> f32_le y x = true.
Proof.
  intros Hx Hy. unfold f32_lt, f32_le, SFltb, SFleb. rewrite (SFcompare_swap y x).
  destruct (SFcompare_some x y Hx Hy) as [[] ->]; done.
Qed.

Definition ratio_ok (r : F32) : Prop := f32_contains f32_0_1 f32_0_9 r = true.

Lemma ratio_ok_finite r : ratio_ok r -> exists m e, r = S754_finite false m e.
Proof.
  destruct r as [[]|[]| |[] m e]; intros Hr; [discriminate Hr..|]. by exists m, e.
Qed.

Lemma clamp_ratio_ok x : x <> S754_nan -> ratio_ok (f32_clamp x f32_0_1 f32_0_9).
Proof.
  intros Hx. unfold f32_clamp, ratio_ok.
  destruct (f32_lt x f32_0_1) eqn:E1; [reflexivity|].
  destruct (f32_lt f32_0_9 x) eqn:E2; [reflexivity|].
  unfold f32_contains. rewrite (f32_not_lt_le x), (f32_not_lt_le f32_0_9 x); done.
Qed.

Lemma ratio_ok_0_5 : ratio_ok f32_0_5.
Proof. reflexivity. Qed.

(** Rounding a non-negative significand never yields a NaN. *)
Lemma shr_1_nonneg r : 0 <= shr_m r -> 0 <= shr_m (shr_1 r).
Proof. destruct r as [[|[p|p|]|[p|p|]] ? ?]; simpl; lia. Qed.

Lemma iter_pos_nonneg p r : 0 <= shr_m r -> 0 <= shr_m (SpecFloat.iter_pos shr_1 p r).
Proof.
  revert r. induction p as [p IH|p IH|]; intros r Hr; simpl.
  - by apply IH, IH, shr_1_nonneg.
  - by apply IH, IH.
  - by apply shr_1_nonneg.
Qed.

Lemma shr_fexp_nonneg m e l : 0 <= m -> 0 <= shr_m (shr_fexp 24 128 m e l).1.
Proof.
  intros Hm. unfold shr_fexp, shr.
  assert (0 <= shr_m (shr_record_of_loc m l)) by (destruct l as [|[]]; done).
  destruct (_ - _); simpl; [done| |done]. by apply iter_pos_nonneg.
Qed.

Lemma binary_round_aux_not_nan s m e l : 0 <= m -> binary_round_aux 24 128 s m e l <> S754_nan.
Proof.
  intros Hm. unfold binary_round_aux.
  pose proof (shr_fexp_nonneg m e l Hm) as H1. destruct (shr_fexp 24 128 m e l) as [r1 e1].
  simpl in H1. set (m2 := round_nearest_even _ _).
  assert (H2 : 0 <= m2).
  { unfold m2, round_nearest_even. destruct (loc_of_shr_record r1) as [|[]]; try lia.
    destruct (Z.even _); lia. }
  pose proof (shr_fexp_nonneg m2 e1 loc_Exact H2) as H3.
  destruct (shr_fexp 24 128 m2 e1 loc_Exact) as [r2 e2]. simpl in H3.
  destruct (shr_m r2); [done| |lia]. by destruct (e2 <=? _).
Qed.

Lemma binary_normalize_not_nan m e s : binary_normalize 24 128 m e s <> S754_nan.
Proof.
  destruct m as [|p|p]; simpl; [done| |]; unfold binary_round; destruct (shl_align _ _ _) as [mz ez];
    by apply binary_round_aux_not_nan.
Qed.

Lemma f32_add_not_nan m e y :
  y <> S754_nan -> f32_add (S754_finite false m e) y <> S754_nan.
Proof. intros Hy. destruct y; simpl; try done. apply binary_normalize_not_nan. Qed.

Lemma f32_sub_not_nan m e y :
  y <> S754_nan -> f32_sub (S754_finite false m e) y <> S754_nan.
Proof. intros Hy. destruct y; simpl; try done. apply binary_normalize_not_nan. Qed.

Lemma f32_neg_not_nan y : y <> S754_nan -> f32_neg y <> S754_nan.
Proof. by destruct y. Qed.

(** A positive integer of at most 24 bits converts exactly: its significand is
    shifted up to 24 bits and no bit is rounded away. *)
Definition is_pos_finite (x : F32) : bool :=
  match x with S754_finite false _ _ => true | _ => false end.

Lemma digits2_shl m d :
  Zpos (digits2_pos (Pos.iter xO m d)) = Zpos (digits2_pos m) + Zpos d.
Proof.
  induction d as [|d IH] using Pos.peano_ind; [simpl; lia|].
  rewrite Pos.iter_succ. cbn [digits2_pos]. lia.
Qed.

Lemma digits2_bound m k : 0 <= k -> Zpos m < 2 ^ k -> Zpos (digits2_pos m) <= k.
Proof.
  revert k. induction m as [m IH|m IH|]; intros k Hk Hm; cbn [digits2_pos].
  1-2: assert (Hk0 : k <> 0) by (intros ->; simpl in Hm; lia);
    specialize (IH (k - 1)); replace k with (Z.succ (k - 1)) in Hm by lia;
    rewrite Z.pow_succ_r in Hm by lia; lia.
  assert (k <> 0) by (intros ->; simpl in Hm; lia). lia.
Qed.

Lemma binary_round_aux_exact m e :
  fexp 24 128 (Zpos (digits2_pos m) + e) = e -> e <= 104 ->
  binary_round_aux 24 128 false (Zpos m) e loc_Exact = S754_finite false m e.
Proof.
  intros He Hmax. unfold binary_round_aux, shr_fexp. cbn [Zdigits2 shr_record_of_loc].
  rewrite He, Z.sub_diag. cbn [shr shr_m loc_of_shr_record round_nearest_even Zdigits2].
  rewrite He, Z.sub_diag. cbn [shr shr_record_of_loc shr_m].
  by rewrite (proj2 (Z.leb_le e (128 - 24))) by lia.
Qed.

Lemma f32_from_positive n : 1 <= n <= 65535 -> is_pos_finite (f32_from n) = true.
Proof.
  intros Hn. destruct n as [|p|p]; [lia| |lia].
  pose proof (digits2_bound p 16 ltac:(lia) ltac:(lia)) as Hd.
  unfold f32_from, binary_normalize, binary_round, shl_align.
  rewrite Z.add_0_r, Z.sub_0_r. unfold fexp, emin.
  destruct (Z.max _ _) as [|d|d] eqn:Ed; [lia|lia|].
  rewrite binary_round_aux_exact; [done| |lia].
  rewrite digits2_shl. unfold fexp, emin. lia.
Qed.

Lemma f32_div_u16_not_nan a b :
  0 <= a <= 65535 -> 1 <= b <= 65535 -> f32_div (f32_from a) (f32_from b) <> S754_nan.
Proof.
  intros Ha Hb. pose proof (f32_from_positive b Hb) as Eb.
  destruct (f32_from b) as [| | |[] mb eb]; try done.
  assert (Hfa : f32_from a = S754_zero false \/ is_pos_finite (f32_from a) = true).
  { destruct (decide (a = 0)) as [->|]; [by left|right]. apply f32_from_positive. lia. }
  destruct Hfa as [->|Ea]; [done|]. destruct (f32_from a) as [| | |[] ma ea]; try done.
  unfold f32_div, SFdiv, SFdiv_core_binary.
  set (m' := match _ - _ with Z0 => _ | _ => _ end).
  assert (Hm : 0 <= m').
  { unfold m'. destruct (_ - _); try lia. apply Z.shiftl_nonneg. lia. }
  pose proof (Z.div_pos m' (Zpos mb) Hm eq_refl) as Hq. unfold Z.div in Hq.
  destruct (Z.div_eucl m' (Zpos mb)) as [q r]. by apply binary_round_aux_not_nan.
Qed.
