(* ===== verification/TextStr.v ===== *)
(** * Strings by byte offset

    Rust's [str] as the text editor uses it: a string is the list of its scalar
    values, offsets count UTF-8 bytes, and slicing off a character boundary is a
    panic ([None]). Grapheme segmentation, display widths and the alphanumeric
    class come from Unicode tables the repository does not contain; they are a
    class with the promises its users rely on. *)

From S2P Require Import Prelude Utf8.

Definition str_len (t : list Z) : Z := foldr (fun c n => Z.of_nat (len_utf8 c) + n) 0 t.

(** The two sides of byte offset [i], when [i] is a character boundary. *)
Fixpoint split_at (t : list Z) (i : Z) : option (list Z * list Z) :=
  if decide (i = 0) then Some ([], t)
  else match t with
       | [] => None
       | c :: rest =>
           match split_at rest (i - Z.of_nat (len_utf8 c)) with
           | Some (p, s) => Some (c :: p, s)
           | None => None
           end
       end.

Definition is_char_boundary (t : list Z) (i : Z) : bool := bool_decide (is_Some (split_at t i)).

(** [&t[..i]], [&t[i..]] and [&t[a..b]]; [t.get(a..b)] is the last one, whose
    [None] is then an answer. *)
Definition slice_to (t : list Z) (i : Z) : option (list Z) := fst <$> split_at t i.
Definition slice_from (t : list Z) (i : Z) : option (list Z) := snd <$> split_at t i.
Definition slice (t : list Z) (a b : Z) : option (list Z) :=
  match split_at t a with
  | Some (_, s) => slice_to s (b - a)
  | None => None
  end.

(** [t.replace_range(a..b, s)], of which [drain] and [insert_str] are cases. *)
Definition replace_range (t : list Z) (a b : Z) (s : list Z) : option (list Z) :=
  match split_at t a with
  | Some (p, r) =>
      match split_at r (b - a) with
      | Some (_, q) => Some (p ++ s ++ q)
      | None => None
      end
  | None => None
  end.

Definition drain (t : list Z) (a b : Z) : option (list Z) := replace_range t a b [].
Definition insert_at (t : list Z) (i : Z) (s : list Z) : option (list Z) := replace_range t i i s.

(** [t.truncate(n)]: nothing when the string is shorter. *)
Definition truncate (t : list Z) (n : Z) : option (list Z) :=
  if decide (str_len t < n) then Some t else slice_to t n.

(** [t.find(c)] and [t.rfind(c)] for a character. *)
Fixpoint find_char (c : Z) (t : list Z) : option Z :=
  match t with
  | [] => None
  | d :: rest =>
      if decide (d = c) then Some 0
      else (fun n => Z.of_nat (len_utf8 d) + n) <$> find_char c rest
  end.

Fixpoint rfind_char (c : Z) (t : list Z) : option Z :=
  match t with
  | [] => None
  | d :: rest =>
      match rfind_char c rest with
      | Some n => Some (Z.of_nat (len_utf8 d) + n)
      | None => if decide (d = c) then Some 0 else None
      end
  end.

(** [t.find(s)] for a string. *)
Fixpoint find_str (s t : list Z) : option Z :=
  if decide (s `prefix_of` t) then Some 0
  else match t with
       | [] => None
       | d :: rest => (fun n => Z.of_nat (len_utf8 d) + n) <$> find_str s rest
       end.

Definition newline : Z := 10.
Definition carriage_return : Z := 13.
Definition underscore : Z := 95.

(** [char::is_whitespace]: the White_Space property. *)
Definition is_whitespace (c : Z) : bool :=
  bool_decide (9 <= c <= 13) || bool_decide (8192 <= c <= 8202)
  || bool_decide (c ∈ [32; 133; 160; 5760; 8232; 8233; 8239; 8287; 12288]).

Definition is_ascii_punctuation (c : Z) : bool :=
  bool_decide (33 <= c <= 47) || bool_decide (58 <= c <= 64)
  || bool_decide (91 <= c <= 96) || bool_decide (123 <= c <= 126).

(** ** Unicode tables *)

(** [graphemes(true)] of the unicode-segmentation crate, [UnicodeWidthStr::width]
    of unicode-width, and [char::is_alphanumeric]. *)
Class UnicodeTables := {
  graphemes : list Z -> list (list Z);
  str_width : list Z -> Z;
  is_alphanumeric : Z -> bool;
}.

(** Segmentation cuts the text into non-empty pieces; widths are sizes. *)
Class UnicodeLaws (U : UnicodeTables) : Prop := {
  graphemes_concat t : concat (graphemes t) = t;
  graphemes_nonempty t : Forall (fun g => g <> []) (graphemes t);
  str_width_nonneg t : 0 <= str_width t;
}.

(** [grapheme_indices(true)]: every grapheme with its offset. *)
Fixpoint with_offsets (start : Z) (gs : list (list Z)) : list (Z * list Z) :=
  match gs with
  | [] => []
  | g :: rest => (start, g) :: with_offsets (start + str_len g) rest
  end.

Definition grapheme_indices `{UnicodeTables} (t : list Z) : list (Z * list Z) :=
  with_offsets 0 (graphemes t).

(** ** Lemmas *)

Lemma len_utf8_pos c : 0 < Z.of_nat (len_utf8 c).
Proof. unfold len_utf8. repeat case_decide; lia. Qed.

Lemma str_len_nonneg t : 0 <= str_len t.
Proof. induction t as [|c t IH]; simpl; [done|]. pose proof (len_utf8_pos c). lia. Qed.

Lemma str_len_app s t : str_len (s ++ t) = str_len s + str_len t.
Proof. induction s as [|c s IH]; simpl; [done|]. rewrite IH. lia. Qed.

Lemma str_len_cons c t : str_len (c :: t) = Z.of_nat (len_utf8 c) + str_len t.
Proof. done. Qed.

Lemma str_len_nil_inv t : str_len t <= 0 -> t = [].
Proof.
  destruct t as [|c t]; [done|]. rewrite str_len_cons.
  pose proof (len_utf8_pos c). pose proof (str_len_nonneg t). lia.
Qed.

Lemma str_len_pos t : t <> [] -> 0 < str_len t.
Proof. intros Ht. destruct (decide (str_len t <= 0)); [|lia]. by destruct Ht; apply str_len_nil_inv. Qed.

Lemma split_at_app p s : split_at (p ++ s) (str_len p) = Some (p, s).
Proof.
  induction p as [|c p IH]; [by destruct s|]. cbn [app split_at]. rewrite str_len_cons.
  rewrite decide_False by (pose proof (len_utf8_pos c); pose proof (str_len_nonneg p); lia).
  by rewrite Z.add_simpl_l, IH.
Qed.

Lemma split_at_Some t i p s : split_at t i = Some (p, s) <-> t = p ++ s /\ i = str_len p.
Proof.
  split; [|intros [-> ->]; apply split_at_app].
  revert i p. induction t as [|c t IH]; intros i p; cbn [split_at].
  - case_decide; [|done]. by intros [= <- <-].
  - case_decide; [by intros [= <- <-]|].
    destruct (split_at t _) as [[p' s']|] eqn:E; [|done]. intros [= <- <-].
    apply IH in E as [-> E]. split; [done|]. rewrite str_len_cons. lia.
Qed.

(** A character boundary of a string. *)
Definition boundary (t : list Z) (i : Z) : Prop := exists p s, t = p ++ s /\ i = str_len p.

Lemma boundary_split t i : boundary t i -> exists p s, split_at t i = Some (p, s) /\ t = p ++ s /\ i = str_len p.
Proof. intros (p & s & -> & ->). exists p, s. by rewrite split_at_app. Qed.

Lemma is_char_boundary_iff t i : is_char_boundary t i = true <-> boundary t i.
Proof.
  unfold is_char_boundary. rewrite bool_decide_eq_true. split.
  - intros [[p s] E]. apply split_at_Some in E. by exists p, s.
  - intros (p & s & E & _)%boundary_split. by rewrite E.
Qed.

Lemma boundary_range t i : boundary t i -> 0 <= i <= str_len t.
Proof.
  intros (p & s & -> & ->). rewrite str_len_app.
  pose proof (str_len_nonneg p). pose proof (str_len_nonneg s). lia.
Qed.

Lemma boundary_0 t : boundary t 0.
Proof. by exists [], t. Qed.

Lemma boundary_len t : boundary t (str_len t).
Proof. exists t, []. by rewrite app_nil_r. Qed.

Lemma boundary_app p s : boundary (p ++ s) (str_len p).
Proof. by exists p, s. Qed.

Lemma boundary_app_r p s i : boundary s i -> boundary (p ++ s) (str_len p + i).
Proof. intros (q & r & -> & ->). exists (p ++ q), r. by rewrite (assoc_L app), str_len_app. Qed.

Lemma boundary_app_l p s i : boundary p i -> boundary (p ++ s) i.
Proof. intros (q & r & -> & ->). exists q, (r ++ s). by rewrite (assoc_L app). Qed.

#[export] Hint Resolve boundary_0 boundary_len boundary_app boundary_app_l boundary_app_r : bmux.

(** Two prefixes of one text: the shorter is a prefix of the longer. *)
Lemma prefixes_ordered (p s p' s' : list Z) :
  p ++ s = p' ++ s' -> str_len p <= str_len p' -> exists m, p' = p ++ m /\ s = m ++ s'.
Proof.
  revert p'. induction p as [|c p IH]; intros p' E Hle; [by exists p'|].
  destruct p' as [|c' p']; simpl in E.
  { rewrite str_len_cons in Hle. pose proof (len_utf8_pos c). pose proof (str_len_nonneg p).
    simpl in Hle. lia. }
  injection E as -> E. rewrite !str_len_cons in Hle.
  destruct (IH p' E) as (m & -> & ->); [lia|]. by exists m.
Qed.

Lemma prefix_unique (p s p' s' : list Z) :
  p ++ s = p' ++ s' -> str_len p = str_len p' -> p = p' /\ s = s'.
Proof.
  intros E Hl. destruct (prefixes_ordered p s p' s' E) as (m & -> & ->); [lia|].
  rewrite str_len_app in Hl. assert (m = []) as -> by (apply str_len_nil_inv; lia).
  by rewrite app_nil_r.
Qed.

(** Two ordered boundaries cut the text in three. *)
Lemma boundary_three t a b :
  boundary t a -> boundary t b -> a <= b ->
  exists p m s, t = p ++ m ++ s /\ a = str_len p /\ b = str_len p + str_len m.
Proof.
  intros (p & s & -> & ->) (p' & s' & E & ->) Hle.
  destruct (prefixes_ordered p s p' s' E Hle) as (m & -> & ->).
  exists p, m, s'. by rewrite str_len_app.
Qed.

Lemma slice_three p m s : slice (p ++ m ++ s) (str_len p) (str_len p + str_len m) = Some m.
Proof. unfold slice, slice_to. by rewrite split_at_app, Z.add_simpl_l, split_at_app. Qed.

Lemma replace_range_three p m s r :
  replace_range (p ++ m ++ s) (str_len p) (str_len p + str_len m) r = Some (p ++ r ++ s).
Proof. unfold replace_range. by rewrite split_at_app, Z.add_simpl_l, split_at_app. Qed.

Lemma slice_to_app p s : slice_to (p ++ s) (str_len p) = Some p.
Proof. unfold slice_to. by rewrite split_at_app. Qed.

Lemma slice_from_app p s : slice_from (p ++ s) (str_len p) = Some s.
Proof. unfold slice_from. by rewrite split_at_app. Qed.

Lemma insert_at_app p s r : insert_at (p ++ s) (str_len p) r = Some (p ++ r ++ s).
Proof.
  pose proof (replace_range_three p [] s r) as E. simpl in E. rewrite Z.add_0_r in E. exact E.
Qed.

Lemma slice_Some t a b m :
  slice t a b = Some m -> exists p s, t = p ++ m ++ s /\ a = str_len p /\ b = a + str_len m.
Proof.
  unfold slice, slice_to. destruct (split_at t a) as [[p r]|] eqn:E; [|done].
  apply split_at_Some in E as [-> ->]. intros ([q s] & E & ->)%fmap_Some. simpl.
  apply split_at_Some in E as [-> E]. exists p, s. split_and!; [done..|lia].
Qed.

Lemma replace_range_Some t a b r t' :
  replace_range t a b r = Some t' ->
  exists p m s, t = p ++ m ++ s /\ a = str_len p /\ b = str_len p + str_len m /\ t' = p ++ r ++ s.
Proof.
  unfold replace_range. destruct (split_at t a) as [[p q]|] eqn:E; [|done].
  apply split_at_Some in E as [-> ->].
  destruct (split_at q _) as [[m s]|] eqn:E; [|done]. apply split_at_Some in E as [-> E].
  intros [= <-]. exists p, m, s. split_and!; [done..|lia|done].
Qed.

Lemma find_char_Some c t n :
  find_char c t = Some n -> exists p s, t = p ++ c :: s /\ n = str_len p /\ c ∉ p.
Proof.
  revert n. induction t as [|d t IH]; intros n; cbn [find_char]; [done|]. case_decide as Hd.
  - intros [= <-]. subst d. exists [], t. split_and!; [done..|apply not_elem_of_nil].
  - intros (k & E & ->)%fmap_Some. apply IH in E as (p & s & -> & -> & Hp).
    exists (d :: p), s. split_and!; [done|done|]. rewrite not_elem_of_cons. by split.
Qed.

Lemma rfind_char_Some c t n :
  rfind_char c t = Some n -> exists p s, t = p ++ c :: s /\ n = str_len p /\ c ∉ s.
Proof.
  revert n. induction t as [|d t IH]; intros n; cbn [rfind_char]; [done|].
  destruct (rfind_char c t) as [k|] eqn:E.
  - intros [= <-]. destruct (IH k eq_refl) as (p & s & -> & -> & Hs). by exists (d :: p), s.
  - case_decide as Hd; [|done]. intros [= <-]. subst d. exists [], t. split_and!; [done..|].
    clear IH. induction t as [|e t IH]; [apply not_elem_of_nil|]. cbn [rfind_char] in E.
    destruct (rfind_char c t); [done|]. case_decide; [done|].
    rewrite not_elem_of_cons. split; [done|by apply IH].
Qed.

Lemma find_str_Some s t n :
  find_str s t = Some n -> exists p q, t = p ++ s ++ q /\ n = str_len p.
Proof.
  revert n. induction t as [|d t IH]; intros n; cbn [find_str].
  - case_decide as Hs; [|done]. intros [= <-]. destruct Hs as [q Hq]. by exists [], q.
  - case_decide as Hs; [intros [= <-]; destruct Hs as [q Hq]; by exists [], q|].
    intros (k & E & ->)%fmap_Some. apply IH in E as (p & q & -> & ->). by exists (d :: p), q.
Qed.

(** Every entry of [with_offsets] splits the text at its grapheme. *)
Lemma with_offsets_lookup start gs (i : nat) o g :
  with_offsets start gs !! i = Some (o, g) <->
  gs !! i = Some g /\ o = start + str_len (concat (take i gs)).
Proof.
  revert start i. induction gs as [|h gs IH]; intros start i.
  { split; [by destruct i|]. intros [E _]. by destruct i. }
  destruct i as [|i]; simpl.
  - split; [intros [= <- <-]; split; [done|lia]|]. intros [[= ->] ->]. by rewrite Z.add_0_r.
  - rewrite IH, str_len_app. split; intros [-> ->]; (split; [done|lia]).
Qed.

Lemma with_offsets_length start gs : length (with_offsets start gs) = length gs.
Proof. revert start. induction gs as [|g gs IH]; intros start; simpl; [done|]. by rewrite IH. Qed.

Section laws.
Context `{UL : UnicodeLaws}.

Lemma grapheme_indices_lookup t (i : nat) o g :
  grapheme_indices t !! i = Some (o, g) ->
  exists p s, t = p ++ g ++ s /\ o = str_len p /\ g <> [] /\
    p = concat (take i (graphemes t)) /\ s = concat (drop (S i) (graphemes t)).
Proof.
  intros [Hg ->]%with_offsets_lookup.
  exists (concat (take i (graphemes t))), (concat (drop (S i) (graphemes t))).
  split_and!; [|done| |done..].
  - rewrite <- (graphemes_concat t) at 1. rewrite <- (take_drop_middle _ _ _ Hg) at 1.
    by rewrite concat_app.
  - pose proof (graphemes_nonempty t) as Hn. rewrite Forall_lookup in Hn. eauto.
Qed.

Lemma grapheme_indices_boundary t o g : (o, g) ∈ grapheme_indices t -> boundary t o.
Proof.
  intros [i Hi]%list_elem_of_lookup.
  apply grapheme_indices_lookup in Hi as (p & s & E & -> & _). by exists p, (g ++ s).
Qed.

Lemma graphemes_nil t : graphemes t = [] -> t = [].
Proof. intros E. by rewrite <- (graphemes_concat t), E. Qed.
End laws.

(** ** A small instance

    One cell per character, with U+0301 (combining acute accent) attached to the
    character before it. *)

Definition combining_acute : Z := 769.

Fixpoint cluster (t : list Z) : list (list Z) :=
  match t with
  | [] => []
  | c :: rest =>
      match cluster rest with
      | (d :: g) :: gs => if decide (d = combining_acute) then (c :: d :: g) :: gs else [c] :: (d :: g) :: gs
      | gs => [c] :: gs
      end
  end.

Definition combining_tables : UnicodeTables := {|
  graphemes := cluster;
  str_width t := zlen (List.filter (fun c => negb (bool_decide (c = combining_acute))) t);
  is_alphanumeric c := bool_decide (48 <= c <= 57) || bool_decide (65 <= c <= 90)
                       || bool_decide (97 <= c <= 122);
|}.

Lemma combining_laws : UnicodeLaws combining_tables.
Proof.
  split; simpl.
  - induction t as [|c t IH]; simpl; [done|].
    destruct (cluster t) as [|[|d g] gs]; simpl in *; [by rewrite <- IH..|].
    case_decide; simpl; by rewrite <- IH.
  - induction t as [|c t IH]; simpl; [done|]. destruct (cluster t) as [|[|d g] gs]; [by constructor..|].
    case_decide; [|by constructor]. inversion IH. by constructor.
  - intros t. apply zlen_nonneg.
Qed.
