(* ===== verification/TextWrap.v ===== *)
(** * Soft wrapping and cursor projection of the text editor

    Word wrapping of a text to a display width with an optional exclusion at the
    right edge of one row, the projection of a cursor into the wrapped rows, and
    the grapheme and word boundaries the editor moves by
    (packages/text-edit/src/lib.rs). Offsets and columns are [usize] values
    bounded by twice the length of a [String], so their saturating additions are
    exact; [None] is a panic. *)

From S2P Require Import Prelude Utf8 TextStr.

Record VisualCursor := mkVisualCursor {
  vc_row : nat;
  vc_col : Z;
}.

Record WrapExclusion := mkWrapExclusion {
  ex_row : nat;
  ex_columns : Z;
}.

Record WrapLayout := mkWrapLayout {
  lines : list (list Z);
  line_ranges : list (Z * Z);
  layout_cursor : VisualCursor;
  layout_exclusion : option (nat * Z);
}.

Inductive WordBoundaryPolicy := Punctuation | Whitespace.

Definition is_separator (policy : WordBoundaryPolicy) (grapheme : list Z) : bool :=
  match policy with
  | Punctuation => forallb is_whitespace grapheme || forallb is_ascii_punctuation grapheme
  | Whitespace => forallb is_whitespace grapheme
  end.

Definition is_wrapping_whitespace (grapheme : list Z) : bool :=
  negb (bool_decide (grapheme = [newline])) && forallb is_whitespace grapheme.

Definition ends_with (c : Z) (t : list Z) : bool := bool_decide (last t = Some c).

(** [usize::MAX / 4], the width that never wraps. *)
Definition unbounded_width : Z := max_u 64 / 4.

Section unicode.
Context {U : UnicodeTables}.

Record GraphemeSpan := mkSpan {
  span_start : Z;
  span_end : Z;
  span_width : Z;
}.

Definition grapheme_spans (text : list Z) : list GraphemeSpan :=
  (fun '(start, grapheme) => mkSpan start (start + str_len grapheme) (str_width grapheme))
    <$> grapheme_indices text.

(** The largest grapheme start that is not past [index]; [take_while] and [last]. *)
Fixpoint last_start_before (index : Z) (starts : list (Z * list Z)) (acc : Z) : Z :=
  match starts with
  | [] => acc
  | (start, _) :: rest => if decide (start <= index) then last_start_before index rest start else acc
  end.

Definition snap_to_grapheme_boundary (text : list Z) (index : Z) : Z :=
  let index := Z.min index (str_len text) in
  match split_at text index with
  | Some (_, rest) =>
      if bool_decide (index = str_len text) || bool_decide (graphemes rest <> [])
      then index else last_start_before index (grapheme_indices text) 0
  | None => last_start_before index (grapheme_indices text) 0
  end.

Definition previous_grapheme_boundary (text : list Z) (cursor : Z) : option (option Z) :=
  before ← slice_to text cursor;
  Some (fst <$> last (grapheme_indices before)).

Definition next_grapheme_boundary (text : list Z) (cursor : Z) : option (option Z) :=
  if decide (str_len text <= cursor) then Some None
  else
    after ← slice_from text cursor;
    Some (Some match grapheme_indices after !! 1%nat with
               | Some (index, _) => cursor + index
               | None => str_len text
               end).

(** The position of the span that starts at the cursor, or the number of spans. *)
Fixpoint span_index (spans : list GraphemeSpan) (cursor : Z) : nat :=
  match spans with
  | [] => 0
  | span :: rest => if decide (span_start span = cursor) then 0 else S (span_index rest cursor)
  end.

(** [while index > 0 && p(span before index)], going left. *)
Fixpoint skip_left (text : list Z) (spans : list GraphemeSpan) (p : list Z -> bool) (index : nat)
  : option nat :=
  match index with
  | O => Some 0%nat
  | S before =>
      span ← spans !! before;
      grapheme ← slice text (span_start span) (span_end span);
      if p grapheme then skip_left text spans p before else Some index
  end.

(** [while index < spans.len() && p(span at index)], going right; the spans left
    to look at are the argument that decreases. *)
Fixpoint skip_right (text : list Z) (rest : list GraphemeSpan) (p : list Z -> bool) (index : nat)
  : option nat :=
  match rest with
  | [] => Some index
  | span :: rest =>
      grapheme ← slice text (span_start span) (span_end span);
      if p grapheme then skip_right text rest p (S index) else Some index
  end.

Definition previous_word_boundary (text : list Z) (cursor : Z) (policy : WordBoundaryPolicy)
  : option Z :=
  let spans := grapheme_spans text in
  index ← skip_left text spans (is_separator policy) (span_index spans cursor);
  index ← skip_left text spans (fun g => negb (is_separator policy g)) index;
  Some match spans !! index with Some span => span_start span | None => 0 end.

Definition next_word_boundary (text : list Z) (cursor : Z) (policy : WordBoundaryPolicy)
  : option Z :=
  let spans := grapheme_spans text in
  let index := span_index spans cursor in
  index ← skip_right text (drop index spans) (is_separator policy) index;
  index ← skip_right text (drop index spans) (fun g => negb (is_separator policy g)) index;
  Some match spans !! index with Some span => span_start span | None => str_len text end.

Fixpoint visual_col_loop (graphemes : list (Z * list Z)) (target_col col len : Z) : Z :=
  match graphemes with
  | [] => len
  | (start, grapheme) :: rest =>
      let width := Z.max (str_width grapheme) 1 in
      if decide (target_col < col + width) then start
      else visual_col_loop rest target_col (col + width) len
  end.

Definition byte_index_for_visual_col (line : list Z) (target_col : Z) : Z :=
  visual_col_loop (grapheme_indices line) target_col 0 (str_len line).

(** [WrapLayout::byte_index_for_position]. *)
Definition byte_index_for_position (layout : WrapLayout) (row : nat) (col : Z) : Z :=
  match lines layout !! row, line_ranges layout !! row with
  | Some line, Some (start, _) => start + byte_index_for_visual_col line col
  | _, _ => match last (line_ranges layout) with Some (_, e) => e | None => 0 end
  end.

(** [partition_point]: the ranges are ordered by their starts. *)
Definition ranges_upto (ranges : list (Z * Z)) (cursor : Z) : nat :=
  length (filter (fun r => r.1 <= cursor) ranges).

(** [WrapLayout::cursor_for_byte_index]. *)
Definition cursor_for_byte_index (layout : WrapLayout) (text : list Z) (cursor : Z)
  : option VisualCursor :=
  let cursor := Z.min cursor (str_len text) in
  let row := (ranges_upto (line_ranges layout) cursor - 1)%nat in
  match line_ranges layout !! row with
  | None => Some (mkVisualCursor 0 0)
  | Some (start, stop) =>
      line ← slice text start stop;
      let cursor := start + snap_to_grapheme_boundary line (saturating_sub (Z.min cursor stop) start) in
      row ← (if decide ((0 < row)%nat /\ start = cursor) then
               before ← slice_to text cursor;
               if ends_with newline before then Some row
               else if bool_decide (option_map fst (layout_exclusion layout) = Some (row - 1)%nat)
               then Some row
               else
                 previous ← line_ranges layout !! (row - 1)%nat;
                 if decide (previous.1 < cursor) then Some (row - 1)%nat else Some row
             else Some row);
      match line_ranges layout !! row with
      | None => Some (mkVisualCursor 0 0)
      | Some (start, stop) =>
          shown ← slice text start (Z.min (Z.max cursor start) stop);
          Some (mkVisualCursor row (str_width shown))
      end
  end.

(** The state of the wrapping loop. *)
Record WrapState := mkWrapState {
  w_lines : list (list Z);
  w_starts : list Z;
  w_row : nat;
  w_col : Z;
  w_break : option (nat * Z);
  w_index : nat;
}.

Definition excluded_at (exclusion : option WrapExclusion) (row : nat) : option WrapExclusion :=
  match exclusion with
  | Some region => if decide (ex_row region = row) then Some region else None
  | None => None
  end.

Definition available_at (width : Z) (exclusion : option WrapExclusion) (row : nat) : Z :=
  match excluded_at exclusion row with
  | Some region => saturating_sub width (ex_columns region)
  | None => width
  end.

(** Open a new row at [next_start], continuing with grapheme [index]. *)
Definition push_row (st : WrapState) (rows : list (list Z)) (next_start : Z) (index : nat)
  : WrapState :=
  mkWrapState (rows ++ [[]]) (w_starts st ++ [next_start]) (S (w_row st)) 0 None index.

Definition wrap_step (text : list Z) (width : Z) (exclusion : option WrapExclusion)
    (span : GraphemeSpan) (st : WrapState) : option WrapState :=
  grapheme ← slice text (span_start span) (span_end span);
  if decide (grapheme = [newline])
  then Some (push_row st (w_lines st) (span_end span) (S (w_index st)))
  else if bool_decide (available_at width exclusion (w_row st) < w_col st + span_width span)
          && (bool_decide (0 < w_col st) || bool_decide (is_Some (excluded_at exclusion (w_row st))))
  then
    if bool_decide (0 < w_col st) && is_wrapping_whitespace grapheme
    then Some (push_row st (w_lines st) (span_end span) (S (w_index st)))
    else
      match w_break st with
      | Some (next_index, split) =>
          line_start ← w_starts st !! w_row st;
          if decide (line_start < split /\ split < span_start span) then
            line ← w_lines st !! w_row st;
            line ← truncate line (saturating_sub split line_start);
            Some (push_row st (<[w_row st := line]> (w_lines st)) split next_index)
          else Some (push_row st (w_lines st) (span_start span) (w_index st))
      | None => Some (push_row st (w_lines st) (span_start span) (w_index st))
      end
  else
    line ← w_lines st !! w_row st;
    Some (mkWrapState (<[w_row st := line ++ grapheme]> (w_lines st)) (w_starts st) (w_row st)
            (w_col st + span_width span)
            (if is_wrapping_whitespace grapheme then Some (S (w_index st), span_end span)
             else w_break st)
            (S (w_index st))).

Fixpoint wrap_loop (fuel : nat) (text : list Z) (width : Z) (exclusion : option WrapExclusion)
    (spans : list GraphemeSpan) (st : WrapState) : option WrapState :=
  match spans !! w_index st with
  | None => Some st
  | Some span =>
      match fuel with
      | O => None
      | S fuel =>
          st ← wrap_step text width exclusion span st;
          wrap_loop fuel text width exclusion spans st
      end
  end.

(** The row of the cursor: the last one that starts at or before it, unless the
    cursor sits exactly at a soft-wrapped start. *)
Fixpoint find_cursor_row (text : list Z) (cursor : Z) (starts : list Z) (rows : nat)
  : option (option nat) :=
  match rows with
  | O => Some None
  | S row =>
      start ← starts !! row;
      soft ← (if decide ((0 < row)%nat /\ start = cursor) then
                before ← slice_to text cursor;
                Some (negb (ends_with newline before)
                      && match starts !! (row - 1)%nat with
                         | Some previous => bool_decide (previous < cursor)
                         | None => false
                         end)
              else Some false);
      if decide (start <= cursor) then
        if (soft : bool) then find_cursor_row text cursor starts row else Some (Some row)
      else find_cursor_row text cursor starts row
  end.

Definition visual_cursor_for_wrapped_lines (text : list Z) (cursor : Z) (rows : list (list Z))
    (starts : list Z) : option VisualCursor :=
  found ← find_cursor_row text cursor starts (length starts);
  let row := Nat.min (default 0%nat found) (length rows - 1) in
  let line_start := default 0 (starts !! row) in
  line ← rows !! row;
  let line_end := Z.min (line_start + str_len line) (str_len text) in
  (* [clamp] panics on an empty interval. *)
  if decide (line_end < line_start) then None
  else
    shown ← slice text line_start (Z.min (Z.max cursor line_start) line_end);
    Some (mkVisualCursor row (str_width shown)).

Record WrappedProjection := mkProjection {
  proj_lines : list (list Z);
  proj_starts : list Z;
  proj_cursor : VisualCursor;
}.

(** Enough iterations for every row to look at every grapheme once. *)
Definition wrap_fuel (spans : list GraphemeSpan) : nat :=
  ((length spans + 3) * (length spans + 3))%nat.

Definition wrapped_projection_with_exclusion (text : list Z) (cursor width : Z)
    (exclusion : option WrapExclusion) : option WrappedProjection :=
  let width := Z.max width 1 in
  let spans := grapheme_spans text in
  st ← wrap_loop (wrap_fuel spans) text width exclusion spans (mkWrapState [[]] [0] 0 0 None 0);
  let '(rows, starts) :=
    match exclusion with
    | Some region =>
        if decide (w_row st = ex_row region /\ saturating_sub width (ex_columns region) <= w_col st)
        then (w_lines st ++ [[]], w_starts st ++ [str_len text])
        else (w_lines st, w_starts st)
    | None => (w_lines st, w_starts st)
    end in
  position ← visual_cursor_for_wrapped_lines text cursor rows starts;
  Some (mkProjection rows starts position).

Definition wrapped_layout_with_exclusion (text : list Z) (cursor width : Z)
    (exclusion : option WrapExclusion) : option WrapLayout :=
  projection ← wrapped_projection_with_exclusion text cursor width exclusion;
  let ranges := zip_with (fun line start => (start, start + str_len line))
                  (proj_lines projection) (proj_starts projection) in
  let layout := mkWrapLayout (proj_lines projection) ranges (proj_cursor projection)
                  ((fun region => (ex_row region, saturating_sub (Z.max width 1) (ex_columns region)))
                     <$> exclusion) in
  position ← cursor_for_byte_index layout text cursor;
  Some (mkWrapLayout (lines layout) (line_ranges layout) position (layout_exclusion layout)).

Definition wrapped_layout (text : list Z) (cursor width : Z) : option WrapLayout :=
  wrapped_layout_with_exclusion text cursor width None.

(** The single-line viewport that ends near the cursor. *)
Record LineViewport := mkViewport {
  viewport_text : list Z;
  cursor_col : Z;
}.

Fixpoint viewport_start (spans : list GraphemeSpan) (width : Z) (start : nat) (col : Z)
  : option nat :=
  match start with
  | O => Some 0%nat
  | S before =>
      span ← spans !! before;
      if decide (saturating_sub width 1 < col + span_width span) then Some start
      else viewport_start spans width before (col + span_width span)
  end.

(** [for (index, span) in ... .skip(start)], with the text shown, the columns
    used and the cursor's column so far. *)
Fixpoint viewport_fill (text : list Z) (rest : list GraphemeSpan) (cursor_index index : nat)
    (width : Z) (shown : list Z) (used col : Z) : option (list Z * Z * Z) :=
  match rest with
  | [] => Some (shown, used, col)
  | span :: rest =>
      let col := if decide (index = cursor_index) then used else col in
      if decide (width < used + span_width span) then Some (shown, used, col)
      else
        grapheme ← slice text (span_start span) (span_end span);
        viewport_fill text rest cursor_index (S index) width (shown ++ grapheme)
          (used + span_width span) col
  end.

Definition line_viewport (text : list Z) (cursor width : Z) : option LineViewport :=
  if decide (width = 0) then Some (mkViewport [] 0)
  else
    let spans := grapheme_spans text in
    let cursor_index := span_index spans cursor in
    start ← viewport_start spans width cursor_index 0;
    '(shown, used, col) ← viewport_fill text (drop start spans) cursor_index start width [] 0 0;
    Some (mkViewport shown
            (if decide (length spans <= cursor_index)%nat then Z.min used width else col)).

Definition byte_index_for_line_viewport_col (text : list Z) (cursor width col : Z) : option Z :=
  viewport ← line_viewport text cursor width;
  let visible_start := match find_str (viewport_text viewport) text with
                       | Some start => start
                       | None => Z.min cursor (str_len text)
                       end in
  Some (visible_start + byte_index_for_visual_col (viewport_text viewport) col).

End unicode.
