(* ===== verification/TextWrapProps.v ===== *)
(** * Correctness of soft wrapping

    Rows are runs of graphemes: every row either fits its available columns or
    shows a single grapheme too wide for any row, rows end at a newline, at the last
    whitespace before an overflow or at the overflow itself, and together with
    the newlines and the whitespace dropped at a break they are the text. *)

From S2P Require Import Prelude Utf8 TextStr TextWrap.

(** ** Positions the editor moves to are character boundaries *)

Section positions.
Context `{UL : UnicodeLaws}.

Lemma last_start_before_boundary t index starts acc :
  (forall o g, (o, g) ∈ starts -> boundary t o) -> boundary t acc ->
  boundary t (last_start_before index starts acc).
Proof.
  revert acc. induction starts as [|[o g] starts IH]; intros acc Hs Hacc; simpl; [done|].
  case_decide; [|done]. apply IH; [|eapply Hs; left]. intros o' g' Hin. eapply Hs. by right.
Qed.

Lemma snap_boundary t i : boundary t (snap_to_grapheme_boundary t i).
Proof.
  unfold snap_to_grapheme_boundary.
  assert (H : boundary t (last_start_before (Z.min i (str_len t)) (grapheme_indices t) 0)).
  { apply last_start_before_boundary; [apply grapheme_indices_boundary|apply boundary_0]. }
  destruct (split_at t _) as [[p s]|] eqn:E; [|done]. destruct (_ || _); [|done].
  apply split_at_Some in E as [-> ->]. apply boundary_app.
Qed.

(** Every character boundary is its own snap. *)
Lemma snap_boundary_id t i : boundary t i -> snap_to_grapheme_boundary t i = i.
Proof.
  intros Hb. pose proof (boundary_range t i Hb). unfold snap_to_grapheme_boundary.
  rewrite Z.min_l by lia. destruct (boundary_split t i Hb) as (p & s & -> & -> & ->).
  destruct (decide (s = [])) as [->|Hs].
  - rewrite app_nil_r. by rewrite bool_decide_eq_true_2.
  - rewrite (bool_decide_eq_true_2 (graphemes s <> [])); [by rewrite orb_true_r|].
    intros E. by apply graphemes_nil in E.
Qed.

Lemma visual_col_loop_boundary t gs target col :
  (forall o g, (o, g) ∈ gs -> boundary t o) -> boundary t (visual_col_loop gs target col (str_len t)).
Proof.
  revert col. induction gs as [|[o g] gs IH]; intros col Hs; simpl; [apply boundary_len|].
  case_decide; [eapply Hs; left|]. apply IH. intros o' g' Hin. eapply Hs. by right.
Qed.

Lemma byte_index_boundary t col : boundary t (byte_index_for_visual_col t col).
Proof. apply visual_col_loop_boundary, grapheme_indices_boundary. Qed.

(** Clamping a boundary between two boundaries. *)
Lemma boundary_clamp t i a b :
  boundary t i -> boundary t a -> boundary t b -> boundary t (Z.min (Z.max i a) b).
Proof. intros. destruct (Z.min_spec (Z.max i a) b) as [[_ ->]|[_ ->]]; [|done].
  destruct (Z.max_spec i a) as [[_ ->]|[_ ->]]; done.
Qed.

Lemma slice_boundaries t a b :
  boundary t a -> boundary t b -> a <= b ->
  exists m p s, slice t a b = Some m /\ t = p ++ m ++ s /\ a = str_len p.
Proof.
  intros Ha Hb Hab. destruct (boundary_three t a b Ha Hb Hab) as (p & m & s & -> & -> & ->).
  exists m, p, s. by rewrite slice_three.
Qed.

Lemma slice_to_boundary t i : boundary t i -> exists p, slice_to t i = Some p.
Proof. intros (p & s & -> & ->). exists p. apply slice_to_app. Qed.
End positions.

Section text.
Context `{UL : UnicodeLaws}.
Variable text : list Z.

(** Graphemes [a] to [b] of the text, the offset of grapheme [k], and the columns
    of a run. *)
Definition seg (a b : nat) : list (list Z) := take (b - a) (drop a (graphemes text)).
Definition off (k : nat) : Z := str_len (concat (take k (graphemes text))).
Definition columns (a b : nat) : Z := foldr (fun g n => str_width g + n) 0 (seg a b).

Lemma seg_split a b : (a <= b)%nat -> text = concat (take a (graphemes text)) ++ concat (seg a b)
                                       ++ concat (drop b (graphemes text)).
Proof.
  intros Hab. unfold seg. rewrite <- !concat_app. rewrite <- (graphemes_concat text) at 1. f_equal.
  rewrite <- (take_drop a (graphemes text)) at 1. f_equal.
  rewrite <- (take_drop (b - a) (drop a (graphemes text))) at 1. f_equal.
  rewrite drop_drop. f_equal. lia.
Qed.

Lemma off_seg a b : (a <= b)%nat -> off b = off a + str_len (concat (seg a b)).
Proof.
  intros Hab. unfold off, seg. rewrite <- str_len_app, <- concat_app. do 2 f_equal.
  rewrite <- (take_drop a (take b _)), take_take, Nat.min_l by lia. f_equal.
  by rewrite skipn_firstn_comm.
Qed.

Lemma slice_seg a b : (a <= b)%nat -> slice text (off a) (off b) = Some (concat (seg a b)).
Proof. intros Hab. rewrite (off_seg a b) by done. rewrite (seg_split a b) at 1 by done. apply slice_three. Qed.

Lemma boundary_seg a b i :
  (a <= b)%nat -> boundary (concat (seg a b)) i -> boundary text (off a + i).
Proof.
  intros Hab Hi. rewrite (seg_split a b) at 1 by done.
  apply (boundary_app_r (concat (take a (graphemes text)))). by apply boundary_app_l.
Qed.

Lemma boundary_off k : boundary text (off k).
Proof.
  exists (concat (take k (graphemes text))), (concat (drop k (graphemes text))). split; [|done].
  by rewrite <- concat_app, take_drop, graphemes_concat.
Qed.

Lemma off_0 : off 0 = 0.
Proof. done. Qed.

Lemma off_end k : (length (graphemes text) <= k)%nat -> off k = str_len text.
Proof. intros Hk. unfold off. by rewrite take_ge, graphemes_concat. Qed.

Lemma seg_nil a : seg a a = [].
Proof. unfold seg. by rewrite Nat.sub_diag. Qed.

Lemma seg_snoc a b g : (a <= b)%nat -> graphemes text !! b = Some g -> seg a (S b) = seg a b ++ [g].
Proof.
  intros Hab Hg. unfold seg. replace (S b - a)%nat with (S (b - a)) by lia.
  apply take_S_r. rewrite lookup_drop. replace (a + (b - a))%nat with b by lia. done.
Qed.

Lemma columns_nil a : columns a a = 0.
Proof. unfold columns. by rewrite seg_nil. Qed.

Lemma columns_snoc a b g :
  (a <= b)%nat -> graphemes text !! b = Some g -> columns a (S b) = columns a b + str_width g.
Proof.
  intros Hab Hg. unfold columns. rewrite (seg_snoc a b g Hab Hg).
  induction (seg a b) as [|h l IH]; simpl; [lia|]. rewrite IH. lia.
Qed.

Lemma columns_nonneg a b : 0 <= columns a b.
Proof.
  unfold columns. induction (seg a b) as [|h l IH]; simpl; [done|].
  pose proof (str_width_nonneg h). lia.
Qed.

Lemma columns_mono a b c :
  (a <= b <= c)%nat -> (c <= length (graphemes text))%nat -> columns a b <= columns a c.
Proof.
  intros [Hab Hbc] Hc. induction Hbc as [|c Hbc IH]; [done|].
  destruct (lookup_lt_is_Some_2 (graphemes text) c) as [g Hg]; [lia|].
  rewrite (columns_snoc a c g) by (done || lia). pose proof (str_width_nonneg g). lia.
Qed.

Lemma columns_pos a b : 0 < columns a b -> a <> b.
Proof. intros H ->. rewrite columns_nil in H. lia. Qed.

Lemma grapheme_lt k g : graphemes text !! k = Some g -> (k < length (graphemes text))%nat.
Proof. apply lookup_lt_Some. Qed.

Lemma off_S k g : graphemes text !! k = Some g -> off (S k) = off k + str_len g.
Proof.
  intros Hg. rewrite (off_seg k (S k)) by lia.
  rewrite (seg_snoc k k g), seg_nil by done. simpl. by rewrite app_nil_r.
Qed.

Lemma off_lt a b : (a < b)%nat -> (b <= length (graphemes text))%nat -> off a < off b.
Proof.
  intros Hab Hb. rewrite (off_seg a b) by lia.
  destruct (lookup_lt_is_Some_2 (graphemes text) a) as [g Hg]; [lia|].
  assert (Hgn : g <> []).
  { pose proof (graphemes_nonempty text) as Hn. rewrite Forall_lookup in Hn. eauto. }
  unfold seg. rewrite (drop_S _ _ _ Hg).
  destruct (b - a)%nat as [|n] eqn:E; [lia|]. simpl. rewrite str_len_app.
  pose proof (str_len_pos g Hgn). pose proof (str_len_nonneg (concat (take n (drop (S a) (graphemes text))))).
  lia.
Qed.

Lemma off_le a b : (a <= b)%nat -> off a <= off b.
Proof. intros Hab. rewrite (off_seg a b) by done. pose proof (str_len_nonneg (concat (seg a b))). lia. Qed.

Lemma grapheme_spans_lookup (k : nat) span :
  grapheme_spans text !! k = Some span <->
  exists g, graphemes text !! k = Some g /\ span = mkSpan (off k) (off (S k)) (str_width g).
Proof.
  unfold grapheme_spans, grapheme_indices. rewrite list_lookup_fmap, fmap_Some. split.
  - intros ([o g] & H & ->). apply with_offsets_lookup in H as [Hg ->]. exists g.
    split; [done|]. rewrite (off_S k g Hg). by rewrite Z.add_0_l.
  - intros (g & Hg & ->). exists (off k, g). split.
    + apply with_offsets_lookup. by rewrite Z.add_0_l.
    + by rewrite (off_S k g Hg).
Qed.

Lemma grapheme_spans_length : length (grapheme_spans text) = length (graphemes text).
Proof. unfold grapheme_spans, grapheme_indices. by rewrite length_fmap, with_offsets_length. Qed.

Lemma slice_grapheme k g : graphemes text !! k = Some g -> slice text (off k) (off (S k)) = Some g.
Proof.
  intros Hg. rewrite slice_seg by lia. rewrite (seg_snoc k k g), seg_nil by done.
  simpl. by rewrite app_nil_r.
Qed.

(** ** Specification of a row *)

Section rows.
Variables (width : Z) (exclusion : option WrapExclusion).

Notation available := (available_at width exclusion).

Definition whitespace_at (k : nat) : Prop :=
  exists g, graphemes text !! k = Some g /\ is_wrapping_whitespace g = true.

(** A row [a..b] that fits, or one whose last grapheme alone is too wide for a
    full row, behind graphemes of no width. *)
Definition row_fits (row a b : nat) : Prop :=
  columns a b <= available row \/
  (excluded_at exclusion row = None /\ (a < b)%nat /\ columns a (b - 1) = 0).

(** Why row [a..b] ends and the next one starts at [c]: a newline; whitespace
    that would overflow, dropped; an overflow at grapheme [k] with no whitespace
    to break at, or with the break behind the last whitespace before [k]; the end
    of the text. *)
Inductive row_break (row a : nat) : nat -> nat -> Prop :=
| break_newline b : graphemes text !! b = Some [newline] -> row_break row a b (S b)
| break_whitespace b :
    whitespace_at b -> available row < columns a (S b) -> 0 < columns a b ->
    row_break row a b (S b)
| break_overflow b :
    (b < length (graphemes text))%nat -> available row < columns a (S b) ->
    ((a < b)%nat /\ whitespace_at (b - 1)) \/ (forall i, (a <= i < b)%nat -> ~ whitespace_at i) ->
    row_break row a b b
| break_word b k :
    (a < b < k)%nat -> (k < length (graphemes text))%nat -> available row < columns a (S k) -> whitespace_at (b - 1) ->
    (forall i, (b <= i < k)%nat -> ~ whitespace_at i) -> row_break row a b b
| break_end : row_break row a (length (graphemes text)) (length (graphemes text)).

(** The finished rows: their number, lines and start offsets, and the grapheme
    the next row starts with. *)
Inductive rows_done : nat -> list (list Z) -> list Z -> nat -> Prop :=
| rows_none : rows_done 0 [] [] 0
| rows_more row rows starts a b c :
    rows_done row rows starts a -> (a <= b)%nat -> row_fits row a b -> row_break row a b c ->
    rows_done (S row) (rows ++ [concat (seg a b)]) (starts ++ [off a]) c.

Lemma rows_done_length row rows starts a :
  rows_done row rows starts a -> length rows = row /\ length starts = row.
Proof. induction 1 as [|row rows starts a b c _ [<- IH] _ _ _]; [done|]. rewrite !length_app. simpl. lia. Qed.

(** ** The loop *)

Definition break_ok (a index : nat) (brk : option (nat * Z)) : Prop :=
  match brk with
  | None => forall i, (a <= i < index)%nat -> ~ whitespace_at i
  | Some (ni, split) =>
      (a < ni <= index)%nat /\ split = off ni /\ whitespace_at (ni - 1) /\
      forall i, (ni <= i < index)%nat -> ~ whitespace_at i
  end.

(** The current row starts at grapheme [a]. *)
Record wrap_inv (a : nat) (st : WrapState) : Prop := {
  inv_rows : exists rows starts, rows_done (w_row st) rows starts a /\
    w_lines st = rows ++ [concat (seg a (w_index st))] /\ w_starts st = starts ++ [off a];
  inv_index : (a <= w_index st <= length (graphemes text))%nat;
  inv_col : w_col st = columns a (w_index st);
  inv_fits : row_fits (w_row st) a (w_index st);
  inv_break : break_ok a (w_index st) (w_break st);
}.

(** Rows and graphemes left; the excluded row may stay empty. *)
Definition wrap_measure (a : nat) (st : WrapState) : nat :=
  ((length (graphemes text) - a
    + match exclusion with
      | Some region => if decide (w_row st <= ex_row region)%nat then 1 else 0
      | None => 0
      end) * (length (graphemes text) + 2)
   + (length (graphemes text) - w_index st))%nat.

Hypothesis width_pos : 1 <= width.

Lemma available_nonneg row : 0 <= available row.
Proof. unfold available_at. destruct (excluded_at exclusion row); unfold saturating_sub; lia. Qed.

Lemma row_fits_empty row a : row_fits row a a.
Proof. left. rewrite columns_nil. apply available_nonneg. Qed.

(** Closing the current row at [b] and opening the next at [c] keeps the
    invariant and makes progress unless the row is the excluded one. *)
Lemma push_row_inv a b c st rows starts lines' next_start :
  rows_done (w_row st) rows starts a -> w_starts st = starts ++ [off a] ->
  lines' = rows ++ [concat (seg a b)] ->
  (a <= b)%nat -> (b <= c <= length (graphemes text))%nat -> next_start = off c ->
  row_fits (w_row st) a b -> row_break (w_row st) a b c ->
  (a < c)%nat \/ is_Some (excluded_at exclusion (w_row st)) ->
  (w_index st <= length (graphemes text))%nat -> 
  wrap_inv c (push_row st lines' next_start c) /\
  (wrap_measure c (push_row st lines' next_start c) < wrap_measure a st)%nat.
Proof.
  intros Hrows Hstarts -> Hab Hbc -> Hfits Hbrk Hprog Hidx. split.
  - split; simpl.
    + exists (rows ++ [concat (seg a b)]), (starts ++ [off a]). split_and!.
      * by apply rows_more.
      * by rewrite seg_nil.
      * by rewrite Hstarts.
    + lia.
    + by rewrite columns_nil.
    + apply row_fits_empty.
    + simpl. intros i Hi. lia.
  - unfold wrap_measure, push_row. cbn [w_row w_index].
    destruct Hprog as [Hac|[region He]].
    + destruct exclusion as [region|]; [|nia]. repeat case_decide; nia.
    + unfold excluded_at in He. destruct exclusion as [region'|]; [|done].
      case_decide as Hrow; [|done]. injection He as ->.
      rewrite decide_False, decide_True by lia. nia.
Qed.

Lemma truncate_app p s : truncate (p ++ s) (str_len p) = Some p.
Proof.
  unfold truncate. rewrite str_len_app. pose proof (str_len_nonneg s).
  rewrite decide_False by lia. apply slice_to_app.
Qed.

Lemma seg_app a b c : (a <= b <= c)%nat -> seg a c = seg a b ++ seg b c.
Proof.
  intros Hab. unfold seg. rewrite <- (take_drop (b - a) (take (c - a) _)), take_take.
  rewrite Nat.min_l by lia. f_equal. rewrite skipn_firstn_comm, drop_drop. f_equal; [lia|f_equal; lia].
Qed.

Lemma truncate_seg a b c :
  (a <= b <= c)%nat ->
  truncate (concat (seg a c)) (saturating_sub (off b) (off a)) = Some (concat (seg a b)).
Proof.
  intros Hab. replace (saturating_sub (off b) (off a)) with (str_len (concat (seg a b))).
  - rewrite (seg_app a b c Hab), concat_app. apply truncate_app.
  - rewrite (off_seg a b) by lia. unfold saturating_sub.
    pose proof (str_len_nonneg (concat (seg a b))). lia.
Qed.

(** A prefix of a row that fits, fits. *)
Lemma row_fits_prefix row a b c :
  (a < b < c)%nat -> (c <= length (graphemes text))%nat -> row_fits row a c -> row_fits row a b.
Proof.
  intros Hb Hc [Hf|(He & _ & H0)]; left.
  - pose proof (columns_mono a b c). lia.
  - pose proof (columns_mono a b (c - 1)). pose proof (available_nonneg row).
    pose proof (columns_nonneg a b). lia.
Qed.

(** Adding a grapheme to the row. *)
Lemma append_inv a st g rows starts :
  wrap_inv a st -> graphemes text !! w_index st = Some g ->
  rows_done (w_row st) rows starts a -> w_starts st = starts ++ [off a] ->
  w_lines st = rows ++ [concat (seg a (w_index st))] ->
  w_col st + str_width g <= available (w_row st) \/
    (w_col st <= 0 /\ excluded_at exclusion (w_row st) = None) ->
  let st' := mkWrapState (<[w_row st := concat (seg a (w_index st)) ++ g]> (w_lines st)) (w_starts st)
               (w_row st) (w_col st + str_width g)
               (if is_wrapping_whitespace g then Some (S (w_index st), off (S (w_index st)))
                else w_break st) (S (w_index st)) in
  wrap_inv a st' /\ (wrap_measure a st' < wrap_measure a st)%nat.
Proof.
  intros Hinv Hg Hrows Hstarts Hlines Hok st'. pose proof (grapheme_lt _ _ Hg) as Hlt.
  destruct (inv_index _ _ Hinv) as [Ha _]. pose proof (inv_col _ _ Hinv) as Hcol.
  pose proof (columns_snoc a (w_index st) g Ha Hg) as Hc. split.
  - split; simpl.
    + exists rows, starts. split_and!; [done| |done].
      destruct (rows_done_length _ _ _ _ Hrows) as [<- _]. rewrite Hlines, insert_app_r_alt by lia.
      rewrite Nat.sub_diag, (seg_snoc a (w_index st) g) by done. simpl.
      rewrite concat_app. simpl. by rewrite app_nil_r.
    + lia.
    + rewrite Hc, Hcol. done.
    + destruct Hok as [Hok|[H0 He]]; [left; rewrite Hc, <- Hcol; lia|right].
      split_and!; [done|lia|]. replace (S (w_index st) - 1)%nat with (w_index st) by lia.
      pose proof (columns_nonneg a (w_index st)). lia.
    + pose proof (inv_break _ _ Hinv) as Hb. destruct (is_wrapping_whitespace g) eqn:Ew; simpl.
      * split_and!; [lia|lia|done| |intros i Hi; lia]. exists g. split; [|done]. rewrite <- Hg. f_equal. lia.
      * assert (Hnw : ~ whitespace_at (w_index st)).
        { intros (g' & Hg' & Hw). rewrite Hg in Hg'. injection Hg' as <-. by rewrite Ew in Hw. }
        destruct (w_break st) as [[ni sp]|]; simpl in Hb |- *.
        -- destruct Hb as (? & ? & ? & Hn). split_and!; [lia|lia|done|done|].
           intros i Hi. destruct (decide (i = w_index st)) as [->|]; [done|apply Hn; lia].
        -- intros i Hi. destruct (decide (i = w_index st)) as [->|]; [done|apply Hb; lia].
  - unfold wrap_measure. simpl. lia.
Qed.

(** Breaking the row at an overflow. *)
Lemma overflow_inv a st g rows starts :
  wrap_inv a st -> graphemes text !! w_index st = Some g ->
  rows_done (w_row st) rows starts a -> w_starts st = starts ++ [off a] ->
  w_lines st = rows ++ [concat (seg a (w_index st))] ->
  available (w_row st) < w_col st + str_width g ->
  0 < w_col st \/ is_Some (excluded_at exclusion (w_row st)) ->
  (a < w_index st)%nat /\ whitespace_at (w_index st - 1) \/
    (forall i, (a <= i < w_index st)%nat -> ~ whitespace_at i) ->
  wrap_inv (w_index st) (push_row st (w_lines st) (off (w_index st)) (w_index st)) /\
  (wrap_measure (w_index st) (push_row st (w_lines st) (off (w_index st)) (w_index st))
     < wrap_measure a st)%nat.
Proof.
  intros Hinv Hg Hrows Hstarts Hlines Hover Hcol Hbrk. pose proof (grapheme_lt _ _ Hg) as Hlt.
  destruct (inv_index _ _ Hinv) as [Ha _]. pose proof (inv_col _ _ Hinv) as Hc.
  eapply push_row_inv; try done; try lia; [apply Hinv| |].
  - apply break_overflow; [done| |done]. rewrite (columns_snoc a _ g) by done. lia.
  - destruct Hcol as [Hpos|He]; [left|by right].
    rewrite Hc in Hpos. apply columns_pos in Hpos. lia.
Qed.

Lemma wrap_step_inv a st g :
  wrap_inv a st -> graphemes text !! w_index st = Some g ->
  exists a' st', wrap_step text width exclusion
      (mkSpan (off (w_index st)) (off (S (w_index st))) (str_width g)) st = Some st' /\
    wrap_inv a' st' /\ (wrap_measure a' st' < wrap_measure a st)%nat.
Proof.
  intros Hinv Hg. destruct (inv_rows _ _ Hinv) as (rows & starts & Hrows & Hlines & Hstarts).
  destruct (inv_index _ _ Hinv) as [Ha Hn]. pose proof (grapheme_lt _ _ Hg) as Hlt.
  pose proof (inv_col _ _ Hinv) as Hcol. pose proof (inv_break _ _ Hinv) as Hbrk.
  destruct (rows_done_length _ _ _ _ Hrows) as [Hlr Hls].
  assert (Hline : w_lines st !! w_row st = Some (concat (seg a (w_index st)))).
  { rewrite Hlines, lookup_app_r, Hlr, Nat.sub_diag by lia. done. }
  unfold wrap_step. cbn [span_start span_end span_width]. rewrite (slice_grapheme _ g Hg). cbn [mbind option_bind].
  destruct (decide (g = [newline])) as [->|Hnl].
  { eexists (S (w_index st)), _. split; [done|].
    eapply push_row_inv; try done; try lia; [apply Hinv|by apply break_newline]. }
  destruct (bool_decide (available (w_row st) < w_col st + str_width g)) eqn:Eo;
    [apply bool_decide_eq_true in Eo|apply bool_decide_eq_false in Eo]; cbn [andb].
  2: { rewrite Hline. cbn [mbind option_bind]. eexists a, _. split; [done|].
       eapply append_inv; try done. left. lia. }
  destruct (bool_decide (0 < w_col st) || _) eqn:Ec.
  2: { rewrite Hline. cbn [mbind option_bind]. eexists a, _. split; [done|].
       eapply append_inv; try done. apply orb_false_iff in Ec as [E1 E2].
       apply bool_decide_eq_false in E1, E2. apply eq_None_not_Some in E2. right. split; [lia|done]. }
  assert (Hc : 0 < w_col st \/ is_Some (excluded_at exclusion (w_row st))).
  { by rewrite orb_true_iff, !bool_decide_eq_true in Ec. }
  destruct (bool_decide (0 < w_col st) && is_wrapping_whitespace g) eqn:Ew.
  { apply andb_true_iff in Ew as [E1 E2]. apply bool_decide_eq_true in E1.
    eexists (S (w_index st)), _. split; [done|].
    eapply push_row_inv; try done; try lia; [apply Hinv|].
    apply break_whitespace; [by exists g| |lia]. rewrite (columns_snoc a _ g) by done. lia. }
  destruct (w_break st) as [[ni split]|].
  2: { eexists (w_index st), _. split; [done|]. eapply overflow_inv; try done. by right. }
  destruct Hbrk as (Hni & -> & Hws & Hnw).
  assert (Hstart : w_starts st !! w_row st = Some (off a)).
  { rewrite Hstarts, lookup_app_r, Hls, Nat.sub_diag by lia. done. }
  rewrite Hstart. cbn [mbind option_bind].
  destruct (decide (off a < off ni < off (w_index st))) as [Hsplit|Hsplit].
  - rewrite Hline. cbn [mbind option_bind]. rewrite truncate_seg by lia. cbn [mbind option_bind].
    assert (ni < w_index st)%nat.
    { destruct (decide (ni = w_index st)) as [->|]; [lia|]. lia. }
    eexists ni, _. split; [done|]. eapply (push_row_inv a ni ni); try done; try lia.
    + rewrite Hlines, insert_app_r_alt, Hlr, Nat.sub_diag by lia. done.
    + apply (row_fits_prefix _ _ _ (w_index st)); [lia|lia|apply Hinv].
    + apply (break_word _ _ _ (w_index st)); [lia|done| |done|done]. rewrite (columns_snoc a _ g) by done. lia.
  - assert (ni = w_index st) as ->.
    { pose proof (off_lt a ni). destruct (decide (ni < w_index st)%nat); [|lia].
      pose proof (off_lt ni (w_index st)). lia. }
    eexists (w_index st), _. split; [done|]. eapply overflow_inv; try done. left. split; [lia|done].
Qed.

Lemma wrap_loop_inv fuel a st :
  wrap_inv a st -> (wrap_measure a st < fuel)%nat ->
  exists a' st', wrap_loop fuel text width exclusion (grapheme_spans text) st = Some st' /\
    wrap_inv a' st' /\ w_index st' = length (graphemes text).
Proof.
  revert a st. induction fuel as [|fuel IH]; intros a st Hinv Hf; [lia|]. cbn [wrap_loop].
  destruct (grapheme_spans text !! w_index st) as [span|] eqn:E.
  - apply grapheme_spans_lookup in E as (g & Hg & ->).
    destruct (wrap_step_inv a st g Hinv Hg) as (a' & st' & -> & Hinv' & Hm).
    cbn [mbind option_bind]. apply (IH a'); [done|lia].
  - apply lookup_ge_None_1 in E. rewrite grapheme_spans_length in E.
    exists a, st. split_and!; [done..|]. destruct (inv_index _ _ Hinv). lia.
Qed.

(** The text between two rows: nothing, a newline or dropped whitespace. *)
Definition row_gap (gap : list Z) : Prop :=
  gap = [] \/ gap = [newline] \/ is_wrapping_whitespace gap = true.

Lemma row_break_range row a b c :
  row_break row a b c -> (b <= c <= length (graphemes text))%nat.
Proof.
  destruct 1 as [b Hb|b (g & Hg & _) _ _| | |]; try lia.
  - apply grapheme_lt in Hb. lia.
  - apply grapheme_lt in Hg. lia.
Qed.

Lemma row_break_gap row a b c : row_break row a b c -> row_gap (concat (seg b c)).
Proof.
  destruct 1 as [b Hb|b (g & Hg & Hw) _ _| | |].
  3-5: left; by rewrite seg_nil.
  - right. left. by rewrite (seg_snoc b b _ (Nat.le_refl b) Hb), seg_nil.
  - right. right. rewrite (seg_snoc b b g), seg_nil by done. simpl. by rewrite app_nil_r.
Qed.

Lemma rows_done_text row rows starts a :
  rows_done row rows starts a ->
  exists gaps, length gaps = length rows /\ Forall row_gap gaps /\
    concat (take a (graphemes text)) = concat (zip_with (++) rows gaps).
Proof.
  induction 1 as [|row rows starts a b c _ (gaps & Hl & Hg & E) Hab Hf Hb]; [by exists []|].
  exists (gaps ++ [concat (seg b c)]). pose proof (row_break_range _ _ _ _ Hb) as Hc. split_and!.
  - rewrite !length_app. simpl. lia.
  - apply Forall_app. split; [done|]. apply Forall_singleton. by eapply row_break_gap.
  - rewrite zip_with_app by done. rewrite concat_app, <- E. simpl. rewrite app_nil_r.
    rewrite <- !concat_app, <- seg_app by lia. f_equal. unfold seg.
    rewrite <- (take_drop a (take c _)), take_take, Nat.min_l by lia. f_equal.
    by rewrite skipn_firstn_comm.
Qed.

Lemma rows_done_lookup row rows starts c (i : nat) :
  rows_done row rows starts c -> (i < row)%nat ->
  exists a b, (a <= b <= length (graphemes text))%nat /\
    rows !! i = Some (concat (seg a b)) /\ starts !! i = Some (off a).
Proof.
  induction 1 as [|row rows starts a b c Hr IH Hab Hf Hb]; intros Hi; [lia|].
  destruct (rows_done_length _ _ _ _ Hr) as [Hlr Hls].
  destruct (decide (i = row)) as [->|Hne].
  - exists a, b. pose proof (row_break_range _ _ _ _ Hb). split; [lia|].
    rewrite !lookup_app_r by lia. by rewrite Hlr, Hls, Nat.sub_diag.
  - destruct IH as (a' & b' & ? & H1 & H2); [lia|]. exists a', b'. split; [done|].
    by rewrite !lookup_app_l by lia.
Qed.

(** ** Projecting the cursor *)

Lemma find_cursor_row_ok cursor starts rows :
  boundary text cursor -> (rows <= length starts)%nat ->
  exists found, find_cursor_row text cursor starts rows = Some found /\
    (default 0 found < Nat.max 1 rows)%nat.
Proof.
  intros Hc. induction rows as [|row IH]; intros Hl; [exists None; simpl; by auto with lia|].
  destruct IH as (found & Hf & Hlt); [lia|]. cbn [find_cursor_row].
  destruct (lookup_lt_is_Some_2 starts row) as [start ->]; [lia|]. cbn [mbind option_bind].
  destruct (slice_to_boundary text cursor Hc) as [before Hb].
  assert (Hsoft : exists soft : bool, (if decide ((0 < row)%nat /\ start = cursor) then
      before ← slice_to text cursor;
      Some (negb (ends_with newline before) && match starts !! (row - 1)%nat with
        | Some previous => bool_decide (previous < cursor) | None => false end)
      else Some false) = Some soft) by (rewrite Hb; case_decide; by eexists).
  destruct Hsoft as [soft ->]. cbn [mbind option_bind].
  assert (Hrow : exists found, Some (Some row) = Some found /\
    (default 0 found < Nat.max 1 (S row))%nat) by (exists (Some row); simpl; split; [done|lia]).
  case_decide; [destruct soft|]; try done; (exists found; split; [done|lia]).
Qed.

Lemma visual_cursor_ok cursor row rows starts c :
  boundary text cursor -> (0 < row)%nat -> rows_done row rows starts c ->
  exists position, visual_cursor_for_wrapped_lines text cursor rows starts = Some position.
Proof.
  intros Hc Hpos Hr. destruct (rows_done_length _ _ _ _ Hr) as [Hlr Hls].
  unfold visual_cursor_for_wrapped_lines.
  destruct (find_cursor_row_ok cursor starts (length starts) Hc) as (found & -> & Hlt); [lia|].
  cbn [mbind option_bind]. set (i := Nat.min _ _).
  destruct (rows_done_lookup _ _ _ _ i Hr) as (a & b & Hab & -> & ->); [lia|].
  cbn [mbind option_bind from_option]. unfold id. rewrite <- (off_seg a b) by lia.
  pose proof (boundary_range _ _ (boundary_off b)). rewrite Z.min_l by lia.
  pose proof (off_le a b). rewrite decide_False by lia.
  destruct (slice_boundaries text (off a) (Z.min (Z.max cursor (off a)) (off b)))
    as (m & _ & _ & -> & _); [apply boundary_off| |lia|by eexists].
  apply boundary_clamp; [done|apply boundary_off..].
Qed.

Lemma cursor_for_byte_index_ok layout cursor row starts c :
  0 <= cursor -> (0 < row)%nat -> rows_done row (lines layout) starts c ->
  line_ranges layout = zip_with (fun line start => (start, start + str_len line)) (lines layout) starts ->
  exists position, cursor_for_byte_index layout text cursor = Some position /\ (vc_row position < row)%nat.
Proof.
  intros Hcur Hpos Hr Hranges. destruct (rows_done_length _ _ _ _ Hr) as [Hlr Hls].
  assert (Hlen : length (line_ranges layout) = row) by (rewrite Hranges, length_zip_with; lia).
  assert (Hat : forall i, (i < row)%nat -> exists a b, (a <= b)%nat /\
    line_ranges layout !! i = Some (off a, off b)).
  { intros i Hi. destruct (rows_done_lookup _ _ _ _ i Hr Hi) as (a & b & Hab & H1 & H2).
    exists a, b. split; [lia|]. rewrite Hranges, lookup_zip_with, H1, H2. simpl.
    by rewrite (off_seg a b) by lia. }
  unfold cursor_for_byte_index. set (cursor' := Z.min cursor _).
  set (i := (ranges_upto _ _ - 1)%nat).
  assert (Hi : (i < row)%nat).
  { unfold i, ranges_upto. pose proof (length_filter (fun r => r.1 <= cursor') (line_ranges layout)). lia. }
  destruct (Hat i Hi) as (a & b & Hab & ->). rewrite slice_seg by done. cbn [mbind option_bind].
  set (at_ := off a + _).
  assert (Hb : boundary text at_).
  { apply (boundary_seg a b); [done|]. apply snap_boundary. }
  assert (Hrow : exists j, (if decide ((0 < i)%nat /\ off a = at_) then
      before ← slice_to text at_;
      if ends_with newline before then Some i
      else if bool_decide (option_map fst (layout_exclusion layout) = Some (i - 1)%nat) then Some i
      else previous ← line_ranges layout !! (i - 1)%nat;
           if decide (previous.1 < at_) then Some (i - 1)%nat else Some i
      else Some i) = Some j /\ (j < row)%nat).
  { destruct (slice_to_boundary text at_ Hb) as [before ->]. cbn [mbind option_bind].
    destruct (Hat (i - 1)%nat) as (? & ? & _ & ->); [lia|]. cbn [mbind option_bind].
    repeat case_match; eexists; (split; [done|lia]). }
  destruct Hrow as (j & -> & Hj). cbn [mbind option_bind].
  destruct (Hat j Hj) as (a' & b' & Hab' & ->). pose proof (off_le a' b' Hab').
  destruct (slice_boundaries text (off a') (Z.min (Z.max at_ (off a')) (off b')))
    as (m & _ & _ & -> & _); [apply boundary_off| |lia|by eexists].
  apply boundary_clamp; [done|apply boundary_off..].
Qed.
End rows.
End text.

Section layout.
Context `{UL : UnicodeLaws}.

Lemma wrap_start_inv text width exclusion : 1 <= width -> wrap_inv text width exclusion 0 (mkWrapState [[]] [0] 0 0 None 0).
Proof.
  intros Hw. split; simpl.
  - exists [], []. split_and!; [constructor|done|done].
  - lia.
  - by rewrite columns_nil.
  - by apply row_fits_empty.
  - intros i Hi. lia.
Qed.

Lemma wrapped_projection_ok text cursor width exclusion :
  boundary text cursor ->
  exists projection row,
    wrapped_projection_with_exclusion text cursor width exclusion = Some projection /\
    (0 < row)%nat /\
    rows_done text (Z.max width 1) exclusion row (proj_lines projection) (proj_starts projection)
      (length (graphemes text)).
Proof.
  intros Hc. unfold wrapped_projection_with_exclusion. set (w := Z.max width 1).
  assert (Hw : 1 <= w) by lia.
  destruct (wrap_loop_inv text w exclusion Hw (wrap_fuel (grapheme_spans text)) 0
              (mkWrapState [[]] [0] 0 0 None 0)) as (a & st & -> & Hinv & Hidx).
  { by apply wrap_start_inv. }
  { unfold wrap_measure, wrap_fuel. rewrite grapheme_spans_length. cbn [w_index w_row].
    destruct exclusion; [case_decide|]; nia. }
  cbn [mbind option_bind].
  destruct (inv_rows _ _ _ _ _ Hinv) as (rows & starts & Hr & Hlines & Hstarts).
  assert (Hdone : rows_done text w exclusion (S (w_row st)) (w_lines st) (w_starts st) (length (graphemes text))).
  { rewrite Hlines, Hstarts. pose proof (inv_fits _ _ _ _ _ Hinv) as Hf. rewrite Hidx in Hf |- *.
    pose proof (inv_index _ _ _ _ _ Hinv) as Ha.
    apply (rows_more _ _ _ _ _ _ a _ _ Hr); [lia|done|apply break_end]. }
  assert (Hmore : rows_done text w exclusion (S (S (w_row st))) (w_lines st ++ [[]])
                    (w_starts st ++ [str_len text]) (length (graphemes text))).
  { rewrite <- (off_end text (length (graphemes text))) by done.
    replace [[]] with [concat (seg text (length (graphemes text)) (length (graphemes text)))]
      by (by rewrite seg_nil).
    apply (rows_more _ _ _ _ _ _ _ _ _ Hdone); [lia|by apply row_fits_empty|apply break_end]. }
  destruct (match exclusion with Some _ => _ | None => _ end) as [rows' starts'] eqn:E.
  assert (Hfin : exists row, (0 < row)%nat /\
    rows_done text w exclusion row rows' starts' (length (graphemes text))).
  { destruct exclusion as [region|]; [case_decide|]; injection E as <- <-; eexists; (split; [|done]); lia. }
  destruct Hfin as (row & Hpos & Hfin).
  destruct (visual_cursor_ok text w exclusion cursor row rows' starts' _ Hc Hpos Hfin) as [position ->].
  cbn [mbind option_bind]. by eexists _, row.
Qed.

Lemma wrapped_layout_ok text cursor width exclusion :
  boundary text cursor ->
  exists layout row starts,
    wrapped_layout_with_exclusion text cursor width exclusion = Some layout /\ (0 < row)%nat /\
    rows_done text (Z.max width 1) exclusion row (lines layout) starts (length (graphemes text)) /\
    line_ranges layout =
      zip_with (fun line start => (start, start + str_len line)) (lines layout) starts /\
    (vc_row (layout_cursor layout) < row)%nat.
Proof.
  intros Hc. unfold wrapped_layout_with_exclusion.
  destruct (wrapped_projection_ok text cursor width exclusion Hc) as (projection & row & -> & Hpos & Hr).
  cbn [mbind option_bind]. set (layout := mkWrapLayout _ _ _ _).
  pose proof (boundary_range _ _ Hc) as Hcr.
  destruct (cursor_for_byte_index_ok text (Z.max width 1) exclusion layout cursor row
              (proj_starts projection) _ (proj1 Hcr) Hpos Hr eq_refl) as (position & -> & Hlt).
  cbn [mbind option_bind]. by eexists _, row, (proj_starts projection).
Qed.

(** C13: Wrapping a text at any width, with or without an exclusion, neither
    panics nor loops. Every row fits the columns available to it (or shows one
    grapheme too wide for any row) and ends at a newline, at whitespace, behind
    the last word that fits or inside a word longer than the row; the rows and
    the text dropped between them are the text, every range cuts its row out of
    it, and the cursor is on a row. *)
Theorem wrapped_layout_correct text cursor width exclusion :
  boundary text cursor ->
  exists layout starts gaps,
    wrapped_layout_with_exclusion text cursor width exclusion = Some layout /\
    rows_done text (Z.max width 1) exclusion (length (lines layout)) (lines layout) starts
      (length (graphemes text)) /\
    text = concat (zip_with (++) (lines layout) gaps) /\
    length gaps = length (lines layout) /\ Forall row_gap gaps /\
    Forall2 (fun line r => slice text r.1 r.2 = Some line) (lines layout) (line_ranges layout) /\
    (vc_row (layout_cursor layout) < length (lines layout))%nat.
Proof.
  intros Hc. destruct (wrapped_layout_ok text cursor width exclusion Hc)
    as (layout & row & starts & E & Hpos & Hr & Hranges & Hlt).
  destruct (rows_done_length _ _ _ _ _ _ _ Hr) as [Hlr Hls].
  destruct (rows_done_text _ _ _ _ _ _ _ Hr) as (gaps & Hg & Hgaps & Et).
  exists layout, starts, gaps. rewrite Hlr. rewrite take_ge, graphemes_concat in Et by done.
  split_and!; try done; [lia|].
  apply Forall2_same_length_lookup_2.
  - rewrite Hranges, length_zip_with. lia.
  - intros i line r Hi Hr'. rewrite Hranges, lookup_zip_with, Hi in Hr'.
    destruct (rows_done_lookup _ _ _ _ _ _ _ i Hr) as (a & b & Hab & H1 & H2).
    { apply lookup_lt_Some in Hi. lia. }
    rewrite Hi in H1. injection H1 as ->. rewrite H2 in Hr'. injection Hr' as <-. simpl.
    rewrite <- (off_seg _ a b) by lia. apply slice_seg. lia.
Qed.
End layout.

(** The text "go up, go" (with an accent on the last letter) at five columns, one
    of them reserved on the second row. *)
Definition wrap_sample : list Z := [103; 111; 32; 117; 112; 44; 32; 103; 111; 769].

Lemma wrapped_layout_correct_witness :
  exists layout starts gaps,
    @wrapped_layout_with_exclusion combining_tables wrap_sample 11 5 (Some (mkWrapExclusion 1 1)) = Some layout /\
    @rows_done combining_tables wrap_sample (Z.max 5 1) (Some (mkWrapExclusion 1 1)) (length (lines layout))
      (lines layout) starts (length (cluster wrap_sample)) /\
    wrap_sample = concat (zip_with (++) (lines layout) gaps) /\
    length gaps = length (lines layout) /\ Forall row_gap gaps /\
    Forall2 (fun line r => slice wrap_sample r.1 r.2 = Some line) (lines layout) (line_ranges layout) /\
    (vc_row (layout_cursor layout) < length (lines layout))%nat.
Proof.
  apply (@wrapped_layout_correct combining_tables combining_laws wrap_sample 11 5 (Some (mkWrapExclusion 1 1))).
  exists wrap_sample, []. split; reflexivity.
Defined.
