(* ===== verification/TextEdit.v ===== *)
(** * The text editor buffer

    The editable buffer with its cursor, selection and bounded undo history
    (packages/text-edit/src/lib.rs and history.rs), the named actions
    (action.rs) and pointer selection (pointer.rs). [Instant] and [Duration] are
    nanoseconds; an operation that records an edit takes the reading of the
    clock. [None] is a panic. *)

From stdpp Require Import strings.
From S2P Require Import Prelude Utf8 TextStr TextWrap.

(** ** Undo history *)

Definition MAX_HISTORY_ENTRIES : nat := 128.
Definition MAX_HISTORY_BYTES : Z := 1048576.

Record TextEditState := mkEditState {
  st_text : list Z;
  st_cursor : Z;
  st_selection_anchor : option Z;
}.

#[export] Instance TextEditState_eq_dec : EqDecision TextEditState.
Proof. solve_decision. Defined.

Inductive TextEditTransactionError := Stale | InvalidRange | InvalidPosition.

Inductive UndoGrouping := Keystroke | Word | Smart.

#[export] Instance UndoGrouping_eq_dec : EqDecision UndoGrouping.
Proof. solve_decision. Defined.

Record UndoPolicy := mkUndoPolicy {
  grouping : UndoGrouping;
  pause : Z;
  max_run : Z;
}.

Definition UndoPolicy_DEFAULT : UndoPolicy := mkUndoPolicy Smart 500000000 3000000000.
Definition UndoPolicy_KEYSTROKE : UndoPolicy := mkUndoPolicy Keystroke 500000000 3000000000.

Inductive EditKind := Insert | DeleteBackward | DeleteForward | Other.

#[export] Instance EditKind_eq_dec : EqDecision EditKind.
Proof. solve_decision. Defined.

Record OpenGroup := mkOpenGroup {
  og_kind : EditKind;
  started : Z;
  last_edit : Z;
}.

Record RetainedState := mkRetained {
  state : TextEditState;
  retained_visual_col : option Z;
}.

Record Transaction := mkTransaction {
  before : RetainedState;
  after : RetainedState;
}.

Definition Transaction_bytes (t : Transaction) : Z :=
  str_len (st_text (state (before t))) + str_len (st_text (state (after t))).

(** The backs of the two deques are the ends of the lists. *)
Record EditHistory := mkHistory {
  undo_stack : list Transaction;
  redo_stack : list Transaction;
  policy : UndoPolicy;
  open_group : option OpenGroup;
  input_time : option Z;
}.

Definition EditHistory_with_policy (p : UndoPolicy) : EditHistory := mkHistory [] [] p None None.

Definition saturating_duration_since (now earlier : Z) : Z := Z.max (now - earlier) 0.

Definition bytes_of (ts : list Transaction) : Z := foldr (fun t n => Transaction_bytes t + n) 0 ts.

(** The text inserted by an edit that only inserted at the cursor. *)
Definition inserted (before after : TextEditState) : list Z :=
  let added := saturating_sub (str_len (st_text after)) (str_len (st_text before)) in
  default [] (slice (st_text after) (st_cursor before) (st_cursor before + added)).

(** [while too many entries or bytes: pop_front]; with no entry left neither
    condition holds. *)
Fixpoint prune (bytes : Z) (undo : list Transaction) : list Transaction :=
  match undo with
  | [] => []
  | _ :: rest =>
      if decide ((MAX_HISTORY_ENTRIES <= length undo)%nat \/ MAX_HISTORY_BYTES - bytes < bytes_of undo)
      then prune bytes rest else undo
  end.

Definition prepare (h : EditHistory) (bytes : Z) : EditHistory :=
  let undo := if decide (MAX_HISTORY_BYTES < bytes) then [] else prune bytes (undo_stack h) in
  mkHistory undo [] (policy h) (open_group h) (input_time h).

Section unicode.
Context {U : UnicodeTables}.

Definition is_word_char (c : Z) : bool := is_alphanumeric c || bool_decide (c = underscore).

Definition starts_word (before after : TextEditState) : option bool :=
  preceding ← slice_to (st_text before) (st_cursor before);
  Some (match inserted before after with c :: _ => is_word_char c | [] => false end
        && negb match last preceding with Some c => is_word_char c | None => false end).

(** [EditHistory::continues]. *)
Definition continues (h : EditHistory) (kind : EditKind) (before after_state : RetainedState) (now : Z)
  : option bool :=
  match open_group h with
  | None => Some false
  | Some open =>
      if bool_decide (grouping (policy h) = Keystroke) || bool_decide (kind = Other)
         || bool_decide (kind <> og_kind open) || bool_decide (redo_stack h <> [])
         || bool_decide (pause (policy h) < saturating_duration_since now (last_edit open))
         || match last (undo_stack h) with
            | Some step => bool_decide (state (after step) <> state before)
            | None => true
            end
      then Some false
      else
        let in_run := bool_decide (saturating_duration_since now (started open) <= max_run (policy h)) in
        if decide (kind <> Insert) then Some in_run
        else
          word ← starts_word (state before) (state after_state);
          Some match grouping (policy h) with
               | Word => negb word
               | Smart => negb word || in_run
               | Keystroke => false
               end
  end.

(** ** The buffer *)

Record TextEditBuffer := mkBuffer {
  text : list Z;
  cursor : Z;
  selection_anchor : option Z;
  desired_visual_col : option Z;
  word_boundary_policy : WordBoundaryPolicy;
  history : EditHistory;
}.

Definition from_text (t : list Z) : TextEditBuffer :=
  mkBuffer t (str_len t) None None Punctuation (EditHistory_with_policy UndoPolicy_DEFAULT).

Definition new : TextEditBuffer :=
  mkBuffer [] 0 None None Punctuation (EditHistory_with_policy UndoPolicy_DEFAULT).

(** Assignments to the fields. *)
Definition with_anchor (b : TextEditBuffer) (a : option Z) : TextEditBuffer :=
  mkBuffer (text b) (cursor b) a (desired_visual_col b) (word_boundary_policy b) (history b).
Definition with_col (b : TextEditBuffer) (c : option Z) : TextEditBuffer :=
  mkBuffer (text b) (cursor b) (selection_anchor b) c (word_boundary_policy b) (history b).
Definition with_history (b : TextEditBuffer) (h : EditHistory) : TextEditBuffer :=
  mkBuffer (text b) (cursor b) (selection_anchor b) (desired_visual_col b) (word_boundary_policy b) h.
Definition with_text (b : TextEditBuffer) (t : list Z) (c : Z) : TextEditBuffer :=
  mkBuffer t c (selection_anchor b) (desired_visual_col b) (word_boundary_policy b) (history b).

Definition set_word_boundary_policy (p : WordBoundaryPolicy) (b : TextEditBuffer) : TextEditBuffer :=
  mkBuffer (text b) (cursor b) (selection_anchor b) (desired_visual_col b) p (history b).

Definition cursor_grapheme_index (b : TextEditBuffer) : option nat :=
  preceding ← slice_to (text b) (cursor b);
  Some (length (graphemes preceding)).

Definition edit_state (b : TextEditBuffer) : TextEditState :=
  mkEditState (text b) (cursor b) (selection_anchor b).

Definition retained_state (b : TextEditBuffer) : RetainedState :=
  mkRetained (edit_state b) (desired_visual_col b).

Definition restore_state (b : TextEditBuffer) (r : RetainedState) : TextEditBuffer :=
  mkBuffer (st_text (state r)) (st_cursor (state r)) (st_selection_anchor (state r))
    (retained_visual_col r) (word_boundary_policy b) (history b).

Definition clear_history (b : TextEditBuffer) : TextEditBuffer :=
  with_history b (EditHistory_with_policy (policy (history b))).

(** The step the recorded edit extends: its before-state and the steps left. *)
Definition merged_step (merge : bool) (before_state : RetainedState) (undo : list Transaction)
  : RetainedState * list Transaction :=
  if merge then
    match last undo with
    | Some step => (before step, removelast undo)
    | None => (before_state, undo)
    end
  else (before_state, undo).

Definition record_edit {T : Type} (kind : EditKind)
    (edit : TextEditBuffer -> option (TextEditBuffer * T)) (clock : Z) (b : TextEditBuffer)
  : option (TextEditBuffer * T) :=
  let now := default clock (input_time (history b)) in
  let h := history b in
  let b := with_history b (mkHistory (undo_stack h) (redo_stack h) (policy h) (open_group h) None) in
  let before := retained_state b in
  let replaced := match selection_anchor b with
                  | Some anchor => bool_decide (anchor <> cursor b)
                  | None => false
                  end in
  let kind := match kind with
              | DeleteBackward | DeleteForward => if replaced then Other else kind
              | _ => kind
              end in
  '(b, result) ← edit b;
  if decide (text b = st_text (state before)) then Some (restore_state b before, result)
  else if decide (MAX_HISTORY_BYTES < str_len (st_text (state before)) + str_len (text b))
  then Some (clear_history b, result)
  else
    let after := retained_state b in
    let h := history b in
    merge ← (if replaced then Some false else continues h kind before after now);
    let '(before, undo) := merged_step merge before (undo_stack h) in
    let h := prepare (mkHistory undo (redo_stack h) (policy h) (open_group h) (input_time h))
               (str_len (st_text (state before)) + str_len (st_text (state after))) in
    let ends_line :=
      bool_decide (kind = Insert)
      && bool_decide (str_len (st_text (state before)) < str_len (st_text (state after)))
      && bool_decide (newline ∈ inserted (state before) (state after)) in
    let open :=
      if decide (kind = Other) then None
      else if ends_line then None
      else match open_group h with
           | Some open =>
               if merge then Some (mkOpenGroup (og_kind open) (started open) now)
               else Some (mkOpenGroup kind now now)
           | None => Some (mkOpenGroup kind now now)
           end in
    Some (with_history b (mkHistory (undo_stack h ++ [mkTransaction before after]) (redo_stack h)
                            (policy h) open (input_time h)), result).

Definition set_undo_policy (p : UndoPolicy) (b : TextEditBuffer) : TextEditBuffer :=
  let h := history b in
  with_history b (mkHistory (undo_stack h) (redo_stack h) p None (input_time h)).

Definition break_undo_group (b : TextEditBuffer) : TextEditBuffer :=
  let h := history b in
  with_history b (mkHistory (undo_stack h) (redo_stack h) (policy h) None (input_time h)).

Definition set_input_time (now : Z) (b : TextEditBuffer) : TextEditBuffer :=
  let h := history b in
  with_history b (mkHistory (undo_stack h) (redo_stack h) (policy h) (open_group h) (Some now)).

Definition can_undo (b : TextEditBuffer) : bool := bool_decide (undo_stack (history b) <> []).
Definition can_redo (b : TextEditBuffer) : bool := bool_decide (redo_stack (history b) <> []).

Definition undo (b : TextEditBuffer) : TextEditBuffer * bool :=
  let h := history b in
  match last (undo_stack h) with
  | None => (b, false)
  | Some t =>
      (with_history (restore_state b (before t))
         (mkHistory (removelast (undo_stack h)) (redo_stack h ++ [t]) (policy h) None (input_time h)),
       true)
  end.

Definition redo (b : TextEditBuffer) : TextEditBuffer * bool :=
  let h := history b in
  match last (redo_stack h) with
  | None => (b, false)
  | Some t =>
      (with_history (restore_state b (after t))
         (mkHistory (undo_stack h ++ [t]) (removelast (redo_stack h)) (policy h) None (input_time h)),
       true)
  end.

(** ** Editing *)

Definition selection (b : TextEditBuffer) : option (Z * Z) :=
  match selection_anchor b with
  | None => None
  | Some anchor =>
      if decide (anchor = cursor b) then None
      else Some (Z.min anchor (cursor b), Z.max anchor (cursor b))
  end.

Definition selected_text (b : TextEditBuffer) : option (option (list Z)) :=
  match selection b with
  | None => Some None
  | Some (start, stop) => t ← slice (text b) start stop; Some (Some t)
  end.

Definition select_all (b : TextEditBuffer) : TextEditBuffer :=
  mkBuffer (text b) (str_len (text b)) (Some 0) (desired_visual_col b) (word_boundary_policy b)
    (history b).

Definition clear_selection (b : TextEditBuffer) : TextEditBuffer := with_anchor b None.

Definition delete_selection_unrecorded (b : TextEditBuffer) : option (TextEditBuffer * bool) :=
  match selection b with
  | None => Some (with_anchor b None, false)
  | Some (start, stop) =>
      t ← drain (text b) start stop;
      Some (mkBuffer t start None None (word_boundary_policy b) (history b), true)
  end.

Definition clear_unrecorded (b : TextEditBuffer) : option (TextEditBuffer * unit) :=
  Some (mkBuffer [] 0 None None (word_boundary_policy b) (history b), tt).

(** [insert_char] is the one-character case. *)
Definition insert_str_unrecorded (value : list Z) (b : TextEditBuffer) : option (TextEditBuffer * unit) :=
  '(b, _) ← delete_selection_unrecorded b;
  t ← insert_at (text b) (cursor b) value;
  Some (with_col (with_text b t (cursor b + str_len value)) None, tt).

Fixpoint normalize_newlines (value : list Z) : list Z :=
  match value with
  | [] => []
  | c :: rest =>
      if decide (c = carriage_return) then
        match rest with
        | d :: rest' =>
            if decide (d = newline) then newline :: normalize_newlines rest'
            else newline :: normalize_newlines rest
        | [] => [newline]
        end
      else c :: normalize_newlines rest
  end.

Definition paste_unrecorded (value : list Z) (b : TextEditBuffer) : option (TextEditBuffer * unit) :=
  insert_str_unrecorded (normalize_newlines value) b.

Definition delete_backward_unrecorded (b : TextEditBuffer) : option (TextEditBuffer * unit) :=
  '(b, deleted) ← delete_selection_unrecorded b;
  if (deleted : bool) then Some (b, tt)
  else
    start ← previous_grapheme_boundary (text b) (cursor b);
    match start with
    | None => Some (b, tt)
    | Some start => t ← drain (text b) start (cursor b); Some (with_text b t start, tt)
    end.

Definition delete_forward_unrecorded (b : TextEditBuffer) : option (TextEditBuffer * unit) :=
  '(b, deleted) ← delete_selection_unrecorded b;
  if (deleted : bool) then Some (b, tt)
  else
    stop ← next_grapheme_boundary (text b) (cursor b);
    match stop with
    | None => Some (b, tt)
    | Some stop => t ← drain (text b) (cursor b) stop; Some (with_text b t (cursor b), tt)
    end.

Definition delete_range (start stop : Z) (b : TextEditBuffer) : option (TextEditBuffer * unit) :=
  if decide (stop <= start) then Some (b, tt)
  else
    t ← drain (text b) start stop;
    Some (mkBuffer t start None None (word_boundary_policy b) (history b), tt).

(** The hard line around the cursor. *)
Definition line_start (b : TextEditBuffer) : option Z :=
  preceding ← slice_to (text b) (cursor b);
  Some match rfind_char newline preceding with Some index => index + 1 | None => 0 end.

Definition line_end (b : TextEditBuffer) : option Z :=
  following ← slice_from (text b) (cursor b);
  Some match find_char newline following with
       | Some index => cursor b + index
       | None => str_len (text b)
       end.

Inductive TextDelete :=
| Backward | Forward | WordBackward | WordForward | ToLineStart | ToLineEnd | ToStart | ToEnd.

Definition delete_unrecorded (d : TextDelete) (b : TextEditBuffer) : option (TextEditBuffer * unit) :=
  '(b, deleted) ← delete_selection_unrecorded b;
  if (deleted : bool) then Some (b, tt)
  else
    match d with
    | Backward => delete_backward_unrecorded b
    | Forward => delete_forward_unrecorded b
    | WordBackward =>
        start ← previous_word_boundary (text b) (cursor b) (word_boundary_policy b);
        delete_range start (cursor b) b
    | WordForward =>
        stop ← next_word_boundary (text b) (cursor b) (word_boundary_policy b);
        delete_range (cursor b) stop b
    | ToLineStart => start ← line_start b; delete_range start (cursor b) b
    | ToLineEnd => stop ← line_end b; delete_range (cursor b) stop b
    | ToStart => delete_range 0 (cursor b) b
    | ToEnd => delete_range (cursor b) (str_len (text b)) b
    end.

(** The recorded edits, with the reading of the clock. *)
Definition clear (clock : Z) (b : TextEditBuffer) : option TextEditBuffer :=
  fst <$> record_edit Other clear_unrecorded clock b.
Definition insert_str (value : list Z) (clock : Z) (b : TextEditBuffer) : option TextEditBuffer :=
  fst <$> record_edit Insert (insert_str_unrecorded value) clock b.
Definition insert_char (c : Z) (clock : Z) (b : TextEditBuffer) : option TextEditBuffer :=
  fst <$> record_edit Insert (insert_str_unrecorded [c]) clock b.
Definition insert_newline (clock : Z) (b : TextEditBuffer) : option TextEditBuffer :=
  insert_char newline clock b.
Definition paste (value : list Z) (clock : Z) (b : TextEditBuffer) : option TextEditBuffer :=
  fst <$> record_edit Other (paste_unrecorded value) clock b.
Definition delete_backward (clock : Z) (b : TextEditBuffer) : option TextEditBuffer :=
  fst <$> record_edit DeleteBackward delete_backward_unrecorded clock b.
Definition delete_forward (clock : Z) (b : TextEditBuffer) : option TextEditBuffer :=
  fst <$> record_edit DeleteForward delete_forward_unrecorded clock b.
Definition delete_selection (clock : Z) (b : TextEditBuffer) : option (TextEditBuffer * bool) :=
  record_edit Other delete_selection_unrecorded clock b.
Definition delete (d : TextDelete) (clock : Z) (b : TextEditBuffer) : option TextEditBuffer :=
  fst <$> record_edit Other (delete_unrecorded d) clock b.

Definition cut_selection (clock : Z) (b : TextEditBuffer)
  : option (TextEditBuffer * option (list Z)) :=
  selected ← selected_text b;
  match selected with
  | None => Some (b, None)
  | Some t => '(b, _) ← delete_selection clock b; Some (b, Some t)
  end.

(** ** Movement *)

Inductive SelectionMode := Move | Extend.
Inductive TextBoundary := BoundaryStart | BoundaryEnd.
Inductive TextBoundaryPolicy := Buffer | Line.

Inductive TextMotion :=
| Left | Right | WordLeft | WordRight | Start | End | LineStart
| Absolute (index : Z) | VisualUp | VisualDown | LineEnd.

Definition boundary_motion (p : TextBoundaryPolicy) (boundary : TextBoundary) : TextMotion :=
  match p, boundary with
  | Buffer, BoundaryStart => Start
  | Buffer, BoundaryEnd => End
  | Line, BoundaryStart => LineStart
  | Line, BoundaryEnd => LineEnd
  end.

Definition boundary_delete (p : TextBoundaryPolicy) (boundary : TextBoundary) : TextDelete :=
  match p, boundary with
  | Buffer, BoundaryStart => ToStart
  | Buffer, BoundaryEnd => ToEnd
  | Line, BoundaryStart => ToLineStart
  | Line, BoundaryEnd => ToLineEnd
  end.

Definition cursor_visual_col (b : TextEditBuffer) : option Z :=
  layout ← wrapped_layout (text b) (cursor b) unbounded_width;
  Some (vc_col (layout_cursor layout)).

Definition wrapped_row_start_byte_index (b : TextEditBuffer) (width : Z) (target_row : nat) : option Z :=
  projection ← wrapped_projection_with_exclusion (text b) (cursor b) width None;
  Some (default (str_len (text b)) (proj_starts projection !! target_row)).

Definition visual_vertical_position (b : TextEditBuffer) (up : bool) : option Z :=
  layout ← wrapped_layout (text b) (cursor b) unbounded_width;
  let current_row := vc_row (layout_cursor layout) in
  let target_row := if up then (current_row - 1)%nat else S current_row in
  match lines layout !! target_row with
  | None => Some (cursor b)
  | Some target_line =>
      let target_col := default (vc_col (layout_cursor layout)) (desired_visual_col b) in
      start ← wrapped_row_start_byte_index b unbounded_width target_row;
      Some (start + byte_index_for_visual_col target_line target_col)
  end.

Definition motion_position (b : TextEditBuffer) (motion : TextMotion) : option Z :=
  match motion with
  | Left => start ← previous_grapheme_boundary (text b) (cursor b); Some (default 0 start)
  | Right => stop ← next_grapheme_boundary (text b) (cursor b); Some (default (str_len (text b)) stop)
  | WordLeft => previous_word_boundary (text b) (cursor b) (word_boundary_policy b)
  | WordRight => next_word_boundary (text b) (cursor b) (word_boundary_policy b)
  | Start => Some 0
  | End => Some (str_len (text b))
  | LineStart => line_start b
  | Absolute index => Some (snap_to_grapheme_boundary (text b) index)
  | VisualUp => visual_vertical_position b true
  | VisualDown => visual_vertical_position b false
  | LineEnd => line_end b
  end.

Definition is_vertical (motion : TextMotion) : bool :=
  match motion with VisualUp | VisualDown => true | _ => false end.

Definition move_cursor_with_selection (motion : TextMotion) (mode : SelectionMode) (b : TextEditBuffer)
  : option TextEditBuffer :=
  let old_cursor := cursor b in
  let b := if is_vertical motion then b else with_col b None in
  new_cursor ← motion_position b motion;
  col ← (if is_vertical motion && bool_decide (desired_visual_col b = None)
         then Some <$> cursor_visual_col b else Some (desired_visual_col b));
  let anchor := match mode with
                | Move => None
                | Extend => Some (default old_cursor (selection_anchor b))
                end in
  Some (mkBuffer (text b) new_cursor
          (if decide (anchor = Some new_cursor) then None else anchor)
          col (word_boundary_policy b) (history b)).

Definition move_cursor (motion : TextMotion) (b : TextEditBuffer) : option TextEditBuffer :=
  move_cursor_with_selection motion Move b.

Definition move_to_boundary (p : TextBoundaryPolicy) (boundary : TextBoundary) (b : TextEditBuffer)
  : option TextEditBuffer := move_cursor (boundary_motion p boundary) b.

Definition delete_to_boundary (p : TextBoundaryPolicy) (boundary : TextBoundary) (clock : Z)
    (b : TextEditBuffer) : option TextEditBuffer := delete (boundary_delete p boundary) clock b.

Definition reset_preferred_visual_column (b : TextEditBuffer) : TextEditBuffer := with_col b None.

Definition move_cursor_in_layout (layout : WrapLayout) (delta : Z) (mode : SelectionMode)
    (b : TextEditBuffer) : option TextEditBuffer :=
  let column := default (vc_col (layout_cursor layout)) (desired_visual_col b) in
  let row := Nat.min (Z.to_nat (Z.of_nat (vc_row (layout_cursor layout)) + delta))
               (length (lines layout) - 1) in
  let target := byte_index_for_position layout row column in
  b ← move_cursor_with_selection (Absolute target) mode b;
  Some (with_col b (Some column)).

Definition move_cursor_to_line_viewport_col (width col : Z) (mode : SelectionMode) (b : TextEditBuffer)
  : option TextEditBuffer :=
  index ← byte_index_for_line_viewport_col (text b) (cursor b) width col;
  move_cursor_with_selection (Absolute index) mode b.

Definition move_cursor_to_wrapped_position (width : Z) (row : nat) (col : Z) (mode : SelectionMode)
    (b : TextEditBuffer) : option TextEditBuffer :=
  layout ← wrapped_layout (text b) (cursor b) width;
  move_cursor_with_selection (Absolute (byte_index_for_position layout row col)) mode b.

Inductive TextEditCommand :=
| InsertCommand (c : Z)
| InsertString (value : list Z)
| Paste (value : list Z)
| MoveCommand (motion : TextMotion)
| DeleteCommand (d : TextDelete)
| ClearCommand.

Definition apply_command (command : TextEditCommand) (clock : Z) (b : TextEditBuffer)
  : option TextEditBuffer :=
  match command with
  | InsertCommand c => insert_char c clock b
  | InsertString value => insert_str value clock b
  | Paste value => paste value clock b
  | MoveCommand motion => move_cursor motion b
  | DeleteCommand d => delete d clock b
  | ClearCommand => clear clock b
  end.

(** ** Transactional replacement *)

Definition valid_position (t : list Z) (position : Z) : bool :=
  is_char_boundary t position
  && (bool_decide (position = str_len t)
      || bool_decide (position ∈ (grapheme_indices t).*1)).

Definition replace_byte_range (expected : TextEditState) (start stop : Z) (replacement : list Z)
    (new_cursor : Z) (new_anchor : option Z) (clock : Z) (b : TextEditBuffer)
  : option (TextEditBuffer * result TextEditTransactionError bool) :=
  if decide (expected <> edit_state b) then Some (b, Err Stale)
  else
    match replace_range (text b) start stop replacement with
    | None => Some (b, Err InvalidRange)
    | Some t =>
        if negb (valid_position t new_cursor)
           || match new_anchor with Some anchor => negb (valid_position t anchor) | None => false end
        then Some (b, Err InvalidPosition)
        else if decide (t = text b) then Some (b, Ok false)
        else
          '(b, _) ← record_edit Other
            (fun b => Some (mkBuffer t new_cursor new_anchor None (word_boundary_policy b) (history b), tt))
            clock b;
          Some (b, Ok true)
    end.
End unicode.
