(* ===== verification/TextActions.v ===== *)
(** * Named actions and pointer selection of the text editor

    The bindable actions with their identifiers (packages/text-edit/src/action.rs)
    and the click counting and anchored selection of pointer gestures
    (packages/text-edit/src/pointer.rs). *)

From stdpp Require Import strings.
From S2P Require Import Prelude Utf8 TextStr TextWrap TextEdit.

(** ** Actions *)

Inductive TextEditAction :=
| MoveLeft | MoveRight | MoveWordLeft | MoveWordRight | MoveLineStart | MoveLineEnd
| MoveStart | MoveEnd | MoveUp | MoveDown
| SelectLeft | SelectRight | SelectWordLeft | SelectWordRight | SelectLineStart | SelectLineEnd
| SelectStart | SelectEnd | SelectUp | SelectDown | SelectAll
| ActionDeleteBackward | ActionDeleteForward | DeleteWordBackward | DeleteWordForward
| DeleteToLineStart | DeleteToLineEnd | DeleteToStart | DeleteToEnd
| Clear | Undo | Redo.

Definition ALL : list TextEditAction :=
  [ MoveLeft; MoveRight; MoveWordLeft; MoveWordRight; MoveLineStart; MoveLineEnd;
    MoveStart; MoveEnd; MoveUp; MoveDown;
    SelectLeft; SelectRight; SelectWordLeft; SelectWordRight; SelectLineStart; SelectLineEnd;
    SelectStart; SelectEnd; SelectUp; SelectDown; SelectAll;
    ActionDeleteBackward; ActionDeleteForward; DeleteWordBackward; DeleteWordForward;
    DeleteToLineStart; DeleteToLineEnd; DeleteToStart; DeleteToEnd;
    Clear; Undo; Redo ].

Definition action_id (a : TextEditAction) : string :=
  match a with
  | MoveLeft => "move-left"
  | MoveRight => "move-right"
  | MoveWordLeft => "move-word-left"
  | MoveWordRight => "move-word-right"
  | MoveLineStart => "move-line-start"
  | MoveLineEnd => "move-line-end"
  | MoveStart => "move-start"
  | MoveEnd => "move-end"
  | MoveUp => "move-up"
  | MoveDown => "move-down"
  | SelectLeft => "select-left"
  | SelectRight => "select-right"
  | SelectWordLeft => "select-word-left"
  | SelectWordRight => "select-word-right"
  | SelectLineStart => "select-line-start"
  | SelectLineEnd => "select-line-end"
  | SelectStart => "select-start"
  | SelectEnd => "select-end"
  | SelectUp => "select-up"
  | SelectDown => "select-down"
  | SelectAll => "select-all"
  | ActionDeleteBackward => "delete-backward"
  | ActionDeleteForward => "delete-forward"
  | DeleteWordBackward => "delete-word-backward"
  | DeleteWordForward => "delete-word-forward"
  | DeleteToLineStart => "delete-to-line-start"
  | DeleteToLineEnd => "delete-to-line-end"
  | DeleteToStart => "delete-to-start"
  | DeleteToEnd => "delete-to-end"
  | Clear => "clear"
  | Undo => "undo"
  | Redo => "redo"
  end.

Definition from_id (id : string) : option TextEditAction :=
  List.find (fun a => bool_decide (action_id a = id)) ALL.

Definition action_motion (a : TextEditAction) : option (TextMotion * SelectionMode) :=
  match a with
  | MoveLeft => Some (Left, Move)
  | MoveRight => Some (Right, Move)
  | MoveWordLeft => Some (WordLeft, Move)
  | MoveWordRight => Some (WordRight, Move)
  | MoveLineStart => Some (LineStart, Move)
  | MoveLineEnd => Some (LineEnd, Move)
  | MoveStart => Some (Start, Move)
  | MoveEnd => Some (End, Move)
  | MoveUp => Some (VisualUp, Move)
  | MoveDown => Some (VisualDown, Move)
  | SelectLeft => Some (Left, Extend)
  | SelectRight => Some (Right, Extend)
  | SelectWordLeft => Some (WordLeft, Extend)
  | SelectWordRight => Some (WordRight, Extend)
  | SelectLineStart => Some (LineStart, Extend)
  | SelectLineEnd => Some (LineEnd, Extend)
  | SelectStart => Some (Start, Extend)
  | SelectEnd => Some (End, Extend)
  | SelectUp => Some (VisualUp, Extend)
  | SelectDown => Some (VisualDown, Extend)
  | _ => None
  end.

Definition deletion (a : TextEditAction) : option TextDelete :=
  match a with
  | ActionDeleteBackward => Some Backward
  | ActionDeleteForward => Some Forward
  | DeleteWordBackward => Some WordBackward
  | DeleteWordForward => Some WordForward
  | DeleteToLineStart => Some ToLineStart
  | DeleteToLineEnd => Some ToLineEnd
  | DeleteToStart => Some ToStart
  | DeleteToEnd => Some ToEnd
  | _ => None
  end.

Definition is_selection (a : TextEditAction) : bool :=
  match a with
  | SelectAll => true
  | _ => match action_motion a with Some (_, Extend) => true | _ => false end
  end.

(** ** Clicks *)

Inductive SelectionGranularity := Character | GranularityWord | GranularityLine | All.

Definition granularity_for_click_count (sequence : list SelectionGranularity) (count : Z)
  : SelectionGranularity :=
  if decide (count = 0 \/ sequence = []) then Character
  else
    match sequence !! Z.to_nat (count - 1) with
    | Some g => g
    | None => default Character (last sequence)
    end.

Record ClickPolicy := mkClickPolicy {
  window : Z;
  distance : Z;
  max_count : Z;
}.

Definition MAX_COUNT : Z := 8.

Definition effective_max_count (p : ClickPolicy) : Z :=
  if decide (max_count p = 0) then 1
  else if decide (MAX_COUNT < max_count p) then MAX_COUNT else max_count p.

Record ClickRecord := mkClick {
  click_x : Z;
  click_y : Z;
  click_at : Z;
  click_count : Z;
}.

(** [ClickTracker::register]: the count and the tracker's new last click. *)
Definition register (last : option ClickRecord) (x y now : Z) (p : ClickPolicy) : Z * option ClickRecord :=
  let count :=
    match last with
    | None => 1
    | Some last =>
        if bool_decide (abs_diff (click_x last) x <= distance p)
           && bool_decide (abs_diff (click_y last) y <= distance p)
           && bool_decide (saturating_duration_since now (click_at last) <= window p)
        then saturating_add 8 (click_count last) 1 else 1
    end in
  let count := Z.min count (effective_max_count p) in
  (count, Some (mkClick x y now count)).

Section unicode.
Context {U : UnicodeTables}.

(** [TextEditBuffer::apply_action]. *)
Definition apply_action (a : TextEditAction) (clock : Z) (b : TextEditBuffer)
  : option (TextEditBuffer * bool) :=
  match a with
  | SelectAll => Some (select_all b, false)
  | Clear =>
      b' ← clear clock b;
      Some (b', negb (bool_decide (text b = [])))
  | Undo => Some (undo b)
  | Redo => Some (redo b)
  | _ =>
      match action_motion a with
      | Some (motion, mode) => b ← move_cursor_with_selection motion mode b; Some (b, false)
      | None =>
          match deletion a with
          | Some d =>
              b' ← delete d clock b;
              Some (b', bool_decide (str_len (text b') <> str_len (text b)))
          | None => Some (b, false)
          end
      end
  end.

(** ** Pointer gestures *)

Record PointerSelection := mkPointer {
  granularity : option SelectionGranularity;
  anchor_range : Z * Z;
}.

Definition pointer_new : PointerSelection := mkPointer None (0, 0).
Definition pointer_end (p : PointerSelection) : PointerSelection := mkPointer None (anchor_range p).
Definition pointer_resume (g : SelectionGranularity) (range : Z * Z) : PointerSelection :=
  mkPointer (Some g) range.

Definition select (anchor position : Z) (b : TextEditBuffer) : option TextEditBuffer :=
  b ← move_cursor (Absolute anchor) b;
  move_cursor_with_selection (Absolute position) Extend b.

Definition is_word_grapheme (g : list Z) : bool := existsb is_word_char g.

Definition grapheme_ranges (t : list Z) : list (Z * Z * list Z) :=
  (fun '(start, g) => (start, start + str_len g, g)) <$> grapheme_indices t.

(** [position] of the range that contains [index]. *)
Fixpoint range_at (ranges : list (Z * Z * list Z)) (index : Z) : option nat :=
  match ranges with
  | [] => None
  | (start, stop, _) :: rest =>
      if decide (start <= index < stop) then Some 0%nat else S <$> range_at rest index
  end.

(** The first non-space from [position] on, among the ranges from there. *)
Fixpoint next_non_space (rest : list (Z * Z * list Z)) (position : nat) : option nat :=
  match rest with
  | [] => None
  | (_, _, g) :: rest =>
      if forallb is_whitespace g then next_non_space rest (S position) else Some position
  end.

Fixpoint grow_left (ranges : list (Z * Z * list Z)) (position : nat) : option nat :=
  match position with
  | O => Some 0%nat
  | S before =>
      '(_, _, g) ← ranges !! before;
      if is_word_grapheme g then grow_left ranges before else Some position
  end.

Fixpoint grow_right (rest : list (Z * Z * list Z)) (position : nat) : nat :=
  match rest with
  | [] => position
  | (_, _, g) :: rest => if is_word_grapheme g then grow_right rest (S position) else position
  end.

Definition word_range_at (t : list Z) (byte_index : Z) : option (option (Z * Z)) :=
  let index := Z.min byte_index (str_len t) in
  let ranges := grapheme_ranges t in
  if decide (ranges = []) then Some None
  else
    let position := default (length ranges - 1)%nat (range_at ranges index) in
    '(_, _, g) ← ranges !! position;
    let position :=
      if forallb is_whitespace g
      then default position (next_non_space (drop position ranges) position) else position in
    '(_, _, g) ← ranges !! position;
    if forallb is_whitespace g then Some None
    else
      start_position ← grow_left ranges position;
      let end_position := grow_right (drop (S position) ranges) position in
      '(start, _, _) ← ranges !! start_position;
      '(_, stop, _) ← ranges !! end_position;
      Some (Some (start, stop)).

(** [while !is_char_boundary(index): index -= 1]; zero is a boundary. *)
Fixpoint floor_char_boundary (t : list Z) (index : nat) : nat :=
  match index with
  | O => 0
  | S before => if is_char_boundary t (Z.of_nat index) then index else floor_char_boundary t before
  end.

Definition line_range_at (t : list Z) (byte_index : Z) : option (Z * Z) :=
  let index := Z.of_nat (floor_char_boundary t (Z.to_nat (Z.min byte_index (str_len t)))) in
  preceding ← slice_to t index;
  following ← slice_from t index;
  Some (match rfind_char newline preceding with Some n => n + 1 | None => 0 end,
        match find_char newline following with Some n => index + n + 1 | None => str_len t end).

Definition pointer_drag (p : PointerSelection) (byte_index : Z) (b : TextEditBuffer)
  : option TextEditBuffer :=
  match granularity p with
  | None => Some b
  | Some All => Some (select_all b)
  | Some g =>
      let index := Z.min byte_index (str_len (text b)) in
      '(target_start, target_end) ←
        match g with
        | GranularityWord => range ← word_range_at (text b) byte_index; Some (default (index, index) range)
        | GranularityLine => line_range_at (text b) byte_index
        | _ => Some (index, index)
        end;
      let len := str_len (text b) in
      let anchor_start := Z.min (anchor_range p).1 len in
      let anchor_end := Z.max (Z.min (anchor_range p).2 len) anchor_start in
      if decide (target_start < anchor_start) then select anchor_end target_start b
      else select anchor_start (Z.max target_end anchor_end) b
  end.

Definition pointer_begin (byte_index : Z) (g : SelectionGranularity) (extend : bool) (b : TextEditBuffer)
  : option (PointerSelection * TextEditBuffer) :=
  if extend then
    let fixed := default (cursor b) (selection_anchor b) in
    let p := mkPointer (Some g) (fixed, fixed) in
    b ← pointer_drag p byte_index b;
    Some (p, b)
  else
    let character :=
      b ← move_cursor (Absolute byte_index) b;
      Some (mkPointer (Some g) (cursor b, cursor b), b) in
    match g with
    | Character => character
    | GranularityWord =>
        range ← word_range_at (text b) byte_index;
        match range with
        | Some (start, stop) => b ← select start stop b; Some (mkPointer (Some g) (start, stop), b)
        | None => character
        end
    | GranularityLine =>
        '(start, stop) ← line_range_at (text b) byte_index;
        b ← select start stop b;
        Some (mkPointer (Some g) (start, stop), b)
    | All => Some (mkPointer (Some g) (0, str_len (text b)), select_all b)
    end.
End unicode.

(** ** Everything a client can do to a buffer *)

Section operations.
Context {U : UnicodeTables}.

Inductive EditorOp :=
| OpCommand (command : TextEditCommand)
| OpAction (a : TextEditAction)
| OpDeleteBackward
| OpDeleteForward
| OpDeleteSelection
| OpCutSelection
| OpMove (motion : TextMotion) (mode : SelectionMode)
| OpMoveInLayout (layout : WrapLayout) (delta : Z) (mode : SelectionMode)
| OpMoveToViewportCol (width col : Z) (mode : SelectionMode)
| OpMoveToWrapped (width : Z) (row : nat) (col : Z) (mode : SelectionMode)
| OpReplace (expected : TextEditState) (start stop : Z) (replacement : list Z)
    (new_cursor : Z) (new_anchor : option Z)
| OpClearSelection
| OpClearHistory
| OpResetColumn
| OpSetWordPolicy (p : WordBoundaryPolicy)
| OpSetUndoPolicy (p : UndoPolicy)
| OpBreakGroup
| OpSetInputTime (now : Z)
| OpPointerBegin (byte_index : Z) (g : SelectionGranularity) (extend : bool)
| OpPointerDrag (p : PointerSelection) (byte_index : Z).

Definition apply_op (op : EditorOp) (clock : Z) (b : TextEditBuffer) : option TextEditBuffer :=
  match op with
  | OpCommand command => apply_command command clock b
  | OpAction a => fst <$> apply_action a clock b
  | OpDeleteBackward => delete_backward clock b
  | OpDeleteForward => delete_forward clock b
  | OpDeleteSelection => fst <$> delete_selection clock b
  | OpCutSelection => fst <$> cut_selection clock b
  | OpMove motion mode => move_cursor_with_selection motion mode b
  | OpMoveInLayout layout delta mode => move_cursor_in_layout layout delta mode b
  | OpMoveToViewportCol width col mode => move_cursor_to_line_viewport_col width col mode b
  | OpMoveToWrapped width row col mode => move_cursor_to_wrapped_position width row col mode b
  | OpReplace expected start stop replacement new_cursor new_anchor =>
      fst <$> replace_byte_range expected start stop replacement new_cursor new_anchor clock b
  | OpClearSelection => Some (clear_selection b)
  | OpClearHistory => Some (clear_history b)
  | OpResetColumn => Some (reset_preferred_visual_column b)
  | OpSetWordPolicy p => Some (set_word_boundary_policy p b)
  | OpSetUndoPolicy p => Some (set_undo_policy p b)
  | OpBreakGroup => Some (break_undo_group b)
  | OpSetInputTime now => Some (set_input_time now b)
  | OpPointerBegin byte_index g extend => snd <$> pointer_begin byte_index g extend b
  | OpPointerDrag p byte_index => pointer_drag p byte_index b
  end.

Fixpoint run_ops (ops : list (EditorOp * Z)) (b : TextEditBuffer) : option TextEditBuffer :=
  match ops with
  | [] => Some b
  | (op, clock) :: rest => b ← apply_op op clock b; run_ops rest b
  end.
End operations.

(** Identifiers are a round trip. *)
Lemma from_id_action_id a : from_id (action_id a) = Some a.
Proof. by destruct a; vm_compute. Qed.
