(* ===== verification/TextEditProps.v ===== *)
(** * The text editor never leaves a character boundary

    Every operation of the editor returns, and keeps the cursor, the selection
    anchor and every retained undo state on character boundaries of their texts. *)

From S2P Require Import Prelude Utf8 TextStr TextWrap TextWrapProps TextEdit TextActions.

Section props.
Context `{UL : UnicodeLaws}.

(** ** Positions *)

Definition positions_ok (t : list Z) (c : Z) (a : option Z) : Prop :=
  boundary t c /\ forall i, a = Some i -> boundary t i.

Definition pos_ok (b : TextEditBuffer) : Prop := positions_ok (text b) (cursor b) (selection_anchor b).

Definition state_ok (r : RetainedState) : Prop :=
  positions_ok (st_text (state r)) (st_cursor (state r)) (st_selection_anchor (state r)).

Lemma positions_none t c : boundary t c -> positions_ok t c None.
Proof. by split. Qed.

Lemma drain_ok t a b :
  boundary t a -> boundary t b -> a <= b -> exists t', drain t a b = Some t' /\ boundary t' a.
Proof.
  intros Ha Hb Hab. destruct (boundary_three t a b Ha Hb Hab) as (p & m & s & -> & -> & ->).
  exists (p ++ s). unfold drain. rewrite replace_range_three. split; [done|apply boundary_app].
Qed.

Lemma insert_at_ok t i s :
  boundary t i -> exists t', insert_at t i s = Some t' /\ boundary t' (i + str_len s).
Proof.
  intros (p & q & -> & ->). exists (p ++ s ++ q). rewrite insert_at_app. split; [done|].
  apply boundary_app_r, boundary_app.
Qed.

Lemma previous_grapheme_ok t c :
  boundary t c -> exists start, previous_grapheme_boundary t c = Some start /\
    forall i, start = Some i -> boundary t i /\ i <= c.
Proof.
  intros (p & s & -> & ->). unfold previous_grapheme_boundary. rewrite slice_to_app.
  cbn [mbind option_bind]. eexists. split; [done|]. intros i ([o g] & Hl & ->)%fmap_Some.
  apply last_Some_elem_of in Hl. apply grapheme_indices_boundary in Hl as Hb. simpl.
  split; [by apply boundary_app_l|]. apply boundary_range in Hb. lia.
Qed.

Lemma next_grapheme_ok t c :
  boundary t c -> exists stop, next_grapheme_boundary t c = Some stop /\
    forall i, stop = Some i -> boundary t i /\ c <= i.
Proof.
  intros Hc. pose proof (boundary_range _ _ Hc) as Hr. destruct Hc as (p & s & -> & ->).
  unfold next_grapheme_boundary. case_decide; [by exists None|]. rewrite slice_from_app.
  cbn [mbind option_bind]. eexists. split; [done|]. intros i [= <-].
  destruct (grapheme_indices s !! 1%nat) as [[o g]|] eqn:E; [|split; [apply boundary_len|lia]].
  apply list_elem_of_lookup_2, grapheme_indices_boundary in E as Hb.
  split; [by apply boundary_app_r|]. apply boundary_range in Hb. lia.
Qed.

(** Walking over grapheme spans. *)
Lemma span_slice t (i : nat) :
  (i < length (grapheme_spans t))%nat -> exists span g,
    grapheme_spans t !! i = Some span /\ slice t (span_start span) (span_end span) = Some g /\
    span_start span = off t i.
Proof.
  intros Hi. destruct (lookup_lt_is_Some_2 _ _ Hi) as [span Hs].
  pose proof Hs as (g & Hg & ->)%grapheme_spans_lookup. eexists _, g. split_and!; [done| |done].
  simpl. by apply slice_grapheme.
Qed.

Lemma skip_left_ok t p i :
  (i <= length (grapheme_spans t))%nat -> exists j, skip_left t (grapheme_spans t) p i = Some j /\ (j <= i)%nat.
Proof.
  induction i as [|i IH]; intros Hi; [by exists 0%nat|]. cbn [skip_left].
  destruct (span_slice t i) as (span & g & -> & E & _); [lia|]. cbn [mbind option_bind].
  rewrite E. cbn [mbind option_bind]. destruct (p g); [|by exists (S i)].
  destruct IH as (j & Hj & ?); [lia|]. exists j. split; [done|lia].
Qed.

Lemma skip_right_ok t p i :
  exists j, skip_right t (drop i (grapheme_spans t)) p i = Some j /\ (i <= j)%nat.
Proof.
  remember (drop i (grapheme_spans t)) as rest eqn:E. revert i E.
  induction rest as [|span rest IH]; intros i E; [by exists i|]. cbn [skip_right].
  assert (Hi : (i < length (grapheme_spans t))%nat).
  { destruct (decide (i < length (grapheme_spans t))%nat); [done|]. rewrite drop_ge in E by lia. done. }
  destruct (span_slice t i Hi) as (span' & g & Hs & Hg & _). rewrite (drop_S _ _ _ Hs) in E.
  injection E as -> E. rewrite Hg. cbn [mbind option_bind]. destruct (p g); [|by exists i].
  destruct (IH (S i) E) as (j & Hj & ?). exists j. split; [done|lia].
Qed.

Lemma span_index_le spans c : (span_index spans c <= length spans)%nat.
Proof. induction spans as [|s spans IH]; simpl; [lia|]. case_decide; lia. Qed.

Lemma previous_word_ok t c p : exists i, previous_word_boundary t c p = Some i /\ boundary t i.
Proof.
  unfold previous_word_boundary.
  destruct (skip_left_ok t (is_separator p) _ (span_index_le (grapheme_spans t) c)) as (j & -> & Hj).
  pose proof (span_index_le (grapheme_spans t) c). cbn [mbind option_bind].
  destruct (skip_left_ok t (fun g => negb (is_separator p g)) j) as (k & -> & Hk); [lia|].
  cbn [mbind option_bind]. eexists. split; [done|].
  destruct (grapheme_spans t !! k) as [span|] eqn:E; [|apply boundary_0].
  apply grapheme_spans_lookup in E as (g & _ & ->). apply boundary_off.
Qed.

Lemma next_word_ok t c p : exists i, next_word_boundary t c p = Some i /\ boundary t i.
Proof.
  unfold next_word_boundary.
  destruct (skip_right_ok t (is_separator p) (span_index (grapheme_spans t) c)) as (j & -> & Hj).
  cbn [mbind option_bind].
  destruct (skip_right_ok t (fun g => negb (is_separator p g)) j) as (k & -> & Hk).
  cbn [mbind option_bind]. eexists. split; [done|].
  destruct (grapheme_spans t !! k) as [span|] eqn:E; [|apply boundary_len].
  apply grapheme_spans_lookup in E as (g & _ & ->). apply boundary_off.
Qed.

Lemma newline_len : Z.of_nat (len_utf8 newline) = 1.
Proof. done. Qed.

Lemma line_start_ok b : pos_ok b -> exists i, line_start b = Some i /\ boundary (text b) i /\ i <= cursor b.
Proof.
  intros [(p & s & E & Ec) _]. unfold line_start. rewrite E, Ec, slice_to_app. cbn [mbind option_bind].
  eexists. split; [done|]. destruct (rfind_char newline p) as [n|] eqn:Ef.
  - apply rfind_char_Some in Ef as (q & r & -> & -> & _).
    replace (str_len q + 1) with (str_len (q ++ [newline])) by (rewrite str_len_app; done).
    replace (q ++ newline :: r) with ((q ++ [newline]) ++ r) by (by rewrite <- (assoc_L app)).
    split; [apply boundary_app_l, boundary_app|]. rewrite (str_len_app _ r).
    pose proof (str_len_nonneg r). lia.
  - split; [apply boundary_0|apply str_len_nonneg].
Qed.

Lemma line_end_ok b : pos_ok b -> exists i, line_end b = Some i /\ boundary (text b) i /\ cursor b <= i.
Proof.
  intros [(p & s & E & Ec) _]. unfold line_end. rewrite E, Ec, slice_from_app. cbn [mbind option_bind].
  eexists. split; [done|]. destruct (find_char newline s) as [n|] eqn:Ef.
  - apply find_char_Some in Ef as (q & r & -> & -> & _). pose proof (str_len_nonneg q).
    split; [|lia]. apply boundary_app_r, boundary_app.
  - split; [apply boundary_len|]. rewrite str_len_app. pose proof (str_len_nonneg s). lia.
Qed.

(** ** Edits *)

(** An edit that runs on every well-positioned buffer and leaves its history. *)
Definition good_edit {T : Type} (edit : TextEditBuffer -> option (TextEditBuffer * T)) : Prop :=
  forall b, pos_ok b -> exists b' r, edit b = Some (b', r) /\ pos_ok b' /\ history b' = history b.

Lemma selection_range b start stop :
  pos_ok b -> selection b = Some (start, stop) ->
  boundary (text b) start /\ boundary (text b) stop /\ start <= stop.
Proof.
  intros [Hc Ha]. unfold selection. destruct (selection_anchor b) as [a|]; [|done].
  case_decide; [done|]. specialize (Ha a eq_refl). intros [= <- <-].
  destruct (Z.min_spec a (cursor b)) as [[? ->]|[? ->]], (Z.max_spec a (cursor b)) as [[? ->]|[? ->]];
    split_and!; done || lia.
Qed.

Lemma delete_selection_good : good_edit delete_selection_unrecorded.
Proof.
  intros b Hb. unfold delete_selection_unrecorded. destruct (selection b) as [[start stop]|] eqn:E.
  - destruct (selection_range b start stop Hb E) as (H1 & H2 & H3).
    destruct (drain_ok _ _ _ H1 H2 H3) as (t & -> & Ht). cbn [mbind option_bind].
    eexists _, _. split_and!; [done|by apply positions_none|done].
  - eexists _, _. split_and!; [done| |done]. apply positions_none, (proj1 Hb).
Qed.

Lemma clear_good : good_edit clear_unrecorded.
Proof. intros b Hb. eexists _, _. split_and!; [done| |done]. apply positions_none, boundary_0. Qed.

(** Deleting the selection leaves none. *)
Lemma delete_selection_anchor b b' r :
  delete_selection_unrecorded b = Some (b', r) -> selection_anchor b' = None.
Proof.
  unfold delete_selection_unrecorded. destruct (selection b) as [[start stop]|].
  - destruct (drain _ _ _); [|done]. by intros [= <- _].
  - by intros [= <- _].
Qed.

Ltac after_selection b Hb b' deleted :=
  let E := fresh "E" in let Hb' := fresh "Hb'" in let Hh := fresh "Hh" in let Ha := fresh "Ha" in
  destruct (delete_selection_good b Hb) as (b' & deleted & E & Hb' & Hh);
  pose proof (delete_selection_anchor _ _ _ E) as Ha; rewrite E; cbn [mbind option_bind].

Lemma insert_str_good value : good_edit (insert_str_unrecorded value).
Proof.
  intros b Hb. unfold insert_str_unrecorded. after_selection b Hb b' deleted.
  destruct (insert_at_ok (text b') (cursor b') value) as (t & -> & Ht); [apply (proj1 Hb')|].
  cbn [mbind option_bind]. eexists _, _. split_and!; [done| |done].
  unfold pos_ok. cbn [text cursor selection_anchor with_col with_text]. rewrite Ha.
  by apply positions_none.
Qed.

Lemma paste_good value : good_edit (paste_unrecorded value).
Proof. apply insert_str_good. Qed.

Lemma delete_backward_good : good_edit delete_backward_unrecorded.
Proof.
  intros b Hb. unfold delete_backward_unrecorded. after_selection b Hb b' deleted.
  destruct deleted; [by eexists _, _|].
  destruct (previous_grapheme_ok (text b') (cursor b') (proj1 Hb')) as (start & -> & Hs).
  cbn [mbind option_bind]. destruct start as [start|]; [|by eexists _, _].
  destruct (Hs start eq_refl) as [H1 H2].
  destruct (drain_ok _ _ _ H1 (proj1 Hb') H2) as (t & -> & Ht). cbn [mbind option_bind].
  eexists _, _. split_and!; [done| |done]. unfold pos_ok. simpl. rewrite Ha. by apply positions_none.
Qed.

Lemma delete_forward_good : good_edit delete_forward_unrecorded.
Proof.
  intros b Hb. unfold delete_forward_unrecorded. after_selection b Hb b' deleted.
  destruct deleted; [by eexists _, _|].
  destruct (next_grapheme_ok (text b') (cursor b') (proj1 Hb')) as (stop & -> & Hs).
  cbn [mbind option_bind]. destruct stop as [stop|]; [|by eexists _, _].
  destruct (Hs stop eq_refl) as [H1 H2].
  destruct (drain_ok _ _ _ (proj1 Hb') H1 H2) as (t & -> & Ht). cbn [mbind option_bind].
  eexists _, _. split_and!; [done| |done]. unfold pos_ok. simpl. rewrite Ha. by apply positions_none.
Qed.

Lemma delete_range_good start stop b :
  pos_ok b -> boundary (text b) start -> boundary (text b) stop ->
  exists b' r, delete_range start stop b = Some (b', r) /\ pos_ok b' /\ history b' = history b.
Proof.
  intros Hb Hs He. unfold delete_range. case_decide; [by eexists _, _|].
  destruct (drain_ok _ _ _ Hs He) as (t & -> & Ht); [lia|]. cbn [mbind option_bind].
  eexists _, _. split_and!; [done|by apply positions_none|done].
Qed.

Lemma delete_good d : good_edit (delete_unrecorded d).
Proof.
  intros b Hb. unfold delete_unrecorded. after_selection b Hb b' deleted. rewrite <- Hh.
  destruct deleted; [by eexists _, _|]. pose proof (proj1 Hb') as Hc. destruct d.
  - by apply delete_backward_good.
  - by apply delete_forward_good.
  - destruct (previous_word_ok (text b') (cursor b') (word_boundary_policy b')) as (i & -> & Hi).
    cbn [mbind option_bind]. by apply delete_range_good.
  - destruct (next_word_ok (text b') (cursor b') (word_boundary_policy b')) as (i & -> & Hi).
    cbn [mbind option_bind]. by apply delete_range_good.
  - destruct (line_start_ok b' Hb') as (i & -> & Hi & _). cbn [mbind option_bind]. by apply delete_range_good.
  - destruct (line_end_ok b' Hb') as (i & -> & Hi & _). cbn [mbind option_bind]. by apply delete_range_good.
  - apply delete_range_good; [done|apply boundary_0|done].
  - apply delete_range_good; [done|done|apply boundary_len].
Qed.

(** ** Recording an edit *)

(** When an edit of [b] into [b1] at [now] extends the open step instead of
    starting one: nothing is selected, nothing was undone, the step ended in the
    very state of [b], the pause was short, the edit is of the step's kind, and
    the run is young enough or, for typing, no new word begins. *)
Definition joins (kind : EditKind) (now : Z) (b b1 : TextEditBuffer) : Prop :=
  let h := history b in
  selection b = None /\ kind <> Other /\ grouping (policy h) <> Keystroke /\ redo_stack h = [] /\
  (exists step, last (undo_stack h) = Some step /\ state (after step) = edit_state b) /\
  exists open, open_group h = Some open /\ og_kind open = kind /\
    saturating_duration_since now (last_edit open) <= pause (policy h) /\
    let young := saturating_duration_since now (started open) <= max_run (policy h) in
    let same_word := starts_word (edit_state b) (edit_state b1) = Some false in
    match kind with
    | Insert => (same_word \/ young) /\ (grouping (policy h) = Word -> same_word)
    | _ => young
    end.

(** What recording the edit of [b] into [b1] does to the history: nothing when
    the text is the same; forget everything when the two texts are too long to
    retain; else drop the redo steps and push a step, which replaces the last
    one when the edit joins it, behind the steps that fit the budget. *)
Inductive edit_outcome (kind : EditKind) (now : Z) (b b1 : TextEditBuffer) : TextEditBuffer -> Prop :=
| outcome_unchanged h :
    text b1 = text b -> undo_stack h = undo_stack (history b) -> redo_stack h = redo_stack (history b) ->
    edit_outcome kind now b b1 (mkBuffer (text b) (cursor b) (selection_anchor b) (desired_visual_col b)
                         (word_boundary_policy b1) h)
| outcome_cleared h :
    text b1 <> text b -> MAX_HISTORY_BYTES < str_len (text b) + str_len (text b1) ->
    undo_stack h = [] -> redo_stack h = [] -> edit_outcome kind now b b1 (with_history b1 h)
| outcome_recorded h base kept :
    text b1 <> text b -> str_len (text b) + str_len (text b1) <= MAX_HISTORY_BYTES ->
    ~ joins kind now b b1 /\ base = retained_state b /\ kept = undo_stack (history b) \/
      joins kind now b b1 /\
      (exists step, undo_stack (history b) = kept ++ [step] /\ base = before step /\
         state (after step) = edit_state b) ->
    undo_stack h =
      (let bytes := str_len (st_text (state base)) + str_len (text b1) in
       if decide (MAX_HISTORY_BYTES < bytes) then [] else prune bytes kept)
      ++ [mkTransaction base (retained_state b1)] ->
    redo_stack h = [] ->
    edit_outcome kind now b b1 (with_history b1 h).

Lemma selection_None b : selection b = None <->
  match selection_anchor b with Some anchor => bool_decide (anchor <> cursor b) | None => false end = false.
Proof.
  unfold selection. destruct (selection_anchor b) as [anchor|]; [|done]. rewrite bool_decide_eq_false.
  case_decide; naive_solver.
Qed.

(** [continues] decides it, given that nothing is selected. *)
Lemma continues_joins kind now b b1 h :
  pos_ok b -> selection b = None ->
  undo_stack h = undo_stack (history b) -> redo_stack h = redo_stack (history b) ->
  policy h = policy (history b) -> open_group h = open_group (history b) ->
  exists merge, continues h kind (retained_state b) (retained_state b1) now = Some merge /\
    (merge = true <-> joins kind now b b1).
Proof.
  intros [Hc _] Hsel Hu Hr Hp Ho. unfold continues. rewrite Hu, Hr, Hp, Ho. clear h Hu Hr Hp Ho.
  change (state (retained_state b)) with (edit_state b). change (state (retained_state b1)) with (edit_state b1).
  destruct (open_group (history b)) as [open|] eqn:Eo.
  2: { exists false. split; [done|]. split; [done|]. intros (_ & _ & _ & _ & _ & o & Ho & _). congruence. }
  destruct (_ || _) eqn:E.
  { exists false. split; [done|]. split; [done|]. intros (_ & Hk & Hg & Hrd & (step & Hl & Hst) & o & Ho & Hok & Hpause & _).
    rewrite Eo in Ho. injection Ho as <-. rewrite Hl, Hrd in E. subst kind.
    rewrite !bool_decide_eq_false_2 in E by (done || lia || naive_solver). done. }
  repeat apply orb_false_iff in E as [E ?].
  repeat match goal with H : bool_decide _ = false |- _ => apply bool_decide_eq_false in H end.
  destruct (last (undo_stack (history b))) as [step|] eqn:El; [|done].
  assert (state (after step) = edit_state b) as Hst by (apply dec_stable; eapply bool_decide_eq_false_1; eassumption).
  assert (redo_stack (history b) = []) as Hrd by (destruct (redo_stack (history b)); naive_solver).
  assert (og_kind open = kind) as Hkind by (symmetry; by apply dec_stable).
  destruct (slice_to_boundary (text b) (cursor b) Hc) as [q Hq].
  assert (exists word, starts_word (edit_state b) (edit_state b1) = Some word) as [word Hword].
  { unfold starts_word. cbn [edit_state st_text st_cursor]. rewrite Hq. by eexists. }
  set (young := saturating_duration_since now (started open) <= max_run (policy (history b))).
  assert (forall merge, (merge = true <-> match kind with
     | Insert => (Some word = Some false \/ young) /\ (grouping (policy (history b)) = Word -> Some word = Some false)
     | _ => young end) -> merge = true <-> joins kind now b b1) as Hw.
  { intros merge ->. unfold joins. cbv zeta. rewrite Hword, Eo. split.
    - intros. split_and!; try done; [by exists step|]. exists open. split_and!; try done. lia.
    - intros (_ & _ & _ & _ & _ & o & [= <-] & _ & _ & Hj). done. }
  destruct (decide (kind <> Insert)) as [Hi|Hi].
  - eexists. split; [reflexivity|]. apply Hw. rewrite bool_decide_eq_true. by destruct kind.
  - apply dec_stable in Hi. rewrite Hi in *. rewrite Hword. cbn [mbind option_bind].
    eexists. split; [reflexivity|]. apply Hw.
    destruct (grouping (policy (history b))), word; cbn [negb orb]; rewrite ?bool_decide_eq_true; naive_solver.
Qed.

Lemma last_removelast {A} (l : list A) x : last l = Some x -> l = removelast l ++ [x].
Proof.
  intros H. destruct (exists_last (l := l)) as (l' & y & ->); [by intros ->|].
  rewrite last_snoc in H. injection H as ->. by rewrite removelast_last.
Qed.

Lemma record_edit_outcome {T} kind (edit : TextEditBuffer -> option (TextEditBuffer * T)) clock b :
  good_edit edit -> pos_ok b ->
  exists b0 b1 r b', edit b0 = Some (b1, r) /\
    edit_state b0 = edit_state b /\ desired_visual_col b0 = desired_visual_col b /\
    word_boundary_policy b0 = word_boundary_policy b /\
    record_edit kind edit clock b = Some (b', r) /\ pos_ok b1 /\
    edit_outcome kind (default clock (input_time (history b))) b b1 b'.
Proof.
  intros Hedit Hb. unfold record_edit. set (h := history b). set (b0 := with_history b _).
  destruct (Hedit b0 Hb) as (b1 & r & E & Hb1 & Hh). exists b0, b1, r. rewrite E.
  cbn [mbind option_bind]. set (replaced := match _ with Some _ => _ | None => false end).
  set (kind' := match kind with Insert => _ | _ => _ end). set (now := default clock (input_time h)).
  case_decide as Ht.
  { eexists. split_and!; [done..|]. by apply outcome_unchanged; [|rewrite Hh..]. }
  case_decide as Hm.
  { eexists. split_and!; [done..|]. by apply outcome_cleared. }
  assert (Hmerge : exists merge,
    (if replaced then Some false
     else continues (history b1) kind' (retained_state b0) (retained_state b1) now) = Some merge /\
    (merge = true <-> joins kind now b b1)).
  { pose proof (selection_None b) as Hsel. change (selection b = None <-> replaced = false) in Hsel.
    destruct replaced eqn:Er.
    - exists false. split; [done|]. split; [done|]. intros [Hj _]. by apply Hsel in Hj.
    - assert (kind' = kind) as -> by (unfold kind'; by destruct kind).
      apply (continues_joins kind now b b1); [done|by apply Hsel|by rewrite Hh..]. }
  destruct Hmerge as (merge & -> & Hj). cbn [mbind option_bind].
  destruct (merged_step merge (retained_state b0) (undo_stack (history b1))) as [base kept] eqn:Em.
  eexists. split_and!; [done..|].
  eapply (outcome_recorded kind now b b1 _ base kept); [done| | |done|done].
  { change (~ MAX_HISTORY_BYTES < str_len (text b) + str_len (text b1)) in Hm. lia. }
  unfold merged_step in Em. rewrite Hh in Em. destruct merge.
  - right. assert (joins kind now b b1) as HJ by (by apply Hj). split; [done|].
    destruct HJ as (_ & _ & _ & _ & (step & Hl & Hst) & _). cbn in Em. fold h in Hl. rewrite Hl in Em. injection Em as <- <-.
    exists step. split_and!; [by apply last_removelast|done..].
  - left. injection Em as <- <-. split_and!; [|done..]. intros HJ. by apply Hj in HJ.
Qed.

(** ** Movement *)

(** An operation that keeps the text and the history. *)
Definition framed (b b' : TextEditBuffer) : Prop :=
  text b' = text b /\ undo_stack (history b') = undo_stack (history b) /\
  redo_stack (history b') = redo_stack (history b) /\ pos_ok b'.

Lemma framed_trans b1 b2 b3 : framed b1 b2 -> framed b2 b3 -> framed b1 b3.
Proof. unfold framed. intros (-> & -> & -> & _) (-> & -> & -> & ?). done. Qed.

Lemma framed_refl b : pos_ok b -> framed b b.
Proof. done. Qed.

Lemma cursor_visual_col_ok b : pos_ok b -> exists col, cursor_visual_col b = Some col.
Proof.
  intros [Hc _]. unfold cursor_visual_col, wrapped_layout.
  destruct (wrapped_layout_ok (text b) (cursor b) unbounded_width None Hc) as (layout & _ & _ & -> & _).
  by eexists.
Qed.

Lemma visual_vertical_ok b up :
  pos_ok b -> exists i, visual_vertical_position b up = Some i /\ boundary (text b) i.
Proof.
  intros [Hc _]. unfold visual_vertical_position, wrapped_layout.
  destruct (wrapped_layout_ok (text b) (cursor b) unbounded_width None Hc)
    as (layout & row & starts & Hl & Hpos & Hr & Hranges & _).
  pose proof Hl as Hproj. unfold wrapped_layout_with_exclusion in Hproj.
  rewrite Hl. cbn [mbind option_bind]. set (target := if up then _ else _).
  destruct (lines layout !! target) as [line|] eqn:Eline; [|by eexists].
  unfold wrapped_row_start_byte_index.
  destruct (wrapped_projection_ok (text b) (cursor b) unbounded_width None Hc)
    as (projection & row' & Ep & _ & Hrp).
  rewrite Ep in Hproj |- *. cbn [mbind option_bind] in Hproj |- *.
  destruct (cursor_for_byte_index _ _ _) as [position|]; [|done]. injection Hproj as <-.
  cbn [lines] in Eline. destruct (rows_done_lookup _ _ _ _ _ _ _ target Hrp) as (x & y & Hxy & H1 & H2).
  { apply lookup_lt_Some in Eline. by destruct (rows_done_length _ _ _ _ _ _ _ Hrp) as [<- _]. }
  rewrite H2. rewrite Eline in H1. injection H1 as ->. cbn [from_option]. eexists. split; [done|].
  apply (boundary_seg _ x y); [lia|]. apply byte_index_boundary.
Qed.

Lemma motion_position_ok b motion :
  pos_ok b -> exists i, motion_position b motion = Some i /\ boundary (text b) i.
Proof.
  intros Hb. pose proof (proj1 Hb) as Hc. destruct motion; cbn [motion_position].
  - destruct (previous_grapheme_ok _ _ Hc) as (start & -> & Hs). cbn [mbind option_bind].
    eexists. split; [done|]. destruct start as [i|]; [apply (Hs i eq_refl)|apply boundary_0].
  - destruct (next_grapheme_ok _ _ Hc) as (stop & -> & Hs). cbn [mbind option_bind].
    eexists. split; [done|]. destruct stop as [i|]; [apply (Hs i eq_refl)|apply boundary_len].
  - apply previous_word_ok.
  - apply next_word_ok.
  - eexists. split; [done|apply boundary_0].
  - eexists. split; [done|apply boundary_len].
  - destruct (line_start_ok b Hb) as (i & -> & Hi & _). by exists i.
  - eexists. split; [done|apply snap_boundary].
  - by apply visual_vertical_ok.
  - by apply visual_vertical_ok.
  - destruct (line_end_ok b Hb) as (i & -> & Hi & _). by exists i.
Qed.

Lemma move_ok motion mode b :
  pos_ok b -> exists b', move_cursor_with_selection motion mode b = Some b' /\ framed b b'.
Proof.
  intros Hb. unfold move_cursor_with_selection.
  set (b0 := if is_vertical motion then b else with_col b None).
  assert (Hb0 : pos_ok b0) by (unfold b0; by destruct (is_vertical motion)).
  assert (E0 : text b0 = text b /\ history b0 = history b /\ selection_anchor b0 = selection_anchor b)
    by (unfold b0; by destruct (is_vertical motion)).
  destruct (motion_position_ok b0 motion Hb0) as (i & -> & Hi). cbn [mbind option_bind].
  assert (Hcol : exists col, (if is_vertical motion && bool_decide (desired_visual_col b0 = None)
    then Some <$> cursor_visual_col b0 else Some (desired_visual_col b0)) = Some col).
  { destruct (cursor_visual_col_ok b0 Hb0) as [col ->]. case_match; by eexists. }
  destruct Hcol as [col ->]. cbn [mbind option_bind]. eexists. split; [done|].
  destruct E0 as (Et & Eh & Ea). unfold framed. cbn [text history]. rewrite Et, Eh.
  split_and!; [done..|]. split; cbn [text cursor selection_anchor]; [by rewrite <- Et|].
  intros j Hj. rewrite Ea in Hj. destruct Hb as [Hc Ha].
  destruct mode; case_decide; try done. injection Hj as <-.
  destruct (selection_anchor b); simpl; [by apply Ha|done].
Qed.

(** Walking a [bind] chain of operations that frame. *)
Lemma framed_bind (f g : TextEditBuffer -> option TextEditBuffer) b :
  (exists b', f b = Some b' /\ framed b b') ->
  (forall b', pos_ok b' -> exists b'', g b' = Some b'' /\ framed b' b'') ->
  exists b', (b' ← f b; g b') = Some b' /\ framed b b'.
Proof.
  intros (b' & -> & Hf) Hg. cbn [mbind option_bind].
  destruct (Hg b') as (b'' & -> & Hf'); [apply Hf|]. exists b''. split; [done|by eapply framed_trans].
Qed.

Lemma move_in_layout_ok layout delta mode b :
  pos_ok b -> exists b', move_cursor_in_layout layout delta mode b = Some b' /\ framed b b'.
Proof.
  intros Hb. unfold move_cursor_in_layout. apply framed_bind; [by apply move_ok|].
  intros b' Hb'. by eexists.
Qed.

Lemma viewport_start_ok t width i col :
  (i <= length (grapheme_spans t))%nat -> exists j, viewport_start (grapheme_spans t) width i col = Some j.
Proof.
  revert col. induction i as [|i IH]; intros col Hi; [by exists 0%nat|]. cbn [viewport_start].
  destruct (span_slice t i) as (span & g & -> & _); [lia|]. cbn [mbind option_bind].
  case_decide; [by eexists|]. apply IH. lia.
Qed.

Lemma viewport_fill_ok t ci width i shown used col :
  exists r, viewport_fill t (drop i (grapheme_spans t)) ci i width shown used col = Some r.
Proof.
  remember (drop i (grapheme_spans t)) as rest eqn:E. revert i E shown used col.
  induction rest as [|span rest IH]; intros i E shown used col; [by eexists|]. cbn [viewport_fill].
  case_decide; [by eexists|].
  assert (Hi : (i < length (grapheme_spans t))%nat).
  { destruct (decide (i < length (grapheme_spans t))%nat); [done|]. rewrite drop_ge in E by lia. done. }
  destruct (span_slice t i Hi) as (span' & g & Hs & Hg & _). rewrite (drop_S _ _ _ Hs) in E.
  injection E as -> E. rewrite Hg. cbn [mbind option_bind]. by apply IH.
Qed.

Lemma line_viewport_ok t c width : exists v, line_viewport t c width = Some v.
Proof.
  unfold line_viewport. case_decide; [by eexists|].
  destruct (viewport_start_ok t width (span_index (grapheme_spans t) c) 0) as [j ->].
  { apply span_index_le. }
  cbn [mbind option_bind].
  destruct (viewport_fill_ok t (span_index (grapheme_spans t) c) width j [] 0 0) as [[[shown used] col] ->].
  cbn [mbind option_bind]. by eexists.
Qed.

Lemma move_to_viewport_ok width col mode b :
  pos_ok b -> exists b', move_cursor_to_line_viewport_col width col mode b = Some b' /\ framed b b'.
Proof.
  intros Hb. unfold move_cursor_to_line_viewport_col, byte_index_for_line_viewport_col.
  destruct (line_viewport_ok (text b) (cursor b) width) as [v ->]. cbn [mbind option_bind].
  by apply move_ok.
Qed.

Lemma move_to_wrapped_ok width row col mode b :
  pos_ok b -> exists b', move_cursor_to_wrapped_position width row col mode b = Some b' /\ framed b b'.
Proof.
  intros Hb. unfold move_cursor_to_wrapped_position, wrapped_layout.
  destruct (wrapped_layout_ok (text b) (cursor b) width None (proj1 Hb)) as (layout & _ & _ & -> & _).
  cbn [mbind option_bind]. by apply move_ok.
Qed.

(** ** Pointer gestures *)

Lemma select_ok a c b : pos_ok b -> exists b', select a c b = Some b' /\ framed b b'.
Proof.
  intros Hb. unfold select. apply framed_bind; [by apply move_ok|]. intros b' Hb'. by apply move_ok.
Qed.

Lemma select_all_framed b : framed b (select_all b).
Proof.
  unfold framed. split_and!; [done..|]. split; [apply boundary_len|]. intros i [= <-]. apply boundary_0.
Qed.

Lemma range_at_lt ranges index i : range_at ranges index = Some i -> (i < length ranges)%nat.
Proof.
  revert i. induction ranges as [|[[s e] g] ranges IH]; intros i; cbn [range_at]; [done|].
  case_decide; [intros [= <-]; simpl; lia|]. intros (j & Hj & ->)%fmap_Some. apply IH in Hj. simpl. lia.
Qed.

Lemma next_non_space_lt rest position i :
  next_non_space rest position = Some i -> (position <= i < position + length rest)%nat.
Proof.
  revert position. induction rest as [|[[s e] g] rest IH]; intros position; cbn [next_non_space]; [done|].
  destruct (forallb _ g); [intros Hi%IH; simpl; lia|]. intros [= <-]. simpl. lia.
Qed.

Lemma grow_left_ok ranges i :
  (i <= length ranges)%nat -> exists j, grow_left ranges i = Some j /\ (j <= i)%nat.
Proof.
  induction i as [|i IH]; intros Hi; [by exists 0%nat|]. cbn [grow_left].
  destruct (lookup_lt_is_Some_2 ranges i) as [[[s e] g] ->]; [lia|]. cbn [mbind option_bind].
  destruct (is_word_grapheme g); [|by exists (S i)].
  destruct IH as (j & -> & ?); [lia|]. exists j. split; [done|lia].
Qed.

Lemma grow_right_lt rest i : (i <= grow_right rest i <= i + length rest)%nat.
Proof.
  revert i. induction rest as [|[[s e] g] rest IH]; intros i; simpl; [lia|].
  destruct (is_word_grapheme g); [|lia]. specialize (IH (S i)). lia.
Qed.

Lemma word_range_ok t index : exists r, word_range_at t index = Some r.
Proof.
  unfold word_range_at. case_decide as Hne; [by eexists|].
  set (ranges := grapheme_ranges t) in *. set (p0 := default _ (range_at ranges _)).
  assert (Hlen : (0 < length ranges)%nat) by (by destruct ranges; [|simpl; lia]).
  assert (Hp0 : (p0 < length ranges)%nat).
  { unfold p0. destruct (range_at ranges _) eqn:E; simpl; [by apply range_at_lt in E|lia]. }
  destruct (lookup_lt_is_Some_2 ranges p0 Hp0) as [[[s0 e0] g0] E0]. rewrite E0. cbn [mbind option_bind].
  set (p1 := if forallb _ g0 then _ else _).
  assert (Hp1 : (p1 < length ranges)%nat).
  { unfold p1. destruct (forallb _ g0); [|done].
    destruct (next_non_space _ _) as [i|] eqn:E; simpl; [|done].
    apply next_non_space_lt in E. rewrite length_drop in E. lia. }
  destruct (lookup_lt_is_Some_2 ranges p1 Hp1) as [[[s1 e1] g1] E1]. rewrite E1. cbn [mbind option_bind].
  destruct (forallb _ g1); [by eexists|].
  destruct (grow_left_ok ranges p1) as (j & -> & Hj); [lia|]. cbn [mbind option_bind].
  destruct (lookup_lt_is_Some_2 ranges j) as [[[s2 e2] g2] ->]; [lia|]. cbn [mbind option_bind].
  pose proof (grow_right_lt (drop (S p1) ranges) p1) as Hr. rewrite length_drop in Hr.
  destruct (lookup_lt_is_Some_2 ranges (grow_right (drop (S p1) ranges) p1)) as [[[s3 e3] g3] ->]; [lia|].
  cbn [mbind option_bind]. by eexists.
Qed.

Lemma floor_boundary t i : boundary t (Z.of_nat (floor_char_boundary t i)).
Proof.
  induction i as [|i IH]; [apply boundary_0|]. cbn [floor_char_boundary].
  destruct (is_char_boundary t _) eqn:E; [by apply is_char_boundary_iff|done].
Qed.

Lemma line_range_ok t index : exists r, line_range_at t index = Some r.
Proof.
  unfold line_range_at. set (i := Z.of_nat _).
  assert (Hi : boundary t i) by apply floor_boundary. clearbody i. destruct Hi as (p & s & -> & ->).
  rewrite slice_to_app, slice_from_app. cbn [mbind option_bind]. by eexists.
Qed.

Lemma pointer_drag_ok p index b : pos_ok b -> exists b', pointer_drag p index b = Some b' /\ framed b b'.
Proof.
  intros Hb. unfold pointer_drag. destruct (granularity p) as [g|]; [|by exists b].
  destruct (word_range_ok (text b) index) as [rw Hw], (line_range_ok (text b) index) as [[l1 l2] Hl].
  destruct g; rewrite ?Hw, ?Hl; cbn [mbind option_bind].
  - case_decide; by apply select_ok.
  - destruct (default _ rw). case_decide; by apply select_ok.
  - case_decide; by apply select_ok.
  - eexists. split; [done|apply select_all_framed].
Qed.

Lemma pointer_begin_ok index g extend b :
  pos_ok b -> exists p b', pointer_begin index g extend b = Some (p, b') /\ framed b b'.
Proof.
  intros Hb. unfold pointer_begin. destruct extend.
  { destruct (pointer_drag_ok (mkPointer (Some g) (default (cursor b) (selection_anchor b),
                                  default (cursor b) (selection_anchor b))) index b Hb) as (b' & -> & Hf).
    cbn [mbind option_bind]. by eexists _, _. }
  destruct (move_ok (Absolute index) Move b Hb) as (b1 & Hm & Hf1). unfold move_cursor. rewrite Hm.
  cbn [mbind option_bind].
  destruct (word_range_ok (text b) index) as [rw Hw], (line_range_ok (text b) index) as [[l1 l2] Hl].
  destruct g; rewrite ?Hw, ?Hl; cbn [mbind option_bind].
  - by eexists _, _.
  - destruct rw as [[w1 w2]|]; [|by eexists _, _].
    destruct (select_ok w1 w2 b Hb) as (b' & -> & Hf). by eexists _, _.
  - destruct (select_ok l1 l2 b Hb) as (b' & -> & Hf). by eexists _, _.
  - eexists _, _. split; [done|apply select_all_framed].
Qed.
End props.
