(* ===== verification/TextHistory.v ===== *)
(** * Undo history of the text editor

    The undo and redo stacks are a timeline of texts with a position: undo and
    redo move along it, an edit cuts the future off and appends, merging with the
    last version when it joins the open step and dropping the oldest versions
    only when they no longer fit; its size is bounded. *)

From S2P Require Import Prelude Utf8 TextStr TextWrap TextWrapProps TextEdit TextActions TextEditProps.

Section history.
Context `{UL : UnicodeLaws}.

(** ** What an operation other than undo and redo does *)

(** The kind of edit an operation records. *)
Definition op_kind (op : EditorOp) : EditKind :=
  match op with
  | OpCommand (InsertCommand _) | OpCommand (InsertString _) => Insert
  | OpDeleteBackward => DeleteBackward
  | OpDeleteForward => DeleteForward
  | _ => Other
  end.

(** When an operation happens: at the input time set for it, or by the clock. *)
Definition op_time (clock : Z) (b : TextEditBuffer) : Z := default clock (input_time (history b)).

Inductive op_effect (op : EditorOp) (clock : Z) (b : TextEditBuffer) : TextEditBuffer -> Prop :=
| eff_framed b' : op <> OpClearHistory -> framed b b' -> op_effect op clock b b'
| eff_edit b1 b' : op <> OpClearHistory -> pos_ok b1 -> edit_outcome (op_kind op) (op_time clock b) b b1 b' ->
    op_effect op clock b b'
| eff_forget b' :
    op = OpClearHistory -> text b' = text b -> pos_ok b' ->
    undo_stack (history b') = [] -> redo_stack (history b') = [] -> op_effect op clock b b'.

Definition runs (op : EditorOp) (clock : Z) (b : TextEditBuffer) (o : option TextEditBuffer) : Prop :=
  exists b', o = Some b' /\ op_effect op clock b b'.

Lemma runs_framed op clock b o :
  op <> OpClearHistory -> (exists b', o = Some b' /\ framed b b') -> runs op clock b o.
Proof. intros Hop (b' & -> & Hf). exists b'. split; [done|by apply eff_framed]. Qed.

Lemma runs_record {T} op (edit : TextEditBuffer -> option (TextEditBuffer * T)) clock b :
  op <> OpClearHistory -> good_edit edit -> pos_ok b -> runs op clock b (fst <$> record_edit (op_kind op) edit clock b).
Proof.
  intros Hop He Hb. set (kind := op_kind op).
  destruct (record_edit_outcome kind edit clock b He Hb) as (b0 & b1 & r & b' & _ & _ & _ & _ & -> & Hb1 & Ho).
  exists b'. split; [done|by eapply eff_edit].
Qed.

Lemma apply_command_runs command clock b : pos_ok b -> runs (OpCommand command) clock b (apply_command command clock b).
Proof.
  intros Hb. destruct command; cbn [apply_command].
  - apply (runs_record (OpCommand (InsertCommand _))); [done|apply insert_str_good|done].
  - apply (runs_record (OpCommand (InsertString _))); [done|apply insert_str_good|done].
  - apply (runs_record (OpCommand (Paste _))); [done|apply paste_good|done].
  - by apply runs_framed, move_ok.
  - apply (runs_record (OpCommand (DeleteCommand _))); [done|apply delete_good|done].
  - apply (runs_record (OpCommand ClearCommand)); [done|apply clear_good|done].
Qed.

Lemma apply_action_runs a clock b :
  pos_ok b -> a <> Undo -> a <> Redo -> runs (OpAction a) clock b (fst <$> apply_action a clock b).
Proof.
  intros Hb Hu Hr.
  assert (Hmove : forall motion mode,
    runs (OpAction a) clock b (fst <$> (b' ← move_cursor_with_selection motion mode b; Some (b', false)))).
  { intros motion mode. destruct (move_ok motion mode b Hb) as (b' & -> & Hf).
    exists b'. split; [done|by apply eff_framed]. }
  assert (Hdel : forall d, runs (OpAction a) clock b (fst <$> (b' ← delete d clock b;
    Some (b', bool_decide (str_len (text b') <> str_len (text b)))))).
  { intros d. destruct (runs_record (OpAction a) (delete_unrecorded d) clock b) as (b' & E & He); [done|apply delete_good|done|].
    unfold delete. cbn [op_kind] in E. rewrite E. by exists b'. }
  destruct a; cbn [apply_action action_motion deletion]; try apply Hmove; try apply Hdel; try done.
  - eexists. split; [done|apply eff_framed; [done|apply select_all_framed]].
  - destruct (runs_record (OpAction Clear) clear_unrecorded clock b) as (b' & E & He); [done|apply clear_good|done|].
    unfold clear. cbn [op_kind] in E. rewrite E. by exists b'.
Qed.

Lemma valid_position_boundary t i : valid_position t i = true -> boundary t i.
Proof. unfold valid_position. intros [H _]%andb_true_iff. by apply is_char_boundary_iff. Qed.

Lemma replace_runs expected start stop replacement c a clock b :
  pos_ok b -> runs (OpReplace expected start stop replacement c a) clock b
    (fst <$> replace_byte_range expected start stop replacement c a clock b).
Proof.
  intros Hb. set (op := OpReplace _ _ _ _ _ _).
  assert (Hsame : runs op clock b (Some b)) by (exists b; split; [done|by apply eff_framed]).
  unfold replace_byte_range. case_decide; [done|]. destruct (replace_range _ _ _ _) as [t|]; [|done].
  destruct (_ || _) eqn:Ev; [done|]. case_decide; [done|].
  apply orb_false_iff in Ev as [Ec Ea]. apply negb_false_iff, valid_position_boundary in Ec.
  set (edit := fun b : TextEditBuffer => _ : option (TextEditBuffer * unit)).
  assert (Hgood : good_edit edit).
  { intros b0 _. eexists _, _. split_and!; [done| |done]. split; [done|]. intros i Hi.
    cbn [selection_anchor] in Hi. subst a. by apply negb_false_iff, valid_position_boundary in Ea. }
  destruct (record_edit_outcome Other edit clock b Hgood Hb)
    as (b0 & b1 & r & b' & _ & _ & _ & _ & -> & Hb1 & Ho).
  exists b'. split; [done|by eapply eff_edit].
Qed.

Lemma cut_runs clock b : pos_ok b -> runs OpCutSelection clock b (fst <$> cut_selection clock b).
Proof.
  intros Hb. unfold cut_selection, selected_text. destruct (selection b) as [[start stop]|] eqn:E.
  - destruct (selection_range b start stop Hb E) as (H1 & H2 & H3).
    destruct (slice_boundaries _ _ _ H1 H2 H3) as (m & _ & _ & -> & _). cbn [mbind option_bind].
    unfold delete_selection. destruct (record_edit_outcome Other delete_selection_unrecorded clock b
      delete_selection_good Hb) as (b0 & b1 & r & b' & _ & _ & _ & _ & -> & Hb1 & Ho).
    exists b'. split; [done|by eapply eff_edit].
  - exists b. split; [done|by apply eff_framed].
Qed.

Lemma apply_op_runs op clock b :
  pos_ok b -> op <> OpAction Undo -> op <> OpAction Redo -> runs op clock b (apply_op op clock b).
Proof.
  intros Hb Hu Hr. assert (Hkeep : forall b', op <> OpClearHistory -> framed b b' -> runs op clock b (Some b')).
  { intros b' Hop Hf. exists b'. split; [done|by apply eff_framed]. }
  destruct op; cbn [apply_op].
  - by apply apply_command_runs.
  - apply apply_action_runs; [done|by intros ->..].
  - apply (runs_record OpDeleteBackward); [done|apply delete_backward_good|done].
  - apply (runs_record OpDeleteForward); [done|apply delete_forward_good|done].
  - apply (runs_record OpDeleteSelection delete_selection_unrecorded); [done|apply delete_selection_good|done].
  - by apply cut_runs.
  - by apply runs_framed, move_ok.
  - by apply runs_framed, move_in_layout_ok.
  - by apply runs_framed, move_to_viewport_ok.
  - by apply runs_framed, move_to_wrapped_ok.
  - by apply replace_runs.
  - apply Hkeep; [done|]. split_and!; [done..|]. apply positions_none, (proj1 Hb).
  - eexists. split; [done|]. by apply eff_forget.
  - by apply Hkeep.
  - by apply Hkeep.
  - by apply Hkeep.
  - by apply Hkeep.
  - by apply Hkeep.
  - destruct (pointer_begin_ok byte_index g extend b Hb) as (p & b' & -> & Hf). by apply Hkeep.
  - by apply runs_framed, pointer_drag_ok.
Qed.

(** ** The invariant *)

Definition text_before (t : Transaction) : list Z := st_text (state (before t)).
Definition text_after (t : Transaction) : list Z := st_text (state (after t)).

(** The steps lead from the text [v] to the text [w]. *)
Fixpoint path (v : list Z) (ts : list Transaction) (w : list Z) : Prop :=
  match ts with
  | [] => v = w
  | t :: ts => text_before t = v /\ path (text_after t) ts w
  end.

Definition step_ok (t : Transaction) : Prop :=
  state_ok (before t) /\ state_ok (after t) /\
  str_len (text_before t) <= MAX_HISTORY_BYTES /\ str_len (text_after t) <= MAX_HISTORY_BYTES.

Record buffer_wf (b : TextEditBuffer) : Prop := {
  wf_pos : pos_ok b;
  wf_steps : Forall step_ok (undo_stack (history b) ++ redo_stack (history b));
  wf_undo : exists v, path v (undo_stack (history b)) (text b);
  wf_redo : exists w, path (text b) (reverse (redo_stack (history b))) w;
  wf_entries : (length (undo_stack (history b)) + length (redo_stack (history b)) <= MAX_HISTORY_ENTRIES)%nat;
  wf_bytes : bytes_of (undo_stack (history b)) + bytes_of (redo_stack (history b)) <= MAX_HISTORY_BYTES \/
             length (undo_stack (history b) ++ redo_stack (history b)) = 1%nat;
}.

Lemma path_app v l k w : path v (l ++ k) w <-> exists m, path v l m /\ path m k w.
Proof.
  revert v. induction l as [|t l IH]; intros v; simpl.
  - split; [by exists v|]. by intros (m & -> & ?).
  - rewrite IH. split; [intros (? & m & ? & ?); by exists m|intros (m & (? & ?) & ?)]. split; [done|by exists m].
Qed.

Lemma bytes_of_app l k : bytes_of (l ++ k) = bytes_of l + bytes_of k.
Proof. induction l as [|t l IH]; simpl; [done|]. rewrite IH. lia. Qed.

Lemma Transaction_bytes_nonneg t : 0 <= Transaction_bytes t.
Proof.
  unfold Transaction_bytes. pose proof (str_len_nonneg (st_text (state (before t)))).
  pose proof (str_len_nonneg (st_text (state (after t)))). lia.
Qed.

Lemma bytes_of_nonneg l : 0 <= bytes_of l.
Proof. induction l as [|t l IH]; simpl; [done|]. pose proof (Transaction_bytes_nonneg t). lia. Qed.

Lemma prune_spec bytes l :
  prune bytes l `suffix_of` l /\
  (bytes <= MAX_HISTORY_BYTES -> (length (prune bytes l) < MAX_HISTORY_ENTRIES)%nat /\
     bytes_of (prune bytes l) <= MAX_HISTORY_BYTES - bytes).
Proof.
  induction l as [|t l [IHs IH]].
  - split; [done|]. intros Hb. cbn [prune bytes_of foldr length]. unfold MAX_HISTORY_ENTRIES. lia.
  - cbn [prune]. case_decide as Hc; [split; [by apply suffix_cons_r|done]|].
    split; [done|]. intros _. apply Decidable.not_or in Hc. cbn [length] in *. lia.
Qed.

(** [prune] keeps the longest end that fits. *)
Lemma prune_longest bytes l k :
  k `suffix_of` l -> (length (prune bytes l) < length k)%nat ->
  (MAX_HISTORY_ENTRIES <= length k)%nat \/ MAX_HISTORY_BYTES - bytes < bytes_of k.
Proof.
  induction l as [|t l IH]; intros Hk Hl.
  - apply suffix_nil_inv in Hk as ->. simpl in Hl. lia.
  - cbn [prune] in Hl. destruct (decide _) as [Hc|_] in Hl.
    + destruct Hk as [[|x p] Hp]; [by simpl in Hp; subst k|]. injection Hp as _ Hp. apply IH; [by exists p|done].
    + apply suffix_length in Hk. lia.
Qed.

(** The steps a recorded edit keeps, whatever the budget. *)
Definition kept_steps (bytes : Z) (kept : list Transaction) : list Transaction :=
  if decide (MAX_HISTORY_BYTES < bytes) then [] else prune bytes kept.

Lemma kept_steps_suffix bytes kept : kept_steps bytes kept `suffix_of` kept.
Proof. unfold kept_steps. case_decide; [by apply suffix_nil|]. apply prune_spec. Qed.

Lemma suffix_path v l k w : k `suffix_of` l -> path v l w -> exists v', path v' k w.
Proof. intros [p ->] (m & _ & Hm)%path_app. by exists m. Qed.

Lemma Forall_suffix {A} (P : A -> Prop) l k : k `suffix_of` l -> Forall P l -> Forall P k.
Proof. intros [p ->] [_ H]%Forall_app. done. Qed.

Lemma path_before v l t w : path v (l ++ [t]) w -> path v l (text_before t) /\ text_after t = w.
Proof. intros (m & Hm & <- & Hw)%path_app. done. Qed.

(** ** Every operation keeps the invariant *)

Lemma from_text_wf t : buffer_wf (from_text t).
Proof.
  split; simpl.
  - apply positions_none, boundary_len.
  - constructor.
  - by exists t.
  - by exists t.
  - unfold MAX_HISTORY_ENTRIES. lia.
  - left. done.
Qed.

Lemma framed_wf b b' : framed b b' -> buffer_wf b -> buffer_wf b'.
Proof.
  intros (Et & Eu & Er & Hp) [H1 H2 H3 H4 H5 H6]. split; rewrite ?Et, ?Eu, ?Er; done.
Qed.

Lemma empty_history_wf b :
  pos_ok b -> undo_stack (history b) = [] -> redo_stack (history b) = [] -> buffer_wf b.
Proof.
  intros Hp Eu Er. split; rewrite ?Eu, ?Er; simpl; [done|constructor|by exists (text b)..| |by left].
  unfold MAX_HISTORY_ENTRIES. lia.
Qed.

(** The base of a recorded step. *)
Lemma base_ok (J : Prop) b base kept :
  buffer_wf b -> str_len (text b) <= MAX_HISTORY_BYTES ->
  ~ J /\ base = retained_state b /\ kept = undo_stack (history b) \/
    J /\ (exists step, undo_stack (history b) = kept ++ [step] /\ base = before step /\
       state (after step) = edit_state b) ->
  state_ok base /\ str_len (st_text (state base)) <= MAX_HISTORY_BYTES /\ Forall step_ok kept /\
  exists v, path v kept (st_text (state base)).
Proof.
  intros Hwf Hlen Hbase. pose proof (wf_steps _ Hwf) as [Hu _]%Forall_app.
  destruct (wf_undo _ Hwf) as [v Hv]. destruct Hbase as [(_ & -> & ->)|[_ (step & Eu & -> & _)]].
  - split_and!; [apply (wf_pos _ Hwf)|done|done|by exists v].
  - rewrite Eu in Hu, Hv. apply Forall_app in Hu as [Hk [Hs _]%Forall_cons].
    destruct Hs as (Hs1 & _ & Hs2 & _). apply path_before in Hv as [Hv _].
    split_and!; [done..|by exists v].
Qed.

Lemma outcome_wf kind now b b1 b' : buffer_wf b -> pos_ok b1 -> edit_outcome kind now b b1 b' -> buffer_wf b'.
Proof.
  intros Hwf Hb1 Ho. destruct Ho as [h Et Eu Er|h Ht Hlen Eu Er|h base kept Ht Hlen Hbase Eu Er].
  - apply (framed_wf b); [|done]. split_and!; [done..|apply (wf_pos _ Hwf)].
  - by apply empty_history_wf.
  - pose proof (str_len_nonneg (text b1)). pose proof (str_len_nonneg (text b)).
    destruct (base_ok (joins kind now b b1) b base kept Hwf) as (Hb & Hbl & Hk & v & Hv); [lia|done|].
    set (bytes := str_len (st_text (state base)) + str_len (text b1)) in *.
    change (undo_stack h = kept_steps bytes kept ++ [mkTransaction base (retained_state b1)]) in Eu.
    pose proof (kept_steps_suffix bytes kept) as Hsuf.
    split; cbn [history with_history]; rewrite ?Eu, ?Er; cbn [reverse rev_append].
    + done.
    + rewrite app_nil_r. apply Forall_app. split; [by eapply Forall_suffix|].
      apply Forall_singleton. split_and!; [done|done|done|]. change (str_len (text b1) <= MAX_HISTORY_BYTES). lia.
    + destruct (suffix_path _ _ _ _ Hsuf Hv) as [v' Hv']. exists v'. apply path_app.
      eexists. split; [done|]. by split.
    + by exists (text b1).
    + rewrite length_app. cbn [length]. unfold kept_steps. case_decide; [unfold MAX_HISTORY_ENTRIES; simpl; lia|].
      destruct (prune_spec bytes kept) as [_ Hp]. lia.
    + unfold kept_steps. case_decide; [by right|left]. destruct (prune_spec bytes kept) as [_ Hp].
      rewrite bytes_of_app. change (bytes_of [mkTransaction base (retained_state b1)]) with (bytes + 0).
      cbn [bytes_of foldr]. lia.
Qed.

Lemma undo_some b t : last (undo_stack (history b)) = Some t ->
  exists u, undo_stack (history b) = u ++ [t] /\
    undo b = (with_history (restore_state b (before t))
      (mkHistory u (redo_stack (history b) ++ [t]) (policy (history b)) None (input_time (history b))), true).
Proof.
  intros Hl. exists (removelast (undo_stack (history b))). split; [by apply last_removelast|].
  unfold undo. by rewrite Hl.
Qed.

Lemma redo_some b t : last (redo_stack (history b)) = Some t ->
  exists r, redo_stack (history b) = r ++ [t] /\
    redo b = (with_history (restore_state b (after t))
      (mkHistory (undo_stack (history b) ++ [t]) r (policy (history b)) None (input_time (history b))), true).
Proof.
  intros Hl. exists (removelast (redo_stack (history b))). split; [by apply last_removelast|].
  unfold redo. by rewrite Hl.
Qed.

Lemma undo_wf b : buffer_wf b -> buffer_wf (undo b).1.
Proof.
  intros Hwf. destruct (last (undo_stack (history b))) as [t|] eqn:E; [|unfold undo; by rewrite E].
  destruct (undo_some b t E) as (u & Eu & ->). destruct Hwf as [_ H2 [v H3] [w H4] H5 H6].
  rewrite Eu in *. apply path_before in H3 as [Hv Hw].
  apply Forall_app in H2 as [[Hu Ht]%Forall_app Hr]. pose proof (Forall_singleton step_ok t) as [Hst _].
  destruct (Hst Ht) as (Hs1 & Hs2 & _ & _).
  split; cbn [fst history with_history undo_stack redo_stack text restore_state].
  - done.
  - by repeat apply Forall_app_2.
  - by exists v.
  - exists w. rewrite reverse_snoc. split; [done|]. by rewrite Hw.
  - rewrite !length_app in *. simpl in *. lia.
  - rewrite !bytes_of_app, !length_app in *. simpl in *. lia.
Qed.

Lemma redo_wf b : buffer_wf b -> buffer_wf (redo b).1.
Proof.
  intros Hwf. destruct (last (redo_stack (history b))) as [t|] eqn:E; [|unfold redo; by rewrite E].
  destruct (redo_some b t E) as (r & Er & ->). destruct Hwf as [_ H2 [v H3] [w H4] H5 H6].
  rewrite Er in *. rewrite reverse_snoc in H4. destruct H4 as [Hv Hw].
  apply Forall_app in H2 as [Hu [Hr Ht]%Forall_app]. pose proof (Forall_singleton step_ok t) as [Hst _].
  destruct (Hst Ht) as (Hs1 & Hs2 & _ & _).
  split; cbn [fst history with_history undo_stack redo_stack text restore_state].
  - done.
  - by repeat apply Forall_app_2.
  - exists v. apply path_app. exists (text b). by split.
  - by exists w.
  - rewrite !length_app in *. simpl in *. lia.
  - rewrite !bytes_of_app, !length_app in *. simpl in *. lia.
Qed.

Lemma effect_wf op clock b b' : buffer_wf b -> op_effect op clock b b' -> buffer_wf b'.
Proof.
  intros Hwf [b1 _ Hf|b1 b2 _ Hb1 Ho|b1 _ Et Hp Eu Er].
  - by eapply framed_wf.
  - by eapply outcome_wf.
  - by apply empty_history_wf.
Qed.

Lemma apply_op_wf op clock b : buffer_wf b -> exists b', apply_op op clock b = Some b' /\ buffer_wf b'.
Proof.
  intros Hwf.
  assert (Hop : op = OpAction Undo \/ op = OpAction Redo \/ (op <> OpAction Undo /\ op <> OpAction Redo)).
  { destruct op as [|[]| | | | | | | | | | | | | | | | | |]; auto. }
  destruct Hop as [->|[->|[Hu Hr]]].
  - eexists. split; [done|by apply undo_wf].
  - eexists. split; [done|by apply redo_wf].
  - destruct (apply_op_runs op clock b (wf_pos _ Hwf) Hu Hr) as (b' & -> & He).
    exists b'. split; [done|by eapply effect_wf].
Qed.

Lemma run_ops_wf ops b : buffer_wf b -> exists b', run_ops ops b = Some b' /\ buffer_wf b'.
Proof.
  revert b. induction ops as [|[op clock] ops IH]; intros b Hwf; cbn [run_ops]; [by exists b|].
  destruct (apply_op_wf op clock b Hwf) as (b' & -> & Hwf'). by apply IH.
Qed.

(** ** The timeline *)

Definition versions (b : TextEditBuffer) : list (list Z) :=
  (text_before <$> undo_stack (history b)) ++ text b :: (text_after <$> reverse (redo_stack (history b))).

Definition position (b : TextEditBuffer) : nat := length (undo_stack (history b)).

(** The bytes a run of versions costs: each step holds the text before it and
    the text after it. *)
Fixpoint timeline_bytes (vs : list (list Z)) : Z :=
  match vs with
  | v :: (w :: _) as rest => str_len v + str_len w + timeline_bytes rest
  | _ => 0
  end.

(** Versions that fit the history: at most 128 steps and 1 MiB. *)
Definition fits (vs : list (list Z)) : Prop :=
  (length vs <= S MAX_HISTORY_ENTRIES)%nat /\ timeline_bytes vs <= MAX_HISTORY_BYTES.

(** [kept] is the longest end of [past] that fits together with the new text,
    and never less than the last version. *)
Definition longest_fitting (past : list (list Z)) (new_text : list Z) (kept : list (list Z)) : Prop :=
  kept `suffix_of` past /\ kept <> [] /\ (fits (kept ++ [new_text]) \/ length kept = 1%nat) /\
  forall k, k `suffix_of` past -> (length kept < length k)%nat -> ~ fits (k ++ [new_text]).

(** What an operation other than undo and redo does to the timeline. One that
    keeps the text leaves it alone, unless it is the one that clears it. One
    that changes the text cuts it behind the current version, or before it when
    the edit joins the open step, keeps the longest past that fits, and appends
    the new text; only when the two texts alone exceed the budget is all
    forgotten. *)
Inductive timeline_step (op : EditorOp) (clock : Z) (b b' : TextEditBuffer) : Prop :=
| timeline_same :
    op <> OpClearHistory -> text b' = text b -> versions b' = versions b -> position b' = position b ->
    timeline_step op clock b b'
| timeline_clear :
    op = OpClearHistory -> text b' = text b -> versions b' = [text b] -> timeline_step op clock b b'
| timeline_oversized :
    text b' <> text b -> MAX_HISTORY_BYTES < str_len (text b) + str_len (text b') ->
    versions b' = [text b'] -> timeline_step op clock b b'
| timeline_edit cut kept :
    text b' <> text b -> str_len (text b) + str_len (text b') <= MAX_HISTORY_BYTES ->
    joins (op_kind op) (op_time clock b) b b' /\ cut = position b \/
      ~ joins (op_kind op) (op_time clock b) b b' /\ cut = S (position b) ->
    longest_fitting (take cut (versions b)) (text b') kept ->
    versions b' = kept ++ [text b'] -> position b' = length kept -> timeline_step op clock b b'.

Lemma versions_take_here b :
  take (S (position b)) (versions b) = (text_before <$> undo_stack (history b)) ++ [text b].
Proof.
  unfold versions, position. rewrite cons_middle, (assoc_L app), take_app_length'; [done|].
  rewrite length_app, length_fmap. simpl. lia.
Qed.

Lemma versions_take_undo b : take (position b) (versions b) = text_before <$> undo_stack (history b).
Proof. unfold versions, position. rewrite take_app_length'; [done|by rewrite length_fmap]. Qed.

Lemma timeline_bytes_path v l w : path v l w -> timeline_bytes ((text_before <$> l) ++ [w]) = bytes_of l.
Proof.
  revert v. induction l as [|t l IH]; intros v; [done|]. intros [_ Hp]. rewrite fmap_cons. cbn [bytes_of foldr].
  fold (bytes_of l). rewrite <- (IH _ Hp). unfold Transaction_bytes. fold (text_before t) (text_after t).
  destruct l as [|t' l]; [by cbn in *; subst|]. destruct Hp as [<- _]. cbn [app fmap list_fmap timeline_bytes]. lia.
Qed.

(** The ends of a past that ends in [m] are the ends of its steps, and [m]. *)
Lemma suffix_before k l m :
  k `suffix_of` (text_before <$> l) ++ [m] -> k <> [] ->
  exists j, j `suffix_of` l /\ k = (text_before <$> j) ++ [m].
Proof.
  intros [p Hp] Hk. destruct (exists_last Hk) as (k' & x & ->). rewrite (assoc_L app) in Hp.
  apply app_inj_2 in Hp as [Hp [= <-]]; [|done]. apply fmap_app_inv in Hp as (l1 & j & _ & -> & ->).
  exists j. split; [by exists l1|done].
Qed.

Lemma kept_steps_longest v l base after_state :
  let m := st_text (state base) in
  let bytes := str_len m + str_len (st_text (state after_state)) in
  path v l m ->
  longest_fitting ((text_before <$> l) ++ [m]) (st_text (state after_state)) ((text_before <$> kept_steps bytes l) ++ [m]).
Proof.
  intros m bytes Hv. set (w := st_text (state after_state)). set (step := mkTransaction base after_state).
  assert (forall j, j `suffix_of` l ->
    fits (((text_before <$> j) ++ [m]) ++ [w]) <->
    (length j < MAX_HISTORY_ENTRIES)%nat /\ bytes_of j + bytes <= MAX_HISTORY_BYTES) as Hfits.
  { intros j Hj. destruct (suffix_path _ _ _ _ Hj Hv) as [v' Hj'].
    assert (path v' (j ++ [step]) w) as Hp by (apply path_app; exists m; split; [done|by split]).
    assert (((text_before <$> j) ++ [m]) = text_before <$> (j ++ [step])) as -> by (by rewrite fmap_app).
    unfold fits. rewrite (timeline_bytes_path _ _ _ Hp), bytes_of_app, !length_app, length_fmap, length_app.
    change (bytes_of [step]) with (bytes + 0). simpl. lia. }
  pose proof (kept_steps_suffix bytes l) as Hsuf. split_and!.
  - destruct Hsuf as [p Hp]. exists (text_before <$> p). rewrite (assoc_L app), <- fmap_app. by rewrite <- Hp.
  - by intros [_ ?]%app_eq_nil.
  - rewrite (Hfits _ Hsuf). unfold kept_steps. destruct (decide _) as [Hb|Hb]; [by right|left].
    destruct (prune_spec bytes l) as [_ Hp]. lia.
  - intros k Hk Hlen. destruct (suffix_before k l m Hk) as (j & Hj & ->); [by intros ->; simpl in Hlen; lia|].
    rewrite (Hfits _ Hj). rewrite !length_app, !length_fmap in Hlen. unfold kept_steps in Hlen.
    destruct (decide _) as [Hb|Hb] in Hlen.
    + pose proof (bytes_of_nonneg j). lia.
    + pose proof (prune_longest bytes l j Hj). lia.
Qed.

Lemma effect_timeline op clock b b' : buffer_wf b -> op_effect op clock b b' -> timeline_step op clock b b'.
Proof.
  intros Hwf [b1 Hop (Et & Eu & Er & _)|b1 b2 Hop Hb1 Ho|b1 Hop Et Hp Eu Er].
  - apply timeline_same; [done|done|unfold versions; by rewrite Et, Eu, Er|unfold position; by rewrite Eu].
  - destruct Ho as [h Et Eu Er|h Ht Hlen Eu Er|h base kept Ht Hlen Hbase Eu Er].
    + apply timeline_same; [done|done|..]; unfold versions, position; cbn [history text]; by rewrite Eu, ?Er.
    + apply timeline_oversized; [done|done|]. unfold versions. cbn [history with_history text]. by rewrite Eu, Er.
    + set (bytes := str_len (st_text (state base)) + str_len (text b1)) in *.
      change (undo_stack h = kept_steps bytes kept ++ [mkTransaction base (retained_state b1)]) in Eu.
      assert (exists v, path v kept (st_text (state base))) as [v Hv].
      { destruct (base_ok (joins (op_kind op) (op_time clock b) b b1) b base kept Hwf) as (_ & _ & _ & H); [|done|done].
        pose proof (str_len_nonneg (text b1)). lia. }
      assert (Hv' : versions (with_history b1 h)
        = ((text_before <$> kept_steps bytes kept) ++ [st_text (state base)]) ++ [text b1]).
      { unfold versions. cbn [history with_history text]. by rewrite Eu, Er, fmap_app. }
      assert (Hp : position (with_history b1 h)
        = length ((text_before <$> kept_steps bytes kept) ++ [st_text (state base)])).
      { unfold position. cbn [history with_history]. by rewrite Eu, !length_app, length_fmap. }
      pose proof (kept_steps_longest v kept base (retained_state b1) Hv) as Hlong.
      destruct Hbase as [(Hj & -> & ->)|(Hj & step & Eu' & -> & _)].
      * eapply (timeline_edit op clock b (with_history b1 h) (S (position b))); [done|done|by right| |exact Hv'|exact Hp].
        by rewrite versions_take_here.
      * eapply (timeline_edit op clock b (with_history b1 h) (position b)); [done|done|by left| |exact Hv'|exact Hp].
        by rewrite versions_take_undo, Eu', fmap_app.
  - apply timeline_clear; [done|done|]. unfold versions. by rewrite Eu, Er, Et.
Qed.

Lemma undo_timeline b n :
  buffer_wf b -> position b = S n ->
  (undo b).2 = true /\ versions (undo b).1 = versions b /\ position (undo b).1 = n.
Proof.
  intros Hwf Hn. destruct (last (undo_stack (history b))) as [t|] eqn:E.
  2: { apply last_None in E. unfold position in Hn. by rewrite E in Hn. }
  destruct (undo_some b t E) as (u & Eu & ->). split; [done|].
  destruct (wf_undo _ Hwf) as [v Hv]. rewrite Eu in Hv. apply path_before in Hv as [_ Hv].
  unfold versions, position in *. cbn [fst history with_history restore_state text undo_stack redo_stack].
  rewrite Eu in *. rewrite length_app in Hn. simpl in Hn. split; [|lia].
  rewrite reverse_snoc, fmap_cons, fmap_app, Hv. simpl. by rewrite <- (assoc_L app).
Qed.

Lemma redo_timeline b :
  buffer_wf b -> (S (position b) < length (versions b))%nat ->
  (redo b).2 = true /\ versions (redo b).1 = versions b /\ position (redo b).1 = S (position b).
Proof.
  intros Hwf Hn. unfold versions in Hn. rewrite length_app, length_fmap in Hn. simpl in Hn.
  rewrite length_fmap, length_reverse in Hn. unfold position in Hn.
  destruct (last (redo_stack (history b))) as [t|] eqn:E.
  2: { apply last_None in E. rewrite E in Hn. simpl in Hn. lia. }
  destruct (redo_some b t E) as (r & Er & ->). split; [done|].
  destruct (wf_redo _ Hwf) as [w Hw]. rewrite Er, reverse_snoc in Hw. destruct Hw as [Hv _].
  unfold versions, position in *. cbn [fst history with_history restore_state text undo_stack redo_stack].
  split; [|rewrite length_app; simpl; lia].
  rewrite Er, reverse_snoc, fmap_app, fmap_cons, <- (assoc_L app), Hv. done.
Qed.

Lemma versions_here b : versions b !! position b = Some (text b).
Proof. unfold versions, position. rewrite lookup_app_r; rewrite length_fmap; [by rewrite Nat.sub_diag|done]. Qed.

Lemma redo_none b : S (position b) = length (versions b) -> redo b = (b, false).
Proof.
  unfold versions, position. rewrite length_app, length_fmap. simpl. rewrite length_fmap, length_reverse.
  intros Hn. unfold redo. destruct (redo_stack (history b)) as [|x r]; [done|]. simpl in Hn. lia.
Qed.

Lemma undo_none b : position b = 0%nat -> undo b = (b, false).
Proof. unfold position, undo. by intros ->%nil_length_inv. Qed.
End history.

(** ** Two runs of the editor *)

Section runs.
Context {U : UnicodeTables}.

(** A fresh buffer with everything selected, and what typing leaves behind. *)
Definition all_selected (u : list Z) : TextEditBuffer := select_all (from_text u).

Definition whole (u : list Z) (anchor : option Z) : RetainedState :=
  mkRetained (mkEditState u (str_len u) anchor) None.

Definition typed (t : list Z) (base : RetainedState) (open : option OpenGroup) : TextEditBuffer :=
  mkBuffer t (str_len t) None None Punctuation
    (mkHistory [mkTransaction base (whole t None)] [] UndoPolicy_DEFAULT open None).

Lemma insert_over_all u v h :
  u <> [] ->
  insert_str_unrecorded v (mkBuffer u (str_len u) (Some 0) None Punctuation h)
  = Some (mkBuffer v (str_len v) None None Punctuation h, tt).
Proof.
  intros Hu. pose proof (str_len_pos u Hu) as Hl.
  unfold insert_str_unrecorded, delete_selection_unrecorded, selection.
  cbn [selection_anchor cursor text]. rewrite decide_False by lia. rewrite Z.min_l, Z.max_r by lia.
  unfold drain. pose proof (replace_range_three [] u [] []) as E. rewrite app_nil_r in E.
  change (replace_range u 0 (str_len u) [] = Some []) in E. rewrite E. cbn [mbind option_bind text cursor].
  pose proof (insert_at_app [] [] v) as E'. rewrite !app_nil_r in E'.
  change (insert_at [] 0 v = Some v) in E'. rewrite E'.
  cbn [mbind option_bind]. unfold with_col, with_text. cbn. done.
Qed.

Lemma type_over_all u v clock :
  u <> [] -> v <> u -> str_len u + str_len v <= MAX_HISTORY_BYTES -> str_len v <= str_len u ->
  insert_str v clock (all_selected u)
  = Some (typed v (whole u (Some 0)) (Some (mkOpenGroup Insert clock clock))).
Proof.
  intros Hu Hv Hm Hl. pose proof (str_len_pos u Hu) as Hp.
  unfold insert_str, record_edit, all_selected, select_all, from_text, with_history, EditHistory_with_policy.
  cbn [input_time history from_option text cursor selection_anchor desired_visual_col
       word_boundary_policy undo_stack redo_stack policy open_group].
  rewrite insert_over_all by done. cbn [mbind option_bind text retained_state state edit_state st_text].
  rewrite !decide_False by (done || lia).
  rewrite (bool_decide_eq_true_2 (0 <> str_len u)) by lia.
  cbn [mbind option_bind merged_step history undo_stack]. unfold prepare.
  cbn [undo_stack retained_state state edit_state st_text text].
  rewrite (decide_False (P := MAX_HISTORY_BYTES < str_len u + str_len v)) by lia.
  cbn [prune redo_stack policy open_group input_time app state st_text retained_state edit_state].
  rewrite (bool_decide_eq_false_2 (str_len u < str_len v)) by lia.
  rewrite andb_false_r. cbn [andb]. rewrite decide_False by done. done.
Qed.

(** Typing more right away extends the step, whose before-state is kept. *)
Lemma type_more u v w clock :
  w <> [] -> str_len v + str_len (v ++ w) <= MAX_HISTORY_BYTES ->
  str_len (v ++ w) <= str_len u -> MAX_HISTORY_BYTES < str_len u + str_len (v ++ w) ->
  insert_str w clock (typed v (whole u (Some 0)) (Some (mkOpenGroup Insert clock clock)))
  = Some (typed (v ++ w) (whole u (Some 0)) (Some (mkOpenGroup Insert clock clock))).
Proof.
  intros Hw Hm Hl Hx. pose proof (str_len_pos w Hw) as Hp.
  unfold insert_str, record_edit, typed.
  cbn [input_time history from_option text cursor selection_anchor with_history undo_stack redo_stack
       policy open_group].
  assert (Hins : forall h, insert_str_unrecorded w (mkBuffer v (str_len v) None None Punctuation h)
    = Some (mkBuffer (v ++ w) (str_len (v ++ w)) None None Punctuation h, tt)).
  { intros h. unfold insert_str_unrecorded, delete_selection_unrecorded, selection.
    cbn [selection_anchor mbind option_bind with_anchor text cursor].
    pose proof (insert_at_app v [] w) as E. rewrite !app_nil_r in E. rewrite E.
    cbn [mbind option_bind]. by rewrite str_len_app. }
  unfold with_history. cbn [text cursor selection_anchor desired_visual_col word_boundary_policy].
  rewrite Hins. cbn [mbind option_bind text retained_state state edit_state st_text].
  assert (Hne : v ++ w <> v).
  { intros E. apply (f_equal str_len) in E. rewrite str_len_app in E. lia. }
  rewrite !decide_False by (done || lia).
  unfold continues, starts_word. cbn [open_group history policy grouping UndoPolicy_DEFAULT og_kind redo_stack
    last_edit started pause max_run undo_stack last after state whole retained_state edit_state text cursor
    selection_anchor st_text st_cursor].
  unfold saturating_duration_since. rewrite Z.sub_diag.
  rewrite (bool_decide_eq_true_2 (Z.max 0 0 <= 3000000000)) by lia.
  match goal with |- context [if ?c then Some false else _] => assert (c = false) as -> end.
  { rewrite !bool_decide_eq_false_2 by (done || lia || (intros Hn; by apply Hn)). done. }
  rewrite (decide_False (P := Insert <> Insert)) by (intros Hn; by apply Hn).
  pose proof (slice_to_app v []) as E. rewrite app_nil_r in E. rewrite E. cbn [mbind option_bind].
  rewrite orb_true_r.
  cbn [merged_step last before removelast history undo_stack whole state st_text].
  unfold prepare.
  rewrite (decide_True (P := MAX_HISTORY_BYTES < str_len u + str_len (v ++ w))) by lia.
  cbn [undo_stack redo_stack policy open_group input_time app state st_text].
  rewrite (bool_decide_eq_false_2 (str_len u < str_len (v ++ w))) by lia.
  rewrite andb_false_r. cbn [andb]. rewrite decide_False by done. done.
Qed.
End runs.

(** ** Theorems *)

Section theorems.
Context `{UL : UnicodeLaws}.

(** C24: No sequence of operations panics, whatever the commands, actions,
    pointer gestures, layouts and clocks; afterwards the cursor and the selection
    are on character boundaries of the text, so that the selected text and the
    cursor's grapheme index exist. *)
Theorem editor_never_panics ops t :
  exists b, run_ops ops (from_text t) = Some b /\ pos_ok b /\
    is_Some (selected_text b) /\ is_Some (cursor_grapheme_index b).
Proof.
  destruct (run_ops_wf ops (from_text t) (from_text_wf t)) as (b & E & Hwf).
  exists b. pose proof (wf_pos _ Hwf) as Hp. split_and!; [done|done| |].
  - unfold selected_text. destruct (selection b) as [[start stop]|] eqn:Es; [|done].
    destruct (selection_range b start stop Hp Es) as (H1 & H2 & H3).
    destruct (slice_boundaries _ _ _ H1 H2 H3) as (m & _ & _ & -> & _). done.
  - unfold cursor_grapheme_index. destruct (slice_to_boundary _ _ (proj1 Hp)) as [q ->]. done.
Qed.

(** C6: After any operations the history is a timeline of texts with a position
    at the current one. Undo and redo move one step along it without changing it
    and do nothing at its ends. Any other operation that keeps the text leaves it
    as it is, except that clearing the history forgets it. One that changes the
    text cuts it behind the current version, or before it exactly when the edit
    joins the open step, keeps the longest end of the past that fits 128 steps
    and 1 MiB together with the new text (at least the last version), and appends
    the new text; it forgets the past only when the texts before and after alone
    exceed 1 MiB. *)
Theorem history_is_timeline ops t b :
  run_ops ops (from_text t) = Some b ->
  versions b !! position b = Some (text b) /\
  (position b = 0%nat -> undo b = (b, false)) /\
  (forall n, position b = S n ->
     (undo b).2 = true /\ versions (undo b).1 = versions b /\ position (undo b).1 = n) /\
  (S (position b) = length (versions b) -> redo b = (b, false)) /\
  ((S (position b) < length (versions b))%nat ->
     (redo b).2 = true /\ versions (redo b).1 = versions b /\ position (redo b).1 = S (position b)) /\
  (forall op clock b', op <> OpAction Undo -> op <> OpAction Redo ->
     apply_op op clock b = Some b' -> timeline_step op clock b b').
Proof.
  intros Hrun. destruct (run_ops_wf ops (from_text t) (from_text_wf t)) as (b0 & E & Hwf).
  rewrite E in Hrun. injection Hrun as ->. split_and!.
  - apply versions_here.
  - apply undo_none.
  - intros n. by apply undo_timeline.
  - apply redo_none.
  - by apply redo_timeline.
  - intros op clock b' Hu Hr Hop.
    destruct (apply_op_runs op clock b (wf_pos _ Hwf) Hu Hr) as (b'' & E' & He).
    rewrite E' in Hop. injection Hop as ->. by apply effect_timeline.
Qed.

Lemma run_ops_app ops ops' b b' :
  run_ops ops b = Some b' -> run_ops (ops ++ ops') b = run_ops ops' b'.
Proof.
  revert b. induction ops as [|[op clock] ops IH]; intros b; simpl; [by intros [= ->]|].
  destruct (apply_op op clock b) as [b1|]; [|done]. apply IH.
Qed.

Lemma text_of_length n : 0 <= n -> exists t, str_len t = n.
Proof.
  intros Hn. exists (replicate (Z.to_nat n) 97). rewrite <- (Z2Nat.id n) at 2 by done.
  induction (Z.to_nat n) as [|k IH]; [done|]. cbn [replicate]. rewrite str_len_cons, IH.
  change (Z.of_nat (len_utf8 97)) with 1. lia.
Qed.

(** A selection of 600000 bytes replaced by 448000, then 600 more typed. *)
Lemma merged_step_exceeds u v w :
  str_len u = 600000 -> str_len v = 448000 -> str_len w = 600 ->
  exists ops t b, run_ops ops (from_text t) = Some b /\ MAX_HISTORY_BYTES < bytes_of (undo_stack (history b)).
Proof.
  intros Hu Hv Hw.
  exists [(OpAction SelectAll, 0); (OpCommand (InsertString v), 0); (OpCommand (InsertString w), 0)], u.
  eexists. cbn [run_ops apply_op apply_action apply_command fmap option_fmap option_map fst mbind option_bind].
  fold (all_selected u). rewrite type_over_all.
  - cbn [mbind option_bind]. rewrite type_more; rewrite ?str_len_app; unfold MAX_HISTORY_BYTES; try lia.
    + cbn [mbind option_bind]. split; [done|]. unfold typed. cbn [history undo_stack bytes_of foldr].
      unfold Transaction_bytes. cbn [before after whole state st_text]. rewrite str_len_app. lia.
    + intros ->. simpl in Hw. lia.
  - intros ->. simpl in Hu. lia.
  - intros ->. lia.
  - unfold MAX_HISTORY_BYTES. lia.
  - lia.
Qed.

Lemma lone_step_bytes (ts : list Transaction) :
  Forall step_ok ts -> length ts = 1%nat -> bytes_of ts <= 2 * MAX_HISTORY_BYTES.
Proof.
  intros Hs Hl. destruct ts as [|t [|]]; try done. apply Forall_singleton in Hs as (_ & _ & H1 & H2).
  unfold text_before, text_after in *. cbn [bytes_of foldr]. unfold Transaction_bytes. lia.
Qed.

(** After any operations the two stacks hold at most 128 steps, and their
    texts at most 1 MiB unless a single step is left, of at most twice that. The
    exception is real: typing that extends a step which replaced a selection is
    weighed with the text before the last keystroke, not with the step's own
    before-text, and can leave a step above the cap. *)
Theorem history_bounded :
  (forall ops t b, run_ops ops (from_text t) = Some b ->
     let steps := undo_stack (history b) ++ redo_stack (history b) in
     (length steps <= MAX_HISTORY_ENTRIES)%nat /\
     (bytes_of steps <= MAX_HISTORY_BYTES \/
      length steps = 1%nat /\ bytes_of steps <= 2 * MAX_HISTORY_BYTES)) /\
  (exists ops t b, run_ops ops (from_text t) = Some b /\
     MAX_HISTORY_BYTES < bytes_of (undo_stack (history b))).
Proof.
  split.
  - intros ops t b Hrun steps. destruct (run_ops_wf ops (from_text t) (from_text_wf t)) as (b0 & E & Hwf).
    rewrite E in Hrun. injection Hrun as ->. split.
    + unfold steps. rewrite length_app. apply (wf_entries _ Hwf).
    + destruct (wf_bytes _ Hwf) as [Hb|Hl]; [left; unfold steps; by rewrite bytes_of_app|right].
      split; [done|]. apply lone_step_bytes; [apply (wf_steps _ Hwf)|done].
  - destruct (text_of_length 600000) as [u Hu]; [lia|]. destruct (text_of_length 448000) as [v Hv]; [lia|].
    destruct (text_of_length 600) as [w Hw]; [lia|]. by apply (merged_step_exceeds u v w).
Qed.

Lemma outcome_text kind now b b1 b' : edit_outcome kind now b b1 b' -> text b' = text b1.
Proof. by destruct 1. Qed.

(** Inserting over a buffer that is selected as a whole. *)
Lemma insert_all_selected u v clock b :
  u <> [] -> edit_state b = mkEditState u (str_len u) (Some 0) -> desired_visual_col b = None ->
  word_boundary_policy b = Punctuation ->
  exists b', insert_str v clock b = Some b' /\ text b' = v /\
    (v = u -> edit_state b' = edit_state b /\ desired_visual_col b' = None /\
       word_boundary_policy b' = Punctuation).
Proof.
  intros Hu Hst Hcol Hpol. assert (Hpos : pos_ok b).
  { injection Hst as Et Ec Ea. unfold pos_ok. rewrite Et, Ec, Ea. split; [apply boundary_len|].
    intros i [= <-]. apply boundary_0. }
  destruct (record_edit_outcome Insert (insert_str_unrecorded v) clock b (insert_str_good v) Hpos)
    as (b0 & b1 & r & b' & Hedit & Hst0 & Hcol0 & Hpol0 & Hrec & _ & Ho).
  destruct b0 as [t0 c0 a0 col0 pol0 h0]. cbn in Hcol0, Hpol0. rewrite Hst in Hst0.
  injection Hst0 as -> -> ->. rewrite Hcol in Hcol0. rewrite Hpol in Hpol0. subst col0 pol0.
  rewrite insert_over_all in Hedit by done. injection Hedit as <- _.
  exists b'. unfold insert_str. rewrite Hrec. split; [done|]. split; [by apply outcome_text in Ho|].
  intros ->. injection Hst as Et Ec Ea. destruct Ho as [h Et' _ _|h Ht _ _ _|h base kept Ht _ _ _ _].
  - done.
  - by destruct Ht.
  - by destruct Ht.
Qed.

(** Typing a text over a selection of the same text is dropped: the whole
    selection stays, cursor included, so that what is typed next replaces it. Of
    [t] followed by [u] typed over a selected [t], only [u] is left. *)
Theorem typing_over_equal_selection_lost t u clock :
  t <> [] ->
  exists b1 b2,
    run_ops [(OpAction SelectAll, clock); (OpCommand (InsertString t), clock)] (from_text t) = Some b1 /\
    edit_state b1 = mkEditState t (str_len t) (Some 0) /\
    apply_op (OpCommand (InsertString u)) clock b1 = Some b2 /\ text b2 = u.
Proof.
  intros Ht.
  destruct (insert_all_selected t t clock (select_all (from_text t)) Ht eq_refl eq_refl eq_refl)
    as (b1 & E1 & _ & H1). destruct (H1 eq_refl) as (Hs1 & Hc1 & Hp1).
  destruct (insert_all_selected t u clock b1 Ht Hs1 Hc1 Hp1) as (b2 & E2 & Ht2 & _).
  exists b1, b2. split_and!; [|done|done|done].
  cbn [run_ops apply_op apply_action apply_command fmap option_fmap option_map fst mbind option_bind].
  by rewrite E1.
Qed.
End theorems.

(** ** Witnesses *)

(** Typing, an undo, a pointer drag and a word deletion. *)
Definition sample_ops : list (EditorOp * Z) :=
  [ (OpCommand (InsertString [104; 105; 32; 769]), 0);
    (OpAction MoveLeft, 1);
    (OpCommand (InsertCommand 33), 900000000);
    (OpAction Undo, 900000001);
    (OpPointerBegin 1 GranularityWord false, 900000002);
    (OpPointerDrag (mkPointer (Some Character) (0, 3)) 40, 900000003);
    (OpAction DeleteWordBackward, 900000004) ].

Lemma editor_never_panics_witness :
  exists b, @run_ops combining_tables sample_ops (from_text []) = Some b /\ pos_ok b /\
    is_Some (selected_text b) /\ is_Some (@cursor_grapheme_index combining_tables b).
Proof. apply (@editor_never_panics combining_tables combining_laws). Defined.

Lemma history_is_timeline_witness :
  exists b, @run_ops combining_tables sample_ops (from_text []) = Some b /\
    versions b !! position b = Some (text b) /\
    (position b = 2%nat /\ (undo b).2 = true /\ versions (undo b).1 = versions b) /\
    (forall op clock b', op <> OpAction Undo -> op <> OpAction Redo ->
       @apply_op combining_tables op clock b = Some b' -> @timeline_step combining_tables op clock b b').
Proof.
  eexists. split; [vm_compute; reflexivity|].
  pose proof (@history_is_timeline combining_tables combining_laws sample_ops [] _ ltac:(vm_compute; reflexivity))
    as (H1 & _ & H3 & _ & _ & H2).
  destruct (H3 1%nat eq_refl) as (H4 & H5 & _).
  split; [exact H1|]. split; [split; [reflexivity|split; [exact H4|exact H5]]|exact H2].
Defined.

Lemma history_bounded_witness :
  exists ops t b, @run_ops combining_tables ops (from_text t) = Some b /\
    MAX_HISTORY_BYTES < bytes_of (undo_stack (history b)).
Proof. apply (@history_bounded combining_tables combining_laws). Defined.

Lemma typing_over_equal_selection_lost_witness :
  exists b1 b2,
    @run_ops combining_tables [(OpAction SelectAll, 0); (OpCommand (InsertString [97]), 0)] (from_text [97])
      = Some b1 /\
    edit_state b1 = mkEditState [97] 1 (Some 0) /\
    @apply_op combining_tables (OpCommand (InsertString [98])) 0 b1 = Some b2 /\ text b2 = [98].
Proof.
  apply (@typing_over_equal_selection_lost combining_tables [97] [98] 0). discriminate.
Defined.

(** An absolute motion to a character boundary inside a grapheme stays
    there, although absolute motions are documented to snap to grapheme
    boundaries; from there a word deletion removes everything to the end of the
    text. *)
Theorem absolute_motion_not_snapped :
  (forall b i, boundary (text b) i ->
     exists b', @move_cursor combining_tables (Absolute i) b = Some b' /\ cursor b' = i) /\
  (exists b, @run_ops combining_tables
     [(OpMove (Absolute 1) Move, 0); (OpAction DeleteWordForward, 0)]
     (from_text [101; 769; 32; 111; 110; 101; 32; 116; 119; 111]) = Some b /\ text b = [101]).
Proof.
  split.
  - intros b i Hi. eexists. split; [done|]. apply (@snap_boundary_id combining_tables combining_laws). done.
  - eexists. split; [vm_compute; reflexivity|]. reflexivity.
Qed.
