(* ===== verification/Keyboard.v ===== *)
(** * Key strokes and their encodings

    Key types, the kitty (CSI u) and legacy VT/xterm encodings with their
    decoders, the unified encoder (packages/keyboard/src), the streaming byte
    decoder (packages/cli/src/input/decoder.rs), and key names
    (packages/keyboard/src/parse.rs, stroke_to_string of
    packages/cli/src/input/mod.rs). Bytes and characters are [Z]. *)

From stdpp Require Import strings.
From S2P Require Import Prelude Utf8 TextStr.

Inductive KeyCode :=
| Char (c : Z)
| Enter | Tab | Backspace | Delete | Escape | Space
| Up | Down | Left | Right | Home | End | PageUp | PageDown | Insert
| F (n : Z).

Record Modifiers := mkModifiers {
  ctrl : bool;
  alt : bool;
  shift : bool;
  super_key : bool;
  hyper : bool;
  meta : bool;
}.

Definition NONE : Modifiers := mkModifiers false false false false false false.
Definition CTRL : Modifiers := mkModifiers true false false false false false.
Definition SHIFT : Modifiers := mkModifiers false false true false false false.

Definition is_empty (m : Modifiers) : bool :=
  negb (ctrl m) && negb (alt m) && negb (shift m) && negb (super_key m) && negb (hyper m)
  && negb (meta m).

Record KeyStroke := mkStroke {
  key : KeyCode;
  modifiers : Modifiers;
}.

Definition simple (k : KeyCode) : KeyStroke := mkStroke k NONE.

#[export] Instance KeyCode_eq_dec : EqDecision KeyCode.
Proof. solve_decision. Defined.
#[export] Instance Modifiers_eq_dec : EqDecision Modifiers.
Proof. solve_decision. Defined.
#[export] Instance KeyStroke_eq_dec : EqDecision KeyStroke.
Proof. solve_decision. Defined.

(** ** Characters and numbers *)

Definition chars (s : string) : list Z := (fun a => Z.of_N (Ascii.N_of_ascii a)) <$> String.list_ascii_of_string s.

Definition is_ascii_digit (b : Z) : bool := bool_decide (48 <= b <= 57).
Definition is_ascii_lowercase (b : Z) : bool := bool_decide (97 <= b <= 122).
Definition is_ascii_uppercase (b : Z) : bool := bool_decide (65 <= b <= 90).
Definition is_ascii_alphabetic (b : Z) : bool := is_ascii_lowercase b || is_ascii_uppercase b.
Definition to_ascii_lowercase (c : Z) : Z := if is_ascii_uppercase c then c + 32 else c.
Definition to_ascii_uppercase (c : Z) : Z := if is_ascii_lowercase c then c - 32 else c.

(** [char::encode_utf8]. *)
Definition encode_utf8 (c : Z) : list Z :=
  if decide (c < 128) then [c]
  else if decide (c < 2048) then [192 + c / 64; 128 + c mod 64]
  else if decide (c < 65536) then [224 + c / 4096; 128 + c / 64 mod 64; 128 + c mod 64]
  else [240 + c / 262144; 128 + c / 4096 mod 64; 128 + c / 64 mod 64; 128 + c mod 64].

(** [format!("{n}")] for a number of at most twenty digits. *)
Fixpoint dec_loop (fuel : nat) (n : Z) (acc : list Z) : list Z :=
  match fuel with
  | O => acc
  | S fuel =>
      let acc := (48 + n mod 10) :: acc in
      if decide (n < 10) then acc else dec_loop fuel (n / 10) acc
  end.

Definition dec (n : Z) : list Z := dec_loop 20 n [].

(** [str::parse] into a [w]-bit unsigned integer. *)
Fixpoint parse_digits (w acc : Z) (l : list Z) : option Z :=
  match l with
  | [] => Some acc
  | d :: l =>
      if is_ascii_digit d
      then let v := acc * 10 + (d - 48) in if decide (v < 2 ^ w) then parse_digits w v l else None
      else None
  end.

Definition parse_uint (w : Z) (l : list Z) : option Z :=
  match l with
  | [] => None
  | [43] => None
  | 43 :: l => parse_digits w 0 l
  | _ => parse_digits w 0 l
  end.

(** [split(sep)]: at least one piece. *)
Fixpoint split_on (sep : Z) (l : list Z) : list (list Z) :=
  match l with
  | [] => [[]]
  | b :: l =>
      if decide (b = sep) then [] :: split_on sep l
      else match split_on sep l with
           | piece :: rest => (b :: piece) :: rest
           | [] => [[b]]
           end
  end.

(** ** CSI u *)

Definition modifier_param (m : Modifiers) : Z :=
  1 + (if shift m then 1 else 0) + (if alt m then 2 else 0) + (if ctrl m then 4 else 0)
  + (if super_key m then 8 else 0) + (if hyper m then 16 else 0) + (if meta m then 32 else 0).

Definition modifiers_from_param (param : Z) : option Modifiers :=
  if decide (param = 0) then None
  else
    let val := param - 1 in
    let bit n := negb (bool_decide (Z.land val n = 0)) in
    Some (mkModifiers (bit 4) (bit 2) (bit 1) (bit 8) (bit 16) (bit 32)).

Definition keycode_to_codepoint (k : KeyCode) : option Z :=
  match k with
  | Char c => Some c
  | Enter => Some 13
  | Tab => Some 9
  | Backspace => Some 127
  | Escape => Some 27
  | Space => Some 32
  | _ => None
  end.

Definition codepoint_to_keycode (cp : Z) : option KeyCode :=
  if decide (cp = 13) then Some Enter
  else if decide (cp = 9) then Some Tab
  else if decide (cp = 127) then Some Backspace
  else if decide (cp = 27) then Some Escape
  else if decide (cp = 32) then Some Space
  else if decide (0 < cp < 1114112) then Char <$> char_from_u32 cp
  else None.

Definition csi : list Z := [27; 91].
Definition semicolon : Z := 59.
Definition colon : Z := 58.

(** [ESC [ number ; modifier final]. *)
Definition csi_pair (number modifier final : Z) : list Z :=
  csi ++ dec number ++ [semicolon] ++ dec modifier ++ [final].

Definition encode_modified_fkey (n modifier : Z) : option (list Z) :=
  match n with
  | 1 => Some (csi_pair 1 modifier 80)
  | 2 => Some (csi_pair 1 modifier 81)
  | 3 => Some (csi_pair 1 modifier 82)
  | 4 => Some (csi_pair 1 modifier 83)
  | 5 => Some (csi_pair 15 modifier 126)
  | 6 => Some (csi_pair 17 modifier 126)
  | 7 => Some (csi_pair 18 modifier 126)
  | 8 => Some (csi_pair 19 modifier 126)
  | 9 => Some (csi_pair 20 modifier 126)
  | 10 => Some (csi_pair 21 modifier 126)
  | 11 => Some (csi_pair 23 modifier 126)
  | 12 => Some (csi_pair 24 modifier 126)
  | _ => None
  end.

Definition encode_modified_legacy (s : KeyStroke) : option (list Z) :=
  let modifier := modifier_param (modifiers s) in
  match key s with
  | Up => Some (csi_pair 1 modifier 65)
  | Down => Some (csi_pair 1 modifier 66)
  | Right => Some (csi_pair 1 modifier 67)
  | Left => Some (csi_pair 1 modifier 68)
  | Home => Some (csi_pair 1 modifier 72)
  | End => Some (csi_pair 1 modifier 70)
  | Insert => Some (csi_pair 2 modifier 126)
  | Delete => Some (csi_pair 3 modifier 126)
  | PageUp => Some (csi_pair 5 modifier 126)
  | PageDown => Some (csi_pair 6 modifier 126)
  | F n => encode_modified_fkey n modifier
  | _ => None
  end.

(** [csi_u::encode]. *)
Definition csi_u_encode (s : KeyStroke) : option (list Z) :=
  match keycode_to_codepoint (key s) with
  | Some cp =>
      let modifier := modifier_param (modifiers s) in
      if decide (modifier = 1) then Some (csi ++ dec cp ++ [117])
      else Some (csi_pair cp modifier 117)
  | None => encode_modified_legacy s
  end.

Inductive KeyEventKind := Press | Repeat | Release.

#[export] Instance KeyEventKind_eq_dec : EqDecision KeyEventKind.
Proof. solve_decision. Defined.

Definition tilde_number_to_keycode (number : Z) : option KeyCode :=
  match number with
  | 2 => Some Insert
  | 3 => Some Delete
  | 5 => Some PageUp
  | 6 => Some PageDown
  | 15 => Some (F 5)
  | 17 => Some (F 6)
  | 18 => Some (F 7)
  | 19 => Some (F 8)
  | 20 => Some (F 9)
  | 21 => Some (F 10)
  | 23 => Some (F 11)
  | 24 => Some (F 12)
  | _ => None
  end.

Definition letter_to_keycode (final : Z) : option KeyCode :=
  match final with
  | 65 => Some Up
  | 66 => Some Down
  | 67 => Some Right
  | 68 => Some Left
  | 72 => Some Home
  | 70 => Some End
  | 80 => Some (F 1)
  | 81 => Some (F 2)
  | 82 => Some (F 3)
  | 83 => Some (F 4)
  | _ => None
  end.

(** The parameters before the first final byte, the final byte and the bytes
    behind it; the parameter area is ASCII. *)
Fixpoint scan_final (seq : list Z) : option (list Z * Z) :=
  match seq with
  | [] => None
  | b :: rest =>
      if is_ascii_alphabetic b || bool_decide (b = 126) then Some ([], b)
      else if is_ascii_digit b || bool_decide (b = semicolon) || bool_decide (b = colon) then
        match scan_final rest with
        | Some (params, final) => Some (b :: params, final)
        | None => None
        end
      else None
  end.

Definition part_ok (part : list Z) : bool :=
  bool_decide (part = []) || bool_decide (is_Some (parse_uint 32 part)).

Definition params_ok (params : list Z) : bool :=
  forallb (fun field => forallb part_ok (split_on colon field)) (split_on semicolon params).

Definition parse_param (part : list Z) : option Z :=
  if decide (part = []) then Some 0
  else match split_on colon part with
       | first :: _ => parse_uint 32 first
       | [] => None
       end.

Definition parse_params (bytes : list Z) : list Z :=
  if decide (bytes = []) then [] else omap parse_param (split_on semicolon bytes).

(** The event kind of the second field; [None] refuses the sequence. *)
Definition event_kind (params : list Z) : option KeyEventKind :=
  match split_on semicolon params !! 1%nat with
  | None => Some Press
  | Some field =>
      let parts := split_on colon field in
      if decide (2 < length parts)%nat then None
      else match parts !! 1%nat with
           | None => Some Press
           | Some part =>
               if decide (part = [] \/ part = [49]) then Some Press
               else if decide (part = [50]) then Some Repeat
               else if decide (part = [51]) then Some Release
               else None
           end
  end.

(** [csi_u::decode]: the stroke, its kind and the bytes consumed. *)
Definition csi_u_decode (bytes : list Z) : option (KeyStroke * KeyEventKind * nat) :=
  match bytes with
  | 27 :: 91 :: seq =>
      '(params_bytes, final) ← scan_final seq;
      let consumed := (2 + length params_bytes + 1)%nat in
      if negb (params_ok params_bytes) then None
      else
        let params := parse_params params_bytes in
        kind ← event_kind params_bytes;
        let modifier := default 1 (params !! 1%nat) in
        if decide (final = 117) then
          codepoint ← params !! 0%nat;
          m ← (v ← try_from_u 8 modifier; modifiers_from_param v);
          k ← codepoint_to_keycode codepoint;
          Some (mkStroke k m, kind, consumed)
        else if decide (final = 126) then
          number ← params !! 0%nat;
          m ← (v ← try_from_u 8 modifier; modifiers_from_param v);
          k ← tilde_number_to_keycode number;
          Some (mkStroke k m, kind, consumed)
        else
          m ← (v ← try_from_u 8 modifier; modifiers_from_param v);
          if decide (length params < 2)%nat then None
          else
            k ← letter_to_keycode final;
            Some (mkStroke k m, kind, consumed)
  | _ => None
  end.

(** ** Legacy encoding *)

Definition arrow_encoding (sh application_cursor : bool) (letter : Z) : list Z :=
  if sh then [27; 91; 49; 59; 50; letter]
  else if application_cursor then [27; 79; letter] else [27; 91; letter].

Definition home_end_encoding (application_cursor : bool) (letter : Z) : list Z :=
  if application_cursor then [27; 79; letter] else [27; 91; letter].

(** [legacy::encode_with_modes]; the keypad mode is not used. *)
Definition legacy_encode (s : KeyStroke) (application_cursor : bool) : option (list Z) :=
  let m := modifiers s in
  let push_alt out := if alt m then 27 :: out else out in
  match key s with
  | Char c =>
      let lower := to_ascii_lowercase c in
      if ctrl m && is_ascii_lowercase lower then Some (push_alt [lower - 97 + 1])
      else
        let c := if shift m && is_ascii_lowercase c then to_ascii_uppercase c else c in
        Some (push_alt (if decide (c < 128) then [c] else encode_utf8 c))
  | Enter => Some (push_alt [13])
  | Tab => Some (push_alt (if shift m then [27; 91; 90] else [9]))
  | Backspace => Some (push_alt [127])
  | Escape => Some [27]
  | Space => Some (push_alt [if ctrl m then 0 else 32])
  | Up => Some (arrow_encoding (shift m) application_cursor 65)
  | Down => Some (arrow_encoding (shift m) application_cursor 66)
  | Right => Some (arrow_encoding (shift m) application_cursor 67)
  | Left => Some (arrow_encoding (shift m) application_cursor 68)
  | Home => Some (home_end_encoding application_cursor 72)
  | End => Some (home_end_encoding application_cursor 70)
  | PageUp => Some [27; 91; 53; 126]
  | PageDown => Some [27; 91; 54; 126]
  | Insert => Some [27; 91; 50; 126]
  | Delete => Some [27; 91; 51; 126]
  | F 1 => Some [27; 79; 80]
  | F 2 => Some [27; 79; 81]
  | F 3 => Some [27; 79; 82]
  | F 4 => Some [27; 79; 83]
  | F _ => None
  end.

Definition decode_single (byte : Z) : KeyStroke :=
  if decide (byte = 13 \/ byte = 10) then simple Enter
  else if decide (byte = 9) then simple Tab
  else if decide (byte = 127) then simple Backspace
  else if decide (byte = 32) then simple Space
  else if decide (byte = 0) then mkStroke Space CTRL
  else if decide (1 <= byte <= 26) then mkStroke (Char (byte - 1 + 97)) CTRL
  else if is_ascii_uppercase byte then mkStroke (Char (to_ascii_lowercase byte)) SHIFT
  else simple (Char byte).

(** The table of [legacy::decode_escape], in its order. *)
Definition sequences : list (list Z * KeyStroke) :=
  [ ([27; 79; 65], simple Up); ([27; 79; 66], simple Down);
    ([27; 79; 67], simple Right); ([27; 79; 68], simple Left);
    ([27; 91; 65], simple Up); ([27; 91; 66], simple Down);
    ([27; 91; 67], simple Right); ([27; 91; 68], simple Left);
    ([27; 91; 49; 59; 50; 65], mkStroke Up SHIFT); ([27; 91; 49; 59; 50; 66], mkStroke Down SHIFT);
    ([27; 91; 49; 59; 50; 67], mkStroke Right SHIFT); ([27; 91; 49; 59; 50; 68], mkStroke Left SHIFT);
    ([27; 79; 72], simple Home); ([27; 79; 70], simple End);
    ([27; 91; 72], simple Home); ([27; 91; 70], simple End);
    ([27; 91; 50; 126], simple Insert); ([27; 91; 51; 126], simple Delete);
    ([27; 91; 53; 126], simple PageUp); ([27; 91; 54; 126], simple PageDown);
    ([27; 91; 90], mkStroke Tab SHIFT);
    ([27; 79; 80], simple (F 1)); ([27; 79; 81], simple (F 2));
    ([27; 79; 82], simple (F 3)); ([27; 79; 83], simple (F 4)) ].

Fixpoint match_sequences (patterns : list (list Z * KeyStroke)) (bytes : list Z)
  : option (KeyStroke * list Z * nat) :=
  match patterns with
  | [] => Some (simple Escape, [27], 1%nat)
  | (pattern, stroke) :: patterns =>
      if decide (pattern `prefix_of` bytes) then Some (stroke, pattern, length pattern)
      else if decide (bytes `prefix_of` pattern) then None
      else match_sequences patterns bytes
  end.

Definition decode_escape (bytes : list Z) : option (KeyStroke * list Z * nat) :=
  match_sequences sequences bytes.

(** ** The unified encoder *)

Record KeyEncodingModes := mkModes {
  application_cursor : bool;
  application_keypad : bool;
}.

Definition needs_enhanced_encoding (s : KeyStroke) : bool :=
  let m := modifiers s in
  if is_empty m then false
  else
    let command_like := super_key m || hyper m || meta m in
    match key s with
    | Char _ => command_like
    | Tab => ctrl m || command_like
    | Enter | Backspace | Escape | Space => ctrl m || shift m || command_like
    | Up | Down | Left | Right => ctrl m || alt m || command_like
    | _ => true
    end.

Definition encode_key_with_modes (s : KeyStroke) (enhanced : bool) (modes : KeyEncodingModes)
  : option (list Z) :=
  match (if enhanced && needs_enhanced_encoding s then csi_u_encode s else None) with
  | Some encoded => Some encoded
  | None => legacy_encode s (application_cursor modes)
  end.

Definition encode_key (s : KeyStroke) (enhanced : bool) : option (list Z) :=
  encode_key_with_modes s enhanced (mkModes false false).

(** ** The streaming decoder, with kitty sequences enabled *)

Record DecodedStroke := mkDecoded {
  d_kind : KeyEventKind;
  d_stroke : KeyStroke;
  d_raw : list Z;
}.

Definition with_alt (s : KeyStroke) : KeyStroke :=
  let m := modifiers s in
  mkStroke (key s) (mkModifiers (ctrl m) true (shift m) (super_key m) (hyper m) (meta m)).

Definition decode_one (bytes : list Z) : option (DecodedStroke * nat) :=
  match bytes with
  | [] => None
  | first :: rest =>
      if decide (first <> 27) then Some (mkDecoded Press (decode_single first) [first], 1%nat)
      else
        match rest with
        | [] => Some (mkDecoded Press (simple Escape) [27], 1%nat)
        | second :: _ =>
            match csi_u_decode bytes with
            | Some (stroke, kind, consumed) =>
                Some (mkDecoded kind stroke (take consumed bytes), consumed)
            | None =>
                match decode_escape bytes with
                | Some (stroke, raw, consumed) => Some (mkDecoded Press stroke raw, consumed)
                | None =>
                    if decide (second = 91 \/ second = 79) then None
                    else Some (mkDecoded Press (with_alt (decode_single second)) [27; second], 2%nat)
                end
            end
        end
  end.

(** [while let Some(..) = decode_one(&pending)]: every round consumes a byte. *)
Fixpoint feed_loop (fuel : nat) (pending : list Z) : list DecodedStroke * list Z :=
  match fuel with
  | O => ([], pending)
  | S fuel =>
      match decode_one pending with
      | None => ([], pending)
      | Some (decoded, consumed) =>
          let '(events, pending) := feed_loop fuel (drop consumed pending) in
          (if decide (d_kind decoded = Release) then events else decoded :: events, pending)
      end
  end.

Definition feed_events (pending bytes : list Z) : list DecodedStroke * list Z :=
  feed_loop (length (pending ++ bytes)) (pending ++ bytes).

(** ** Key names *)

Inductive ParseKeyError := EmptyChord | EmptyStroke | UnknownModifier | InvalidFunctionKey | UnknownKey.

Definition normalize_token (value : list Z) : list Z :=
  if decide (value = chars "esc") then chars "escape"
  else if decide (value = chars "return") then chars "enter"
  else if decide (value = chars "up") then chars "arrow_up"
  else if decide (value = chars "down") then chars "arrow_down"
  else if decide (value = chars "left") then chars "arrow_left"
  else if decide (value = chars "right") then chars "arrow_right"
  else if decide (value = chars "pgup" \/ value = chars "pageup") then chars "page_up"
  else if decide (value = chars "pgdn" \/ value = chars "pagedown") then chars "page_down"
  else if decide (value = chars "del") then chars "delete"
  else if decide (value = chars "ins") then chars "insert"
  else if decide (value = chars "+") then chars "plus"
  else if decide (value = chars "-") then chars "minus"
  else value.

(** The names of the second match, in its order. *)
Definition key_names : list (list Z * KeyCode) :=
  [ (chars "enter", Enter); (chars "escape", Escape); (chars "tab", Tab);
    (chars "backspace", Backspace); (chars "space", Space);
    (chars "arrow_up", Up); (chars "arrow_down", Down);
    (chars "arrow_left", Left); (chars "arrow_right", Right);
    (chars "home", Home); (chars "end", End);
    (chars "page_up", PageUp); (chars "page_down", PageDown);
    (chars "insert", Insert); (chars "delete", Delete);
    (chars "plus", Char 43); (chars "minus", Char 45); (chars "question", Char 63) ].

Fixpoint lookup_name (names : list (list Z * KeyCode)) (token : list Z) : option KeyCode :=
  match names with
  | [] => None
  | (name, k) :: names => if decide (token = name) then Some k else lookup_name names token
  end.

Definition parse_key_token (value : list Z) : result ParseKeyError KeyCode :=
  let token := normalize_token value in
  match lookup_name key_names token with
  | Some k => Ok k
  | None =>
      if decide (str_len token = 1) then Ok (Char (default 0 (head token)))
      else match token with
           | 102 :: rest =>
               match parse_uint 8 rest with
               | Some n => Ok (F n)
               | None => Err InvalidFunctionKey
               end
           | _ => Err UnknownKey
           end
  end.

Definition set_modifier (m : Modifiers) (name : list Z) : option Modifiers :=
  let '(mkModifiers c a s sk h me) := m in
  if decide (name = chars "ctrl" \/ name = chars "control") then Some (mkModifiers true a s sk h me)
  else if decide (name = chars "alt" \/ name = chars "option") then Some (mkModifiers c true s sk h me)
  else if decide (name = chars "shift") then Some (mkModifiers c a true sk h me)
  else if decide (name ∈ [chars "super"; chars "cmd"; chars "command"; chars "win"; chars "windows"])
  then Some (mkModifiers c a s true h me)
  else if decide (name = chars "hyper") then Some (mkModifiers c a s sk true me)
  else if decide (name = chars "meta") then Some (mkModifiers c a s sk h true)
  else None.

(** The modifiers before the key token. *)
Fixpoint parse_tokens (m : Modifiers) (tokens : list (list Z)) : result ParseKeyError KeyStroke :=
  match tokens with
  | [] => Err EmptyStroke
  | [token] => match parse_key_token token with Ok k => Ok (mkStroke k m) | Err e => Err e end
  | name :: tokens =>
      match set_modifier m name with
      | Some m => parse_tokens m tokens
      | None => Err UnknownModifier
      end
  end.

Fixpoint trim_start (t : list Z) : list Z :=
  match t with
  | c :: rest => if is_whitespace c then trim_start rest else t
  | [] => []
  end.

Definition trim (t : list Z) : list Z := reverse (trim_start (reverse (trim_start t))).

Definition parse_key_stroke (value : list Z) : result ParseKeyError KeyStroke :=
  let lowered := to_ascii_lowercase <$> trim value in
  if decide (lowered = []) then Err EmptyStroke
  else if decide (lowered = chars "+" \/ lowered = chars "-") then
    match parse_key_token lowered with Ok k => Ok (simple k) | Err e => Err e end
  else parse_tokens NONE (split_on 43 lowered).

(** [split_whitespace]: the non-empty runs of other characters. *)
Fixpoint split_whitespace (t word : list Z) : list (list Z) :=
  match t with
  | [] => if decide (word = []) then [] else [word]
  | c :: rest =>
      if is_whitespace c
      then (if decide (word = []) then [] else [word]) ++ split_whitespace rest []
      else split_whitespace rest (word ++ [c])
  end.

Fixpoint parse_strokes (parts : list (list Z)) : result ParseKeyError (list KeyStroke) :=
  match parts with
  | [] => Ok []
  | part :: parts =>
      match parse_key_stroke part with
      | Ok s => match parse_strokes parts with Ok ss => Ok (s :: ss) | Err e => Err e end
      | Err e => Err e
      end
  end.

Definition parse_key_chord (value : list Z) : result ParseKeyError (list KeyStroke) :=
  let parts := split_whitespace value [] in
  if decide (parts = []) then Err EmptyChord else parse_strokes parts.

Definition key_to_string (k : KeyCode) : list Z :=
  match k with
  | Char c => if decide (c = 43) then chars "plus" else if decide (c = 45) then chars "minus" else [c]
  | Enter => chars "enter"
  | Escape => chars "escape"
  | Tab => chars "tab"
  | Backspace => chars "backspace"
  | Space => chars "space"
  | Up => chars "arrow_up"
  | Down => chars "arrow_down"
  | Left => chars "arrow_left"
  | Right => chars "arrow_right"
  | Home => chars "home"
  | End => chars "end"
  | PageUp => chars "page_up"
  | PageDown => chars "page_down"
  | Insert => chars "insert"
  | Delete => chars "delete"
  | F n => chars "f" ++ dec n
  end.

(** [parts.join(sep)]. *)
Fixpoint join (sep : list Z) (parts : list (list Z)) : list Z :=
  match parts with
  | [] => []
  | [part] => part
  | part :: parts => part ++ sep ++ join sep parts
  end.

Definition stroke_to_string (s : KeyStroke) : list Z :=
  let m := modifiers s in
  join (chars "+")
    ((if ctrl m then [chars "ctrl"] else []) ++ (if alt m then [chars "alt"] else [])
     ++ (if shift m then [chars "shift"] else []) ++ (if super_key m then [chars "super"] else [])
     ++ (if hyper m then [chars "hyper"] else []) ++ (if meta m then [chars "meta"] else [])
     ++ [key_to_string (key s)]).
