(* ===== verification/KeyboardProps.v ===== *)
(** * Encoded key strokes decode, and key names parse

    Decimal parameters round-trip, so CSI u sequences do; legacy encodings decode
    by the table; strokes typed one after the other come out of the streaming
    decoder in order; the names the program prints are the names it parses. *)

From stdpp Require Import strings.
From S2P Require Import Prelude Utf8 TextStr Keyboard.

(** ** Decimal numbers *)

Lemma is_ascii_digit_true d : is_ascii_digit d = true <-> 48 <= d <= 57.
Proof. unfold is_ascii_digit. apply bool_decide_eq_true. Qed.

Lemma parse_dec_loop w fuel n acc :
  0 <= n < 2 ^ w -> n < 10 ^ Z.of_nat fuel -> (0 < fuel)%nat ->
  parse_digits w 0 (dec_loop fuel n acc) = parse_digits w n acc.
Proof.
  revert n acc. induction fuel as [|fuel IH]; intros n acc Hn Hf Hfuel; [lia|]. cbn [dec_loop].
  assert (Hd : 0 <= n mod 10 < 10) by (apply Z.mod_pos_bound; lia).
  assert (Hstep : forall v, v * 10 + n mod 10 = n ->
    parse_digits w v ((48 + n mod 10) :: acc) = parse_digits w n acc).
  { intros v Hv. cbn [parse_digits]. rewrite (proj2 (is_ascii_digit_true _)) by lia.
    replace (v * 10 + (48 + n mod 10 - 48)) with n by lia. by rewrite decide_True by lia. }
  case_decide.
  - apply Hstep. rewrite Z.mod_small by lia. lia.
  - rewrite Nat2Z.inj_succ, Z.pow_succ_r in Hf by lia.
    assert (Hq : 0 <= n / 10 /\ n / 10 < 10 ^ Z.of_nat fuel /\ n / 10 <= n /\ 0 < n / 10) by div_lia.
    rewrite IH; [apply Hstep; div_lia|lia|lia|]. destruct fuel; [|lia]. simpl in Hf. lia.
Qed.

Lemma dec_loop_digits fuel n acc :
  0 <= n -> forallb is_ascii_digit acc = true -> forallb is_ascii_digit (dec_loop fuel n acc) = true.
Proof.
  revert n acc. induction fuel as [|fuel IH]; intros n acc Hn Ha; cbn [dec_loop]; [done|].
  assert (0 <= n mod 10 < 10) by (apply Z.mod_pos_bound; lia).
  assert (Hacc : forallb is_ascii_digit ((48 + n mod 10) :: acc) = true).
  { cbn [forallb]. by rewrite (proj2 (is_ascii_digit_true _)) by lia. }
  case_decide; [done|]. apply IH; [apply Z.div_pos; lia|done].
Qed.

Lemma dec_digits n : 0 <= n -> forallb is_ascii_digit (dec n) = true.
Proof. intros Hn. by apply dec_loop_digits. Qed.

Lemma dec_loop_cons fuel n acc : (0 < fuel)%nat \/ acc <> [] -> dec_loop fuel n acc <> [].
Proof.
  revert n acc. induction fuel as [|fuel IH]; intros n acc H; cbn [dec_loop]; [destruct H; [lia|done]|].
  case_decide; [done|]. apply IH. by right.
Qed.

Lemma dec_nonempty n : dec n <> [].
Proof. apply dec_loop_cons. left. lia. Qed.

Lemma parse_uint_digits w l :
  l <> [] -> forallb is_ascii_digit l = true -> parse_uint w l = parse_digits w 0 l.
Proof.
  intros Hl Hd. destruct l as [|d l]; [done|]. cbn [forallb] in Hd.
  apply andb_true_iff in Hd as [Hd _]. apply is_ascii_digit_true in Hd.
  unfold parse_uint. destruct l; repeat (case_match; try done; try lia).
Qed.

Lemma parse_dec w n : 0 <= n < 2 ^ w -> n < 10 ^ 20 -> parse_uint w (dec n) = Some n.
Proof.
  intros Hn H20. rewrite parse_uint_digits; [|apply dec_nonempty|apply dec_digits; lia].
  unfold dec. rewrite parse_dec_loop; [done|done|simpl; lia|lia].
Qed.

(** ** Splitting *)

Lemma split_on_app sep l k :
  sep ∉ l -> split_on sep (l ++ sep :: k) = l :: split_on sep k.
Proof.
  induction l as [|b l IH]; intros Hl; cbn [app split_on]; [by rewrite decide_True|].
  apply not_elem_of_cons in Hl as [Hb Hl]. rewrite decide_False by done. by rewrite IH.
Qed.

Lemma split_on_none sep l : sep ∉ l -> split_on sep l = [l].
Proof.
  induction l as [|b l IH]; intros Hl; cbn [split_on]; [done|].
  apply not_elem_of_cons in Hl as [Hb Hl]. rewrite decide_False by done. by rewrite IH.
Qed.

Lemma digits_not_sep sep l : forallb is_ascii_digit l = true -> ~ 48 <= sep <= 57 -> sep ∉ l.
Proof.
  intros Hd Hs Hin. rewrite forallb_forall in Hd. apply list_elem_of_In in Hin.
  apply Hd, is_ascii_digit_true in Hin. done.
Qed.

Lemma dec_not_sep sep n : 0 <= n -> ~ 48 <= sep <= 57 -> sep ∉ dec n.
Proof. intros Hn. by apply digits_not_sep, dec_digits. Qed.

(** ** CSI u *)

Definition is_final (b : Z) : Prop := is_ascii_alphabetic b = true \/ b = 126.

Lemma scan_final_params params final rest :
  Forall (fun b => 48 <= b <= 59) params -> is_final final ->
  scan_final (params ++ final :: rest) = Some (params, final).
Proof.
  intros Hp Hf. induction Hp as [|b params Hb Hp IH]; cbn [app scan_final].
  - destruct Hf as [E|E]; rewrite E; [done|by rewrite orb_true_r].
  - assert (is_ascii_alphabetic b || bool_decide (b = 126) = false) as ->.
    { unfold is_ascii_alphabetic, is_ascii_lowercase, is_ascii_uppercase.
      rewrite !bool_decide_eq_false_2 by lia. done. }
    assert (is_ascii_digit b || bool_decide (b = semicolon) || bool_decide (b = colon) = true) as ->.
    { destruct (decide (b <= 57)); [by rewrite (proj2 (is_ascii_digit_true b)) by lia|].
      unfold semicolon, colon. destruct (decide (b = 58)) as [->|]; [by rewrite !orb_true_r|].
      assert (b = 59) as -> by lia. by rewrite orb_true_r. }
    by rewrite IH.
Qed.

Lemma digits_params l : forallb is_ascii_digit l = true -> Forall (fun b => 48 <= b <= 59) l.
Proof.
  intros Hd. apply Forall_forall. intros b Hb. rewrite forallb_forall in Hd.
  apply list_elem_of_In, Hd, is_ascii_digit_true in Hb. lia.
Qed.

Lemma params_two_range n k :
  0 <= n -> 0 <= k -> Forall (fun b => 48 <= b <= 59) (dec n ++ [semicolon] ++ dec k).
Proof.
  intros Hn Hk. apply Forall_app. split; [by apply digits_params, dec_digits|].
  constructor; [unfold semicolon; lia|]. by apply digits_params, dec_digits.
Qed.

Lemma part_ok_dec n : 0 <= n < 2 ^ 32 -> part_ok (dec n) = true.
Proof.
  intros Hn. unfold part_ok. rewrite (parse_dec 32 n) by lia.
  by rewrite (bool_decide_eq_true_2 (is_Some (Some n))), orb_true_r.
Qed.

Lemma parse_param_dec n : 0 <= n < 2 ^ 32 -> parse_param (dec n) = Some n.
Proof.
  intros Hn. unfold parse_param. rewrite decide_False by apply dec_nonempty.
  rewrite split_on_none by (apply dec_not_sep; unfold colon; lia). apply parse_dec; lia.
Qed.

(** One parameter, and two. *)
Lemma params_one n :
  0 <= n < 2 ^ 32 ->
  params_ok (dec n) = true /\ parse_params (dec n) = [n] /\ event_kind (dec n) = Some Press.
Proof.
  intros Hn. unfold params_ok, parse_params, event_kind.
  rewrite (split_on_none semicolon) by (apply dec_not_sep; unfold semicolon; lia).
  cbn [forallb omap list_omap lookup list_lookup].
  rewrite split_on_none by (apply dec_not_sep; unfold colon; lia). cbn [forallb].
  rewrite part_ok_dec, parse_param_dec by done. by rewrite decide_False by apply dec_nonempty.
Qed.

Lemma params_two n k :
  0 <= n < 2 ^ 32 -> 0 <= k < 2 ^ 32 ->
  params_ok (dec n ++ [semicolon] ++ dec k) = true /\
  parse_params (dec n ++ [semicolon] ++ dec k) = [n; k] /\
  event_kind (dec n ++ [semicolon] ++ dec k) = Some Press.
Proof.
  intros Hn Hk. unfold params_ok, parse_params, event_kind. cbn [app].
  rewrite split_on_app by (apply dec_not_sep; unfold semicolon; lia).
  rewrite (split_on_none semicolon) by (apply dec_not_sep; unfold semicolon; lia).
  cbn [forallb omap list_omap lookup list_lookup].
  rewrite !split_on_none by (apply dec_not_sep; unfold colon; lia). cbn [forallb length lookup list_lookup].
  rewrite !part_ok_dec, !parse_param_dec by done.
  rewrite decide_False by (by destruct (dec n)). done.
Qed.

Lemma modifiers_param_roundtrip m :
  1 <= modifier_param m <= 64 /\ modifiers_from_param (modifier_param m) = Some m.
Proof. destruct m as [[] [] [] [] [] []]; vm_compute; done. Qed.

Lemma modifier_one m : modifier_param m = 1 -> m = NONE.
Proof. by destruct m as [[] [] [] [] [] []]. Qed.

(** The key a pair of parameters stands for. *)
Definition pair_key (number final : Z) : option KeyCode :=
  if decide (final = 117) then codepoint_to_keycode number
  else if decide (final = 126) then tilde_number_to_keycode number
  else letter_to_keycode final.

Lemma decode_pair number m final k rest :
  0 <= number < 2 ^ 32 -> is_final final -> pair_key number final = Some k ->
  csi_u_decode (csi_pair number (modifier_param m) final ++ rest)
  = Some (mkStroke k m, Press, length (csi_pair number (modifier_param m) final)).
Proof.
  intros Hn Hf Hk. destruct (modifiers_param_roundtrip m) as [Hm1 Hm2].
  unfold csi_pair, csi. rewrite <- !(assoc_L app). cbn [app csi_u_decode].
  destruct (params_two number (modifier_param m)) as (H1 & H2 & H3); [lia|lia|].
  replace (dec number ++ semicolon :: dec (modifier_param m) ++ final :: rest)
    with ((dec number ++ [semicolon] ++ dec (modifier_param m)) ++ final :: rest)
    by (by rewrite <- !(assoc_L app)).
  rewrite scan_final_params; [|by apply params_two_range; lia|done].
  cbn [mbind option_bind]. rewrite H1, H2, H3. cbn [negb mbind option_bind].
  cbn [lookup list_lookup from_option]. unfold id. rewrite try_from_u_in by int_lia.
  cbn [mbind option_bind]. rewrite Hm2. cbn [mbind option_bind length].
  unfold pair_key in Hk.
  rewrite (decide_False (P := (2 < 2)%nat)) by lia.
  replace (2 + length (dec number ++ [semicolon] ++ dec (modifier_param m)) + 1)%nat
    with (S (S (length (dec number ++ semicolon :: dec (modifier_param m) ++ [final]))))
    by (rewrite !length_app; simpl; rewrite !length_app; simpl; lia).
  destruct (decide (final = 117)); [by rewrite Hk|]. destruct (decide (final = 126)); by rewrite Hk.
Qed.

(** Strokes CSI u can carry: scalar values that are not a named key's, and the
    first twelve function keys. *)
Definition csi_key (k : KeyCode) : Prop :=
  match k with
  | Char c => codepoint_to_keycode c = Some (Char c)
  | F n => 1 <= n <= 12
  | _ => True
  end.

Lemma codepoint_char c : codepoint_to_keycode c = Some (Char c) -> 0 <= c < 2 ^ 32.
Proof. unfold codepoint_to_keycode. repeat case_decide; try done. intros _. lia. Qed.

Lemma decode_plain_u cp k rest :
  0 <= cp < 2 ^ 32 -> codepoint_to_keycode cp = Some k ->
  csi_u_decode (csi ++ dec cp ++ 117 :: rest) = Some (simple k, Press, S (S (length (dec cp ++ [117])))).
Proof.
  intros Hn Hk. unfold csi. cbn [app csi_u_decode].
  destruct (params_one cp Hn) as (H1 & H2 & H3).
  rewrite scan_final_params; [|apply digits_params, dec_digits; lia|by left].
  cbn [mbind option_bind]. rewrite H1, H2, H3. cbn [negb mbind option_bind lookup list_lookup from_option].
  rewrite decide_True by done. rewrite try_from_u_in by (unfold id; int_lia). cbn [mbind option_bind].
  change (modifiers_from_param (id 1)) with (Some NONE). cbn [mbind option_bind]. rewrite Hk.
  cbn [mbind option_bind]. rewrite length_app. repeat f_equal; simpl; lia.
Qed.

Lemma csi_u_decode_encode s rest :
  csi_key (key s) ->
  exists e, csi_u_encode s = Some e /\ csi_u_decode (e ++ rest) = Some (s, Press, length e).
Proof.
  destruct s as [k m]. unfold csi_u_encode. cbn [key modifiers]. intros Hk.
  assert (Hpair : forall number final, 0 <= number < 2 ^ 32 -> is_final final -> pair_key number final = Some k ->
    exists e, Some (csi_pair number (modifier_param m) final) = Some e /\
      csi_u_decode (e ++ rest) = Some (mkStroke k m, Press, length e)).
  { intros number final Hn Hf Hp. eexists. split; [done|]. by apply decode_pair. }
  assert (Hu : forall cp, 0 <= cp < 2 ^ 32 -> codepoint_to_keycode cp = Some k ->
    exists e, (if decide (modifier_param m = 1) then Some (csi ++ dec cp ++ [117])
               else Some (csi_pair cp (modifier_param m) 117)) = Some e /\
      csi_u_decode (e ++ rest) = Some (mkStroke k m, Press, length e)).
  { intros cp Hn Hp. case_decide as Hm; [|by apply Hpair; [|left|]].
    apply modifier_one in Hm as ->. eexists. split; [done|].
    rewrite <- !(assoc_L app). cbn [app]. rewrite (decode_plain_u cp k) by done. done. }
  destruct k; cbn [keycode_to_codepoint encode_modified_legacy key modifiers];
    try (by apply Hu); try (by apply Hpair; [|left; reflexivity|]); try (by apply Hpair; [|right|]).
  - apply Hu; [by apply codepoint_char|done].
  - cbn in Hk. assert (Hn : n = 1 \/ n = 2 \/ n = 3 \/ n = 4 \/ n = 5 \/ n = 6 \/ n = 7 \/ n = 8
      \/ n = 9 \/ n = 10 \/ n = 11 \/ n = 12) by lia.
    destruct_or! Hn; subst n; cbn [encode_modified_fkey];
      (by apply Hpair; [|left; reflexivity|]) || (by apply Hpair; [|right|]).
Qed.

(** ** Legacy sequences *)

(** Strokes the legacy encoding represents; Escape alone is also the start of
    every sequence. *)
Definition legacy_stroke (s : KeyStroke) : bool :=
  let plain := bool_decide (modifiers s = NONE) in
  match key s with
  | Char c =>
      plain && bool_decide (33 <= c <= 126) && negb (is_ascii_uppercase c)
      || bool_decide (modifiers s = SHIFT) && is_ascii_lowercase c
      || bool_decide (modifiers s = CTRL) && is_ascii_lowercase c && negb (bool_decide (c ∈ [105; 106; 109]))
  | Tab | Up | Down | Left | Right => plain || bool_decide (modifiers s = SHIFT)
  | Space => plain || bool_decide (modifiers s = CTRL)
  | Escape => false
  | F n => plain && bool_decide (1 <= n <= 4)
  | _ => plain
  end.

Lemma decode_one_single b rest :
  b <> 27 -> decode_one (b :: rest) = Some (mkDecoded Press (decode_single b) [b], 1%nat).
Proof. intros Hb. cbn [decode_one]. by rewrite decide_True. Qed.

(** Every one-byte encoding, by running over the characters. *)
Lemma single_byte_strokes c m :
  legacy_stroke (mkStroke (Char c) m) = true ->
  exists b, legacy_encode (mkStroke (Char c) m) false = Some [b] /\
    legacy_encode (mkStroke (Char c) m) true = Some [b] /\ b <> 27 /\
    decode_single b = mkStroke (Char c) m.
Proof.
  intros Hs. assert (Hc : 33 <= c <= 126).
  { unfold legacy_stroke in Hs. cbn [key] in Hs. unfold is_ascii_lowercase in Hs.
    repeat (apply orb_true_iff in Hs as [Hs|Hs]); repeat (apply andb_true_iff in Hs as [Hs ?]);
      repeat match goal with H : bool_decide _ = true |- _ => apply bool_decide_eq_true in H end; lia. }
  assert (Hm : m = NONE \/ m = SHIFT \/ m = CTRL).
  { unfold legacy_stroke in Hs. cbn [key modifiers] in Hs.
    repeat (apply orb_true_iff in Hs as [Hs|Hs]); repeat (apply andb_true_iff in Hs as [Hs ?]);
      repeat match goal with H : bool_decide _ = true |- _ => apply bool_decide_eq_true in H end; auto. }
  pose (ok c m := negb (legacy_stroke (mkStroke (Char c) m)) ||
    match legacy_encode (mkStroke (Char c) m) false, legacy_encode (mkStroke (Char c) m) true with
    | Some [b], Some [b'] => bool_decide (b = b') && negb (bool_decide (b = 27))
                             && bool_decide (decode_single b = mkStroke (Char c) m)
    | _, _ => false
    end).
  assert (Hall : forallb (fun c => ok c NONE && ok c SHIFT && ok c CTRL) (seqZ 33 94) = true)
    by (vm_compute; reflexivity).
  assert (Hok : ok c m = true).
  { rewrite forallb_forall in Hall. specialize (Hall c).
    rewrite !andb_true_iff in Hall. destruct Hall as [[? ?] ?]; [apply list_elem_of_In, elem_of_seqZ; lia|].
    by destruct Hm as [->|[->| ->]]. }
  clear Hall. unfold ok in Hok. rewrite Hs in Hok. cbn [negb orb] in Hok. clear ok Hs.
  destruct (legacy_encode _ false) as [[|b []]|]; try done.
  destruct (legacy_encode _ true) as [[|b' []]|]; try done.
  rewrite !andb_true_iff, negb_true_iff in Hok. destruct Hok as [[H1 H2] H3].
  apply bool_decide_eq_true in H1, H3. apply bool_decide_eq_false in H2. subst b'. by exists b.
Qed.

Lemma legacy_decode s mode rest :
  legacy_stroke s = true ->
  exists e, legacy_encode s mode = Some e /\ decode_one (e ++ rest) = Some (mkDecoded Press s e, length e).
Proof.
  destruct s as [k m]. intros Hs.
  assert (Hk : (exists c, k = Char c) \/ forall c, k <> Char c) by (destruct k; by eauto).
  destruct Hk as [[c ->]|Hk].
  { destruct (single_byte_strokes c m Hs) as (b & E1 & E2 & Hb & Hd). exists [b]. split; [by destruct mode|].
    cbn [app]. by rewrite decode_one_single, Hd. }
  assert (Hm : m = NONE \/ m = SHIFT \/ m = CTRL).
  { unfold legacy_stroke in Hs. cbn [key modifiers] in Hs. destruct k; [by destruct (Hk c)|..];
      repeat (apply orb_true_iff in Hs as [Hs|Hs]); repeat (apply andb_true_iff in Hs as [Hs ?]);
      repeat match goal with H : bool_decide _ = true |- _ => apply bool_decide_eq_true in H end; auto; done. }
  destruct Hm as [-> |[-> | ->]].
  all: destruct k as [c| | | | | | | | | | | | | | | |n]; try (by destruct (Hk c));
    try (vm_compute in Hs; discriminate Hs); try (destruct mode; eexists; split; reflexivity).
  unfold legacy_stroke in Hs. cbn [key modifiers] in Hs. apply andb_true_iff in Hs as [_ Hn].
  apply bool_decide_eq_true in Hn. assert (Hn' : n = 1 \/ n = 2 \/ n = 3 \/ n = 4) by lia.
  destruct_or! Hn'; subst n; destruct mode; eexists; split; reflexivity.
Qed.

(** ** Typing through the encoder and the streaming decoder *)

(** What encoder and decoder agree on: CSI u where it is used, else the legacy
    strokes. *)
Definition typable (enhanced : bool) (s : KeyStroke) : Prop :=
  if enhanced && needs_enhanced_encoding s then csi_key (key s) else legacy_stroke s = true.

Lemma csi_u_encode_starts s e : csi_u_encode s = Some e -> exists l, e = 27 :: 91 :: l.
Proof.
  unfold csi_u_encode, csi_pair, csi. destruct (keycode_to_codepoint (key s)) as [cp|].
  - case_decide; intros [= <-]; by eexists.
  - unfold encode_modified_legacy. destruct (key s) as [c| | | | | | | | | | | | | | | |n];
      try discriminate; try (intros [= <-]; by eexists).
    unfold encode_modified_fkey, csi_pair, csi. repeat case_match; try discriminate;
      intros [= <-]; by eexists.
Qed.

Lemma typable_decodes enhanced s modes rest :
  typable enhanced s ->
  exists e, encode_key_with_modes s enhanced modes = Some e /\
    decode_one (e ++ rest) = Some (mkDecoded Press s e, length e).
Proof.
  unfold typable, encode_key_with_modes. destruct (enhanced && _); intros Hs.
  - destruct (csi_u_decode_encode s rest Hs) as (e & He & Hd). rewrite He. exists e. split; [done|].
    destruct (csi_u_encode_starts s e He) as [l ->]. cbn [app decode_one] in Hd |- *.
    rewrite decide_False by lia. rewrite Hd. do 3 f_equal.
    apply (take_app_length (27 :: 91 :: l) rest).
  - by apply legacy_decode.
Qed.

(** Every decoded event consumes at least one byte, and only bytes there are. *)
Lemma scan_final_length seq params final :
  scan_final seq = Some (params, final) -> (length params < length seq)%nat.
Proof.
  revert params. induction seq as [|b seq IH]; intros params; cbn [scan_final]; [done|].
  destruct (_ || bool_decide (b = 126)); [intros [= <- _]; simpl; lia|].
  destruct (_ || _); [|done]. destruct (scan_final seq) as [[p f]|]; [|done].
  intros [= <- <-]. specialize (IH p eq_refl). simpl. lia.
Qed.

Lemma csi_u_decode_progress bytes s kind n :
  csi_u_decode bytes = Some (s, kind, n) -> (1 <= n <= length bytes)%nat.
Proof.
  intros H. unfold csi_u_decode in H. repeat (case_match; try done).
  apply bind_Some in H as ([params final] & Hscan & H). apply scan_final_length in Hscan.
  destruct (negb _); [done|]. apply bind_Some in H as (k & _ & H).
  assert (n = (2 + length params + 1)%nat) as ->; [|simpl; lia].
  repeat (case_decide || apply bind_Some in H as (? & _ & H)); try done; by injection H.
Qed.

Lemma match_sequences_progress patterns bytes s raw n :
  Forall (fun p => p.1 <> []) patterns -> bytes <> [] -> match_sequences patterns bytes = Some (s, raw, n) ->
  (1 <= n <= length bytes)%nat.
Proof.
  intros Hp Hb. induction Hp as [|[p st] patterns Hne Hp IH]; cbn [match_sequences].
  - intros [= _ _ <-]. destruct bytes; [done|]. simpl. lia.
  - case_decide as Hpre; [|case_decide; done]. intros [= _ _ <-]. apply prefix_length in Hpre.
    simpl in Hne. destruct p; [done|]. simpl in *. lia.
Qed.

Lemma sequences_nonempty : Forall (fun p : list Z * KeyStroke => p.1 <> []) sequences.
Proof. by repeat constructor. Qed.

Lemma decode_one_progress bytes d n : decode_one bytes = Some (d, n) -> (1 <= n <= length bytes)%nat.
Proof.
  destruct bytes as [|b rest]; cbn [decode_one]; [done|]. case_decide; [intros [= _ <-]; simpl; lia|].
  destruct rest as [|c rest]; [intros [= _ <-]; simpl; lia|].
  destruct (csi_u_decode (b :: c :: rest)) as [[[s k] m]|] eqn:E1.
  - intros [= _ <-]. by apply csi_u_decode_progress in E1.
  - destruct (decode_escape (b :: c :: rest)) as [[[s raw] m]|] eqn:E2.
    + intros [= _ <-]. eapply match_sequences_progress; [apply sequences_nonempty|done|exact E2].
    + case_decide; [done|]. intros [= _ <-]. simpl. lia.
Qed.

Lemma feed_loop_strokes enhanced typed es fuel :
  Forall (fun sm => typable enhanced sm.1) typed ->
  Forall2 (fun sm e => encode_key_with_modes sm.1 enhanced sm.2 = Some e) typed es ->
  (length (concat es) <= fuel)%nat ->
  feed_loop fuel (concat es) = (zip_with (fun sm e => mkDecoded Press sm.1 e) typed es, []).
Proof.
  intros Ht Hes. revert fuel. induction Hes as [|sm e typed es He Hes IH]; intros fuel Hf.
  { by destruct fuel. }
  apply Forall_cons in Ht as [Hs Ht]. cbn [concat] in *. rewrite length_app in Hf.
  destruct (typable_decodes enhanced sm.1 sm.2 (concat es) Hs) as (e' & He' & Hd).
  rewrite He in He'. injection He' as <-.
  pose proof (decode_one_progress _ _ _ Hd) as Hlen.
  destruct fuel as [|fuel]; [lia|]. cbn [feed_loop]. rewrite Hd, drop_app_length.
  rewrite IH by (done || lia). by rewrite decide_False.
Qed.

(** ** What a feed leaves behind *)

Lemma match_sequences_none patterns bytes :
  match_sequences patterns bytes = None ->
  Exists (fun p => bytes `prefix_of` p.1 /\ bytes <> p.1) patterns.
Proof.
  induction patterns as [|[p s] patterns IH]; cbn [match_sequences]; [done|].
  case_decide as Hp; [done|]. case_decide as Hb.
  - intros _. apply Exists_cons_hd. split; [done|]. intros ->. by apply Hp.
  - intros H. by apply Exists_cons_tl, IH.
Qed.

Lemma decode_one_none bytes :
  decode_one bytes = None ->
  bytes = [] \/ Exists (fun p => bytes `prefix_of` p.1 /\ bytes <> p.1) sequences.
Proof.
  destruct bytes as [|b rest]; cbn [decode_one]; [by left|]. case_decide; [done|].
  destruct rest as [|c rest]; [done|].
  destruct (csi_u_decode (b :: c :: rest)) as [[[s k] m]|]; [done|].
  destruct (decode_escape (b :: c :: rest)) as [[[s raw] m]|] eqn:E; [done|]. intros _. right.
  by apply match_sequences_none.
Qed.

Lemma feed_loop_drains fuel bytes events rest :
  (length bytes <= fuel)%nat -> feed_loop fuel bytes = (events, rest) ->
  decode_one rest = None /\ rest `suffix_of` bytes.
Proof.
  revert bytes events. induction fuel as [|fuel IH]; intros bytes events Hf; cbn [feed_loop].
  { intros [= _ <-]. by destruct bytes; [|simpl in Hf; lia]. }
  destruct (decode_one bytes) as [[d n]|] eqn:Hd; [|by intros [= _ <-]].
  pose proof (decode_one_progress _ _ _ Hd) as Hn.
  destruct (feed_loop fuel (drop n bytes)) as [evs r] eqn:Hl. intros [= _ <-].
  apply IH in Hl as [H1 H2]; [|rewrite length_drop; lia]. split; [done|].
  etrans; [exact H2|]. apply suffix_drop.
Qed.

(** ** Key names *)

Definition name_char (c : Z) : Prop :=
  0 <= c < 128 /\ is_whitespace c = false /\ is_ascii_uppercase c = false.

Definition nameable (k : KeyCode) : Prop :=
  match k with
  | Char c => name_char c
  | F n => 0 <= n < 256
  | _ => True
  end.

Lemma split_on_join tokens :
  tokens <> [] -> Forall (fun t => 43 ∉ t) tokens -> split_on 43 (join [43] tokens) = tokens.
Proof.
  intros Hne Ht. destruct tokens as [|t tokens]; [done|]. clear Hne. revert t Ht.
  induction tokens as [|u tokens IH]; intros t Ht; apply Forall_cons in Ht as [Ht Hts].
  - by apply split_on_none.
  - change (join [43] (t :: u :: tokens)) with (t ++ 43 :: join [43] (u :: tokens)).
    rewrite split_on_app by done. by rewrite IH.
Qed.

Lemma Forall_join (P : Z -> Prop) sep tokens :
  Forall P sep -> Forall (Forall P) tokens -> Forall P (join sep tokens).
Proof.
  intros Hs Ht. induction Ht as [|t tokens Ht Hts IH]; [by apply Forall_nil|].
  destruct tokens as [|u tokens]; [done|].
  change (join sep (t :: u :: tokens)) with (t ++ sep ++ join sep (u :: tokens)).
  by rewrite !Forall_app.
Qed.

Lemma trim_start_id t : Forall (fun c => is_whitespace c = false) t -> trim_start t = t.
Proof. destruct 1 as [|c t Hc _]; [done|]. cbn [trim_start]. by rewrite Hc. Qed.

Lemma trim_id t : Forall (fun c => is_whitespace c = false) t -> trim t = t.
Proof.
  intros Ht. unfold trim. rewrite (trim_start_id t) by done.
  rewrite trim_start_id by (by apply Forall_reverse). apply reverse_involutive.
Qed.

Lemma lower_id t : Forall (fun c => is_ascii_uppercase c = false) t -> to_ascii_lowercase <$> t = t.
Proof.
  induction 1 as [|c t Hc _ IH]; [done|]. rewrite fmap_cons, IH. unfold to_ascii_lowercase. by rewrite Hc.
Qed.

(** What a token of a written stroke satisfies. *)
Definition clean (t : list Z) : bool :=
  forallb (fun c => negb (is_whitespace c) && negb (is_ascii_uppercase c) && negb (bool_decide (c = 43))) t
  && negb (bool_decide (t = [])).

Definition key_name_ok (k : KeyCode) : bool :=
  clean (key_to_string k) && negb (bool_decide (key_to_string k = [45]))
  && match parse_key_token (key_to_string k) with Ok k' => bool_decide (k' = k) | Err _ => false end.

Lemma char_names_ok :
  forallb (fun c => is_whitespace c || is_ascii_uppercase c || key_name_ok (Char c)) (seqZ 0 128) = true.
Proof. vm_compute. reflexivity. Qed.

Lemma function_names_ok : forallb (fun n => key_name_ok (F n)) (seqZ 0 256) = true.
Proof. vm_compute. reflexivity. Qed.

Lemma nameable_ok k : nameable k -> key_name_ok k = true.
Proof.
  destruct k as [c| | | | | | | | | | | | | | | |n]; intros Hk.
  2-16: vm_compute; reflexivity.
  - destruct Hk as (Hc & Hw & Hu). pose proof char_names_ok as Hall. rewrite forallb_forall in Hall.
    specialize (Hall c). rewrite Hw, Hu in Hall. apply Hall, list_elem_of_In, elem_of_seqZ. lia.
  - pose proof function_names_ok as Hall. rewrite forallb_forall in Hall.
    apply (Hall n), list_elem_of_In, elem_of_seqZ. simpl in Hk. lia.
Qed.

Lemma clean_spec t :
  clean t = true ->
  t <> [] /\ 43 ∉ t /\ Forall (fun c => is_whitespace c = false) t /\
  Forall (fun c => is_ascii_uppercase c = false) t.
Proof.
  unfold clean. rewrite andb_true_iff, forallb_forall, negb_true_iff, bool_decide_eq_false.
  intros [Hall Hne].
  assert (H : Forall (fun c => is_whitespace c = false /\ is_ascii_uppercase c = false /\ c <> 43) t).
  { apply Forall_forall. intros c Hc. apply list_elem_of_In, Hall in Hc.
    rewrite !andb_true_iff, !negb_true_iff, bool_decide_eq_false in Hc. tauto. }
  split_and!; [done| |eapply Forall_impl; [exact H|naive_solver]..].
  intros Hin. rewrite Forall_forall in H. by apply H in Hin as (_ & _ & ?).
Qed.

(** The tokens of the modifiers, then the key. *)
Definition stroke_tokens (s : KeyStroke) : list (list Z) :=
  let m := modifiers s in
  (if ctrl m then [chars "ctrl"] else []) ++ (if alt m then [chars "alt"] else [])
  ++ (if shift m then [chars "shift"] else []) ++ (if super_key m then [chars "super"] else [])
  ++ (if hyper m then [chars "hyper"] else []) ++ (if meta m then [chars "meta"] else [])
  ++ [key_to_string (key s)].

Lemma stroke_tokens_clean s : nameable (key s) -> Forall (fun t => clean t = true) (stroke_tokens s).
Proof.
  intros Hk. apply nameable_ok in Hk. unfold key_name_ok in Hk. apply andb_prop in Hk as [Hk _].
  apply andb_prop in Hk as [Hk _]. unfold stroke_tokens. rewrite !Forall_app.
  split_and!; try (destruct (_ (modifiers s)); repeat constructor). by apply Forall_singleton.
Qed.

Lemma stroke_tokens_last s : last (stroke_tokens s) = Some (key_to_string (key s)).
Proof. unfold stroke_tokens. rewrite !app_assoc. apply last_snoc. Qed.

Lemma parse_stroke_tokens s :
  nameable (key s) -> parse_tokens NONE (stroke_tokens s) = Ok s.
Proof.
  intros Hk. apply nameable_ok in Hk. unfold key_name_ok in Hk. apply andb_prop in Hk as [_ Hk].
  destruct s as [k [c a sh sk h me]]. unfold stroke_tokens.
  cbn [key modifiers ctrl alt shift super_key hyper meta] in *.
  destruct (parse_key_token (key_to_string k)) as [k'|] eqn:Hp; [|done]. apply bool_decide_eq_true in Hk as ->.
  destruct c, a, sh, sk, h, me; cbn [app parse_tokens]; cbn -[parse_key_token key_to_string]; by rewrite Hp.
Qed.

(** ** An escape that is not followed by a bracket or O *)

Definition escape_led (p : list Z * KeyStroke) : Prop :=
  exists second rest, p.1 = 27 :: second :: rest /\ (second = 91 \/ second = 79).

Lemma match_sequences_escape patterns x rest :
  x <> 91 -> x <> 79 -> Forall escape_led patterns ->
  match_sequences patterns (27 :: x :: rest) = Some (simple Escape, [27], 1%nat).
Proof.
  intros H1 H2. induction 1 as [|[p s] patterns (y & l & Hp & Hy) _ IH]; [done|].
  simpl in Hp. subst p. cbn [match_sequences].
  assert (y <> x) by naive_solver.
  rewrite !decide_False, IH; [done| |];
    intros Hpre; apply prefix_cons_inv_2, prefix_cons_inv_1 in Hpre; congruence.
Qed.

Lemma sequences_escape_led : Forall escape_led sequences.
Proof. repeat constructor; unfold escape_led; cbn [fst]; eauto 6. Qed.

(** Strokes typed one after the other, in any cursor mode, come out of the
    streaming decoder in order, each as the stroke that was typed and with the
    bytes it was sent as, and leave nothing pending: for all strokes both
    encodings can tell apart. *)
Theorem typed_strokes_survive enhanced typed es :
  Forall (fun sm => typable enhanced sm.1) typed ->
  mapM (fun sm => encode_key_with_modes sm.1 enhanced sm.2) typed = Some es ->
  feed_events [] (concat es) = (zip_with (fun sm e => mkDecoded Press sm.1 e) typed es, []).
Proof.
  intros Ht Hes. apply mapM_Some in Hes. unfold feed_events. cbn [app]. by apply feed_loop_strokes with enhanced.
Qed.

Lemma typed_strokes_survive_witness :
  let typed := [(mkStroke Enter CTRL, mkModes false false); (simple Up, mkModes true false);
                (mkStroke (Char 97) SHIFT, mkModes false true); (mkStroke (F 5) CTRL, mkModes true true)] in
  exists es, mapM (fun sm => encode_key_with_modes sm.1 true sm.2) typed = Some es /\
    feed_events [] (concat es) = (zip_with (fun sm e => mkDecoded Press sm.1 e) typed es, []).
Proof.
  eexists. split; [reflexivity|]. apply (typed_strokes_survive true); [|reflexivity].
  repeat constructor; unfold typable; simpl; lia.
Defined.

(** The decoder's loop ends: after a feed no event is left to decode, and
    what stays pending is empty or a proper prefix of one of the legacy
    sequences, so never more than five bytes, whatever was fed. *)
Theorem pending_is_sequence_prefix pending bytes events rest :
  feed_events pending bytes = (events, rest) ->
  decode_one rest = None /\ rest `suffix_of` (pending ++ bytes) /\ (length rest <= 5)%nat /\
  (rest = [] \/ Exists (fun p => rest `prefix_of` p.1 /\ rest <> p.1) sequences).
Proof.
  intros H. apply feed_loop_drains in H as [Hd Hs]; [|done]. apply decode_one_none in Hd as Hp.
  split_and!; [done..| |done]. destruct Hp as [->|Hp]; [simpl; lia|].
  apply Exists_exists in Hp as (p & Hin & Hpre & Hne).
  assert (Hall : Forall (fun p : list Z * KeyStroke => (length p.1 <= 6)%nat) sequences)
    by (repeat constructor; simpl; lia).
  rewrite Forall_forall in Hall. apply Hall in Hin. destruct Hpre as [k Hk].
  destruct k as [|b k]; [by rewrite app_nil_r in Hk|]. rewrite Hk, length_app in Hin. simpl in Hin. lia.
Qed.

Lemma pending_is_sequence_prefix_witness :
  exists events rest, feed_events [97; 27] [91; 49] = (events, rest) /\ rest = [27; 91; 49] /\ (length rest <= 5)%nat.
Proof.
  eexists _, _. split; [vm_compute; reflexivity|]. split; [reflexivity|].
  eapply (pending_is_sequence_prefix [97; 27] [91; 49]). vm_compute; reflexivity.
Defined.

(** A stroke has no bytes exactly when it is a function key above F4 (or F0)
    that the enhanced encoding does not carry: it is off, there is no modifier,
    or the key is above F12. *)
Lemma encode_key_none_iff s enhanced modes :
  encode_key_with_modes s enhanced modes = None <->
  exists n, key s = F n /\ ~ 1 <= n <= 4 /\
    (enhanced = false \/ modifiers s = NONE \/ ~ 1 <= n <= 12).
Proof.
  destruct s as [k m]. cbn [key modifiers].
  assert (Hm : is_empty m = true <-> m = NONE).
  { destruct m as [[] [] [] [] [] []]; unfold is_empty; simpl; unfold NONE; naive_solver. }
  unfold encode_key_with_modes. destruct k as [c| | | | | | | | | | | | | | | |n].
  17: {
    unfold needs_enhanced_encoding, csi_u_encode. cbn [key modifiers keycode_to_codepoint encode_modified_legacy].
    assert (Hl : legacy_encode (mkStroke (F n) m) (application_cursor modes) = None <-> ~ 1 <= n <= 4).
    { unfold legacy_encode. cbn [key]. repeat case_match; split; intros Hn; try done; lia. }
    assert (He : encode_modified_fkey n (modifier_param m) = None <-> ~ 1 <= n <= 12).
    { unfold encode_modified_fkey. repeat case_match; split; intros Hn; try done; lia. }
    destruct enhanced, (is_empty m) eqn:Em; cbn [andb];
      try (rewrite Hl; naive_solver).
    destruct (encode_modified_fkey n (modifier_param m)) eqn:Ef; cbn [key encode_modified_legacy]; rewrite ?Ef.
    - split; [done|]. intros (n' & [= <-] & _ & [?|[?|Hr]]); [done|naive_solver|]. by apply He in Hr.
    - rewrite Hl. naive_solver. }
  all: split; [|by intros (? & ? & _)].
  all: case_match; [done|]; unfold legacy_encode; cbn [key modifiers]; repeat case_match; done.
Qed.

(** An escape byte followed by any byte other than a bracket and O is decoded
    as the Escape key alone, so the Alt strokes the legacy encoder sends as
    ESC and the key come back as two keys; and a kitty sequence cut after the
    digits of its number comes back as Escape and the typed characters. *)
Theorem alt_prefix_never_decoded :
  (forall x rest, x <> 91 -> x <> 79 ->
     decode_one (27 :: x :: rest) = Some (mkDecoded Press (simple Escape) [27], 1%nat)) /\
  (exists first second, encode_key (mkStroke Enter CTRL) true = Some (first ++ second) /\
     feed_events [] first = ([mkDecoded Press (simple Escape) [27]; mkDecoded Press (simple (Char 91)) [91];
       mkDecoded Press (simple (Char 49)) [49]; mkDecoded Press (simple (Char 51)) [51]], [])).
Proof.
  split.
  - intros x rest H1 H2. cbn [decode_one]. rewrite decide_False by lia.
    assert (csi_u_decode (27 :: x :: rest) = None) as ->.
    { unfold csi_u_decode. repeat case_match; done. }
    unfold decode_escape. by rewrite match_sequences_escape by (done || apply sequences_escape_led).
  - exists [27; 91; 49; 51], [59; 53; 117]. split; vm_compute; reflexivity.
Qed.

(** The name written for a stroke reads back as that stroke, with any
    modifiers: for every named key, every function key of a byte, and every
    ASCII character that is neither white space nor upper case. *)
Theorem stroke_names_roundtrip s :
  nameable (key s) -> parse_key_stroke (stroke_to_string s) = Ok s.
Proof.
  intros Hk. pose proof (stroke_tokens_clean s Hk) as Hc.
  change (stroke_to_string s) with (join [43] (stroke_tokens s)).
  assert (Hs : split_on 43 (join [43] (stroke_tokens s)) = stroke_tokens s).
  { apply split_on_join; [by intros E; pose proof (stroke_tokens_last s) as Hl; rewrite E in Hl|].
    eapply Forall_impl; [exact Hc|]. intros t Ht. apply clean_spec in Ht; tauto. }
  unfold parse_key_stroke. rewrite trim_id, lower_id, Hs.
  - rewrite !decide_False; [by apply parse_stroke_tokens| |].
    + intros [E|E]; rewrite E in Hs.
      { change ([[]; []] = stroke_tokens s) in Hs. rewrite <- Hs in Hc. by apply Forall_cons in Hc as [? _]. }
      change ([[45]] = stroke_tokens s) in Hs. pose proof (stroke_tokens_last s) as Hl. rewrite <- Hs in Hl. injection Hl as Hl.
      apply nameable_ok in Hk. unfold key_name_ok in Hk. rewrite <- Hl in Hk. by apply andb_prop in Hk as [? _].
    + intros E. rewrite E in Hs. change ([[]] = stroke_tokens s) in Hs. rewrite <- Hs in Hc. by apply Forall_cons in Hc as [? _].
  - apply Forall_join; [by repeat constructor|]. eapply Forall_impl; [exact Hc|].
    intros t Ht. apply clean_spec in Ht; tauto.
  - apply Forall_join; [by repeat constructor|]. eapply Forall_impl; [exact Hc|].
    intros t Ht. apply clean_spec in Ht; tauto.
Qed.

Lemma stroke_names_roundtrip_witness :
  nameable (Char 43) /\ parse_key_stroke (chars "ctrl+shift+plus") = Ok (mkStroke (Char 43) (mkModifiers true false true false false false)).
Proof.
  split; [split_and!; (lia || reflexivity)|].
  apply (stroke_names_roundtrip (mkStroke (Char 43) (mkModifiers true false true false false false))).
  split_and!; (lia || reflexivity).
Defined.
