(* ===== verification/Keybind.v ===== *)
(** * Keymap actions and their configuration names

    [RuntimeAction], [parse_action] and [action_to_config_name] of
    packages/keybind/src/lib.rs, with the shell-like quoting of plugin
    arguments. Strings are lists of scalar values; slicing at a byte that is
    not a character boundary panics ([None]). *)

From stdpp Require Import strings.
From S2P Require Import Prelude Utf8 TextStr Keyboard.
Open Scope bmux_scope.

Inductive RuntimeAction :=
| NoOp | Quit | Detach | ShowHelp | EnterScrollMode | ExitScrollMode
| ScrollUpLine | ScrollDownLine | ScrollUpPage | ScrollDownPage | ScrollTop | ScrollBottom
| BeginSelection | MoveCursorLeft | MoveCursorRight | MoveCursorUp | MoveCursorDown
| CopyScrollback | ConfirmScrollback | ExitMode
| EnterMode (mode_id : list Z)
| SwitchProfile (profile_id : list Z)
| PluginCommand (plugin_id command_name : list Z) (args : list (list Z))
| ForwardToPane (bytes : list Z).

#[export] Instance RuntimeAction_eq_dec : EqDecision RuntimeAction.
Proof. solve_decision. Defined.

(** ** Names *)

Definition action_to_name (a : RuntimeAction) : list Z :=
  match a with
  | NoOp => chars "no_op"
  | Quit => chars "quit"
  | Detach => chars "detach"
  | ShowHelp => chars "show_help"
  | EnterScrollMode => chars "enter_scroll_mode"
  | ExitScrollMode => chars "exit_scroll_mode"
  | ScrollUpLine => chars "scroll_up_line"
  | ScrollDownLine => chars "scroll_down_line"
  | ScrollUpPage => chars "scroll_up_page"
  | ScrollDownPage => chars "scroll_down_page"
  | ScrollTop => chars "scroll_top"
  | ScrollBottom => chars "scroll_bottom"
  | BeginSelection => chars "begin_selection"
  | MoveCursorLeft => chars "move_cursor_left"
  | MoveCursorRight => chars "move_cursor_right"
  | MoveCursorUp => chars "move_cursor_up"
  | MoveCursorDown => chars "move_cursor_down"
  | CopyScrollback => chars "copy_scrollback"
  | ConfirmScrollback => chars "confirm_scrollback"
  | ExitMode => chars "exit_mode"
  | EnterMode _ => chars "enter_mode"
  | SwitchProfile _ => chars "switch_profile"
  | PluginCommand _ _ _ => chars "plugin_command"
  | ForwardToPane _ => chars "forward_to_pane"
  end.

(** Characters [shell_quote] leaves bare. The source tests bytes: a character
    above ASCII has only bytes that fail the test. *)
Definition shell_safe (c : Z) : bool :=
  is_ascii_alphabetic c || is_ascii_digit c || bool_decide (c ∈ chars "-_./:=").

Definition apostrophe : Z := 39.
Definition quotation_mark : Z := 34.
Definition backslash : Z := 92.

(** The [replace] of [shell_quote]: an apostrophe closes the quotes, is escaped
    and opens them again. *)
Fixpoint escape_quotes (value : list Z) : list Z :=
  match value with
  | [] => []
  | c :: value =>
      if decide (c = apostrophe)
      then [apostrophe; backslash; apostrophe; apostrophe] ++ escape_quotes value
      else c :: escape_quotes value
  end.

Definition shell_quote (value : list Z) : list Z :=
  if negb (bool_decide (value = [])) && forallb shell_safe value then value
  else [apostrophe] ++ escape_quotes value ++ [apostrophe].

Definition action_to_config_name (a : RuntimeAction) : list Z :=
  match a with
  | EnterMode mode_id => chars "enter_mode " ++ mode_id
  | SwitchProfile profile_id => chars "switch_profile " ++ profile_id
  | PluginCommand plugin_id command_name args =>
      if decide (args = [])
      then chars "plugin:" ++ plugin_id ++ chars ":" ++ command_name
      else chars "plugin:" ++ plugin_id ++ chars ":" ++ command_name ++ chars " "
           ++ join (chars " ") (shell_quote <$> args)
  | _ => action_to_name a
  end.

Definition plugin_command_vec (plugin_id command_name : string) (args : list string) : RuntimeAction :=
  PluginCommand (chars plugin_id) (chars command_name) (chars <$> args).

(** The names and targets of the catalog; its labels and details are display
    text. *)
Definition STATIC_BINDABLE_ACTIONS : list (list Z * RuntimeAction) :=
  [ (chars "quit", Quit);
    (chars "quit_destroy", Quit);
    (chars "detach", Detach);
    (chars "no_op", NoOp);
    (chars "toggle_split_direction", NoOp);
    (chars "enter_window_mode", NoOp);
    (chars "show_help", ShowHelp);
    (chars "enter_scroll_mode", EnterScrollMode);
    (chars "exit_scroll_mode", ExitScrollMode);
    (chars "scroll_up_line", ScrollUpLine);
    (chars "scroll_down_line", ScrollDownLine);
    (chars "scroll_up_page", ScrollUpPage);
    (chars "scroll_down_page", ScrollDownPage);
    (chars "scroll_top", ScrollTop);
    (chars "scroll_bottom", ScrollBottom);
    (chars "begin_selection", BeginSelection);
    (chars "move_cursor_left", MoveCursorLeft);
    (chars "move_cursor_right", MoveCursorRight);
    (chars "move_cursor_up", MoveCursorUp);
    (chars "move_cursor_down", MoveCursorDown);
    (chars "copy_scrollback", CopyScrollback);
    (chars "confirm_scrollback", ConfirmScrollback);
    (chars "exit_mode", ExitMode);
    (chars "focus_next_pane", plugin_command_vec "bmux.tabs" "focus-pane-in-direction" ["--direction"; "next"]);
    (chars "focus_previous_pane", plugin_command_vec "bmux.tabs" "focus-pane-in-direction" ["--direction"; "prev"]);
    (chars "focus_prev_pane", plugin_command_vec "bmux.tabs" "focus-pane-in-direction" ["--direction"; "prev"]);
    (chars "focus_left_pane", plugin_command_vec "bmux.tabs" "focus-pane-in-direction" ["--direction"; "left"]);
    (chars "focus_right_pane", plugin_command_vec "bmux.tabs" "focus-pane-in-direction" ["--direction"; "right"]);
    (chars "focus_up_pane", plugin_command_vec "bmux.tabs" "focus-pane-in-direction" ["--direction"; "up"]);
    (chars "focus_down_pane", plugin_command_vec "bmux.tabs" "focus-pane-in-direction" ["--direction"; "down"]);
    (chars "split_focused_vertical", plugin_command_vec "bmux.tabs" "split-pane" ["--direction"; "vertical"]);
    (chars "split_focused_horizontal", plugin_command_vec "bmux.tabs" "split-pane" ["--direction"; "horizontal"]);
    (chars "increase_split", plugin_command_vec "bmux.tabs" "resize-pane" ["--direction"; "increase"]);
    (chars "decrease_split", plugin_command_vec "bmux.tabs" "resize-pane" ["--direction"; "decrease"]);
    (chars "resize_left", plugin_command_vec "bmux.tabs" "resize-pane" ["--direction"; "left"]);
    (chars "resize_right", plugin_command_vec "bmux.tabs" "resize-pane" ["--direction"; "right"]);
    (chars "resize_up", plugin_command_vec "bmux.tabs" "resize-pane" ["--direction"; "up"]);
    (chars "resize_down", plugin_command_vec "bmux.tabs" "resize-pane" ["--direction"; "down"]);
    (chars "restart_focused_pane", plugin_command_vec "bmux.tabs" "restart-pane" []);
    (chars "close_focused_pane", plugin_command_vec "bmux.tabs" "close-active-pane" []);
    (chars "zoom_pane", plugin_command_vec "bmux.tabs" "zoom-pane" []);
    (chars "window_prev", plugin_command_vec "bmux.tabs" "prev-tab" []);
    (chars "window_next", plugin_command_vec "bmux.tabs" "next-tab" []);
    (chars "rename_tab", plugin_command_vec "bmux.tabs" "rename-tab" []);
    (chars "window_rename", plugin_command_vec "bmux.tabs" "rename-tab" []);
    (chars "window_close", plugin_command_vec "bmux.tabs" "close-current-tab" []);
    (chars "window_goto_1", plugin_command_vec "bmux.tabs" "goto-tab" ["1"]);
    (chars "window_goto_2", plugin_command_vec "bmux.tabs" "goto-tab" ["2"]);
    (chars "window_goto_3", plugin_command_vec "bmux.tabs" "goto-tab" ["3"]);
    (chars "window_goto_4", plugin_command_vec "bmux.tabs" "goto-tab" ["4"]);
    (chars "window_goto_5", plugin_command_vec "bmux.tabs" "goto-tab" ["5"]);
    (chars "window_goto_6", plugin_command_vec "bmux.tabs" "goto-tab" ["6"]);
    (chars "window_goto_7", plugin_command_vec "bmux.tabs" "goto-tab" ["7"]);
    (chars "window_goto_8", plugin_command_vec "bmux.tabs" "goto-tab" ["8"]);
    (chars "window_goto_9", plugin_command_vec "bmux.tabs" "goto-tab" ["9"]) ].

(** ** Parsing *)

Inductive ParseActionError :=
| ModeIdRequired | ProfileIdRequired | UnterminatedQuote
| ExpectedPluginCommand | PluginAndCommandRequired | CommandNameRequired | UnknownAction.

Definition eq_ignore_ascii_case (s t : list Z) : bool :=
  bool_decide (to_ascii_lowercase <$> s = to_ascii_lowercase <$> t).

(** [split_once(sep)]. *)
Fixpoint split_once (sep : Z) (t : list Z) : option (list Z * list Z) :=
  match t with
  | [] => None
  | c :: t =>
      if decide (c = sep) then Some ([], t)
      else match split_once sep t with
           | Some (a, b) => Some (c :: a, b)
           | None => None
           end
  end.

Definition parse_enter_mode_action (value : list Z) : option (result ParseActionError RuntimeAction) :=
  '(command, target_mode) ← split_once 32 value;
  if negb (eq_ignore_ascii_case command (chars "enter_mode")) then None
  else
    let mode_id := trim target_mode in
    if decide (mode_id = []) then Some (Err ModeIdRequired)
    else Some (Ok (EnterMode (to_ascii_lowercase <$> mode_id))).

Definition parse_switch_profile_action (value : list Z) : option (result ParseActionError RuntimeAction) :=
  '(command, target_profile) ← split_once 32 value;
  if negb (eq_ignore_ascii_case command (chars "switch_profile")) then None
  else
    let profile_id := trim target_profile in
    if decide (profile_id = []) then Some (Err ProfileIdRequired)
    else Some (Ok (SwitchProfile (to_ascii_lowercase <$> profile_id))).

(** The scanner of [split_shell_words]: [skipping] while the inner loop drops
    further white space, [quote] the open quote, [escaped] after a backslash. *)
Fixpoint shell_words (t : list Z) (words : list (list Z)) (current : list Z) (quote : option Z)
  (escaped skipping : bool) : result ParseActionError (list (list Z)) :=
  match t with
  | [] =>
      let current := if escaped then current ++ [backslash] else current in
      if decide (quote <> None) then Err UnterminatedQuote
      else Ok (if decide (current = []) then words else words ++ [current])
  | ch :: t =>
      if skipping && is_whitespace ch then shell_words t words current quote escaped true
      else if escaped then shell_words t words (current ++ [ch]) quote false false
      else if bool_decide (ch = backslash) && negb (bool_decide (quote = Some apostrophe))
      then shell_words t words current quote true false
      else
        match quote with
        | Some active_quote =>
            if decide (ch = active_quote) then shell_words t words current None false false
            else shell_words t words (current ++ [ch]) quote false false
        | None =>
            if decide (ch = apostrophe \/ ch = quotation_mark)
            then shell_words t words current (Some ch) false false
            else if is_whitespace ch
            then if decide (current = []) then shell_words t words [] None false true
                 else shell_words t (words ++ [current]) [] None false true
            else shell_words t words (current ++ [ch]) None false false
        end
  end.

Definition split_shell_words (value : list Z) : result ParseActionError (list (list Z)) :=
  shell_words value [] [] None false false.

(** Outer [None]: the slice panics; inner [None]: not a plugin action. *)
Definition parse_plugin_action (value : list Z)
  : option (option (result ParseActionError RuntimeAction)) :=
  let prefix := chars "plugin:" in
  if decide (str_len value < str_len prefix) then Some None
  else
    head ← slice_to value (str_len prefix);
    if negb (eq_ignore_ascii_case head prefix) then Some None
    else
      rest ← slice_from value (str_len prefix);
      Some (Some
        match split_once 58 rest with
        | None => Err ExpectedPluginCommand
        | Some (plugin_id, remainder) =>
            if decide (trim plugin_id = [] \/ trim remainder = []) then Err PluginAndCommandRequired
            else
              let? (command_name, args) :=
                match split_once 32 remainder with
                | Some (cmd, args_str) => let? args := split_shell_words args_str in Ok (cmd, args)
                | None => Ok (remainder, [])
                end in
              if decide (trim command_name = []) then Err CommandNameRequired
              else Ok (PluginCommand (to_ascii_lowercase <$> plugin_id) (to_ascii_lowercase <$> command_name) args)
        end).

Fixpoint find_action (specs : list (list Z * RuntimeAction)) (name : list Z) : option RuntimeAction :=
  match specs with
  | [] => None
  | (action, target) :: specs =>
      if eq_ignore_ascii_case action name then Some target else find_action specs name
  end.

(** [None]: the call panics. *)
Definition parse_action (value : list Z) : option (result ParseActionError RuntimeAction) :=
  let trimmed := trim value in
  match parse_enter_mode_action trimmed with
  | Some mode_action => Some mode_action
  | None =>
      match parse_switch_profile_action trimmed with
      | Some profile_action => Some profile_action
      | None =>
          plugin ← parse_plugin_action trimmed;
          match plugin with
          | Some plugin_action => Some plugin_action
          | None =>
              match find_action STATIC_BINDABLE_ACTIONS trimmed with
              | Some target => Some (Ok target)
              | None => Some (Err UnknownAction)
              end
          end
      end
  end.
