(* ===== verification/KeybindProps.v ===== *)
(** * Properties of the keymap actions: names round trip, and what is lost

    White-space trimming, shell-like quoting against its scanner, and the
    round trip of [action_to_config_name] through [parse_action]. *)

From stdpp Require Import strings.
From S2P Require Import Prelude Utf8 TextStr Keyboard Keybind.

(** ** Trimming *)

Definition ends_solid (t : list Z) : Prop :=
  (forall c, head t = Some c -> is_whitespace c = false) /\
  (forall c, last t = Some c -> is_whitespace c = false).

Lemma trim_start_solid t : (forall c, head t = Some c -> is_whitespace c = false) -> trim_start t = t.
Proof. destruct t as [|c t]; intros H; [done|]. cbn [trim_start]. by rewrite H. Qed.

Lemma head_reverse (t : list Z) : head (reverse t) = last t.
Proof. by rewrite <- last_reverse, reverse_involutive. Qed.

Lemma trim_solid t : ends_solid t -> trim t = t.
Proof.
  intros [Hh Hl]. unfold trim. rewrite (trim_start_solid t) by done.
  rewrite trim_start_solid, reverse_involutive; [done|]. by rewrite head_reverse.
Qed.

Lemma trim_start_head t c : head (trim_start t) = Some c -> is_whitespace c = false.
Proof.
  induction t as [|d t IH]; cbn [trim_start]; [done|]. destruct (is_whitespace d) eqn:E; [done|].
  by intros [= <-].
Qed.

Lemma trim_start_suffix t : exists ws, t = ws ++ trim_start t.
Proof.
  induction t as [|d t [ws IH]]; cbn [trim_start]; [by exists []|]. destruct (is_whitespace d).
  - exists (d :: ws). simpl. by f_equal.
  - by exists [].
Qed.

Lemma trim_ends_solid t : ends_solid (trim t).
Proof.
  unfold trim. destruct (trim_start_suffix (reverse (trim_start t))) as [ws Hws].
  apply (f_equal reverse) in Hws. rewrite reverse_involutive, reverse_app in Hws. split; intros c Hc.
  - apply (trim_start_head t). rewrite Hws. revert Hc. by destruct (reverse (trim_start (reverse _))).
  - rewrite last_reverse in Hc. by apply trim_start_head in Hc.
Qed.

Lemma trim_idemp t : trim (trim t) = trim t.
Proof. apply trim_solid, trim_ends_solid. Qed.

Lemma trim_start_nil t : trim_start t = [] -> Forall (fun c => is_whitespace c = true) t.
Proof.
  induction t as [|c t IH]; cbn [trim_start]; [by constructor|]. destruct (is_whitespace c) eqn:E; [|done].
  intros H. constructor; auto.
Qed.

Lemma trim_nil t : trim t = [] -> Forall (fun c => is_whitespace c = true) t.
Proof.
  unfold trim. intros H. apply (f_equal reverse) in H. rewrite reverse_involutive in H.
  apply trim_start_nil, Forall_reverse in H. rewrite reverse_involutive in H.
  destruct (trim_start t) as [|c u] eqn:E; [by apply trim_start_nil|].
  apply Forall_cons in H as [H _]. by rewrite (trim_start_head t c) in H; [|rewrite E].
Qed.

Lemma trim_not_nil t : ends_solid t -> t <> [] -> forall u, trim (t ++ u) <> [].
Proof.
  intros [Hh _] Hne u H. apply trim_nil, Forall_app in H as [H _].
  destruct t as [|c t]; [done|]. apply Forall_cons in H as [H _]. by rewrite Hh in H.
Qed.

Lemma ends_solid_app s t : ends_solid s -> ends_solid t -> s <> [] -> t <> [] ->
  forall u, ends_solid (s ++ u ++ t).
Proof.
  intros [Hs _] [_ Ht] Hns Hnt u. split; intros c.
  - destruct s; [done|]. apply Hs.
  - rewrite app_assoc, last_app. destruct t as [|d t]; [done|].
    destruct (last (d :: t)) as [e|] eqn:E; [|by apply last_None in E]. intros [= <-]. by apply Ht.
Qed.

(** ** Quoting *)

Lemma shell_safe_plain c :
  shell_safe c = true ->
  is_whitespace c = false /\ c <> apostrophe /\ c <> quotation_mark /\ c <> backslash.
Proof.
  unfold shell_safe, is_ascii_alphabetic, is_ascii_lowercase, is_ascii_uppercase, is_ascii_digit,
    is_whitespace, apostrophe, quotation_mark, backslash.
  rewrite !orb_true_iff, !bool_decide_eq_true. change (chars "-_./:=") with [45; 95; 46; 47; 58; 61].
  rewrite !elem_of_cons, elem_of_nil. intros H. split; [|lia]. rewrite !orb_false_iff, !bool_decide_eq_false.
  rewrite !elem_of_cons, elem_of_nil. lia.
Qed.

Lemma words_plain c t words current skipping :
  shell_safe c = true ->
  shell_words (c :: t) words current None false skipping =
  shell_words t words (current ++ [c]) None false false.
Proof.
  intros (Hw & H1 & H2 & H3)%shell_safe_plain. cbn [shell_words]. rewrite Hw, andb_false_r.
  rewrite (bool_decide_eq_false_2 (c = backslash)) by done. cbn [andb].
  by rewrite decide_False by tauto.
Qed.

Lemma words_safe w t words current skipping :
  w <> [] -> forallb shell_safe w = true ->
  shell_words (w ++ t) words current None false skipping =
  shell_words t words (current ++ w) None false false.
Proof.
  revert current skipping. induction w as [|c w IH]; intros current skipping Hne; [done|].
  cbn [forallb]. intros [Hc Hw]%andb_prop. cbn [app]. rewrite words_plain by done.
  destruct w as [|d w]; [done|]. rewrite IH by done. by rewrite <- app_assoc.
Qed.

Lemma words_apostrophe t words current :
  shell_words (apostrophe :: backslash :: apostrophe :: apostrophe :: t) words current (Some apostrophe) false false =
  shell_words t words (current ++ [apostrophe]) (Some apostrophe) false false.
Proof. reflexivity. Qed.

Lemma words_open t words current skipping :
  shell_words (apostrophe :: t) words current None false skipping =
  shell_words t words current (Some apostrophe) false false.
Proof. by destruct skipping. Qed.

Lemma words_close t words current :
  shell_words (apostrophe :: t) words current (Some apostrophe) false false =
  shell_words t words current None false false.
Proof. reflexivity. Qed.

Lemma words_space t words current :
  current <> [] ->
  shell_words (32 :: t) words current None false false = shell_words t (words ++ [current]) [] None false true.
Proof. by destruct current. Qed.

Lemma words_escaped v t words current :
  shell_words (escape_quotes v ++ t) words current (Some apostrophe) false false =
  shell_words t words (current ++ v) (Some apostrophe) false false.
Proof.
  revert current. induction v as [|c v IH]; intros current; cbn [escape_quotes app]; [by rewrite app_nil_r|].
  destruct (decide (c = apostrophe)) as [->|Hc].
  - cbn [app]. rewrite words_apostrophe, IH. by rewrite <- app_assoc.
  - cbn [app shell_words andb]. rewrite (bool_decide_eq_true_2 (Some apostrophe = _)) by done.
    rewrite andb_false_r, decide_False by done. rewrite IH. by rewrite <- app_assoc.
Qed.

Lemma words_quote v t words current skipping :
  v <> [] ->
  shell_words (shell_quote v ++ t) words current None false skipping =
  shell_words t words (current ++ v) None false false.
Proof.
  intros Hne. unfold shell_quote. rewrite (bool_decide_eq_false_2 (v = [])) by done. cbn [negb andb].
  destruct (forallb shell_safe v) eqn:Hs; [by apply words_safe|].
  rewrite <- !app_assoc. cbn [app]. by rewrite words_open, words_escaped, words_close.
Qed.

(** An empty argument is written as two apostrophes and never read back. *)
Lemma words_empty t words skipping :
  shell_words (shell_quote [] ++ t) words [] None false skipping = shell_words t words [] None false false.
Proof. by destruct skipping. Qed.

Lemma words_space_empty t words :
  shell_words (32 :: t) words [] None false false = shell_words t words [] None false true.
Proof. reflexivity. Qed.

Definition nonempty_args (args : list (list Z)) : list (list Z) := filter (fun a => a <> []) args.

Lemma words_join args words skipping :
  shell_words (join (chars " ") (shell_quote <$> args)) words [] None false skipping =
  Ok (words ++ nonempty_args args).
Proof.
  unfold nonempty_args. revert words skipping. induction args as [|a args IH]; intros words skipping.
  { cbn. by rewrite app_nil_r. }
  destruct args as [|b args].
  - cbn [fmap list_fmap join]. rewrite <- (app_nil_r (shell_quote a)). destruct (decide (a = [])) as [->|Ha].
    + rewrite words_empty. cbn. by rewrite app_nil_r.
    + rewrite words_quote, filter_cons_True by done. by destruct a.
  - change (join (chars " ") (shell_quote <$> a :: b :: args)) with
      (shell_quote a ++ 32 :: join (chars " ") (shell_quote <$> b :: args)).
    destruct (decide (a = [])) as [->|Ha].
    + by rewrite words_empty, words_space_empty, IH.
    + rewrite words_quote, words_space, IH, (filter_cons_True _ a) by done. by rewrite <- app_assoc.
Qed.

(** ** The round trip *)

Definition lower (t : list Z) : Prop := to_ascii_lowercase <$> t = t.

(** Bindable actions with ids and names in their normal form. *)
Definition canonical_action (a : RuntimeAction) : Prop :=
  match a with
  | EnterMode m | SwitchProfile m => m <> [] /\ ends_solid m /\ lower m
  | PluginCommand plugin_id command_name args =>
      (plugin_id <> [] /\ ends_solid plugin_id /\ lower plugin_id /\ 58 ∉ plugin_id) /\
      (command_name <> [] /\ ends_solid command_name /\ lower command_name /\ 32 ∉ command_name)
  | ForwardToPane _ => False
  | _ => True
  end.

Definition without_empty_args (a : RuntimeAction) : RuntimeAction :=
  match a with
  | PluginCommand plugin_id command_name args => PluginCommand plugin_id command_name (nonempty_args args)
  | _ => a
  end.

Lemma split_once_app sep s t : sep ∉ s -> split_once sep (s ++ sep :: t) = Some (s, t).
Proof.
  induction s as [|c s IH]; intros Hs; cbn [app split_once]; [by rewrite decide_True|].
  apply not_elem_of_cons in Hs as [Hc Hs]. by rewrite decide_False, IH by done.
Qed.

Lemma split_once_none sep s : sep ∉ s -> split_once sep s = None.
Proof.
  induction s as [|c s IH]; intros Hs; cbn [split_once]; [done|].
  apply not_elem_of_cons in Hs as [Hc Hs]. by rewrite decide_False, IH by done.
Qed.

Lemma split_once_head sep c s a b : c <> sep -> split_once sep (c :: s) = Some (a, b) -> exists a', a = c :: a'.
Proof.
  intros Hc. cbn [split_once]. rewrite decide_False by done.
  destruct (split_once sep s) as [[x y]|]; intros [= <- <-]. eauto.
Qed.

Lemma plugin_not_mode s : parse_enter_mode_action (chars "plugin:" ++ s) = None.
Proof.
  unfold parse_enter_mode_action. change (chars "plugin:" ++ s) with (112 :: (chars "lugin:" ++ s)).
  destruct (split_once 32 _) as [[a b]|] eqn:E; [|done]. apply split_once_head in E as [a' ->]; [|done]. done.
Qed.

Lemma plugin_not_profile s : parse_switch_profile_action (chars "plugin:" ++ s) = None.
Proof.
  unfold parse_switch_profile_action. change (chars "plugin:" ++ s) with (112 :: (chars "lugin:" ++ s)).
  destruct (split_once 32 _) as [[a b]|] eqn:E; [|done]. apply split_once_head in E as [a' ->]; [|done]. done.
Qed.

Lemma parse_plugin_written plugin_id remainder :
  58 ∉ plugin_id -> lower plugin_id -> trim plugin_id <> [] -> trim remainder <> [] ->
  parse_plugin_action (chars "plugin:" ++ plugin_id ++ chars ":" ++ remainder) =
  Some (Some
    (rbind match split_once 32 remainder with
           | Some (cmd, args_str) => rbind (split_shell_words args_str) (fun args => Ok (cmd, args))
           | None => Ok (remainder, [])
           end
      (fun ca => if decide (trim ca.1 = []) then Err CommandNameRequired
                 else Ok (PluginCommand plugin_id (to_ascii_lowercase <$> ca.1) ca.2)))).
Proof.
  intros Hid Hl H1 H2. unfold parse_plugin_action. rewrite decide_False.
  2: { rewrite str_len_app. pose proof (str_len_nonneg (plugin_id ++ chars ":" ++ remainder)). lia. }
  rewrite slice_to_app, slice_from_app. cbn [mbind option_bind].
  change (negb (eq_ignore_ascii_case (chars "plugin:") (chars "plugin:"))) with false. cbn iota.
  change (chars ":" ++ remainder) with (58 :: remainder). rewrite split_once_app by done.
  rewrite decide_False by tauto. rewrite Hl. do 2 f_equal.
  destruct (split_once 32 remainder) as [[cmd rest]|]; [|done]. by destruct (split_shell_words rest).
Qed.

Lemma shell_quote_solid a : ends_solid (shell_quote a) /\ shell_quote a <> [].
Proof.
  unfold shell_quote. destruct (decide (a = [])) as [->|Ha]; [split; [split; by intros c [= <-]|done]|].
  rewrite bool_decide_eq_false_2 by done. cbn [negb andb].
  destruct (forallb shell_safe a) eqn:Hs.
  - rewrite forallb_forall in Hs. split; [|done]. split; intros c Hc; eapply shell_safe_plain, Hs, list_elem_of_In.
    + destruct a; [done|]. injection Hc as ->. constructor.
    + by apply last_Some_elem_of.
  - split; [|done]. split; [by intros c [= <-]|]. intros c. rewrite app_assoc, last_snoc. by intros [= <-].
Qed.

Lemma join_quoted_solid a args :
  ends_solid (join (chars " ") (shell_quote <$> a :: args)) /\ join (chars " ") (shell_quote <$> a :: args) <> [].
Proof.
  revert a. induction args as [|b args IH]; intros a; [apply shell_quote_solid|].
  change (join (chars " ") (shell_quote <$> a :: b :: args)) with
    (shell_quote a ++ chars " " ++ join (chars " ") (shell_quote <$> b :: args)).
  destruct (shell_quote_solid a) as [H1 H2], (IH b) as [H3 H4]. split; [by apply ends_solid_app|].
  intros E. by apply app_nil in E as [? _].
Qed.

Lemma single_solid c : is_whitespace c = false -> ends_solid [c].
Proof. intros H. split; by intros d [= <-]. Qed.

Lemma written_plugin_solid plugin_id rest :
  rest <> [] -> ends_solid rest -> ends_solid (chars "plugin:" ++ plugin_id ++ chars ":" ++ rest).
Proof.
  intros Hr Hs. pose proof (ends_solid_app [112] rest (single_solid 112 eq_refl) Hs ltac:(done) Hr
    (chars "lugin:" ++ plugin_id ++ chars ":")) as H. by rewrite <- !app_assoc in H.
Qed.

Lemma parse_action_plugin plugin_id rest :
  rest <> [] -> ends_solid rest ->
  parse_action (chars "plugin:" ++ plugin_id ++ chars ":" ++ rest) =
  (plugin ← parse_plugin_action (chars "plugin:" ++ plugin_id ++ chars ":" ++ rest);
   match plugin with
   | Some plugin_action => Some plugin_action
   | None => match find_action STATIC_BINDABLE_ACTIONS (chars "plugin:" ++ plugin_id ++ chars ":" ++ rest) with
             | Some target => Some (Ok target)
             | None => Some (Err UnknownAction)
             end
   end).
Proof.
  intros Hr Hs. unfold parse_action. rewrite (trim_solid (chars "plugin:" ++ _)) by by apply written_plugin_solid.
  by rewrite plugin_not_mode, plugin_not_profile.
Qed.

Lemma enter_mode_written m :
  m <> [] -> ends_solid m -> lower m ->
  parse_action (chars "enter_mode " ++ m) = Some (Ok (EnterMode m)) /\
  parse_action (chars "switch_profile " ++ m) = Some (Ok (SwitchProfile m)).
Proof.
  intros Hne Hs Hl.
  assert (Ht : forall c u, is_whitespace c = false -> trim (c :: u ++ m) = c :: u ++ m).
  { intros c u Hc. apply trim_solid. by apply (ends_solid_app [c] m (single_solid c Hc) Hs). }
  unfold parse_action.
  change (chars "enter_mode " ++ m) with (101 :: chars "nter_mode " ++ m).
  change (chars "switch_profile " ++ m) with (115 :: chars "witch_profile " ++ m).
  rewrite (Ht 101 (chars "nter_mode ") eq_refl), (Ht 115 (chars "witch_profile ") eq_refl).
  unfold parse_enter_mode_action, parse_switch_profile_action.
  change (101 :: chars "nter_mode " ++ m) with (chars "enter_mode" ++ 32 :: m).
  change (115 :: chars "witch_profile " ++ m) with (chars "switch_profile" ++ 32 :: m).
  rewrite !split_once_app by (apply (bool_decide_unpack _); vm_compute; exact I).
  cbn -[trim eq_ignore_ascii_case chars]. rewrite (trim_solid m) by done.
  change (eq_ignore_ascii_case (chars "switch_profile") (chars "enter_mode")) with false.
  change (eq_ignore_ascii_case (chars "enter_mode") (chars "enter_mode")) with true.
  change (eq_ignore_ascii_case (chars "switch_profile") (chars "switch_profile")) with true.
  cbn [negb]. rewrite !decide_False by done. by rewrite Hl.
Qed.

(** The name written for a bindable action reads back as that action, for
    ids and names in lower case, not padded by white space and without the
    separators; only empty plugin arguments, written as two apostrophes, are
    dropped. Arguments with spaces, quotes and backslashes survive the quoting. *)
Theorem action_names_roundtrip a :
  canonical_action a -> parse_action (action_to_config_name a) = Some (Ok (without_empty_args a)).
Proof.
  destruct a as [ | | | | | | | | | | | | | | | | | | | |m|m|pid cmd args|bytes]; intros Ha.
  1-20: vm_compute; reflexivity.
  - destruct Ha as (H1 & H2 & H3). by apply enter_mode_written.
  - destruct Ha as (H1 & H2 & H3). by apply enter_mode_written.
  - destruct Ha as ((H1 & H2 & H3 & H4) & (H5 & H6 & H7 & H8)). cbn [action_to_config_name without_empty_args].
    assert (Hid : trim pid <> []) by (rewrite <- (app_nil_r pid); by apply trim_not_nil).
    destruct args as [|arg args].
    + rewrite decide_True, parse_action_plugin, parse_plugin_written; try done; [|by rewrite trim_solid].
      rewrite split_once_none by done. cbn [rbind fst snd mbind option_bind].
      rewrite decide_False by (by rewrite trim_solid). by rewrite H7.
    + rewrite decide_False by done. destruct (join_quoted_solid arg args) as [Hj1 Hj2].
      rewrite parse_action_plugin, parse_plugin_written; try done; [|by apply trim_not_nil| |].
      * change (chars " " ++ ?x) with (32 :: x). rewrite split_once_app by done.
        unfold split_shell_words. rewrite words_join. cbn [rbind fst snd mbind option_bind app].
        rewrite decide_False by (by rewrite trim_solid). by rewrite H7.
      * intros E. by apply app_nil in E as [? _].
      * by apply ends_solid_app.
  - done.
Qed.

Lemma action_names_roundtrip_witness :
  let a := PluginCommand (chars "bmux.tabs") (chars "rename-tab") [chars "it's a 'tab'"; []; chars "C:\dir"] in
  canonical_action a /\ parse_action (action_to_config_name a) =
    Some (Ok (PluginCommand (chars "bmux.tabs") (chars "rename-tab") [chars "it's a 'tab'"; chars "C:\dir"])).
Proof.
  assert (H : canonical_action (PluginCommand (chars "bmux.tabs") (chars "rename-tab")
    [chars "it's a 'tab'"; []; chars "C:\dir"])).
  { split; (split_and!; [done|split; by intros c [= <-]|reflexivity|apply (bool_decide_unpack _); vm_compute; exact I]). }
  split; [exact H|]. exact (action_names_roundtrip _ H).
Defined.

(** Reading an action name panics exactly when the trimmed name, not an
    enter_mode or switch_profile action, has at least seven bytes and its
    seventh byte ends inside a character: the prefix test slices there before
    it knows the text is ASCII. *)
Theorem parse_action_panics_iff value :
  parse_action value = None <->
  parse_enter_mode_action (trim value) = None /\ parse_switch_profile_action (trim value) = None /\
  7 <= str_len (trim value) /\ ~ boundary (trim value) 7.
Proof.
  unfold parse_action. destruct (parse_enter_mode_action (trim value)); [naive_solver|].
  destruct (parse_switch_profile_action (trim value)); [naive_solver|].
  unfold parse_plugin_action. change (str_len (chars "plugin:")) with 7.
  destruct (decide (str_len (trim value) < 7)) as [Hlt|Hge]; cbn [mbind option_bind].
  { destruct (find_action _ _); split; (done || lia). }
  unfold slice_to, slice_from. destruct (split_at (trim value) 7) as [[p s]|] eqn:Hsp.
  - cbn -[chars eq_ignore_ascii_case find_action STATIC_BINDABLE_ACTIONS]. apply split_at_Some in Hsp as [H1 H2].
    split; [|intros (_ & _ & _ & Hb); destruct Hb; by exists p, s].
    destruct (negb _); [by destruct (find_action _ _)|]. done.
  - split; [|done]. intros _. split_and!; [done..|lia|]. intros Hb.
    apply boundary_split in Hb as (p & s & Hb & _). congruence.
Qed.
