(* ===== verification/Keymap.v ===== *)
(** * Keymaps and the input processor

    The keymap and [InputProcessor] of packages/cli/src/input/mod.rs, with the
    terminal event adapter (packages/cli/src/input/crossterm_adapter.rs,
    packages/keyboard/src/crossterm.rs). Clock readings are arguments, in
    nanoseconds; a call reads one instant. Outer [None] is a panic or a call
    that never returns; errors are [Err]. *)

From stdpp Require Import strings gmap.
From S2P Require Import Prelude Utf8 TextStr Keyboard Keybind.
Open Scope bmux_scope.

(** ** Sorted maps of strings *)

(** Byte order of UTF-8, which is the order of the scalar values. *)
Fixpoint str_lt (s t : list Z) : bool :=
  match s, t with
  | _, [] => false
  | [], _ :: _ => true
  | a :: s, b :: t => bool_decide (a < b) || bool_decide (a = b) && str_lt s t
  end.

Fixpoint btree_insert (k v : list Z) (l : list (list Z * list Z)) : list (list Z * list Z) :=
  match l with
  | [] => [(k, v)]
  | (k', v') :: l' =>
      if decide (k = k') then (k, v) :: l'
      else if str_lt k k' then (k, v) :: l
      else (k', v') :: btree_insert k v l'
  end.

(** [collect] into a [BTreeMap]: ordered by key, the last value of a key. *)
Definition btree_collect (l : list (list Z * list Z)) : list (list Z * list Z) :=
  foldl (fun acc kv => btree_insert kv.1 kv.2 acc) [] l.

(** ** Keymaps *)

Record KeyBinding := mkBinding {
  chord : list KeyStroke;
  action : RuntimeAction;
}.

Record ModalModeConfig := mkModeConfig {
  mc_label : list Z;
  mc_passthrough : bool;
  mc_bindings : list (list Z * list Z);
}.

Record ModalMode := mkMode {
  label : list Z;
  passthrough : bool;
  bindings : list KeyBinding;
}.

Record Keymap := mkKeymap {
  timeout : option Z;
  global_bindings : list KeyBinding;
  runtime_bindings : list KeyBinding;
  scroll_bindings : list KeyBinding;
  modal_modes : gmap (list Z) ModalMode;
  initial_mode : option (list Z);
}.

Inductive KeymapError :=
| TimeoutOutOfRange | KeyError (e : ParseKeyError) | ActionError (e : ParseActionError) | DuplicateChord
| EmptyModeId | DuplicateModeId | EmptyInitialMode | UndefinedInitialMode | UndefinedEnterMode.

Definition MIN_TIMEOUT_MS : Z := 50.
Definition MAX_TIMEOUT_MS : Z := 5000.

(** Calls that may panic or fail. *)
Definition M (A : Type) : Type := option (result KeymapError A).
Definition okM {A} (a : A) : M A := Some (Ok a).
Definition bail {A} (e : KeymapError) : M A := Some (Err e).
Definition bindM {A B} (x : M A) (k : A -> M B) : M B :=
  match x with
  | Some (Ok a) => k a
  | Some (Err e) => Some (Err e)
  | None => None
  end.
Notation "'let!' x ':=' r 'in' k" := (bindM r (fun x => k))
  (at level 200, x pattern, r at level 100, k at level 200, right associativity) : bmux_scope.

Definition parse_chord (value : list Z) : M (list KeyStroke) :=
  match parse_key_chord value with Ok c => okM c | Err e => bail (KeyError e) end.

Definition parse_stroke (value : list Z) : M KeyStroke :=
  match parse_key_stroke value with Ok s => okM s | Err e => bail (KeyError e) end.

Definition keymap_parse_action (value : list Z) : M RuntimeAction :=
  match parse_action value with
  | Some (Ok a) => okM a
  | Some (Err e) => bail (ActionError e)
  | None => None
  end.

(** The binding loops; runtime chords start with the prefix stroke. *)
Fixpoint parse_bindings (prefix : list KeyStroke) (entries : list (list Z * list Z)) : M (list KeyBinding) :=
  match entries with
  | [] => okM []
  | (binding, action_name) :: entries =>
      let! c := parse_chord binding in
      let! a := keymap_parse_action action_name in
      let! rest := parse_bindings prefix entries in
      okM (mkBinding (prefix ++ c) a :: rest)
  end.

Fixpoint validate_no_duplicate_chords (bs : list KeyBinding) : M unit :=
  match bs with
  | [] => okM tt
  | b :: bs =>
      if existsb (fun b' => bool_decide (chord b = chord b')) bs then bail DuplicateChord
      else validate_no_duplicate_chords bs
  end.

Definition validate_timeout (timeout_ms : option Z) : M unit :=
  match timeout_ms with
  | Some t => if decide (MIN_TIMEOUT_MS <= t <= MAX_TIMEOUT_MS) then okM tt else bail TimeoutOutOfRange
  | None => okM tt
  end.

Definition from_parts_with_scroll (prefix : list Z) (timeout_ms : option Z)
  (runtime global scroll : list (list Z * list Z)) : M Keymap :=
  let! _ := validate_timeout timeout_ms in
  let! prefix_stroke := parse_stroke prefix in
  let! runtime_bs := parse_bindings [prefix_stroke] runtime in
  let! global_bs := parse_bindings [] global in
  let! scroll_bs := parse_bindings [] scroll in
  let! _ := validate_no_duplicate_chords runtime_bs in
  let! _ := validate_no_duplicate_chords global_bs in
  let! _ := validate_no_duplicate_chords scroll_bs in
  okM (mkKeymap timeout_ms global_bs runtime_bs scroll_bs ∅ None).

Definition canonical_mode_id (mode_id : list Z) : list Z := to_ascii_lowercase <$> trim mode_id.

Fixpoint parse_modes (modes : list (list Z * ModalModeConfig)) (acc : gmap (list Z) ModalMode)
  : M (gmap (list Z) ModalMode) :=
  match modes with
  | [] => okM acc
  | (mode_id, config) :: modes =>
      let id := canonical_mode_id mode_id in
      if decide (id = []) then bail EmptyModeId
      else if decide (is_Some (acc !! id)) then bail DuplicateModeId
      else
        let! mode_bindings := parse_bindings [] (mc_bindings config) in
        let! _ := validate_no_duplicate_chords mode_bindings in
        parse_modes modes (<[id := mkMode (mc_label config) (mc_passthrough config) mode_bindings]> acc)
  end.

Definition enter_mode_defined (modes : gmap (list Z) ModalMode) (a : RuntimeAction) : bool :=
  match a with
  | EnterMode target_mode => bool_decide (is_Some (modes !! target_mode))
  | _ => true
  end.

Definition enter_modes_defined (modes : gmap (list Z) ModalMode) : bool :=
  forallb (fun m => forallb (fun b => enter_mode_defined modes (action b)) (bindings m.2)) (map_to_list modes).

Definition from_modal_parts_with_scroll (timeout_ms : option Z) (initial : list Z)
  (modes : list (list Z * ModalModeConfig)) (global scroll : list (list Z * list Z)) : M Keymap :=
  let! _ := validate_timeout timeout_ms in
  let! modal := parse_modes modes ∅ in
  let initial := canonical_mode_id initial in
  if decide (initial = []) then bail EmptyInitialMode
  else if decide (modal !! initial = None) then bail UndefinedInitialMode
  else if negb (enter_modes_defined modal) then bail UndefinedEnterMode
  else
    let! global_bs := parse_bindings [] global in
    let! _ := validate_no_duplicate_chords global_bs in
    let! scroll_bs := parse_bindings [] scroll in
    let! _ := validate_no_duplicate_chords scroll_bs in
    okM (mkKeymap timeout_ms global_bs [] scroll_bs modal (Some initial)).

(** ** Matching *)

Fixpoint find_exact (bs : list KeyBinding) (strokes : list KeyStroke) : option RuntimeAction :=
  match bs with
  | [] => None
  | b :: bs => if decide (chord b = strokes) then Some (action b) else find_exact bs strokes
  end.

Definition has_any_prefix (bs : list KeyBinding) (strokes : list KeyStroke) : bool :=
  existsb (fun b => bool_decide (strokes `prefix_of` chord b)) bs.

Definition has_longer_prefix (bs : list KeyBinding) (strokes : list KeyStroke) : bool :=
  existsb (fun b => bool_decide (length strokes < length (chord b))%nat && bool_decide (strokes `prefix_of` chord b)) bs.

Definition modal_mode (km : Keymap) (mode_id : list Z) : option ModalMode :=
  modal_modes km !! canonical_mode_id mode_id.

Definition mode_passthrough (km : Keymap) (mode_id : list Z) : bool :=
  match modal_mode km mode_id with Some mode => passthrough mode | None => false end.

(** The shape of [exact_action], [has_longer_match] and [has_any_prefix] with
    their [_for_mode] versions, which call each other: the global bindings and
    those of the mode, or of the initial mode, or the runtime ones. [None]:
    the calls never return. *)
Fixpoint with_bindings {A} (fuel : nat) (km : Keymap) (f : list KeyBinding -> list KeyBinding -> A) : option A :=
  match fuel with
  | O => None
  | S fuel =>
      match initial_mode km with
      | Some mode_id => with_bindings_for_mode fuel km mode_id f
      | None => Some (f (global_bindings km) (runtime_bindings km))
      end
  end
with with_bindings_for_mode {A} (fuel : nat) (km : Keymap) (mode_id : list Z)
  (f : list KeyBinding -> list KeyBinding -> A) : option A :=
  match fuel with
  | O => None
  | S fuel =>
      match modal_mode km mode_id with
      | None => with_bindings fuel km f
      | Some mode => Some (f (global_bindings km) (bindings mode))
      end
  end.

(** A mode that is not defined, the initial mode, its bindings. *)
Definition with_bindings_fuel : nat := 3.

(** [active_mode.map_or_else(.., ..)]. *)
Definition with_active_bindings {A} (km : Keymap) (active : option (list Z))
  (f : list KeyBinding -> list KeyBinding -> A) : option A :=
  match active with
  | None => with_bindings with_bindings_fuel km f
  | Some mode_id => with_bindings_for_mode with_bindings_fuel km mode_id f
  end.

Definition exact_action (km : Keymap) (active : option (list Z)) (strokes : list KeyStroke)
  : option (option RuntimeAction) :=
  with_active_bindings km active (fun global mode =>
    match find_exact global strokes with Some a => Some a | None => find_exact mode strokes end).

Definition has_longer_match (km : Keymap) (active : option (list Z)) (strokes : list KeyStroke) : option bool :=
  with_active_bindings km active (fun global mode => has_longer_prefix global strokes || has_longer_prefix mode strokes).

Definition has_any_match (km : Keymap) (active : option (list Z)) (strokes : list KeyStroke) : option bool :=
  with_active_bindings km active (fun global mode => has_any_prefix global strokes || has_any_prefix mode strokes).

(** ** The input processor *)

Record PendingChord := mkPending {
  started_at : Z;
  decoded : list DecodedStroke;
}.

Record InputProcessor := mkProcessor {
  keymap : Keymap;
  decoder : list Z;
  pending : option PendingChord;
  scroll_mode : bool;
  active_mode : option (list Z);
  enhanced : bool;
  key_encoding_modes : KeyEncodingModes;
}.

Definition new (km : Keymap) (enh : bool) : InputProcessor :=
  mkProcessor km [] None false (initial_mode km) enh (mkModes false false).

Definition with_pending (ip : InputProcessor) (p : option PendingChord) : InputProcessor :=
  mkProcessor (keymap ip) (decoder ip) p (scroll_mode ip) (active_mode ip) (enhanced ip) (key_encoding_modes ip).

Definition strokes_of (ds : list DecodedStroke) : list KeyStroke := d_stroke <$> ds.

Definition pending_bytes (ds : list DecodedStroke) : list Z := concat (d_raw <$> ds).

Fixpoint best_exact_prefix_len (km : Keymap) (active : option (list Z)) (ds : list DecodedStroke) (len : nat)
  : option (option (nat * RuntimeAction)) :=
  match len with
  | O => Some None
  | S len' =>
      a ← exact_action km active (strokes_of (take len ds));
      match a with
      | Some a => Some (Some (len, a))
      | None => best_exact_prefix_len km active ds len'
      end
  end.

Definition consume_prefix (ds : list DecodedStroke) (len : nat) : list DecodedStroke :=
  if decide (length ds <= len)%nat then [] else drop len ds.

(** What one round of [resolve_pending] does with the pending strokes. *)
Inductive Round :=
| Wait
| Fire (a : RuntimeAction) (rest : list DecodedStroke)
| Release_all (forwarded : list RuntimeAction).

(** The round outside scroll mode, or when no scroll binding can match. *)
Definition regular_round (km : Keymap) (active : option (list Z)) (force_timeout : bool)
  (ds : list DecodedStroke) : option Round :=
  let strokes := strokes_of ds in
  exact ← exact_action km active strokes;
  longer ← has_longer_match km active strokes;
  any_prefix ← has_any_match km active strokes;
  match exact with
  | Some a => if longer && negb force_timeout then Some Wait else Some (Fire a [])
  | None =>
      if any_prefix && negb force_timeout then Some Wait
      else
        best ← best_exact_prefix_len km active ds (length strokes - 1);
        match best with
        | Some (matched_len, a) => Some (Fire a (consume_prefix ds matched_len))
        | None =>
            Some (Release_all
              (if match active with None => true | Some mode_id => mode_passthrough km mode_id end
               then [ForwardToPane (pending_bytes ds)] else []))
        end
  end.

Definition resolve_round (km : Keymap) (scroll : bool) (active : option (list Z)) (force_timeout : bool)
  (ds : list DecodedStroke) : option Round :=
  let strokes := strokes_of ds in
  if scroll then
    match find_exact (scroll_bindings km) strokes with
    | Some a =>
        if has_longer_prefix (scroll_bindings km) strokes && negb force_timeout then Some Wait
        else Some (Fire a [])
    | None =>
        if has_any_prefix (scroll_bindings km) strokes && negb force_timeout then Some Wait
        else regular_round km active force_timeout ds
    end
  else regular_round km active force_timeout ds.

(** [resolve_pending]: the loop ends on a wait, when all is released and when
    nothing is pending. *)
Fixpoint resolve_loop (fuel : nat) (km : Keymap) (scroll : bool) (active : option (list Z)) (force_timeout : bool)
  (now : Z) (p : option PendingChord) (actions : list RuntimeAction)
  : option (option PendingChord * list RuntimeAction) :=
  match p with
  | None => Some (None, actions)
  | Some pc =>
      match fuel with
      | O => None
      | S fuel =>
          round ← resolve_round km scroll active force_timeout (decoded pc);
          match round with
          | Wait => Some (p, actions)
          | Fire a rest =>
              resolve_loop fuel km scroll active force_timeout now
                (if decide (rest = []) then None else Some (mkPending now rest)) (actions ++ [a])
          | Release_all forwarded => Some (None, actions ++ forwarded)
          end
      end
  end.

(** Every round that goes on leaves fewer strokes. *)
Definition resolve_fuel (p : option PendingChord) : nat :=
  match p with Some pc => S (length (decoded pc)) | None => 0%nat end.

Definition resolve_pending (ip : InputProcessor) (now : Z) (force_timeout : bool) (actions : list RuntimeAction)
  : option (InputProcessor * list RuntimeAction) :=
  '(p, actions) ← resolve_loop (resolve_fuel (pending ip)) (keymap ip) (scroll_mode ip) (active_mode ip)
    force_timeout now (pending ip) actions;
  Some (with_pending ip p, actions).

Inductive InputEvent :=
| Key (d : DecodedStroke)
| RawBytes (raw : list Z).

Definition push_pending (p : option PendingChord) (now : Z) (d : DecodedStroke) : option PendingChord :=
  match p with
  | None => Some (mkPending now [d])
  | Some pc => Some (mkPending (started_at pc) (decoded pc ++ [d]))
  end.

Fixpoint process_events (ip : InputProcessor) (now : Z) (events : list InputEvent) (actions : list RuntimeAction)
  : option (InputProcessor * list RuntimeAction) :=
  match events with
  | [] => Some (ip, actions)
  | Key d :: events =>
      '(ip, actions) ← resolve_pending (with_pending ip (push_pending (pending ip) now d)) now false actions;
      process_events ip now events actions
  | RawBytes raw :: events =>
      process_events ip now events (if decide (raw = []) then actions else actions ++ [ForwardToPane raw])
  end.

Definition sync_step (st : bool * option (list Z)) (a : RuntimeAction) : bool * option (list Z) :=
  match a with
  | EnterScrollMode => (true, st.2)
  | ExitScrollMode => (false, st.2)
  | EnterMode mode_id => (st.1, Some (canonical_mode_id mode_id))
  | _ => st
  end.

Definition sync_scroll_mode (ip : InputProcessor) (actions : list RuntimeAction) : InputProcessor :=
  let st := foldl sync_step (scroll_mode ip, active_mode ip) actions in
  mkProcessor (keymap ip) (decoder ip) (pending ip) st.1 st.2 (enhanced ip) (key_encoding_modes ip).

Definition process_input_events (ip : InputProcessor) (now : Z) (events : list InputEvent)
  : option (InputProcessor * list RuntimeAction) :=
  '(ip, actions) ← process_events ip now events [];
  Some (sync_scroll_mode ip actions, actions).

Definition pending_timed_out (ip : InputProcessor) (now : Z) : bool :=
  match pending ip, timeout (keymap ip) with
  | Some pc, Some t => bool_decide (t * 1000000 <= now - started_at pc)
  | _, _ => false
  end.

Definition resolve_if_timed_out (ip : InputProcessor) (now : Z) : option (InputProcessor * list RuntimeAction) :=
  if pending_timed_out ip now then resolve_pending ip now true [] else Some (ip, []).

Definition with_decoder (ip : InputProcessor) (bytes : list Z) : InputProcessor :=
  mkProcessor (keymap ip) bytes (pending ip) (scroll_mode ip) (active_mode ip) (enhanced ip) (key_encoding_modes ip).

Definition process_stream_bytes (ip : InputProcessor) (now : Z) (bytes : list Z)
  : option (InputProcessor * list RuntimeAction) :=
  '(ip, actions) ← resolve_if_timed_out ip now;
  let '(events, rest) := feed_events (decoder ip) bytes in
  '(ip, more) ← process_input_events (with_decoder ip rest) now (Key <$> events);
  Some (ip, actions ++ more).

(** ** Terminal events *)

(** The key codes of a terminal event the adapter distinguishes. *)
Inductive TermKeyCode :=
| TChar (c : Z) | TEnter | TTab | TBackTab | TBackspace | TEsc
| TUp | TDown | TLeft | TRight | THome | TEnd | TPageUp | TPageDown | TInsert | TDelete
| TF (n : Z) | TOther.

(** A key event with the modifiers it contains. *)
Record TermKeyEvent := mkTermKey {
  t_code : TermKeyCode;
  t_modifiers : Modifiers;
  t_kind : KeyEventKind;
}.

Inductive TermEvent :=
| TermKey (k : TermKeyEvent)
| TermOther.

Definition with_shift (m : Modifiers) (sh : bool) : Modifiers :=
  mkModifiers (ctrl m) (alt m) sh (super_key m) (hyper m) (meta m).

Definition crossterm_key_event_to_stroke (k : TermKeyEvent) : option KeyStroke :=
  let m := t_modifiers k in
  match t_code k with
  | TChar c =>
      if is_ascii_alphabetic c
      then Some (mkStroke (Char (to_ascii_lowercase c)) (if is_ascii_uppercase c then with_shift m true else m))
      else Some (mkStroke (Char c) (with_shift m false))
  | TEnter => Some (mkStroke Enter m)
  | TTab => Some (mkStroke Tab m)
  | TBackTab => Some (mkStroke Tab (with_shift m true))
  | TBackspace => Some (mkStroke Backspace m)
  | TEsc => Some (mkStroke Escape m)
  | TUp => Some (mkStroke Up m)
  | TDown => Some (mkStroke Down m)
  | TLeft => Some (mkStroke Left m)
  | TRight => Some (mkStroke Right m)
  | THome => Some (mkStroke Home m)
  | TEnd => Some (mkStroke End m)
  | TPageUp => Some (mkStroke PageUp m)
  | TPageDown => Some (mkStroke PageDown m)
  | TInsert => Some (mkStroke Insert m)
  | TDelete => Some (mkStroke Delete m)
  | TF n => Some (mkStroke (F n) m)
  | TOther => None
  end.

Definition key_event_to_bytes (k : TermKeyEvent) (enh : bool) (modes : KeyEncodingModes) : option (list Z) :=
  stroke ← crossterm_key_event_to_stroke k;
  encode_key_with_modes stroke enh modes.

Definition key_event_to_input_event (k : TermKeyEvent) (enh : bool) (modes : KeyEncodingModes) : option InputEvent :=
  if decide (t_kind k = Release) then None
  else
    stroke ← crossterm_key_event_to_stroke k;
    raw ← key_event_to_bytes k enh modes;
    Some (Key (mkDecoded (t_kind k) stroke raw)).

Definition crossterm_event_to_input_event (ev : TermEvent) (enh : bool) (modes : KeyEncodingModes) : option InputEvent :=
  match ev with
  | TermKey k => key_event_to_input_event k enh modes
  | TermOther => None
  end.

Definition process_terminal_event (ip : InputProcessor) (now : Z) (ev : TermEvent)
  : option (InputProcessor * list RuntimeAction) :=
  '(ip, actions) ← resolve_if_timed_out ip now;
  match crossterm_event_to_input_event ev (enhanced ip) (key_encoding_modes ip) with
  | None => Some (ip, actions)
  | Some input_event =>
      '(ip, more) ← process_input_events ip now [input_event];
      Some (ip, actions ++ more)
  end.

(** ** The remaining operations *)

Definition replace_keymap (ip : InputProcessor) (km : Keymap) : InputProcessor :=
  mkProcessor km (decoder ip) None (scroll_mode ip) (initial_mode km) (enhanced ip) (key_encoding_modes ip).

Definition set_scroll_mode (ip : InputProcessor) (enabled : bool) : InputProcessor :=
  mkProcessor (keymap ip) (decoder ip) (pending ip) enabled (active_mode ip) (enhanced ip) (key_encoding_modes ip).

Definition set_pane_input_mode (ip : InputProcessor) (cursor keypad : bool) : InputProcessor :=
  mkProcessor (keymap ip) (decoder ip) (pending ip) (scroll_mode ip) (active_mode ip) (enhanced ip) (mkModes cursor keypad).

Inductive InputOp :=
| StreamBytes (now : Z) (bytes : list Z)
| TerminalEvent (now : Z) (ev : TermEvent)
| ReplaceKeymap (km : Keymap)
| SetScrollMode (enabled : bool)
| SetPaneInputMode (cursor keypad : bool).

Definition apply_input (ip : InputProcessor) (op : InputOp) : option (InputProcessor * list RuntimeAction) :=
  match op with
  | StreamBytes now bytes => process_stream_bytes ip now bytes
  | TerminalEvent now ev => process_terminal_event ip now ev
  | ReplaceKeymap km => Some (replace_keymap ip km, [])
  | SetScrollMode enabled => Some (set_scroll_mode ip enabled, [])
  | SetPaneInputMode cursor keypad => Some (set_pane_input_mode ip cursor keypad, [])
  end.

Fixpoint run_input (ip : InputProcessor) (ops : list InputOp) : option (InputProcessor * list RuntimeAction) :=
  match ops with
  | [] => Some (ip, [])
  | op :: ops =>
      '(ip, actions) ← apply_input ip op;
      '(ip, more) ← run_input ip ops;
      Some (ip, actions ++ more)
  end.

(** ** The default keymap *)

Definition tabs_focus_command (direction : string) : list Z :=
  chars "plugin:bmux.tabs:focus-pane-in-direction --direction " ++ chars direction.
Definition tabs_resize_command (direction : string) : list Z :=
  chars "plugin:bmux.tabs:resize-pane --direction " ++ chars direction.
Definition tabs_split_command (direction : string) : list Z :=
  chars "plugin:bmux.tabs:split-pane --direction " ++ chars direction.

Definition default_scroll_bindings : list (list Z * list Z) :=
  btree_collect (prod_map chars action_to_name <$>
    [ ("escape", ExitScrollMode); ("ctrl+a ]", ExitScrollMode); ("enter", ConfirmScrollback);
      ("arrow_left", MoveCursorLeft); ("arrow_right", MoveCursorRight); ("arrow_up", MoveCursorUp);
      ("arrow_down", MoveCursorDown); ("h", MoveCursorLeft); ("l", MoveCursorRight); ("k", MoveCursorUp);
      ("j", MoveCursorDown); ("ctrl+y", ScrollUpLine); ("ctrl+e", ScrollDownLine); ("page_up", ScrollUpPage);
      ("page_down", ScrollDownPage); ("g", ScrollTop); ("shift+g", ScrollBottom); ("v", BeginSelection);
      ("y", CopyScrollback) ]).

Definition default_runtime_bindings : list (list Z * list Z) :=
  btree_collect
    ((prod_map chars action_to_name <$>
       [ ("?", ShowHelp); ("[", EnterScrollMode); ("]", ExitScrollMode); ("ctrl+y", ScrollUpLine);
         ("ctrl+e", ScrollDownLine); ("page_up", ScrollUpPage); ("page_down", ScrollDownPage);
         ("g", ScrollTop); ("shift+g", ScrollBottom); ("v", BeginSelection); ("y", CopyScrollback);
         ("d", Detach); ("q", Quit) ])
     ++ [ (chars "%", tabs_split_command "vertical"); ([quotation_mark], tabs_split_command "horizontal");
          (chars "x", chars "plugin:bmux.tabs:close-active-pane"); (chars "r", chars "plugin:bmux.tabs:restart-pane");
          (chars "o", tabs_focus_command "next"); (chars "h", tabs_focus_command "left");
          (chars "l", tabs_focus_command "right"); (chars "k", tabs_focus_command "up");
          (chars "j", tabs_focus_command "down"); (chars "arrow_left", tabs_focus_command "left");
          (chars "arrow_right", tabs_focus_command "right"); (chars "arrow_up", tabs_focus_command "up");
          (chars "arrow_down", tabs_focus_command "down"); (chars "plus", tabs_resize_command "increase");
          (chars "minus", tabs_resize_command "decrease"); (chars "shift+h", tabs_resize_command "left");
          (chars "shift+l", tabs_resize_command "right"); (chars "shift+k", tabs_resize_command "up");
          (chars "shift+j", tabs_resize_command "down"); (chars "shift+arrow_left", tabs_resize_command "left");
          (chars "shift+arrow_right", tabs_resize_command "right"); (chars "shift+arrow_up", tabs_resize_command "up");
          (chars "shift+arrow_down", tabs_resize_command "down") ]
     ++ [ (chars "shift+c", chars "plugin:bmux.sessions:new-session") ]).

(** [None]: the [expect] panics. *)
Definition default_runtime : option Keymap :=
  match from_parts_with_scroll (chars "ctrl+a") None default_runtime_bindings [] default_scroll_bindings with
  | Some (Ok km) => Some km
  | _ => None
  end.
