(* ===== verification/KeymapProps.v ===== *)
(** * Properties of keymaps and the input processor

    Every keystroke is accounted for, bound chords fire, the processor always
    returns, and where mode changes are not followed. *)

From stdpp Require Import strings gmap.
From S2P Require Import Prelude Utf8 TextStr Keyboard KeyboardProps Keybind KeybindProps Keymap.
Open Scope bmux_scope.

(** ** Keymaps the builders make *)

(** The initial mode is defined, so that looking up a binding returns. *)
Definition keymap_ok (km : Keymap) : Prop :=
  match initial_mode km with
  | Some mode_id => is_Some (modal_mode km mode_id)
  | None => True
  end.

Definition built (km : Keymap) : Prop :=
  (exists prefix timeout_ms runtime global scroll,
     from_parts_with_scroll prefix timeout_ms runtime global scroll = okM km) \/
  (exists timeout_ms initial modes global scroll,
     from_modal_parts_with_scroll timeout_ms initial modes global scroll = okM km).

Lemma bindM_ok {A B} (x : M A) (k : A -> M B) b : bindM x k = okM b -> exists a, x = okM a /\ k a = okM b.
Proof. destruct x as [[a|e]|]; [|done..]. intros H. by exists a. Qed.

Ltac bind_inv H :=
  repeat match type of H with
         | bindM _ _ = okM _ => let a := fresh "v" in let E := fresh "E" in
             apply bindM_ok in H as (a & E & H)
         end.

Lemma lower_not_space c : is_whitespace (to_ascii_lowercase c) = is_whitespace c.
Proof.
  unfold to_ascii_lowercase, is_ascii_uppercase. destruct (bool_decide_reflect (65 <= c <= 90)); [|done].
  cbn iota. unfold is_whitespace.
  rewrite !bool_decide_eq_false_2; [done|..]; rewrite ?elem_of_cons, ?elem_of_nil; lia.
Qed.

Lemma lower_idemp (t : list Z) : to_ascii_lowercase <$> (to_ascii_lowercase <$> t) = to_ascii_lowercase <$> t.
Proof.
  induction t as [|c t IH]; [done|]. rewrite !fmap_cons, IH. f_equal. unfold to_ascii_lowercase.
  destruct (is_ascii_uppercase c) eqn:E; [|by rewrite E].
  unfold is_ascii_uppercase in *. apply bool_decide_eq_true in E. by rewrite bool_decide_eq_false_2 by lia.
Qed.

Lemma canonical_idemp t : canonical_mode_id (canonical_mode_id t) = canonical_mode_id t.
Proof.
  unfold canonical_mode_id. rewrite trim_solid; [apply lower_idemp|].
  destruct (trim_ends_solid t) as [H1 H2].
  split; intros c.
  - destruct (trim t) as [|d u]; [done|]. intros [= <-]. rewrite lower_not_space. by apply H1.
  - rewrite fmap_last. destruct (last (trim t)) as [d|] eqn:E; [|done].
    intros [= <-]. rewrite lower_not_space. by apply H2.
Qed.

Lemma built_ok km : built km -> keymap_ok km.
Proof.
  intros [(prefix & t & rt & g & sc & H)|(t & initial & modes & g & sc & H)]; unfold keymap_ok.
  - unfold from_parts_with_scroll in H. bind_inv H. by injection H as <-.
  - unfold from_modal_parts_with_scroll in H. bind_inv H. case_decide; [done|]. case_decide; [done|].
    destruct (negb _); [done|]. bind_inv H. injection H as <-. simpl. unfold modal_mode. simpl.
    rewrite canonical_idemp. by apply not_eq_None_Some.
Qed.

(** ** Looking up bindings *)

(** The bindings looked up after the global ones. *)
Definition base_bindings (km : Keymap) : list KeyBinding :=
  match initial_mode km with
  | Some mode_id => match modal_mode km mode_id with Some mode => bindings mode | None => [] end
  | None => runtime_bindings km
  end.

Definition mode_bindings (km : Keymap) (active : option (list Z)) : list KeyBinding :=
  match active with
  | Some mode_id => match modal_mode km mode_id with Some mode => bindings mode | None => base_bindings km end
  | None => base_bindings km
  end.

Lemma dispatch_returns {A} km active (f : list KeyBinding -> list KeyBinding -> A) :
  keymap_ok km -> with_active_bindings km active f = Some (f (global_bindings km) (mode_bindings km active)).
Proof.
  unfold keymap_ok, with_active_bindings, mode_bindings, base_bindings, with_bindings_fuel. intros Hok.
  destruct active as [mode_id|]; cbn [with_bindings with_bindings_for_mode].
  - destruct (modal_mode km mode_id); [done|]. destruct (initial_mode km) as [m0|]; [|done].
    by destruct Hok as [mode ->].
  - destruct (initial_mode km) as [m0|]; [|done]. by destruct Hok as [mode ->].
Qed.

(** The action of a chord: the global binding first. *)
Definition lookup_action (km : Keymap) (active : option (list Z)) (strokes : list KeyStroke) : option RuntimeAction :=
  match find_exact (global_bindings km) strokes with
  | Some a => Some a
  | None => find_exact (mode_bindings km active) strokes
  end.

Definition all_bindings (km : Keymap) (active : option (list Z)) : list KeyBinding :=
  global_bindings km ++ mode_bindings km active.

Lemma exact_action_eq km active strokes :
  keymap_ok km -> exact_action km active strokes = Some (lookup_action km active strokes).
Proof. intros Hok. unfold exact_action. by rewrite dispatch_returns. Qed.

Lemma has_longer_match_eq km active strokes :
  keymap_ok km -> has_longer_match km active strokes = Some (has_longer_prefix (all_bindings km active) strokes).
Proof.
  intros Hok. unfold has_longer_match. rewrite dispatch_returns by done.
  unfold has_longer_prefix, all_bindings. by rewrite existsb_app.
Qed.

Lemma has_any_match_eq km active strokes :
  keymap_ok km -> has_any_match km active strokes = Some (has_any_prefix (all_bindings km active) strokes).
Proof.
  intros Hok. unfold has_any_match. rewrite dispatch_returns by done.
  unfold has_any_prefix, all_bindings. by rewrite existsb_app.
Qed.

Lemma has_any_prefix_iff bs strokes :
  has_any_prefix bs strokes = true <-> exists b, b ∈ bs /\ strokes `prefix_of` chord b.
Proof.
  unfold has_any_prefix. rewrite existsb_exists. setoid_rewrite bool_decide_eq_true.
  by setoid_rewrite list_elem_of_In.
Qed.

Lemma has_longer_prefix_iff bs strokes :
  has_longer_prefix bs strokes = true <->
  exists b, b ∈ bs /\ strokes `prefix_of` chord b /\ (length strokes < length (chord b))%nat.
Proof.
  unfold has_longer_prefix. rewrite existsb_exists. setoid_rewrite andb_true_iff.
  setoid_rewrite bool_decide_eq_true. setoid_rewrite list_elem_of_In. naive_solver.
Qed.

Lemma find_exact_Some bs strokes a :
  find_exact bs strokes = Some a -> exists b, b ∈ bs /\ chord b = strokes /\ action b = a.
Proof.
  induction bs as [|b bs IH]; cbn [find_exact]; [done|]. case_decide as Hb.
  - intros [= <-]. exists b. split; [constructor|done].
  - intros (b' & Hin & ? & ?)%IH. exists b'. split; [by constructor|done].
Qed.

Lemma lookup_action_Some km active strokes a :
  lookup_action km active strokes = Some a ->
  exists b, b ∈ all_bindings km active /\ chord b = strokes /\ action b = a.
Proof.
  unfold lookup_action, all_bindings. destruct (find_exact (global_bindings km) strokes) as [a'|] eqn:E.
  - intros [= <-]. apply find_exact_Some in E as (b & Hb & ?). exists b. split; [|done].
    apply elem_of_app; by left.
  - intros (b & Hb & ?)%find_exact_Some. exists b. split; [|done]. apply elem_of_app; by right.
Qed.

(** ** Segments: what becomes of the strokes *)

(** Strokes that fired an action, and strokes no chord starts with. *)
Inductive Segment :=
| Fired (ds : list DecodedStroke) (a : RuntimeAction)
| Loose (ds : list DecodedStroke).

Definition seg_strokes (s : Segment) : list DecodedStroke :=
  match s with Fired ds _ | Loose ds => ds end.

(** Loose strokes go to the pane, unless the mode keeps them from it. *)
Definition seg_actions (km : Keymap) (active : option (list Z)) (s : Segment) : list RuntimeAction :=
  match s with
  | Fired _ a => [a]
  | Loose ds =>
      if match active with None => true | Some mode_id => mode_passthrough km mode_id end
      then [ForwardToPane (pending_bytes ds)] else []
  end.

Definition seg_ok (km : Keymap) (scroll : bool) (active : option (list Z)) (s : Segment) : Prop :=
  match s with
  | Fired ds a =>
      ds <> [] /\
      (lookup_action km active (strokes_of ds) = Some a \/
       scroll = true /\ find_exact (scroll_bindings km) (strokes_of ds) = Some a)
  | Loose ds =>
      ds <> [] /\
      forall p, p <> [] -> p `prefix_of` ds -> lookup_action km active (strokes_of p) = None
  end.

Definition waits_for (bs : list KeyBinding) (ds : list DecodedStroke) : Prop :=
  ds <> [] /\ exists b, b ∈ bs /\ strokes_of ds `prefix_of` chord b.

(** Bindings that can be pending: those looked up, and in scroll mode its own. *)
Definition live_bindings (km : Keymap) (scroll : bool) (active : option (list Z)) : list KeyBinding :=
  all_bindings km active ++ (if scroll then scroll_bindings km else []).

Definition pending_strokes (p : option PendingChord) : list DecodedStroke :=
  match p with Some pc => decoded pc | None => [] end.

Definition pending_ok (bs : list KeyBinding) (p : option PendingChord) : Prop :=
  match p with Some pc => waits_for bs (decoded pc) | None => True end.

Lemma best_prefix_spec km active ds len :
  keymap_ok km ->
  exists r, best_exact_prefix_len km active ds len = Some r /\
    match r with
    | Some (l, a) => (1 <= l <= len)%nat /\ lookup_action km active (strokes_of (take l ds)) = Some a
    | None => forall l, (1 <= l <= len)%nat -> lookup_action km active (strokes_of (take l ds)) = None
    end.
Proof.
  intros Hok. induction len as [|len IH]; cbn [best_exact_prefix_len].
  { exists None. split; [done|]. intros l Hl. lia. }
  rewrite exact_action_eq by done. cbn [mbind option_bind].
  destruct (lookup_action km active (strokes_of (take (S len) ds))) as [a|] eqn:E.
  { exists (Some (S len, a)). split; [done|]. split; [lia|done]. }
  destruct IH as (r & Hr & Hs). exists r. split; [done|]. destruct r as [[l a]|].
  - destruct Hs. split; [lia|done].
  - intros l Hl. destruct (decide (l = S len)) as [->|]; [done|]. apply Hs. lia.
Qed.

Lemma waits_mono bs bs' ds : bs ⊆ bs' -> waits_for bs ds -> waits_for bs' ds.
Proof. intros Hsub (Hne & b & Hb & Hp). split; [done|]. exists b. split; [by apply Hsub|done]. Qed.

Lemma longer_waits bs ds : ds <> [] -> has_longer_prefix bs (strokes_of ds) = true -> waits_for bs ds.
Proof. intros Hne (b & Hb & Hp & _)%has_longer_prefix_iff. split; [done|]. by exists b. Qed.

Lemma any_waits bs ds : ds <> [] -> has_any_prefix bs (strokes_of ds) = true -> waits_for bs ds.
Proof. intros Hne (b & Hb & Hp)%has_any_prefix_iff. split; [done|]. by exists b. Qed.

Lemma prefix_take_eq {A} (p ds : list A) : p `prefix_of` ds -> p = take (length p) ds.
Proof. intros [k ->]. by rewrite take_app_length. Qed.

(** What a round may do with strokes [ds], waiting for bindings [bs]. *)
Definition round_ok (km : Keymap) (scroll : bool) (active : option (list Z)) (force : bool)
  (bs : list KeyBinding) (ds : list DecodedStroke) (r : Round) : Prop :=
  match r with
  | Wait => force = false /\ waits_for bs ds
  | Fire a rest => exists ds1, ds = ds1 ++ rest /\ seg_ok km scroll active (Fired ds1 a)
  | Release_all fw => fw = seg_actions km active (Loose ds) /\ seg_ok km scroll active (Loose ds)
  end.

Lemma round_ok_mono km scroll active force bs bs' ds r :
  bs ⊆ bs' -> round_ok km scroll active force bs ds r -> round_ok km scroll active force bs' ds r.
Proof. intros Hsub. destruct r; [|done..]. intros [? ?]. split; [done|]. by eapply waits_mono. Qed.

(** An exact match fires at once or waits for a longer one. *)
Lemma exact_round km scroll active force bs ds a :
  ds <> [] -> seg_ok km scroll active (Fired ds a) ->
  round_ok km scroll active force bs ds
    (if has_longer_prefix bs (strokes_of ds) && negb force then Wait else Fire a []).
Proof.
  intros Hne Hseg. destruct (has_longer_prefix bs (strokes_of ds) && negb force) eqn:E.
  - apply andb_prop in E as [E Hf]. apply negb_true_iff in Hf. split; [done|]. by apply longer_waits.
  - exists ds. by rewrite app_nil_r.
Qed.

Lemma regular_round_spec km scroll active force ds :
  keymap_ok km -> ds <> [] ->
  exists r, regular_round km active force ds = Some r /\
    round_ok km scroll active force (all_bindings km active) ds r.
Proof.
  intros Hok Hne. unfold regular_round.
  rewrite exact_action_eq, has_longer_match_eq, has_any_match_eq by done. cbn [mbind option_bind].
  destruct (lookup_action km active (strokes_of ds)) as [a|] eqn:Ea.
  { exists (if has_longer_prefix (all_bindings km active) (strokes_of ds) && negb force then Wait else Fire a []).
    split; [by destruct (_ && _)|]. apply exact_round; [done|]. split; auto. }
  destruct (has_any_prefix _ _ && negb force) eqn:Ew.
  { apply andb_prop in Ew as [Ew Hf]. apply negb_true_iff in Hf. exists Wait. split; [done|].
    split; [done|]. by apply any_waits. }
  unfold strokes_of at 1. rewrite length_fmap.
  destruct (best_prefix_spec km active ds (length ds - 1) Hok) as (r & -> & Hr). cbn [mbind option_bind].
  destruct r as [[l a]|]; (eexists; split; [reflexivity|]).
  - destruct Hr as [Hl Ha]. exists (take l ds). unfold consume_prefix. rewrite decide_False by lia.
    split; [by rewrite take_drop|]. split; [|by left]. destruct ds, l; simpl in *; (done || lia).
  - split; [done|]. split; [done|]. intros p Hp Hpre.
    apply prefix_take_eq in Hpre as Hpe. apply prefix_length in Hpre.
    destruct (decide (length p = length ds)) as [Hl|Hl].
    + rewrite Hl, take_ge in Hpe by lia. by rewrite Hpe.
    + rewrite Hpe. apply Hr. destruct p; [done|]. simpl in *. lia.
Qed.

Lemma resolve_round_spec km scroll active force ds :
  keymap_ok km -> ds <> [] ->
  exists r, resolve_round km scroll active force ds = Some r /\
    round_ok km scroll active force (live_bindings km scroll active) ds r.
Proof.
  intros Hok Hne. unfold resolve_round.
  destruct (regular_round_spec km scroll active force ds Hok Hne) as (r & Hreg & Hr).
  apply (round_ok_mono _ _ _ _ _ (live_bindings km scroll active)) in Hr; [|unfold live_bindings; set_solver].
  destruct scroll; [|by exists r].
  assert (Hsub : scroll_bindings km ⊆ live_bindings km true active) by (unfold live_bindings; set_solver).
  destruct (find_exact (scroll_bindings km) (strokes_of ds)) as [a|] eqn:Es.
  - exists (if has_longer_prefix (scroll_bindings km) (strokes_of ds) && negb force then Wait else Fire a []).
    split; [by destruct (_ && _)|]. eapply round_ok_mono; [exact Hsub|]. apply exact_round; [done|]. split; auto.
  - destruct (has_any_prefix _ _ && negb force) eqn:Ew; [|by exists r].
    apply andb_prop in Ew as [Ew Hf]. apply negb_true_iff in Hf. exists Wait. split; [done|].
    split; [done|]. eapply waits_mono; [exact Hsub|]. by apply any_waits.
Qed.

(** ** The loop *)

(** [ds] became the segments, then what is pending. *)
Definition accounted (km : Keymap) (scroll : bool) (active : option (list Z)) (ds : list DecodedStroke)
  (segs : list Segment) (p : option PendingChord) : Prop :=
  ds = concat (seg_strokes <$> segs) ++ pending_strokes p /\ Forall (seg_ok km scroll active) segs.

Definition all_actions (km : Keymap) (active : option (list Z)) (segs : list Segment) : list RuntimeAction :=
  concat (seg_actions km active <$> segs).

Lemma resolve_loop_spec fuel km scroll active force now p actions :
  keymap_ok km -> (match p with Some pc => decoded pc <> [] | None => True end) -> (resolve_fuel p <= fuel)%nat ->
  exists p' segs,
    resolve_loop fuel km scroll active force now p actions = Some (p', actions ++ all_actions km active segs) /\
    accounted km scroll active (pending_strokes p) segs p' /\
    pending_ok (live_bindings km scroll active) p' /\ (force = true -> p' = None).
Proof.
  intros Hok. revert p actions. induction fuel as [|fuel IH]; intros p actions Hne Hf.
  { destruct p; [simpl in Hf; lia|]. exists None, []. cbn. by rewrite app_nil_r. }
  destruct p as [pc|]; [|exists None, []; cbn; by rewrite app_nil_r]. cbn [resolve_loop].
  destruct (resolve_round_spec km scroll active force (decoded pc) Hok Hne) as (r & -> & Hr). cbn [mbind option_bind].
  destruct r as [|a rest|fw].
  - destruct Hr as [Hforce Hw]. exists (Some pc), []. cbn. rewrite app_nil_r. split_and!; try done. congruence.
  - destruct Hr as (ds1 & Hds & Hseg).
    destruct (IH (if decide (rest = []) then None else Some (mkPending now rest)) (actions ++ [a])) as
      (p' & segs & -> & [Hacc1 Hacc2] & Hp & Hforce).
    { by case_decide. }
    { cbn [resolve_fuel] in Hf. rewrite Hds, length_app in Hf. destruct Hseg as [Hne1 _].
      destruct ds1; [done|]. simpl in Hf. case_decide; simpl; lia. }
    exists p', (Fired ds1 a :: segs). rewrite <- app_assoc. split_and!; try done.
    split; [|by constructor]. cbn [pending_strokes fmap list_fmap concat seg_strokes]. rewrite Hds, <- app_assoc.
    f_equal. rewrite <- Hacc1. by case_decide.
  - destruct Hr as [-> Hseg]. exists None, [Loose (decoded pc)].
    unfold all_actions, accounted. cbn [fmap list_fmap concat seg_strokes pending_strokes]. rewrite !app_nil_r.
    split_and!; try done. by constructor.
Qed.

(** ** Events and calls *)

Definition has_strokes (p : option PendingChord) : Prop :=
  match p with Some pc => decoded pc <> [] | None => True end.

Lemma pending_has_strokes bs p : pending_ok bs p -> has_strokes p.
Proof. destruct p; [|done]. by intros [? _]. Qed.

Lemma push_pending_strokes p now d :
  has_strokes (push_pending p now d) /\ pending_strokes (push_pending p now d) = pending_strokes p ++ [d].
Proof. destruct p as [pc|]; [|done]. split; [|done]. simpl. by destruct (decoded pc). Qed.

Lemma accounted_trans km scroll active ds ds' segs segs' p p' :
  accounted km scroll active ds segs p -> accounted km scroll active (pending_strokes p ++ ds') segs' p' ->
  accounted km scroll active (ds ++ ds') (segs ++ segs') p'.
Proof.
  intros [-> H1] [H2 H3]. split; [|by apply Forall_app].
  rewrite fmap_app, concat_app, <- !app_assoc. by rewrite <- H2.
Qed.

Lemma all_actions_app km active segs segs' :
  all_actions km active (segs ++ segs') = all_actions km active segs ++ all_actions km active segs'.
Proof. unfold all_actions. by rewrite fmap_app, concat_app. Qed.

Lemma resolve_pending_spec ip now force actions :
  keymap_ok (keymap ip) -> has_strokes (pending ip) ->
  exists p' segs,
    resolve_pending ip now force actions =
      Some (with_pending ip p', actions ++ all_actions (keymap ip) (active_mode ip) segs) /\
    accounted (keymap ip) (scroll_mode ip) (active_mode ip) (pending_strokes (pending ip)) segs p' /\
    pending_ok (live_bindings (keymap ip) (scroll_mode ip) (active_mode ip)) p' /\ (force = true -> p' = None).
Proof.
  intros Hok Hne. unfold resolve_pending.
  destruct (resolve_loop_spec (resolve_fuel (pending ip)) (keymap ip) (scroll_mode ip) (active_mode ip) force now
    (pending ip) actions Hok Hne (le_n _)) as (p' & segs & -> & H). by exists p', segs.
Qed.

Lemma process_keys_spec ip now ds actions bs :
  keymap_ok (keymap ip) -> pending_ok bs (pending ip) ->
  live_bindings (keymap ip) (scroll_mode ip) (active_mode ip) ⊆ bs ->
  exists p' segs,
    process_events ip now (Key <$> ds) actions =
      Some (with_pending ip p', actions ++ all_actions (keymap ip) (active_mode ip) segs) /\
    accounted (keymap ip) (scroll_mode ip) (active_mode ip) (pending_strokes (pending ip) ++ ds) segs p' /\
    pending_ok bs p'.
Proof.
  intros Hok Hp Hsub. revert ip actions Hok Hp Hsub. induction ds as [|d ds IH]; intros ip actions Hok Hp Hsub.
  { exists (pending ip), []. cbn. rewrite !app_nil_r. split_and!; [by destruct ip|by split|done]. }
  rewrite fmap_cons. cbn [process_events]. destruct (push_pending_strokes (pending ip) now d) as [Hne Hst].
  destruct (resolve_pending_spec (with_pending ip (push_pending (pending ip) now d)) now false actions Hok Hne)
    as (p1 & segs1 & -> & Hacc1 & Hp1 & _). cbn [mbind option_bind].
  destruct (IH (with_pending ip p1) (actions ++ all_actions (keymap ip) (active_mode ip) segs1))
    as (p2 & segs2 & Heq & Hacc2 & Hp2); [done| |done|].
  { destruct p1; [|done]. eapply waits_mono; [exact Hsub|exact Hp1]. }
  exists p2, (segs1 ++ segs2). rewrite all_actions_app, app_assoc. split_and!; [exact Heq| |done].
  cbn [with_pending pending] in Hacc1. rewrite Hst in Hacc1.
  change (d :: ds) with ([d] ++ ds). rewrite app_assoc. by eapply accounted_trans.
Qed.

(** Every binding of a keymap. *)
Definition every_binding (km : Keymap) : list KeyBinding :=
  global_bindings km ++ runtime_bindings km ++ scroll_bindings km
  ++ concat ((fun m => bindings m.2) <$> map_to_list (modal_modes km)).

Lemma mode_bindings_every km mode_id mode :
  modal_mode km mode_id = Some mode -> bindings mode ⊆ every_binding km.
Proof.
  unfold modal_mode, every_binding. intros Hm b Hb. rewrite !elem_of_app. do 3 right.
  apply list_elem_of_In, in_concat. exists (bindings mode). split; [|by apply list_elem_of_In].
  apply list_elem_of_In, list_elem_of_fmap. exists (canonical_mode_id mode_id, mode).
  split; [done|]. by apply elem_of_map_to_list.
Qed.

Lemma live_every km scroll active : live_bindings km scroll active ⊆ every_binding km.
Proof.
  assert (Hbase : base_bindings km ⊆ every_binding km).
  { unfold base_bindings. destruct (initial_mode km) as [m|]; [|unfold every_binding; set_solver].
    destruct (modal_mode km m) eqn:E; [|set_solver]. by eapply mode_bindings_every. }
  assert (Hmode : mode_bindings km active ⊆ every_binding km).
  { unfold mode_bindings. destruct active as [m|]; [|done].
    destruct (modal_mode km m) eqn:E; [|done]. by eapply mode_bindings_every. }
  unfold live_bindings, all_bindings. destruct scroll; unfold every_binding in *; set_solver.
Qed.

(** The invariant of a processor: it can look bindings up, and what is pending
    begins some chord of its keymap. *)
Definition processor_ok (ip : InputProcessor) : Prop :=
  keymap_ok (keymap ip) /\ pending_ok (every_binding (keymap ip)) (pending ip).

Lemma timed_out_spec ip now :
  processor_ok ip ->
  exists p' segs,
    resolve_if_timed_out ip now = Some (with_pending ip p', all_actions (keymap ip) (active_mode ip) segs) /\
    accounted (keymap ip) (scroll_mode ip) (active_mode ip) (pending_strokes (pending ip)) segs p' /\
    pending_ok (every_binding (keymap ip)) p' /\ (pending_timed_out ip now = true -> p' = None).
Proof.
  intros [Hok Hp]. unfold resolve_if_timed_out. destruct (pending_timed_out ip now).
  - destruct (resolve_pending_spec ip now true [] Hok (pending_has_strokes _ _ Hp)) as (p' & segs & -> & Hacc & Hp' & Hn).
    exists p', segs. split_and!; try done. by rewrite Hn.
  - exists (pending ip), []. cbn. split; [by destruct ip|]. split; [|done].
    split; [done|by constructor].
Qed.

Lemma process_input_keys ip now ds :
  processor_ok ip ->
  exists p' segs,
    process_input_events ip now (Key <$> ds) =
      Some (sync_scroll_mode (with_pending ip p') (all_actions (keymap ip) (active_mode ip) segs),
            all_actions (keymap ip) (active_mode ip) segs) /\
    accounted (keymap ip) (scroll_mode ip) (active_mode ip) (pending_strokes (pending ip) ++ ds) segs p' /\
    pending_ok (every_binding (keymap ip)) p'.
Proof.
  intros [Hok Hp]. unfold process_input_events.
  destruct (process_keys_spec ip now ds [] (every_binding (keymap ip)) Hok Hp (live_every _ _ _)) as (p' & segs & -> & H).
  by exists p', segs.
Qed.

Lemma stream_bytes_spec ip now bytes events rest :
  processor_ok ip -> feed_events (decoder ip) bytes = (events, rest) ->
  exists ip' segs,
    process_stream_bytes ip now bytes = Some (ip', all_actions (keymap ip) (active_mode ip) segs) /\
    accounted (keymap ip) (scroll_mode ip) (active_mode ip) (pending_strokes (pending ip) ++ events) segs (pending ip') /\
    decoder ip' = rest /\ keymap ip' = keymap ip /\ processor_ok ip'.
Proof.
  intros Hip Hfeed. unfold process_stream_bytes.
  destruct (timed_out_spec ip now Hip) as (p1 & segs1 & -> & Hacc1 & Hp1 & _). cbn [mbind option_bind].
  change (decoder (with_pending ip p1)) with (decoder ip). rewrite Hfeed.
  destruct (process_input_keys (with_decoder (with_pending ip p1) rest) now events) as (p2 & segs2 & -> & Hacc2 & Hp2).
  { split; [apply Hip|done]. }
  cbn [mbind option_bind].
  eexists _, (segs1 ++ segs2). rewrite all_actions_app. split; [reflexivity|].
  split; [by eapply accounted_trans|]. split; [done|]. split; [done|]. split; [apply Hip|done].
Qed.

Lemma terminal_event_ok ip now ev :
  processor_ok ip ->
  exists ip' actions, process_terminal_event ip now ev = Some (ip', actions) /\ processor_ok ip' /\ keymap ip' = keymap ip.
Proof.
  intros Hip. unfold process_terminal_event.
  destruct (timed_out_spec ip now Hip) as (p1 & segs1 & -> & Hacc1 & Hp1 & _). cbn [mbind option_bind].
  assert (Hip1 : processor_ok (with_pending ip p1)) by (split; [apply Hip|done]).
  destruct (crossterm_event_to_input_event ev _ _) as [e|] eqn:E; [|by eexists _, _].
  assert (exists d, e = Key d) as [d ->].
  { revert E. destruct ev as [k|]; [|done]. unfold crossterm_event_to_input_event, key_event_to_input_event.
    case_decide; [done|]. intros (s & _ & E)%bind_Some. apply bind_Some in E as (raw & _ & [= <-]). by eexists. }
  destruct (process_input_keys (with_pending ip p1) now [d] Hip1) as (p2 & segs2 & Heq & _ & Hp2).
  change (Key <$> [d]) with [Key d] in Heq. rewrite Heq. cbn [mbind option_bind].
  eexists _, _. split; [reflexivity|]. split; [|done]. split; [apply Hip|done].
Qed.

Definition input_op_built (op : InputOp) : Prop :=
  match op with ReplaceKeymap km => built km | _ => True end.

Lemma apply_input_ok ip op :
  processor_ok ip -> input_op_built op ->
  exists ip' actions, apply_input ip op = Some (ip', actions) /\ processor_ok ip'.
Proof.
  intros Hip Hop. destruct op as [now bytes|now ev|km|b|c k]; cbn [apply_input].
  - destruct (feed_events (decoder ip) bytes) as [events rest] eqn:Hf.
    destruct (stream_bytes_spec ip now bytes events rest Hip Hf) as (ip' & segs & -> & _ & _ & _ & H). by eexists _, _.
  - destruct (terminal_event_ok ip now ev Hip) as (ip' & acts & -> & H & _). by eexists _, _.
  - eexists _, _. split; [done|]. split; [by apply built_ok|done].
  - by eexists _, _.
  - by eexists _, _.
Qed.

Lemma run_input_ok ip ops :
  processor_ok ip -> Forall input_op_built ops ->
  exists ip' actions, run_input ip ops = Some (ip', actions) /\ processor_ok ip'.
Proof.
  intros Hip Hops. revert ip Hip. induction Hops as [|op ops Hop Hops IH]; intros ip Hip; cbn [run_input].
  { by eexists _, _. }
  destruct (apply_input_ok ip op Hip Hop) as (ip1 & acts & -> & H1). cbn [mbind option_bind].
  destruct (IH ip1 H1) as (ip2 & acts2 & -> & H2). by eexists _, _.
Qed.

(** ** A chord typed from idle *)

Lemma lookup_action_binding km active strokes a :
  lookup_action km active strokes = Some a -> exists b, b ∈ all_bindings km active /\ chord b = strokes.
Proof. intros (b & ? & ? & _)%lookup_action_Some. by exists b. Qed.

(** A proper, non-empty beginning of a bound chord waits. *)
Lemma beginning_waits km active ds ds' a :
  keymap_ok km -> lookup_action km active (strokes_of (ds ++ ds')) = Some a -> ds' <> [] ->
  resolve_round km false active false ds = Some Wait.
Proof.
  intros Hok Ha Hne. apply lookup_action_binding in Ha as (b & Hb & Hc).
  assert (Hp : strokes_of ds `prefix_of` chord b).
  { rewrite Hc. unfold strokes_of. rewrite fmap_app. by eexists. }
  assert (Hl : (length (strokes_of ds) < length (chord b))%nat).
  { rewrite Hc. unfold strokes_of. rewrite !length_fmap, length_app. destruct ds'; [done|]. simpl. lia. }
  unfold resolve_round, regular_round.
  rewrite exact_action_eq, has_longer_match_eq, has_any_match_eq by done. cbn [mbind option_bind].
  assert (has_longer_prefix (all_bindings km active) (strokes_of ds) = true) as ->
    by (apply has_longer_prefix_iff; by exists b).
  assert (has_any_prefix (all_bindings km active) (strokes_of ds) = true) as ->
    by (apply has_any_prefix_iff; by exists b).
  by destruct (lookup_action km active (strokes_of ds)).
Qed.

Lemma complete_fires km active ds a :
  keymap_ok km -> lookup_action km active (strokes_of ds) = Some a ->
  has_longer_prefix (all_bindings km active) (strokes_of ds) = false ->
  resolve_round km false active false ds = Some (Fire a []).
Proof.
  intros Hok Ha Hl. unfold resolve_round, regular_round.
  rewrite exact_action_eq, has_longer_match_eq, has_any_match_eq by done. cbn [mbind option_bind].
  by rewrite Ha, Hl.
Qed.

Lemma push_key ip now d r :
  scroll_mode ip = false ->
  resolve_round (keymap ip) false (active_mode ip) false (pending_strokes (pending ip) ++ [d]) = Some r ->
  forall actions, resolve_pending (with_pending ip (push_pending (pending ip) now d)) now false actions =
    match r with
    | Wait => Some (with_pending ip (push_pending (pending ip) now d), actions)
    | Fire a [] => Some (with_pending ip None, actions ++ [a])
    | Fire a _ => resolve_pending (with_pending ip (push_pending (pending ip) now d)) now false actions
    | Release_all fw => Some (with_pending ip None, actions ++ fw)
    end.
Proof.
  intros Hs Hr actions. destruct (push_pending_strokes (pending ip) now d) as [_ Hst]. rewrite <- Hst in Hr.
  unfold resolve_pending. cbn [with_pending pending keymap scroll_mode active_mode]. rewrite Hs.
  destruct (push_pending (pending ip) now d) as [pc|] eqn:Hp; [|by destruct (pending ip)].
  cbn [resolve_fuel resolve_loop pending_strokes] in *. rewrite Hr. cbn [mbind option_bind].
  destruct r as [|a [|d' rest]|fw]; try done. by destruct (length (decoded pc)).
Qed.

Lemma chord_fires_from ip now ds a actions :
  keymap_ok (keymap ip) -> scroll_mode ip = false -> ds <> [] ->
  lookup_action (keymap ip) (active_mode ip) (strokes_of (pending_strokes (pending ip) ++ ds)) = Some a ->
  has_longer_prefix (all_bindings (keymap ip) (active_mode ip)) (strokes_of (pending_strokes (pending ip) ++ ds)) = false ->
  process_events ip now (Key <$> ds) actions = Some (with_pending ip None, actions ++ [a]).
Proof.
  intros Hok Hs Hne. revert ip Hok Hs. induction ds as [|d ds IH]; intros ip Hok Hs Ha Hl; [done|].
  rewrite fmap_cons. cbn [process_events]. destruct ds as [|d2 ds].
  - rewrite (push_key ip now d (Fire a [])); [done|done|]. by apply complete_fires.
  - change (d :: d2 :: ds) with ([d] ++ (d2 :: ds)) in Ha, Hl. rewrite app_assoc in Ha, Hl.
    rewrite (push_key ip now d Wait); [|done|by eapply beginning_waits]. cbn [mbind option_bind].
    destruct (push_pending_strokes (pending ip) now d) as [_ Hst].
    rewrite IH; [done|done|done|done| |]; cbn [with_pending pending keymap active_mode]; by rewrite Hst.
Qed.

(** ** The properties *)

(** C7: Every keystroke of a read is accounted for exactly once and in order:
    the strokes that were pending and those just decoded are the strokes of
    fired chords and of loose runs, then what is pending now. Each fired chord
    is bound to its action, global bindings first; no beginning of a loose run
    is bound; and the actions are those of the segments, the loose runs going
    to the pane byte for byte where the mode lets them through. *)
Theorem keystrokes_conserved ip now bytes events rest :
  processor_ok ip -> feed_events (decoder ip) bytes = (events, rest) ->
  exists ip' segs,
    process_stream_bytes ip now bytes = Some (ip', all_actions (keymap ip) (active_mode ip) segs) /\
    pending_strokes (pending ip) ++ events = concat (seg_strokes <$> segs) ++ pending_strokes (pending ip') /\
    Forall (seg_ok (keymap ip) (scroll_mode ip) (active_mode ip)) segs /\ decoder ip' = rest.
Proof.
  intros Hip Hf. destruct (stream_bytes_spec ip now bytes events rest Hip Hf) as (ip' & segs & H1 & [H2 H3] & H4 & _).
  by exists ip', segs.
Qed.

(** A keymap with a prefix, two chords and a timeout of one second. *)
Definition sample_keymap : Keymap :=
  let stroke c := mkStroke (Char c) NONE in
  mkKeymap (Some 1000) [mkBinding [mkStroke (Char 113) CTRL] Quit]
    [mkBinding [mkStroke (Char 97) CTRL; stroke 91] EnterScrollMode;
     mkBinding [mkStroke (Char 97) CTRL; stroke 100] Detach] [] ∅ None.

Lemma sample_keymap_built :
  from_parts_with_scroll (chars "ctrl+a") (Some 1000)
    [(chars "[", chars "enter_scroll_mode"); (chars "d", chars "detach")] [(chars "ctrl+q", chars "quit")] [] =
  okM sample_keymap.
Proof. vm_compute. reflexivity. Qed.

Lemma sample_keymap_ok enh : processor_ok (new sample_keymap enh).
Proof. done. Qed.

Lemma keystrokes_conserved_witness :
  let ip := new sample_keymap false in
  let bytes := [97; 1; 100; 1; 120; 1] in
  exists ip' segs,
    process_stream_bytes ip 0 bytes = Some (ip', all_actions (keymap ip) (active_mode ip) segs) /\
    (feed_events [] bytes).1 = concat (seg_strokes <$> segs) ++ pending_strokes (pending ip') /\
    Forall (seg_ok (keymap ip) (scroll_mode ip) (active_mode ip)) segs /\ decoder ip' = [].
Proof.
  intros ip bytes. exact (keystrokes_conserved ip 0 bytes _ _ (sample_keymap_ok false) eq_refl).
Defined.

(** C26: A processor on a keymap the builders accept always returns, whatever
    is typed and whenever, through mode switches and keymap replacements, and
    what it keeps pending is a beginning of a chord of its keymap. *)
Theorem input_always_returns km enh ops :
  built km -> Forall input_op_built ops ->
  exists ip actions, run_input (new km enh) ops = Some (ip, actions) /\
    keymap_ok (keymap ip) /\
    (forall pc, pending ip = Some pc ->
       decoded pc <> [] /\ exists b, b ∈ every_binding (keymap ip) /\ strokes_of (decoded pc) `prefix_of` chord b).
Proof.
  intros Hb Hops. destruct (run_input_ok (new km enh) ops) as (ip & acts & -> & Hok & Hp); [split; [by apply built_ok|done]|done|].
  exists ip, acts. split; [done|]. split; [done|]. intros pc E. rewrite E in Hp. exact Hp.
Qed.

Lemma input_always_returns_witness :
  let modes := [(chars "Normal", mkModeConfig [] false [(chars "i", chars "enter_mode insert")]);
                (chars "insert", mkModeConfig [] true [])] in
  match from_modal_parts_with_scroll None (chars "normal") modes [] [] with
  | Some (Ok km) =>
      exists ip actions,
        run_input (new km true) [StreamBytes 0 [105; 120]; ReplaceKeymap km; TerminalEvent 5 (TermKey (mkTermKey TEsc NONE Press))]
          = Some (ip, actions) /\ keymap_ok (keymap ip) /\
        (forall pc, pending ip = Some pc ->
           decoded pc <> [] /\ exists b, b ∈ every_binding (keymap ip) /\ strokes_of (decoded pc) `prefix_of` chord b)
  | _ => False
  end.
Proof.
  intros modes.
  destruct (from_modal_parts_with_scroll None (chars "normal") modes [] []) as [[km|e]|] eqn:E;
    [|exfalso; vm_compute in E; discriminate E..].
  assert (Hb : built km) by (right; do 5 eexists; exact E).
  apply (input_always_returns km true); [exact Hb|]. do 3 (constructor; [exact I || exact Hb|]). constructor.
Defined.

(** C27: The strokes of a bound chord, typed through the encoder into an idle
    processor outside scroll mode, decode, match and produce exactly its action,
    the global binding where there are two; the processor is idle again and has
    followed the mode change. No longer chord may begin with it, or it would
    stay pending, and every stroke must be one that encoder and decoder agree on
    ([typable]): in the legacy encoding keys without modifiers except Escape and
    F5 on, Shift with letters, Tab and arrows, Ctrl with Space and with letters
    except i, j and m; with CSI u also the strokes that need it. *)
Theorem typed_chord_fires ip now enh typed es a :
  processor_ok ip -> pending ip = None -> decoder ip = [] -> scroll_mode ip = false ->
  typed <> [] -> Forall (fun sm => typable enh sm.1) typed ->
  mapM (fun sm => encode_key_with_modes sm.1 enh sm.2) typed = Some es ->
  lookup_action (keymap ip) (active_mode ip) (fst <$> typed) = Some a ->
  has_longer_prefix (all_bindings (keymap ip) (active_mode ip)) (fst <$> typed) = false ->
  process_stream_bytes ip now (concat es) = Some (sync_scroll_mode ip [a], [a]).
Proof.
  intros [Hok _] Hp Hd Hs Hne Ht Hes Ha Hl. apply mapM_Some in Hes.
  unfold process_stream_bytes, resolve_if_timed_out, pending_timed_out. rewrite Hp. cbn [mbind option_bind].
  unfold feed_events. rewrite Hd. cbn [app]. rewrite (feed_loop_strokes enh typed es) by done.
  assert (Hst : strokes_of (zip_with (fun sm e => mkDecoded Press sm.1 e) typed es) = fst <$> typed).
  { clear -Hes. induction Hes as [|sm e typed es _ _ IH]; [done|]. cbn. by f_equal. }
  unfold process_input_events.
  rewrite (chord_fires_from _ now _ a); cbn [with_decoder pending keymap active_mode scroll_mode pending_strokes];
    rewrite ?Hp; cbn [pending_strokes app]; rewrite ?Hst; try done.
  - cbn [mbind option_bind]. do 2 f_equal. destruct ip. simpl in *. by subst.
  - destruct Hes; [done|]. done.
Qed.

Lemma typed_chord_fires_witness :
  let ip := new sample_keymap false in
  process_stream_bytes ip 7 [1; 91] = Some (sync_scroll_mode ip [EnterScrollMode], [EnterScrollMode]).
Proof.
  intros ip.
  apply (typed_chord_fires ip 7 false [(mkStroke (Char 97) CTRL, mkModes false false); (simple (Char 91), mkModes true true)]
    [[1]; [91]] EnterScrollMode); try reflexivity; [apply sample_keymap_ok|discriminate|].
  repeat constructor.
Defined.

(** A key event of the terminal is dropped, neither matched against
    bindings nor sent to the pane, exactly when it is a release, a key without
    a stroke, or a function key above F4 (or F0) with the enhanced encoding
    off, no modifier held, or above F12: plain F5 to F12 reach nothing. *)
Theorem terminal_event_dropped_iff k enh modes :
  key_event_to_input_event k enh modes = None <->
  t_kind k = Release \/ t_code k = TOther \/
  exists n, t_code k = TF n /\ ~ 1 <= n <= 4 /\ (enh = false \/ t_modifiers k = NONE \/ ~ 1 <= n <= 12).
Proof.
  destruct k as [code m kind]. unfold key_event_to_input_event, key_event_to_bytes. cbn [t_kind t_code t_modifiers].
  case_decide as Hk; [naive_solver|].
  destruct (crossterm_key_event_to_stroke (mkTermKey code m kind)) as [s|] eqn:Es; cbn [mbind option_bind].
  - pose proof (encode_key_none_iff s enh modes) as Hn.
    assert (Hs : code <> TOther /\ forall n, key s = F n <-> code = TF n).
    { destruct code; unfold crossterm_key_event_to_stroke in Es; cbn [t_code] in Es; try (case_match); naive_solver. }
    assert (Hm : forall n, code = TF n -> modifiers s = m) by (intros n ->; by injection Es as <-).
    destruct Hs as [Hother Hf]. destruct (encode_key_with_modes s enh modes) as [raw|]; cbn [mbind option_bind].
    + split; [done|]. intros [?|[?|(n & Hc & Hn1 & Hn2)]]; [done..|].
      assert (Some raw = None) as E; [|done]. apply Hn. exists n. rewrite (Hm n Hc). by apply Hf in Hc.
    + split; [|done]. intros _. destruct (proj1 Hn eq_refl) as (n & Hc & Hn1 & Hn2). apply Hf in Hc.
      rewrite (Hm n Hc) in Hn2. right. right. by exists n.
  - split; [|done]. intros _. right. left. destruct code; try done.
    unfold crossterm_key_event_to_stroke in Es. cbn [t_code] in Es. by case_match.
Qed.

(** No terminal event becomes the key named space: the adapter turns it
    into a character, so a binding of space or ctrl+space never fires on one,
    and Ctrl+Space is sent to the pane as a plain space where the encoder
    sends NUL for the named key. *)
Theorem terminal_space_not_bindable :
  (forall k s, crossterm_key_event_to_stroke k = Some s -> key s <> Space) /\
  parse_key_stroke (chars "ctrl+space") = Ok (mkStroke Space CTRL) /\
  (forall enh modes,
     key_event_to_bytes (mkTermKey (TChar 32) CTRL Press) enh modes = Some [32]) /\
  (forall modes, encode_key_with_modes (mkStroke Space CTRL) false modes = Some [0]).
Proof.
  split_and!.
  - intros [code m kind] s. destruct code; unfold crossterm_key_event_to_stroke; cbn [t_code];
      try (case_match); naive_solver.
  - vm_compute. reflexivity.
  - by intros [] modes.
  - done.
Qed.

(** Modes where g waits for a second g. *)
Definition lag_keymap : Keymap :=
  let g := mkStroke (Char 103) NONE in
  mkKeymap (Some 1000) [] [] []
    (<[chars "insert" := mkMode [] true []]>
      {[ chars "normal" := mkMode [] false [mkBinding [g] (EnterMode (chars "insert")); mkBinding [g; g] ScrollTop] ]})
    (Some (chars "normal")).

Lemma lag_keymap_built :
  from_modal_parts_with_scroll (Some 1000) (chars "normal")
    [(chars "insert", mkModeConfig [] true []);
     (chars "normal", mkModeConfig [] false [(chars "g", chars "enter_mode insert"); (chars "g g", chars "scroll_top")])]
    [] [] = okM lag_keymap.
Proof. vm_compute. reflexivity. Qed.

(** Mode changes are not followed when a chord is resolved by its timeout:
    a read that brings no key leaves scroll mode and the active mode as they
    were, whatever actions the timed-out chord produced. With g bound to enter
    insert mode and g g to another action, a timed-out g yields the action and
    the processor stays in normal mode; resolved by the next key it moves to
    insert mode. *)
Theorem timed_out_mode_change_lost :
  (forall ip now bytes ip' actions,
     (feed_events (decoder ip) bytes).1 = [] -> process_stream_bytes ip now bytes = Some (ip', actions) ->
     scroll_mode ip' = scroll_mode ip /\ active_mode ip' = active_mode ip) /\
  built lag_keymap /\
  (exists waiting, process_stream_bytes (new lag_keymap false) 0 [103] = Some (waiting, []) /\
     (snd <$> process_stream_bytes waiting 1000000000 [] = Some [EnterMode (chars "insert")]) /\
     (active_mode ∘ fst <$> process_stream_bytes waiting 1000000000 [] = Some (Some (chars "normal"))) /\
     (active_mode ∘ fst <$> process_stream_bytes waiting 1 [120] = Some (Some (chars "insert")))).
Proof.
  split; [|split].
  - intros ip now bytes ip' actions Hf H. unfold process_stream_bytes in H.
    apply bind_Some in H as ([ip1 acts1] & H1 & H).
    assert (decoder ip1 = decoder ip /\ scroll_mode ip1 = scroll_mode ip /\ active_mode ip1 = active_mode ip)
      as (Hd & Hs & Hm).
    { unfold resolve_if_timed_out, resolve_pending in H1. destruct (pending_timed_out ip now); [|by injection H1 as <- _].
      apply bind_Some in H1 as ([p a] & _ & [= <- _]). done. }
    rewrite Hd in H. destruct (feed_events (decoder ip) bytes) as [events rest]. cbn [fst] in Hf. subst events.
    cbn in H. injection H as <- _. by rewrite <- Hs, <- Hm.
  - right. do 5 eexists. apply lag_keymap_built.
  - eexists. split; [vm_compute; reflexivity|]. split_and!; vm_compute; reflexivity.
Qed.

(** ** The default keymap *)

Definition fires_alone (km : Keymap) (b : KeyBinding) : bool :=
  bool_decide (lookup_action km (initial_mode km) (chord b) = Some (action b))
  && negb (has_longer_prefix (all_bindings km (initial_mode km)) (chord b))
  && negb (bool_decide (chord b = [])).

Lemma default_bindings_alone :
  match default_runtime with
  | Some km => forallb (fires_alone km) (runtime_bindings km) && bool_decide (length (runtime_bindings km) = 37)%nat
               && bool_decide (initial_mode km = None)
  | None => false
  end = true.
Proof. vm_compute. reflexivity. Qed.

(** The default keymap builds, so its [expect] never panics, and each of
    its 37 prefix bindings fires exactly its action when its strokes are typed
    into a fresh processor: none hides or delays another. *)
Theorem default_bindings_fire :
  exists km, default_runtime = Some km /\ length (runtime_bindings km) = 37%nat /\
    forall b ds enh now, b ∈ runtime_bindings km -> strokes_of ds = chord b ->
      process_input_events (new km enh) now (Key <$> ds) =
      Some (sync_scroll_mode (new km enh) [action b], [action b]).
Proof.
  pose proof default_bindings_alone as H. destruct default_runtime as [km|]; [|done].
  rewrite !andb_true_iff, !bool_decide_eq_true, forallb_forall in H. destruct H as [[Hall Hlen] Hinit].
  exists km. split; [done|]. split; [done|]. intros b ds enh now Hb Hds.
  apply list_elem_of_In, Hall in Hb. unfold fires_alone in Hb.
  rewrite !andb_true_iff, !negb_true_iff, bool_decide_eq_true, bool_decide_eq_false in Hb.
  destruct Hb as [[Ha Hl] Hne]. unfold process_input_events.
  rewrite (chord_fires_from (new km enh) now ds (action b)); cbn [new pending pending_strokes app]; rewrite ?Hds; try done.
  - unfold keymap_ok. cbn [new keymap]. by rewrite Hinit.
  - intros ->. by apply Hne.
Qed.
