(* ===== verification/PaneLayout.v ===== *)
(** * The pane layout tree

    packages/pane-runtime-state/src/layout.rs and attach.rs, with the geometry
    helpers of plugins/pane-runtime-plugin/src/runtime.rs: the binary tree of splits
    over panes, its edits (split, close, resize), the rectangles it assigns to
    panes inside the attach viewport, and the choice of the pane to focus when one
    is closed.  Pane identifiers are [N]; ratios are single-precision floats. *)

From Stdlib Require Import SpecFloat.
From S2P Require Import Prelude Float32.

Open Scope bmux_scope.

Notation PaneId := N (only parsing).

Record LayoutRect := mkLayoutRect { x : Z; y : Z; w : Z; h : Z }.

#[export] Instance LayoutRect_eq_dec : EqDecision LayoutRect.
Proof. solve_decision. Defined.

Inductive PaneSplitDirection : Set := Vertical | Horizontal.

#[export] Instance PaneSplitDirection_eq_dec : EqDecision PaneSplitDirection.
Proof. solve_decision. Defined.

Inductive PaneLayoutNode :=
| Leaf (pane_id : PaneId)
| Split (direction : PaneSplitDirection) (ratio : F32) (first second : PaneLayoutNode).

Inductive PaneResizeDirection : Set := Increase | Decrease | Left | Right | Up | Down.

#[export] Instance PaneResizeDirection_eq_dec : EqDecision PaneResizeDirection.
Proof. solve_decision. Defined.

(** ** The tree's edits *)

Fixpoint pane_order (node : PaneLayoutNode) (out : list PaneId) : list PaneId :=
  match node with
  | Leaf pane_id => out ++ [pane_id]
  | Split _ _ first second => pane_order second (pane_order first out)
  end.

(** The flag is the method's result, the node what it leaves. *)
Fixpoint replace_leaf_with_split (node : PaneLayoutNode) (target : PaneId)
    (direction : PaneSplitDirection) (ratio : F32) (new_pane_id : PaneId)
  : bool * PaneLayoutNode :=
  match node with
  | Leaf pane_id =>
      if decide (pane_id = target)
      then (true, Split direction ratio (Leaf target) (Leaf new_pane_id))
      else (false, node)
  | Split d r first second =>
      match replace_leaf_with_split first target direction ratio new_pane_id with
      | (true, first) => (true, Split d r first second)
      | (false, first) =>
          let '(b, second) := replace_leaf_with_split second target direction ratio new_pane_id in
          (b, Split d r first second)
      end
  end.

Inductive RemoveResult : Set := NotFound | Removed | RemoveThis.

Fixpoint remove_inner (node : PaneLayoutNode) (target : PaneId) : RemoveResult * PaneLayoutNode :=
  match node with
  | Leaf pane_id => (if decide (pane_id = target) then RemoveThis else NotFound, node)
  | Split d r first second =>
      match remove_inner first target with
      | (Removed, first) => (Removed, Split d r first second)
      | (RemoveThis, _) => (Removed, second)
      | (NotFound, first) =>
          match remove_inner second target with
          | (NotFound, second) => (NotFound, Split d r first second)
          | (Removed, second) => (Removed, Split d r first second)
          | (RemoveThis, _) => (Removed, first)
          end
      end
  end.

Definition remove_leaf (node : PaneLayoutNode) (target : PaneId) : bool * PaneLayoutNode :=
  let '(result, node) := remove_inner node target in
  (match result with NotFound => false | _ => true end, node).

Fixpoint contains_pane (node : PaneLayoutNode) (pane_id : PaneId) : bool :=
  match node with
  | Leaf i => bool_decide (i = pane_id)
  | Split _ _ first second => contains_pane first pane_id || contains_pane second pane_id
  end.

Definition ratio_delta (rect : LayoutRect) (vertical : bool) (cells : Z) : F32 :=
  let span := Z.max (if vertical then w rect else h rect) 1 in
  f32_div (f32_from cells) (f32_from span).

(** The first extent of a split of [extent] cells, and the second. *)
Definition first_extent (extent : Z) (ratio : F32) : Z :=
  let split := f32_to_u 16 (f32_round (f32_mul (f32_from extent) ratio)) in
  Z.min (Z.max split 1) (Z.max (saturating_sub extent 1) 1).

Definition second_extent (extent first : Z) : Z := Z.max (saturating_sub extent first) 1.

Definition split_layout_rect (rect : LayoutRect) (ratio : F32) (vertical : bool)
  : LayoutRect * LayoutRect :=
  let ratio := f32_clamp ratio f32_0_1 f32_0_9 in
  if vertical then
    let first_w := first_extent (w rect) ratio in
    let second_w := second_extent (w rect) first_w in
    (mkLayoutRect (x rect) (y rect) first_w (h rect),
     mkLayoutRect (saturating_add 16 (x rect) first_w) (y rect) second_w (h rect))
  else
    let first_h := first_extent (h rect) ratio in
    let second_h := second_extent (h rect) first_h in
    (mkLayoutRect (x rect) (y rect) (w rect) first_h,
     mkLayoutRect (x rect) (saturating_add 16 (y rect) first_h) (w rect) second_h).

Definition is_vertical (d : PaneSplitDirection) : bool := bool_decide (d = Vertical).

Fixpoint resize_focused_automatic (node : PaneLayoutNode) (target : PaneId)
    (direction : PaneResizeDirection) (rect : LayoutRect) (cells : Z)
  : option F32 * PaneLayoutNode :=
  match node with
  | Leaf _ => (None, node)
  | Split d ratio first second =>
      let vertical := is_vertical d in
      let '(first_rect, second_rect) := split_layout_rect rect ratio vertical in
      if contains_pane first target then
        match resize_focused_automatic first target direction first_rect cells with
        | (Some adjusted, first) => (Some adjusted, Split d ratio first second)
        | (None, first) =>
            let delta := ratio_delta rect vertical cells in
            let signed_delta := if bool_decide (direction = Increase) then delta else f32_neg delta in
            let ratio := f32_clamp (f32_add ratio signed_delta) f32_0_1 f32_0_9 in
            (Some ratio, Split d ratio first second)
        end
      else if contains_pane second target then
        match resize_focused_automatic second target direction second_rect cells with
        | (Some adjusted, second) => (Some adjusted, Split d ratio first second)
        | (None, second) =>
            let delta := ratio_delta rect vertical cells in
            let signed_delta := if bool_decide (direction = Increase) then f32_neg delta else delta in
            let ratio := f32_clamp (f32_add ratio signed_delta) f32_0_1 f32_0_9 in
            (Some ratio, Split d ratio first second)
        end
      else (None, node)
  end.

Fixpoint resize_focused_directional (node : PaneLayoutNode) (target : PaneId)
    (direction : PaneResizeDirection) (rect : LayoutRect) (cells : Z)
  : option F32 * PaneLayoutNode :=
  match node with
  | Leaf _ => (None, node)
  | Split d ratio first second =>
      let vertical := is_vertical d in
      let '(first_rect, second_rect) := split_layout_rect rect ratio vertical in
      if contains_pane first target then
        match resize_focused_directional first target direction first_rect cells with
        | (Some adjusted, first) => (Some adjusted, Split d ratio first second)
        | (None, first) =>
            if vertical && bool_decide (direction = Right)
               || negb vertical && bool_decide (direction = Down)
            then
              let ratio := f32_clamp (f32_add ratio (ratio_delta rect vertical cells))
                             f32_0_1 f32_0_9 in
              (Some ratio, Split d ratio first second)
            else (None, Split d ratio first second)
        end
      else if contains_pane second target then
        match resize_focused_directional second target direction second_rect cells with
        | (Some adjusted, second) => (Some adjusted, Split d ratio first second)
        | (None, second) =>
            if vertical && bool_decide (direction = Left)
               || negb vertical && bool_decide (direction = Up)
            then
              let ratio := f32_clamp (f32_sub ratio (ratio_delta rect vertical cells))
                             f32_0_1 f32_0_9 in
              (Some ratio, Split d ratio first second)
            else (None, Split d ratio first second)
        end
      else (None, node)
  end.

Definition resize_focused (node : PaneLayoutNode) (target : PaneId)
    (direction : PaneResizeDirection) (rect : LayoutRect) (cells : Z)
  : option F32 * PaneLayoutNode :=
  match direction with
  | Increase | Decrease => resize_focused_automatic node target direction rect cells
  | _ => resize_focused_directional node target direction rect cells
  end.

(** ** The viewport *)

Record AttachViewport := mkAttachViewport {
  cols : Z; rows : Z; top_inset : Z; right_inset : Z; bottom_inset : Z; left_inset : Z
}.

Record AttachContentRegion := mkAttachContentRegion {
  region_x : Z; region_y : Z; region_cols : Z; region_rows : Z
}.

Definition normalize_axis_insets (extent leading trailing : Z) : Z * Z :=
  let maximum := saturating_sub extent 1 in
  let leading := Z.min leading maximum in
  let trailing := Z.min trailing (saturating_sub maximum leading) in
  (leading, trailing).

Definition normalized (cols rows top_inset right_inset bottom_inset left_inset : Z)
  : AttachViewport :=
  let cols := Z.max cols 1 in
  let rows := Z.max rows 2 in
  let '(top_inset, bottom_inset) := normalize_axis_insets rows top_inset bottom_inset in
  let '(left_inset, right_inset) := normalize_axis_insets cols left_inset right_inset in
  mkAttachViewport cols rows top_inset right_inset bottom_inset left_inset.

Definition content_region (v : AttachViewport) : AttachContentRegion :=
  let x := Z.min (left_inset v) (saturating_sub (cols v) 1) in
  let y := Z.min (top_inset v) (saturating_sub (rows v) 1) in
  let reserved_cols := saturating_add 16 (left_inset v) (right_inset v) in
  let reserved_rows := saturating_add 16 (top_inset v) (bottom_inset v) in
  mkAttachContentRegion x y (Z.max (saturating_sub (cols v) reserved_cols) 1)
    (Z.max (saturating_sub (rows v) reserved_rows) 1).

Definition scene_root_from_viewport (viewport : option AttachViewport) : LayoutRect :=
  match viewport with
  | None => mkLayoutRect 0 0 1 1
  | Some viewport =>
      let content := content_region viewport in
      mkLayoutRect (region_x content) (region_y content) (region_cols content)
        (region_rows content)
  end.

(** ** Rectangles and focus *)

Fixpoint collect_layout_rects (node : PaneLayoutNode) (rect : LayoutRect)
    (out : gmap PaneId LayoutRect) : gmap PaneId LayoutRect :=
  match node with
  | Leaf pane_id => <[pane_id := rect]> out
  | Split direction ratio first second =>
      let '(first_rect, second_rect) := split_layout_rect rect ratio (is_vertical direction) in
      collect_layout_rects second second_rect (collect_layout_rects first first_rect out)
  end.

(** [collect_runtime_layout_pane_ids]: the identifiers, or the reason why the
    layout is refused. *)
Inductive LayoutError := DuplicatePaneId (pane_id : PaneId) | RatioOutOfRange.

Fixpoint collect_runtime_layout_pane_ids (node : PaneLayoutNode) (out : gset PaneId)
  : result LayoutError (gset PaneId) :=
  match node with
  | Leaf pane_id =>
      if decide (pane_id ∈ out) then Err (DuplicatePaneId pane_id) else Ok ({[pane_id]} ∪ out)
  | Split _ ratio first second =>
      if negb (f32_contains f32_0_1 f32_0_9 ratio) then Err RatioOutOfRange
      else
        let? out := collect_runtime_layout_pane_ids first out in
        collect_runtime_layout_pane_ids second out
  end.

(** [order.iter().position(|id| *id == target)]. *)
Fixpoint position (target : PaneId) (order : list PaneId) : option nat :=
  match order with
  | [] => None
  | i :: order => if decide (i = target) then Some O else S <$> position target order
  end.

Definition layout_order_fallback_after_close (order : list PaneId) (target : PaneId)
  : option PaneId :=
  match position target order with
  | None => None
  | Some target_index =>
      match List.filter (fun i => bool_decide (i <> target)) order !! target_index with
      | Some i => Some i
      | None => last (List.filter (fun i => bool_decide (i <> target)) (take target_index order))
      end
  end.

Definition rect_center (rect : LayoutRect) : Z * Z :=
  (saturating_mul 32 (x rect) 2 + w rect, saturating_mul 32 (y rect) 2 + h rect).

Definition rect_center_distance (a b : LayoutRect) : Z :=
  let '(ax, ay) := rect_center a in
  let '(bx, by_) := rect_center b in
  saturating_add 32 (abs_diff ax bx) (abs_diff ay by_).

(** The lexicographic order of the keys [min_by_key] compares. *)
Definition key_lt (a b : Z * Z * Z) : bool :=
  let '(a1, a2, a3) := a in
  let '(b1, b2, b3) := b in
  (a1 <? b1) || (a1 =? b1) && ((a2 <? b2) || (a2 =? b2) && (a3 <? b3)).

(** [iter.min_by_key(key)]: the first of the smallest. *)
Fixpoint min_by_key {A} (key : A -> Z * Z * Z) (l : list A) : option A :=
  match l with
  | [] => None
  | a :: l =>
      match min_by_key key l with
      | None => Some a
      | Some b => if key_lt (key b) (key a) then Some b else Some a
      end
  end.

Definition usize_max : Z := max_u 64.

Definition focus_key (order : list PaneId) (target_rect : LayoutRect) (target_index : Z)
    (entry : PaneId * LayoutRect) : Z * Z * Z :=
  let order_index := match position entry.1 order with
                     | Some i => Z.of_nat i
                     | None => usize_max
                     end in
  (rect_center_distance target_rect entry.2, abs_diff order_index target_index, order_index).

(** [rects.iter()]: the entries in the order of their keys. *)
Definition rect_entries (rects : gmap PaneId LayoutRect) : list (PaneId * LayoutRect) :=
  omap (fun k => (fun r => (k, r)) <$> rects !! k) (sorted_keys rects).

Definition next_focus_after_close (layout_root : PaneLayoutNode) (focused_pane_id target : PaneId)
    (viewport : option AttachViewport) : option PaneId :=
  let order := pane_order layout_root [] in
  if negb (bool_decide (target ∈ order)) then None
  else if bool_decide (focused_pane_id <> target) && bool_decide (focused_pane_id ∈ order)
  then Some focused_pane_id
  else
    let fallback := layout_order_fallback_after_close order target in
    let root := scene_root_from_viewport viewport in
    let rects := collect_layout_rects layout_root root ∅ in
    match rects !! target with
    | None => None
    | Some target_rect =>
        let target_index := Z.of_nat (default O (position target order)) in
        match min_by_key (focus_key order target_rect target_index)
                (List.filter (fun e => bool_decide (e.1 <> target)) (rect_entries rects)) with
        | Some entry => Some entry.1
        | None => fallback
        end
    end.

(** ** The tree as an ordered list of panes *)

Fixpoint leaves (node : PaneLayoutNode) : list PaneId :=
  match node with
  | Leaf pane_id => [pane_id]
  | Split _ _ first second => leaves first ++ leaves second
  end.

Fixpoint ratios_ok (node : PaneLayoutNode) : Prop :=
  match node with
  | Leaf _ => True
  | Split _ ratio first second => ratio_ok ratio /\ ratios_ok first /\ ratios_ok second
  end.

Record layout_wf (node : PaneLayoutNode) : Prop := {
  wf_nodup : NoDup (leaves node);
  wf_ratios : ratios_ok node
}.

(** The order after a split: the new pane right behind its target. *)
Fixpoint insert_after (target new_pane_id : PaneId) (order : list PaneId) : list PaneId :=
  match order with
  | [] => []
  | i :: order =>
      if decide (i = target) then i :: new_pane_id :: order
      else i :: insert_after target new_pane_id order
  end.

Definition without (target : PaneId) (order : list PaneId) : list PaneId :=
  List.filter (fun i => bool_decide (i <> target)) order.

Lemma pane_order_leaves node out : pane_order node out = out ++ leaves node.
Proof.
  revert out. induction node as [i|d r f IHf s IHs]; intros out; simpl; [done|].
  by rewrite IHf, IHs, <- app_assoc.
Qed.

Lemma contains_pane_leaves node i : contains_pane node i = bool_decide (i ∈ leaves node).
Proof.
  induction node as [j|d r f IHf s IHs]; simpl.
  - apply bool_decide_ext. rewrite list_elem_of_singleton. naive_solver.
  - rewrite IHf, IHs. rewrite <- bool_decide_or. apply bool_decide_ext. by rewrite elem_of_app.
Qed.

Lemma leaves_nonempty node : leaves node <> [].
Proof.
  induction node as [i|d r f IHf s IHs]; simpl; [done|]. intros E.
  apply app_eq_nil in E as [E _]. done.
Qed.

Lemma insert_after_not_in t n l : t ∉ l -> insert_after t n l = l.
Proof.
  induction l as [|i l IH]; [done|]. rewrite not_elem_of_cons. intros [Hi Hl]. simpl.
  rewrite decide_False by done. by rewrite IH.
Qed.

Lemma insert_after_app_l t n l k : t ∈ l -> insert_after t n (l ++ k) = insert_after t n l ++ k.
Proof.
  induction l as [|i l IH]; [by intros ?%elem_of_nil|]. rewrite elem_of_cons. intros Ht. simpl.
  case_decide; [done|]. simpl. rewrite IH; [done|]. naive_solver.
Qed.

Lemma insert_after_app_r t n l k : t ∉ l -> insert_after t n (l ++ k) = l ++ insert_after t n k.
Proof.
  induction l as [|i l IH]; [done|]. rewrite not_elem_of_cons. intros [Hi Hl]. simpl.
  rewrite decide_False by done. by rewrite IH.
Qed.

Lemma elem_of_insert_after t n l i :
  t ∈ l -> i ∈ insert_after t n l <-> i = n \/ i ∈ l.
Proof.
  induction l as [|j l IH]; [by intros ?%elem_of_nil|]. rewrite elem_of_cons. intros Ht. simpl.
  case_decide as E; [subst; set_solver|]. rewrite elem_of_cons, IH by naive_solver. set_solver.
Qed.

Lemma NoDup_insert_after t n l : NoDup l -> n ∉ l -> NoDup (insert_after t n l).
Proof.
  induction l as [|i l IH]; [done|]. rewrite NoDup_cons, not_elem_of_cons.
  intros [Hi Hl] [Hn Hnl]. simpl. case_decide as E.
  - rewrite !NoDup_cons, not_elem_of_cons. naive_solver.
  - rewrite NoDup_cons. split; [|by apply IH]. destruct (decide (t ∈ l)).
    + rewrite elem_of_insert_after by done. naive_solver.
    + by rewrite insert_after_not_in.
Qed.

Lemma elem_of_without t l i : i ∈ without t l <-> i ∈ l /\ i <> t.
Proof.
  unfold without. rewrite list_elem_of_In, filter_In, <- list_elem_of_In, bool_decide_eq_true. done.
Qed.

Lemma without_not_in t l : t ∉ l -> without t l = l.
Proof.
  unfold without. induction l as [|i l IH]; [done|]. rewrite not_elem_of_cons. intros [Hi Hl]. simpl.
  rewrite bool_decide_eq_true_2 by done. by rewrite IH.
Qed.

Lemma without_app t l k : without t (l ++ k) = without t l ++ without t k.
Proof. unfold without. apply List.filter_app. Qed.

Lemma NoDup_without t l : NoDup l -> NoDup (without t l).
Proof. rewrite !NoDup_ListNoDup. apply List.NoDup_filter. Qed.

Lemma NoDup_singleton_set (l : list PaneId) t :
  NoDup l -> l = [t] <-> list_to_set l = ({[t]} : gset PaneId).
Proof.
  intros Hnd. split; [intros ->; apply set_eq; set_solver|]. intros E.
  assert (Hall : forall i, i ∈ l <-> i = t).
  { intros i. by rewrite <- (elem_of_list_to_set (C := gset PaneId)), E, elem_of_singleton. }
  clear E. destruct l as [|i [|j l]].
  - assert (Ht : t ∈ ([] : list PaneId)) by (by apply Hall). by apply elem_of_nil in Ht.
  - f_equal. apply Hall. by left.
  - apply NoDup_cons in Hnd as [Hi _]. destruct Hi.
    rewrite (proj1 (Hall i)) by left. rewrite <- (proj1 (Hall j)) by (right; left). left.
Qed.

(** ** What the edits do to it *)

Lemma replace_leaf_spec node t d r n :
  replace_leaf_with_split node t d r n =
    (bool_decide (t ∈ leaves node), (replace_leaf_with_split node t d r n).2) /\
  leaves (replace_leaf_with_split node t d r n).2 = insert_after t n (leaves node) /\
  (t ∉ leaves node -> (replace_leaf_with_split node t d r n).2 = node) /\
  (ratio_ok r -> ratios_ok node -> ratios_ok (replace_leaf_with_split node t d r n).2).
Proof.
  induction node as [i|d' r' f IHf s IHs]; simpl.
  - case_decide as E; simpl.
    + subst. rewrite bool_decide_eq_true_2 by set_solver. split_and!; try done. set_solver.
    + rewrite bool_decide_eq_false_2 by set_solver. done.
  - destruct IHf as (Hf1 & Hf2 & Hf3 & Hf4), IHs as (Hs1 & Hs2 & Hs3 & Hs4).
    destruct (replace_leaf_with_split f t d r n) as [bf f'], (replace_leaf_with_split s t d r n) as [bs s'].
    simpl in *. injection Hf1 as ->. injection Hs1 as ->.
    destruct (decide (t ∈ leaves f)) as [Hin|Hin].
    + rewrite (bool_decide_eq_true_2 (t ∈ leaves f)) by done. simpl.
      rewrite bool_decide_eq_true_2, insert_after_app_l, Hf2 by set_solver.
      split_and!; [done|done|set_solver|tauto].
    + rewrite (bool_decide_eq_false_2 (t ∈ leaves f)) by done. rewrite Hf3 by done. simpl.
      rewrite insert_after_app_r, Hs2 by done. split_and!; [|done| |tauto].
      * f_equal. apply bool_decide_ext. set_solver.
      * intros Ht. rewrite Hs3; [done|set_solver].
Qed.

Lemma remove_inner_spec node t :
  NoDup (leaves node) ->
  match remove_inner node t with
  | (NotFound, node') => t ∉ leaves node /\ node' = node
  | (RemoveThis, node') => node = Leaf t /\ node' = node
  | (Removed, node') => t ∈ leaves node /\ leaves node' = without t (leaves node) /\
      (ratios_ok node -> ratios_ok node')
  end.
Proof.
  induction node as [i|d r f IHf s IHs]; simpl; intros Hnd.
  - case_decide; [by subst|]. split; [set_solver|done].
  - apply NoDup_app in Hnd as (Hf & Hdisj & Hs). specialize (IHf Hf). specialize (IHs Hs).
    rewrite without_app. destruct (remove_inner f t) as [[] f'].
    + destruct IHf as [Hnf ->]. destruct (remove_inner s t) as [[] s'].
      * destruct IHs as [Hns ->]. split; [set_solver|done].
      * destruct IHs as (Hin & Hl & Hr). simpl. rewrite Hl, (without_not_in t (leaves f)) by done.
        split; [set_solver|]. tauto.
      * destruct IHs as [-> ->]. simpl. rewrite (without_not_in t (leaves f)) by done.
        rewrite bool_decide_eq_false_2 by tauto. rewrite app_nil_r.
        split; [set_solver|]. tauto.
    + destruct IHf as (Hin & Hl & Hr). simpl. rewrite Hl, (without_not_in t (leaves s)) by set_solver.
      split; [set_solver|]. tauto.
    + destruct IHf as [-> ->]. simpl. rewrite bool_decide_eq_false_2 by tauto.
      rewrite (without_not_in t (leaves s)) by set_solver. split; [set_solver|]. tauto.
Qed.

(** Removing a pane that is in the tree: the tree loses it, unless it is the only
    one. *)
Lemma remove_leaf_spec node t :
  NoDup (leaves node) ->
  let '(b, node') := remove_leaf node t in
  b = bool_decide (t ∈ leaves node) /\
  leaves node' = (if decide (leaves node = [t]) then [t] else without t (leaves node)) /\
  (ratios_ok node -> ratios_ok node').
Proof.
  intros Hnd. unfold remove_leaf. pose proof (remove_inner_spec node t Hnd) as H.
  destruct (remove_inner node t) as [[] node'].
  - destruct H as [Hni ->]. rewrite bool_decide_eq_false_2 by done.
    rewrite decide_False by (intros E; rewrite E in Hni; set_solver).
    by rewrite without_not_in.
  - destruct H as (Hin & Hl & Hr). rewrite bool_decide_eq_true_2 by done.
    rewrite decide_False; [done|]. intros E. rewrite E in Hl. simpl in Hl.
    rewrite bool_decide_eq_false_2 in Hl by tauto. by apply leaves_nonempty in Hl.
  - destruct H as [-> ->]. simpl. rewrite bool_decide_eq_true_2 by set_solver.
    by rewrite decide_True.
Qed.

Lemma remove_inner_not_in node t : t ∉ leaves node -> remove_inner node t = (NotFound, node).
Proof.
  induction node as [i|d r f IHf s IHs]; simpl; intros Ht.
  - rewrite decide_False; [done|set_solver].
  - rewrite IHf, IHs by set_solver. done.
Qed.

Lemma remove_split_inverse node t d r n :
  t ∈ leaves node -> n ∉ leaves node ->
  remove_inner (replace_leaf_with_split node t d r n).2 n = (Removed, node).
Proof.
  intros Ht Hn. induction node as [i|d' r' f IHf s IHs]; simpl in *.
  - assert (i = t) as -> by set_solver. rewrite decide_True by done. simpl.
    rewrite decide_False by set_solver. by rewrite decide_True.
  - pose proof (replace_leaf_spec f t d r n) as (Hf1 & _ & Hf3 & _).
    destruct (replace_leaf_with_split f t d r n) as [bf f']. simpl in *. injection Hf1 as ->.
    case_bool_decide as Hin.
    + simpl. rewrite IHf; [done|done|set_solver].
    + rewrite Hf3 by done. destruct (replace_leaf_with_split s t d r n) as [bs s']. simpl in *.
      rewrite remove_inner_not_in by set_solver. rewrite IHs; [done|set_solver|set_solver].
Qed.

Lemma ratio_delta_not_nan rect vertical cells :
  0 <= w rect <= 65535 -> 0 <= h rect <= 65535 -> u16 cells ->
  ratio_delta rect vertical cells <> S754_nan.
Proof.
  intros Hw Hh Hc. unfold ratio_delta. apply f32_div_u16_not_nan; [int_lia|].
  destruct vertical; lia.
Qed.

Lemma adjusted_ratio_ok ratio delta :
  ratio_ok ratio -> delta <> S754_nan ->
  ratio_ok (f32_clamp (f32_add ratio delta) f32_0_1 f32_0_9) /\
  ratio_ok (f32_clamp (f32_sub ratio delta) f32_0_1 f32_0_9).
Proof.
  intros Hr Hd. destruct (ratio_ok_finite _ Hr) as (m & e & ->).
  split; apply clamp_ratio_ok; [by apply f32_add_not_nan|by apply f32_sub_not_nan].
Qed.

Definition rect_u16 (rect : LayoutRect) : Prop :=
  0 <= x rect <= 65535 /\ 0 <= y rect <= 65535 /\ 0 <= w rect <= 65535 /\ 0 <= h rect <= 65535.

Lemma first_extent_range extent ratio :
  0 <= extent <= 65535 -> 1 <= first_extent extent ratio <= Z.max (extent - 1) 1.
Proof. intros H. unfold first_extent. int_lia. Qed.

Lemma split_layout_rect_u16 rect ratio vertical :
  rect_u16 rect ->
  rect_u16 (split_layout_rect rect ratio vertical).1 /\
  rect_u16 (split_layout_rect rect ratio vertical).2.
Proof.
  unfold rect_u16, split_layout_rect. intros Hr. set (r := f32_clamp ratio _ _).
  pose proof (first_extent_range (w rect) r). pose proof (first_extent_range (h rect) r).
  destruct vertical; unfold second_extent; simpl; int_lia.
Qed.

(** One step of a resize at a split: neither the order nor the range of the
    ratios changes, and a reported ratio is in range. *)
Definition resize_keeps (node : PaneLayoutNode) (res : option F32 * PaneLayoutNode) : Prop :=
  leaves res.2 = leaves node /\
  (ratios_ok node -> ratios_ok res.2 /\ forall r, res.1 = Some r -> ratio_ok r).

Lemma resize_automatic_keeps node t dir rect cells :
  rect_u16 rect -> u16 cells ->
  resize_keeps node (resize_focused_automatic node t dir rect cells).
Proof.
  intros Hrect Hc. revert rect Hrect.
  induction node as [i|d r f IHf s IHs]; intros rect Hrect; [done|]. simpl.
  destruct (split_layout_rect_u16 rect r (is_vertical d) Hrect) as [H1 H2].
  destruct (split_layout_rect rect r (is_vertical d)) as [fr sr]. simpl in H1, H2.
  assert (Hd : ratio_delta rect (is_vertical d) cells <> S754_nan)
    by (destruct Hrect as (_ & _ & ? & ?); by apply ratio_delta_not_nan).
  specialize (IHf fr H1). specialize (IHs sr H2). unfold resize_keeps in *.
  destruct (contains_pane f t); [|destruct (contains_pane s t); [|done]].
  - destruct (resize_focused_automatic f t dir fr cells) as [[a|] f']; simpl in *;
      destruct IHf as [Hl Hr]; rewrite Hl; (split; [done|]); intros (Hok & Hf & Hs).
    + naive_solver.
    + assert (Ha : ratio_ok (f32_clamp (f32_add r (if bool_decide (dir = Increase)
        then ratio_delta rect (is_vertical d) cells
        else f32_neg (ratio_delta rect (is_vertical d) cells))) f32_0_1 f32_0_9)).
      { apply adjusted_ratio_ok; [done|]. case_bool_decide; [done|by apply f32_neg_not_nan]. }
      naive_solver.
  - destruct (resize_focused_automatic s t dir sr cells) as [[a|] s']; simpl in *;
      destruct IHs as [Hl Hr]; rewrite Hl; (split; [done|]); intros (Hok & Hf & Hs).
    + naive_solver.
    + assert (Ha : ratio_ok (f32_clamp (f32_add r (if bool_decide (dir = Increase)
        then f32_neg (ratio_delta rect (is_vertical d) cells)
        else ratio_delta rect (is_vertical d) cells)) f32_0_1 f32_0_9)).
      { apply adjusted_ratio_ok; [done|]. case_bool_decide; [by apply f32_neg_not_nan|done]. }
      naive_solver.
Qed.

Lemma resize_directional_keeps node t dir rect cells :
  rect_u16 rect -> u16 cells ->
  resize_keeps node (resize_focused_directional node t dir rect cells).
Proof.
  intros Hrect Hc. revert rect Hrect.
  induction node as [i|d r f IHf s IHs]; intros rect Hrect; [done|]. simpl.
  destruct (split_layout_rect_u16 rect r (is_vertical d) Hrect) as [H1 H2].
  destruct (split_layout_rect rect r (is_vertical d)) as [fr sr]. simpl in H1, H2.
  assert (Hd : ratio_delta rect (is_vertical d) cells <> S754_nan)
    by (destruct Hrect as (_ & _ & ? & ?); by apply ratio_delta_not_nan).
  specialize (IHf fr H1). specialize (IHs sr H2). unfold resize_keeps in *.
  destruct (contains_pane f t); [|destruct (contains_pane s t); [|done]].
  - destruct (resize_focused_directional f t dir fr cells) as [[a|] f']; simpl in *.
    { destruct IHf as [Hl Hr]. rewrite Hl. naive_solver. }
    destruct IHf as [Hl Hr], (_ || _); simpl; rewrite Hl; (split; [done|]); intros (Hok & Hf & Hs);
      [|naive_solver]. destruct (adjusted_ratio_ok r _ Hok Hd) as [Ha _]. naive_solver.
  - destruct (resize_focused_directional s t dir sr cells) as [[a|] s']; simpl in *.
    { destruct IHs as [Hl Hr]. rewrite Hl. naive_solver. }
    destruct IHs as [Hl Hr], (_ || _); simpl; rewrite Hl; (split; [done|]); intros (Hok & Hf & Hs);
      [|naive_solver]. destruct (adjusted_ratio_ok r _ Hok Hd) as [_ Ha]. naive_solver.
Qed.

Lemma resize_focused_keeps node t dir rect cells :
  rect_u16 rect -> u16 cells -> resize_keeps node (resize_focused node t dir rect cells).
Proof.
  intros. unfold resize_focused.
  destruct dir; by (apply resize_automatic_keeps || apply resize_directional_keeps).
Qed.

(** The check of persisted layouts accepts exactly the well-formed ones. *)
Lemma collect_ids_spec node out out' :
  collect_runtime_layout_pane_ids node out = Ok out' <->
  layout_wf node /\ list_to_set (leaves node) ## out /\ out' = list_to_set (leaves node) ∪ out.
Proof.
  revert out out'. induction node as [i|d r f IHf s IHs]; intros out out'; simpl.
  - case_decide.
    + split; [done|]. intros (_ & Hd & _). set_solver.
    + split.
      * intros [= <-]. split_and!; [|set_solver|set_solver]. split; [apply NoDup_singleton|done].
      * intros (_ & _ & ->). f_equal. set_solver.
  - destruct (f32_contains f32_0_1 f32_0_9 r) eqn:Er; simpl.
    2: { split; [done|]. intros ([_ [Hr _]] & _). unfold ratio_ok in Hr. congruence. }
    rewrite rbind_ok. split.
    + intros (o & Hf & Hs). apply IHf in Hf as ([Hnf Hrf] & Hdf & ->).
      apply IHs in Hs as ([Hns Hrs] & Hds & ->). rewrite list_to_set_app_L.
      split_and!; [|set_solver|set_solver]. split; [|done].
      apply NoDup_app. split_and!; [done| |done]. intros z Hz Hz'. set_solver.
    + intros ([Hnd (_ & Hrf & Hrs)] & Hdisj & ->).
      apply NoDup_app in Hnd as (Hnf & Hfs & Hns). rewrite list_to_set_app_L in *.
      exists (list_to_set (leaves f) ∪ out). split.
      * apply IHf. split_and!; [done|set_solver|done].
      * apply IHs. split_and!; [done|set_solver|set_solver].
Qed.

(** ** The tree refines an ordered list of panes *)

(** C8: seen through [pane_order], the tree is a list of panes.  A split succeeds
    exactly when the target is in the list and puts the new pane right behind it;
    a removal reports whether the target is in the list and takes it out, except
    that the only pane of a tree stays although the removal reports success; a
    resize changes nothing; and removing the pane a split introduced restores the
    tree, ratios included. *)
Theorem layout_refines_order (node : PaneLayoutNode) (t n : PaneId) (d : PaneSplitDirection)
    (r : F32) (dir : PaneResizeDirection) (rect : LayoutRect) (cells : Z) :
  NoDup (leaves node) -> n ∉ leaves node -> rect_u16 rect -> u16 cells ->
  let order node := pane_order node [] in
  (replace_leaf_with_split node t d r n).1 = bool_decide (t ∈ order node) /\
  order (replace_leaf_with_split node t d r n).2 = insert_after t n (order node) /\
  (remove_leaf node t).1 = bool_decide (t ∈ order node) /\
  order (remove_leaf node t).2
    = (if decide (order node = [t]) then [t] else without t (order node)) /\
  order (resize_focused node t dir rect cells).2 = order node /\
  (t ∈ order node -> remove_leaf (replace_leaf_with_split node t d r n).2 n = (true, node)).
Proof.
  intros Hnd Hn Hrect Hc order. unfold order. rewrite !pane_order_leaves. simpl.
  destruct (replace_leaf_spec node t d r n) as (H1 & H2 & _ & _).
  pose proof (remove_leaf_spec node t Hnd) as Hrem.
  destruct (remove_leaf node t) as [b node']. destruct Hrem as (-> & Hl & _).
  split_and!; [by rewrite H1|done|done|done| |].
  - apply (resize_focused_keeps node t dir rect cells Hrect Hc).
  - intros Ht. unfold remove_leaf. by rewrite remove_split_inverse.
Qed.

Definition sample_layout : PaneLayoutNode :=
  Split Vertical f32_0_5 (Leaf 1%N) (Split Horizontal f32_0_5 (Leaf 2%N) (Leaf 3%N)).

Lemma sample_layout_wf : layout_wf sample_layout.
Proof. split; [by apply (bool_decide_unpack _); vm_compute|]. split; [reflexivity|]. by split. Qed.

Lemma layout_refines_order_witness :
  let order node := pane_order node [] in
  let rect := mkLayoutRect 0 0 80 24 in
  (replace_leaf_with_split sample_layout 2 Vertical f32_0_5 4).1
    = bool_decide (2%N ∈ order sample_layout) /\
  order (replace_leaf_with_split sample_layout 2 Vertical f32_0_5 4).2
    = insert_after 2 4 (order sample_layout) /\
  (remove_leaf sample_layout 2).1 = bool_decide (2%N ∈ order sample_layout) /\
  order (remove_leaf sample_layout 2).2
    = (if decide (order sample_layout = [2%N]) then [2%N] else without 2 (order sample_layout)) /\
  order (resize_focused sample_layout 2 Increase rect 4).2 = order sample_layout /\
  (2%N ∈ order sample_layout ->
   remove_leaf (replace_leaf_with_split sample_layout 2 Vertical f32_0_5 4).2 4
     = (true, sample_layout)).
Proof.
  apply (layout_refines_order sample_layout 2 4 Vertical f32_0_5 Increase).
  - apply sample_layout_wf.
  - by apply (bool_decide_unpack _); vm_compute.
  - unfold rect_u16. simpl. lia.
  - int_lia.
Defined.

(** C33: the layouts the runtime accepts are closed under its edits.  From a
    layout accepted by [collect_runtime_layout_pane_ids], with no pane twice and
    every ratio in [0.1, 0.9], a split with a fresh pane and a ratio in range, a
    removal, and a resize by any number of cells in any rectangle of [u16]
    coordinates give layouts that are accepted again, with the expected sets of
    panes; single-precision rounding never takes a ratio out of range or to a
    NaN. *)
Theorem edits_preserve_accepted_layouts (node : PaneLayoutNode) (ids : gset PaneId)
    (t n : PaneId) (d : PaneSplitDirection) (r : F32) (dir : PaneResizeDirection)
    (rect : LayoutRect) (cells : Z) :
  collect_runtime_layout_pane_ids node ∅ = Ok ids ->
  n ∉ ids -> ratio_ok r -> rect_u16 rect -> u16 cells ->
  collect_runtime_layout_pane_ids (replace_leaf_with_split node t d r n).2 ∅
    = Ok (if decide (t ∈ ids) then {[n]} ∪ ids else ids) /\
  collect_runtime_layout_pane_ids (remove_leaf node t).2 ∅
    = Ok (if decide (ids = {[t]}) then ids else ids ∖ {[t]}) /\
  collect_runtime_layout_pane_ids (resize_focused node t dir rect cells).2 ∅ = Ok ids /\
  (forall ratio, (resize_focused node t dir rect cells).1 = Some ratio -> ratio_ok ratio).
Proof.
  intros Hids Hn Hr Hrect Hc. apply collect_ids_spec in Hids as ([Hnd Hok] & _ & ->).
  rewrite union_empty_r_L in *. rewrite elem_of_list_to_set in Hn.
  destruct (replace_leaf_spec node t d r n) as (_ & Hl & _ & Hro).
  pose proof (remove_leaf_spec node t Hnd) as Hrem.
  destruct (remove_leaf node t) as [b node']. destruct Hrem as (_ & Hl' & Hro').
  destruct (resize_focused_keeps node t dir rect cells Hrect Hc) as [Hl2 Hro2].
  split_and!; [| | |intros; by apply Hro2]; apply collect_ids_spec.
  - split_and!; [split; [rewrite Hl; by apply NoDup_insert_after|tauto]|set_solver|].
    rewrite Hl. destruct (decide (t ∈ (list_to_set (leaves node) : gset PaneId))) as [Ht|Ht];
      rewrite elem_of_list_to_set in Ht.
    + apply set_eq. intros i. rewrite !elem_of_union, !elem_of_list_to_set, elem_of_insert_after by done.
      set_solver.
    + rewrite insert_after_not_in by done. set_solver.
  - simpl. pose proof (NoDup_singleton_set (leaves node) t Hnd) as Hone.
    split_and!; [|set_solver|].
    + split; [rewrite Hl'; case_decide; [apply NoDup_singleton|by apply NoDup_without]|tauto].
    + rewrite Hl'. destruct (decide (leaves node = [t])) as [E|E].
      * rewrite (decide_True (P := _ = _)) by tauto. rewrite E. set_solver.
      * rewrite (decide_False (P := _ = _)) by tauto. apply set_eq. intros i.
        rewrite elem_of_union, elem_of_difference, !elem_of_list_to_set, elem_of_without. set_solver.
  - split_and!; [split; [by rewrite Hl2|tauto]|set_solver|]. rewrite Hl2. set_solver.
Qed.

Lemma edits_preserve_accepted_layouts_witness :
  let ids : gset PaneId := {[1%N; 2%N; 3%N]} in
  let rect := mkLayoutRect 0 0 80 24 in
  collect_runtime_layout_pane_ids sample_layout ∅ = Ok ids /\
  collect_runtime_layout_pane_ids
      (replace_leaf_with_split sample_layout 2 Vertical f32_0_5 4).2 ∅
    = Ok (if decide (2%N ∈ ids) then {[4%N]} ∪ ids else ids) /\
  collect_runtime_layout_pane_ids (remove_leaf sample_layout 2).2 ∅
    = Ok (if decide (ids = {[2%N]}) then ids else ids ∖ {[2%N]}) /\
  collect_runtime_layout_pane_ids (resize_focused sample_layout 2 Increase rect 65535).2 ∅ = Ok ids /\
  (forall ratio, (resize_focused sample_layout 2 Increase rect 65535).1 = Some ratio ->
     ratio_ok ratio).
Proof.
  intros ids rect.
  assert (E : collect_runtime_layout_pane_ids sample_layout ∅ = Ok ids) by (vm_compute; reflexivity).
  split; [exact E|].
  apply (edits_preserve_accepted_layouts sample_layout ids 2 4 Vertical f32_0_5 Increase).
  - exact E.
  - by apply (bool_decide_unpack _); vm_compute.
  - exact ratio_ok_0_5.
  - unfold rect_u16. simpl. lia.
  - int_lia.
Defined.

(** ** Rectangles *)

(** The rectangle of a pane, by descending the tree. *)
Fixpoint pane_rect (node : PaneLayoutNode) (rect : LayoutRect) (i : PaneId) : option LayoutRect :=
  match node with
  | Leaf j => if decide (i = j) then Some rect else None
  | Split d ratio first second =>
      let '(first_rect, second_rect) := split_layout_rect rect ratio (is_vertical d) in
      match pane_rect first first_rect i with
      | Some r => Some r
      | None => pane_rect second second_rect i
      end
  end.

Lemma pane_rect_is_Some node rect i : is_Some (pane_rect node rect i) <-> i ∈ leaves node.
Proof.
  revert rect. induction node as [j|d r f IHf s IHs]; intros rect; simpl.
  - case_decide; set_solver.
  - destruct (split_layout_rect rect r (is_vertical d)) as [fr sr].
    rewrite elem_of_app, <- (IHf fr), <- (IHs sr). destruct (pane_rect f fr i) as [a|].
    + split; [intros _; left; by eexists|by eexists].
    + split; [tauto|]. intros [[? ?]|?]; done.
Qed.

Lemma collect_layout_rects_lookup node rect out i :
  NoDup (leaves node) ->
  collect_layout_rects node rect out !! i
    = match pane_rect node rect i with Some r => Some r | None => out !! i end.
Proof.
  revert rect out. induction node as [j|d r f IHf s IHs]; intros rect out Hnd; simpl.
  - destruct (decide (i = j)) as [->|]; [by rewrite lookup_insert_eq|by rewrite lookup_insert_ne].
  - apply NoDup_app in Hnd as (Hf & Hdisj & Hs).
    destruct (split_layout_rect rect r (is_vertical d)) as [fr sr]. rewrite IHs, IHf by done.
    destruct (pane_rect f fr i) as [a|] eqn:Ef, (pane_rect s sr i) as [b|] eqn:Es; try done.
    destruct (Hdisj i); [apply (pane_rect_is_Some f fr)|apply (pane_rect_is_Some s sr)]; by eexists.
Qed.

Definition cell_in (rect : LayoutRect) (cx cy : Z) : Prop :=
  x rect <= cx < x rect + w rect /\ y rect <= cy < y rect + h rect.

(** A rectangle with at least one cell, within [u16] coordinates. *)
Definition rect_valid (rect : LayoutRect) : Prop :=
  0 <= x rect /\ 0 <= y rect /\ 1 <= w rect <= 65535 /\ 1 <= h rect <= 65535 /\
  x rect + w rect <= 65536 /\ y rect + h rect <= 65536.

(** Every split has the two cells it needs along its direction. *)
Fixpoint roomy (node : PaneLayoutNode) (rect : LayoutRect) : bool :=
  match node with
  | Leaf _ => true
  | Split d ratio first second =>
      let '(first_rect, second_rect) := split_layout_rect rect ratio (is_vertical d) in
      bool_decide (2 <= (if is_vertical d then w rect else h rect)) &&
      roomy first first_rect && roomy second second_rect
  end.

Lemma split_extent extent start r :
  2 <= extent <= 65535 -> 0 <= start -> start + extent <= 65536 ->
  1 <= first_extent extent r <= extent - 1 /\
  second_extent extent (first_extent extent r) = extent - first_extent extent r /\
  saturating_add 16 start (first_extent extent r) = start + first_extent extent r.
Proof.
  intros He Hs Hse. pose proof (first_extent_range extent r ltac:(lia)) as Hf.
  revert Hf. generalize (first_extent extent r). intros a Ha. unfold second_extent.
  split_and!; int_lia.
Qed.

(** A roomy split cuts the rectangle in two. *)
Lemma split_layout_rect_cuts rect ratio (vertical : bool) :
  rect_valid rect -> 2 <= (if vertical then w rect else h rect) ->
  let '(fr, sr) := split_layout_rect rect ratio vertical in
  rect_valid fr /\ rect_valid sr /\
  (forall cx cy, cell_in rect cx cy <-> cell_in fr cx cy \/ cell_in sr cx cy) /\
  (forall cx cy, cell_in fr cx cy -> cell_in sr cx cy -> False).
Proof.
  intros (Hx & Hy & Hw & Hh & Hxw & Hyh) H2. unfold split_layout_rect.
  set (r := f32_clamp ratio _ _). destruct vertical.
  - destruct (split_extent (w rect) (x rect) r) as (Ha & -> & ->); [lia|lia|lia|].
    revert Ha. generalize (first_extent (w rect) r). intros a Ha. clear r.
    unfold rect_valid, cell_in. simpl. split_and!; intros; lia.
  - destruct (split_extent (h rect) (y rect) r) as (Ha & -> & ->); [lia|lia|lia|].
    revert Ha. generalize (first_extent (h rect) r). intros a Ha. clear r.
    unfold rect_valid, cell_in. simpl. split_and!; intros; lia.
Qed.

(** What a layout makes of a rectangle: its panes' rectangles lie inside and no
    cell is in none or two of them. *)
Definition tiled (node : PaneLayoutNode) (rect : LayoutRect) : Prop :=
  (forall i r, pane_rect node rect i = Some r ->
     rect_valid r /\ forall cx cy, cell_in r cx cy -> cell_in rect cx cy) /\
  (forall cx cy, cell_in rect cx cy ->
     exists i r, pane_rect node rect i = Some r /\ cell_in r cx cy) /\
  (forall i j r r' cx cy,
     pane_rect node rect i = Some r -> pane_rect node rect j = Some r' ->
     cell_in r cx cy -> cell_in r' cx cy -> i = j).

Lemma pane_rect_tiles node rect :
  NoDup (leaves node) -> rect_valid rect -> roomy node rect = true -> tiled node rect.
Proof.
  unfold tiled. revert rect.
  induction node as [k|d ratio f IHf s IHs]; intros rect Hnd Hv Hroom; simpl in *.
  { split_and!.
    - intros i r. destruct (decide (i = k)); [|done]. by intros [= <-].
    - intros cx cy Hc. exists k, rect. by rewrite decide_True.
    - intros i j r r' cx cy. destruct (decide (i = k)), (decide (j = k)); congruence. }
  apply NoDup_app in Hnd as (Hnf & Hfs & Hns).
  pose proof (split_layout_rect_cuts rect ratio (is_vertical d) Hv) as Hcut.
  destruct (split_layout_rect rect ratio (is_vertical d)) as [fr sr].
  apply andb_prop in Hroom as [Hroom Hrs]. apply andb_prop in Hroom as [H2 Hrf].
  apply bool_decide_eq_true in H2. destruct (Hcut H2) as (Hfv & Hsv & Hcover & Hdisj).
  destruct (IHf fr Hnf Hfv Hrf) as (Hf1 & Hf2 & Hf3), (IHs sr Hns Hsv Hrs) as (Hs1 & Hs2 & Hs3).
  assert (Hcase : forall i r,
    match pane_rect f fr i with Some r => Some r | None => pane_rect s sr i end = Some r <->
    pane_rect f fr i = Some r \/ pane_rect s sr i = Some r).
  { intros i r. destruct (pane_rect f fr i) as [a|] eqn:Ef.
    2: { split; [by right|by intros [?|?]]. }
    destruct (pane_rect s sr i) as [b|] eqn:Es; [|split; [by left|by intros [?|?]]].
    destruct (Hfs i); [apply (pane_rect_is_Some f fr)|apply (pane_rect_is_Some s sr)]; by eexists. }
  split_and!.
  - intros i r [E|E]%Hcase; [destruct (Hf1 i r E)|destruct (Hs1 i r E)]; (split; [done|]);
      intros; apply Hcover; auto.
  - intros cx cy [Hc|Hc]%Hcover; [destruct (Hf2 cx cy Hc) as (i & r & E & Hr)
      |destruct (Hs2 cx cy Hc) as (i & r & E & Hr)]; exists i, r; (split; [apply Hcase; auto|done]).
  - intros i j r r' cx cy [Ei|Ei]%Hcase [Ej|Ej]%Hcase Hr Hr';
      [by eapply Hf3| | |by eapply Hs3]; exfalso; apply (Hdisj cx cy).
    + by apply (Hf1 i r Ei).
    + by apply (Hs1 j r' Ej).
    + by apply (Hf1 j r' Ej).
    + by apply (Hs1 i r Ei).
Qed.

(** Whatever the sizes, no pane gets an empty rectangle. *)
Lemma pane_rect_nonempty node rect i r :
  1 <= w rect <= 65535 -> 1 <= h rect <= 65535 -> pane_rect node rect i = Some r ->
  1 <= w r <= 65535 /\ 1 <= h r <= 65535.
Proof.
  revert rect. induction node as [k|d ratio f IHf s IHs]; intros rect Hw Hh; simpl.
  { destruct (decide (i = k)); [|done]. by intros [= <-]. }
  assert (Hsplit : let '(fr, sr) := split_layout_rect rect ratio (is_vertical d) in
    (1 <= w fr <= 65535 /\ 1 <= h fr <= 65535) /\ (1 <= w sr <= 65535 /\ 1 <= h sr <= 65535)).
  { unfold split_layout_rect. set (q := f32_clamp ratio _ _).
    pose proof (first_extent_range (w rect) q). pose proof (first_extent_range (h rect) q).
    destruct (is_vertical d); unfold second_extent; simpl; int_lia. }
  destruct (split_layout_rect rect ratio (is_vertical d)) as [fr sr].
  destruct Hsplit as [[] []]. destruct (pane_rect f fr i) as [a|] eqn:E; [|by apply IHs].
  intros [= <-]. by apply (IHf fr).
Qed.

Lemma normalize_axis_insets_spec extent leading trailing :
  1 <= extent -> 0 <= leading -> 0 <= trailing ->
  let '(l, t) := normalize_axis_insets extent leading trailing in
  0 <= l /\ 0 <= t /\ l + t <= extent - 1.
Proof. intros. unfold normalize_axis_insets, saturating_sub. lia. Qed.

Lemma scene_root_inside c ro t ri b l :
  u16 c -> u16 ro -> u16 t -> u16 ri -> u16 b -> u16 l ->
  let v := normalized c ro t ri b l in
  let root := scene_root_from_viewport (Some v) in
  rect_valid root /\ x root + w root <= cols v /\ y root + h root <= rows v.
Proof.
  unfold in_u. change (2 ^ 16) with 65536. intros Hc Hr Ht Hri Hb Hl. unfold normalized.
  assert (Hc' : 1 <= Z.max c 1 <= 65535) by lia. assert (Hr' : 2 <= Z.max ro 2 <= 65535) by lia.
  pose proof (normalize_axis_insets_spec (Z.max ro 2) t b) as Hv.
  pose proof (normalize_axis_insets_spec (Z.max c 1) l ri) as Hh.
  destruct (normalize_axis_insets (Z.max ro 2) t b) as [t' b'].
  destruct (normalize_axis_insets (Z.max c 1) l ri) as [l' ri'].
  destruct Hv as (? & ? & ?); [lia..|]. destruct Hh as (? & ? & ?); [lia..|].
  unfold scene_root_from_viewport, content_region, rect_valid, saturating_sub, saturating_add, max_u.
  change (2 ^ 16) with 65536. simpl. lia.
Qed.

(** C25: the panes of an accepted layout partition the viewport.  The content
    region of a normalised viewport is non-empty and on the screen; when every
    split has two cells to divide, each of its cells lies in the rectangle of
    exactly one pane, and each pane's rectangle is non-empty and inside it.  With
    less room the rectangles still have at least one cell each. *)
Theorem layout_tiles_viewport (node : PaneLayoutNode) (ids : gset PaneId) (c ro t ri b l : Z) :
  collect_runtime_layout_pane_ids node ∅ = Ok ids ->
  u16 c -> u16 ro -> u16 t -> u16 ri -> u16 b -> u16 l ->
  let v := normalized c ro t ri b l in
  let root := scene_root_from_viewport (Some v) in
  let rects := collect_layout_rects node root ∅ in
  dom rects = ids /\
  (forall i r, rects !! i = Some r -> 1 <= w r /\ 1 <= h r) /\
  (roomy node root = true ->
   (forall i r cx cy, rects !! i = Some r -> cell_in r cx cy ->
      cell_in root cx cy /\ 0 <= cx < cols v /\ 0 <= cy < rows v) /\
   (forall cx cy, cell_in root cx cy ->
      exists! i, exists r, rects !! i = Some r /\ cell_in r cx cy)).
Proof.
  intros Hids Hc Hro Ht Hri Hb Hl v root rects.
  apply collect_ids_spec in Hids as ([Hnd _] & _ & ->).
  assert (Hinside : rect_valid root /\ x root + w root <= cols v /\ y root + h root <= rows v)
    by exact (scene_root_inside c ro t ri b l Hc Hro Ht Hri Hb Hl).
  destruct Hinside as (Hv & Hxw & Hyh).
  assert (Hlook : forall i, rects !! i = pane_rect node root i).
  { intros i. unfold rects. rewrite collect_layout_rects_lookup by done.
    by destruct (pane_rect node root i). }
  clearbody rects root v. split_and!.
  - apply set_eq. intros i. rewrite elem_of_dom, Hlook, pane_rect_is_Some.
    rewrite elem_of_union, elem_of_list_to_set. set_solver.
  - intros i r. rewrite Hlook. intros E. destruct Hv as (_ & _ & Hw & Hh & _).
    destruct (pane_rect_nonempty _ _ _ _ Hw Hh E). lia.
  - intros Hroom. destruct (pane_rect_tiles node root Hnd Hv Hroom) as (Hin & Hcov & Huniq).
    split.
    + intros i r cx cy E Hcell. rewrite Hlook in E. apply (Hin i r E) in Hcell. split; [done|].
      clear - Hv Hxw Hyh Hcell. unfold cell_in, rect_valid in *. lia.
    + intros cx cy Hcell. destruct (Hcov cx cy Hcell) as (i & r & E & Hr).
      exists i. split; [exists r; by rewrite Hlook|]. intros j (r' & E' & Hr').
      rewrite Hlook in E'. by eapply Huniq.
Qed.

Lemma layout_tiles_viewport_witness :
  let ids : gset PaneId := {[1%N; 2%N; 3%N]} in
  let v := normalized 80 24 1 0 0 2 in
  let root := scene_root_from_viewport (Some v) in
  let rects := collect_layout_rects sample_layout root ∅ in
  roomy sample_layout root = true /\
  rects !! 3%N = Some (mkLayoutRect 41 13 39 11) /\
  dom rects = ids /\
  (forall i r, rects !! i = Some r -> 1 <= w r /\ 1 <= h r) /\
  (roomy sample_layout root = true ->
   (forall i r cx cy, rects !! i = Some r -> cell_in r cx cy ->
      cell_in root cx cy /\ 0 <= cx < cols v /\ 0 <= cy < rows v) /\
   (forall cx cy, cell_in root cx cy ->
      exists! i, exists r, rects !! i = Some r /\ cell_in r cx cy)).
Proof.
  intros ids v root rects. split; [vm_compute; reflexivity|]. split; [vm_compute; reflexivity|].
  apply (layout_tiles_viewport sample_layout ids 80 24 1 0 0 2); try int_lia.
  vm_compute. reflexivity.
Defined.

(** ** The next focus *)

Lemma key_lt_false_trans a b c :
  key_lt b a = false -> key_lt c b = false -> key_lt c a = false.
Proof.
  destruct a as [[a1 a2] a3], b as [[b1 b2] b3], c as [[c1 c2] c3]. unfold key_lt.
  intros H1 H2.
  destruct (Z.ltb_spec b1 a1), (Z.eqb_spec b1 a1), (Z.ltb_spec b2 a2), (Z.eqb_spec b2 a2),
    (Z.ltb_spec b3 a3); simpl in H1; try discriminate H1;
  destruct (Z.ltb_spec c1 b1), (Z.eqb_spec c1 b1), (Z.ltb_spec c2 b2), (Z.eqb_spec c2 b2),
    (Z.ltb_spec c3 b3); simpl in H2; try discriminate H2;
  destruct (Z.ltb_spec c1 a1), (Z.eqb_spec c1 a1), (Z.ltb_spec c2 a2), (Z.eqb_spec c2 a2),
    (Z.ltb_spec c3 a3); simpl; try reflexivity; lia.
Qed.

Lemma key_lt_asym a b : key_lt a b = true -> key_lt b a = false.
Proof.
  destruct a as [[a1 a2] a3], b as [[b1 b2] b3]. unfold key_lt. intros H.
  destruct (Z.ltb_spec a1 b1), (Z.eqb_spec a1 b1), (Z.ltb_spec a2 b2), (Z.eqb_spec a2 b2),
    (Z.ltb_spec a3 b3); simpl in H; try discriminate H;
  destruct (Z.ltb_spec b1 a1), (Z.eqb_spec b1 a1), (Z.ltb_spec b2 a2), (Z.eqb_spec b2 a2),
    (Z.ltb_spec b3 a3); simpl; try reflexivity; lia.
Qed.

Lemma min_by_key_spec {A} (key : A -> Z * Z * Z) l :
  match min_by_key key l with
  | None => l = []
  | Some a => a ∈ l /\ forall b, b ∈ l -> key_lt (key b) (key a) = false
  end.
Proof.
  induction l as [|a l IH]; simpl; [done|].
  destruct (min_by_key key l) as [b|]; [|subst].
  - destruct IH as [Hb Hmin]. destruct (key_lt (key b) (key a)) eqn:E.
    + split; [by right|]. intros c [->|Hc]%elem_of_cons; [by apply key_lt_asym|by apply Hmin].
    + split; [by left|]. intros c [->|Hc]%elem_of_cons.
      * destruct (key_lt (key a) (key a)) eqn:Ea; [|done]. by rewrite (key_lt_asym _ _ Ea) in Ea.
      * eapply key_lt_false_trans; [done|by apply Hmin].
  - split; [by left|]. intros c Hc. apply list_elem_of_singleton in Hc as ->.
    destruct (key_lt (key a) (key a)) eqn:Ea; [|done]. by rewrite (key_lt_asym _ _ Ea) in Ea.
Qed.

Lemma key_lt_first a1 a2 a3 b1 b2 b3 :
  key_lt (a1, a2, a3) (b1, b2, b3) = false -> b1 <= a1.
Proof. unfold key_lt. destruct (Z.ltb_spec a1 b1); [discriminate|lia]. Qed.

Lemma elem_of_rect_entries rects i r : (i, r) ∈ rect_entries rects <-> rects !! i = Some r.
Proof.
  unfold rect_entries. rewrite list_elem_of_omap. split.
  - intros (k & _ & Hk). destruct (rects !! k) eqn:E; naive_solver.
  - intros E. exists i. rewrite E. split; [|done]. apply elem_of_sorted_keys. by eexists.
Qed.

Lemma layout_order_fallback_elem order t p :
  layout_order_fallback_after_close order t = Some p -> p ∈ order /\ p <> t.
Proof.
  unfold layout_order_fallback_after_close. destruct (position t order) as [n|]; [|done].
  fold (without t order) (without t (take n order)).
  destruct (without t order !! n) as [q|] eqn:E.
  - intros [= ->]. apply elem_of_without. by eapply list_elem_of_lookup_2.
  - intros Hl. apply last_Some in Hl as [l Hl].
    assert (Hp : p ∈ without t (take n order)) by (rewrite Hl; set_solver).
    apply elem_of_without in Hp as [Hp Hpt]. split; [|done]. apply elem_of_take in Hp as (k & Hk & _). by eapply list_elem_of_lookup_2.
Qed.

Lemma next_focus_remaining node focused t viewport p :
  NoDup (leaves node) -> next_focus_after_close node focused t viewport = Some p ->
  p ∈ leaves node /\ p <> t.
Proof.
  intros Hnd. unfold next_focus_after_close. rewrite pane_order_leaves. simpl.
  case_bool_decide; [|done]. simpl.
  destruct (bool_decide (focused <> t) && bool_decide (focused ∈ leaves node)) eqn:E.
  { apply andb_true_iff in E as [E1 E2]. apply bool_decide_eq_true in E1, E2. by intros [= <-]. }
  destruct (collect_layout_rects _ _ _ !! t) as [rt|]; [|done].
  match goal with |- context [min_by_key ?k ?l] => pose proof (min_by_key_spec k l) as Hmin end.
  destruct (min_by_key _ _) as [[q r]|]; [|apply layout_order_fallback_elem].
  intros [= ->]. destruct Hmin as [Hq _].
  apply list_elem_of_In, filter_In in Hq as [Hq Hqt]. apply list_elem_of_In in Hq.
  apply bool_decide_eq_true in Hqt. split; [|done]. apply elem_of_rect_entries in Hq.
  rewrite collect_layout_rects_lookup in Hq by done.
  apply (pane_rect_is_Some node (scene_root_from_viewport viewport)).
  destruct (pane_rect node _ p); [by eexists|done].
Qed.

(** C34: closing a pane moves the focus to a pane that remains and is nearest.
    The focused pane keeps the focus when it is another tiled pane; otherwise, if
    any other pane is left, the new focus is one whose rectangle's centre is at
    the least distance from the closed pane's among all panes left; there is none
    exactly when the closed pane is the only one or not in the layout. *)
Theorem next_focus_is_nearest (node : PaneLayoutNode) (focused t : PaneId)
    (viewport : option AttachViewport) :
  NoDup (leaves node) ->
  let order := pane_order node [] in
  let rects := collect_layout_rects node (scene_root_from_viewport viewport) ∅ in
  match next_focus_after_close node focused t viewport with
  | None => t ∉ order \/ order = [t]
  | Some p => t ∈ order /\ p ∈ order /\ p <> t /\
      (focused <> t -> focused ∈ order -> p = focused) /\
      (focused = t \/ focused ∉ order ->
       forall q, q ∈ order -> q <> t -> exists rt rp rq,
         rects !! t = Some rt /\ rects !! p = Some rp /\ rects !! q = Some rq /\
         rect_center_distance rt rp <= rect_center_distance rt rq)
  end.
Proof.
  intros Hnd order rects.
  assert (Horder : order = leaves node) by (unfold order; by rewrite pane_order_leaves).
  assert (Hlook : forall i, is_Some (rects !! i) <-> i ∈ order).
  { intros i. unfold rects. rewrite collect_layout_rects_lookup, Horder by done.
    rewrite <- (pane_rect_is_Some node (scene_root_from_viewport viewport)).
    by destruct (pane_rect node _ i). }
  unfold next_focus_after_close. fold order rects. clearbody rects.
  destruct (decide (t ∈ order)) as [Ht|Ht].
  2: { rewrite bool_decide_eq_false_2 by done. by left. }
  rewrite bool_decide_eq_true_2 by done. simpl.
  destruct (decide (focused <> t /\ focused ∈ order)) as [[Hf Hin]|Hf].
  { rewrite !bool_decide_eq_true_2 by done. simpl. split_and!; try done. intros [?|?]; done. }
  assert (bool_decide (focused <> t) && bool_decide (focused ∈ order) = false) as ->.
  { apply andb_false_iff. rewrite !bool_decide_eq_false. destruct (decide (focused = t)); tauto. }
  destruct (proj2 (Hlook t) Ht) as [rt Ert]. rewrite Ert.
  set (entries := List.filter _ _).
  assert (Hent : forall i r, (i, r) ∈ entries <-> rects !! i = Some r /\ i <> t).
  { intros i r. unfold entries. rewrite list_elem_of_In, filter_In, <- list_elem_of_In.
    by rewrite elem_of_rect_entries, bool_decide_eq_true. }
  pose proof (min_by_key_spec (focus_key order rt (Z.of_nat (default 0%nat (position t order)))) entries)
    as Hmin.
  destruct (min_by_key _ entries) as [[p rp]|].
  - destruct Hmin as [Hp Hmin]. apply Hent in Hp as [Ep Hpt]. simpl.
    split_and!; [done|apply Hlook; by eexists|done|tauto|].
    intros _ q Hq Hqt. destruct (proj2 (Hlook q) Hq) as [rq Eq]. exists rt, rp, rq.
    split_and!; try done. eapply key_lt_first, (Hmin (q, rq)). by apply Hent.
  - assert (order = [t]) as E.
    { rewrite Horder in *. apply NoDup_singleton_set; [done|]. apply set_eq. intros i.
      rewrite elem_of_list_to_set, elem_of_singleton. split; [|by intros ->].
      intros Hi. destruct (decide (i = t)) as [|Hit]; [done|].
      destruct (proj2 (Hlook i) Hi) as [r Er].
      assert (Hr : (i, r) ∈ entries) by (by apply Hent). rewrite Hmin in Hr. by apply elem_of_nil in Hr. }
    unfold layout_order_fallback_after_close. rewrite E. simpl.
    rewrite decide_True by done. simpl. rewrite bool_decide_eq_false_2 by tauto. simpl. by right.
Qed.

Lemma next_focus_is_nearest_witness :
  let order := pane_order sample_layout [] in
  let viewport := Some (normalized 80 24 0 0 0 0) in
  let rects := collect_layout_rects sample_layout (scene_root_from_viewport viewport) ∅ in
  next_focus_after_close sample_layout 2 2 viewport = Some 3%N /\
  match next_focus_after_close sample_layout 2 2 viewport with
  | None => 2%N ∉ order \/ order = [2%N]
  | Some p => 2%N ∈ order /\ p ∈ order /\ p <> 2%N /\
      (2%N <> 2%N -> 2%N ∈ order -> p = 2%N) /\
      (2%N = 2%N \/ 2%N ∉ order ->
       forall q, q ∈ order -> q <> 2%N -> exists rt rp rq,
         rects !! 2%N = Some rt /\ rects !! p = Some rp /\ rects !! q = Some rq /\
         rect_center_distance rt rp <= rect_center_distance rt rq)
  end.
Proof.
  intros order viewport rects. split; [vm_compute; reflexivity|].
  apply (next_focus_is_nearest sample_layout 2 2 viewport). apply sample_layout_wf.
Defined.
