(* ===== verification/SessionRuntime.v ===== *)
(** * Session runtimes: panes, layout, focus, zoom and floating panes

    The session runtime manager of plugins/pane-runtime-plugin/src/runtime.rs: per
    session the panes, the layout tree of the tiled ones ([PaneLayout.v]), the
    floating surfaces, the focused and the zoomed pane and the viewport, with the
    operations that change them.  Of a pane's handle only its exited flag matters
    here; spawning processes, input routing and terminal sizes are not part of the
    state.  Fresh identifiers are arguments.  An operation returns its result and
    the state it leaves, which a failing operation may have changed. *)

From Stdlib Require Import SpecFloat.
From S2P Require Import Prelude Float32 PaneLayout.

Open Scope bmux_scope.

Notation SessionId := N (only parsing).

Inductive FloatingPaneScope : Set := PerPane | PerWindow | PerSession | ClientGlobal | ServerGlobal.

#[export] Instance FloatingPaneScope_eq_dec : EqDecision FloatingPaneScope.
Proof. solve_decision. Defined.

Inductive FloatingPaneLayer : Set := PaneLayer | OverlayLayer | FloatingLayer | TooltipLayer.

(** [to_attach_layer], by the order of [AttachLayer]. *)
Definition to_attach_layer (layer : FloatingPaneLayer) : Z :=
  match layer with PaneLayer => 0 | OverlayLayer => 1 | FloatingLayer => 2 | TooltipLayer => 3 end.

Record FloatingSurfaceRuntime := mkSurface {
  surface_id : N;
  pane_id : PaneId;
  anchor_pane_id : option PaneId;
  context_id : option N;
  client_id : option N;
  rect : LayoutRect;
  scope : FloatingPaneScope;
  layer : FloatingPaneLayer;
  z : Z;
  visible : bool;
  opaque : bool;
  accepts_input : bool;
  cursor_owner : bool
}.

Record PaneRuntimeHandle := mkPaneHandle { exited : bool }.

Record SessionRuntimeHandle := mkSession {
  panes : gmap PaneId PaneRuntimeHandle;
  layout_root : option PaneLayoutNode;
  focused_pane_id : PaneId;
  zoomed_pane_id : option PaneId;
  floating_surfaces : list FloatingSurfaceRuntime;
  attached_clients : gset N;
  attach_viewport : option AttachViewport
}.

Notation Manager := (gmap SessionId SessionRuntimeHandle) (only parsing).

Inductive PaneSelector := ById (id : PaneId) | ByIndex (index : Z) | Active.
Inductive PaneFocusDirection : Set := Next | Prev.

Inductive RuntimeError :=
| RuntimeNotFound
| RuntimeExists
| TargetPaneNotFound
| SplitFailed
| SplitLayoutUnavailable
| TargetExited
| TargetChanged
| StartupUnavailable
| ProducerBudgetExhausted
| InvalidShellOptions
| NoPanesInSession
| FinalPane
| FloatingPaneNotFound
| RestoreWithoutPanes
| FocusedPaneMissing
| LayoutRefused (e : LayoutError)
| LayoutMismatch
| NotAttached
| NotAdmitted
| LaunchRejected
| PublicationFailed.

(** ** Reading a session *)

Definition has_pane (s : SessionRuntimeHandle) (i : PaneId) : bool :=
  bool_decide (is_Some (panes s !! i)).

Definition floating_pane_ids (s : SessionRuntimeHandle) : gset PaneId :=
  list_to_set (pane_id <$> floating_surfaces s).

Definition tiled_pane_ids (s : SessionRuntimeHandle) : gset PaneId :=
  dom (panes s) ∖ floating_pane_ids s.

Definition ordered_tiled_pane_ids (s : SessionRuntimeHandle) : list PaneId :=
  match layout_root s with Some root => pane_order root [] | None => [] end.

Definition ordered_pane_ids (s : SessionRuntimeHandle) : list PaneId :=
  fold_left (fun pane_ids surface =>
      if has_pane s (pane_id surface) && negb (bool_decide (pane_id surface ∈ pane_ids))
      then pane_ids ++ [pane_id surface] else pane_ids)
    (floating_surfaces s) (ordered_tiled_pane_ids s).

Definition validate_runtime_layout_matches_panes (s : SessionRuntimeHandle)
  : result RuntimeError unit :=
  let pane_ids := tiled_pane_ids s in
  match (match layout_root s with
         | Some root => collect_runtime_layout_pane_ids root ∅
         | None => Ok ∅
         end) with
  | Err e => Err (LayoutRefused e)
  | Ok layout_ids => if decide (pane_ids <> layout_ids) then Err LayoutMismatch else Ok tt
  end.

Definition resolve_pane_id_from_selector (s : SessionRuntimeHandle) (selector : PaneSelector)
  : option PaneId :=
  match selector with
  | Active => if has_pane s (focused_pane_id s) then Some (focused_pane_id s) else None
  | ById i => if has_pane s i then Some i else None
  | ByIndex index =>
      if decide (index = 0) then None
      else
        match ordered_pane_ids s !! Z.to_nat (saturating_sub index 1) with
        | Some i => if has_pane s i then Some i else None
        | None => None
        end
  end.

Definition runtime_pane_is_live (s : SessionRuntimeHandle) (i : PaneId) : bool :=
  match panes s !! i with Some pane => negb (exited pane) | None => false end.

(** [iter().enumerate().max_by_key(...)]: the last of the largest keys. *)
Fixpoint max_by_key {A} (key : A -> Z * Z * Z) (l : list A) : option A :=
  match l with
  | [] => None
  | a :: l =>
      match max_by_key key l with
      | None => Some a
      | Some b => if key_lt (key b) (key a) then Some a else Some b
      end
  end.

Definition next_live_focus_after_exit (s : SessionRuntimeHandle) (exited_pane_id : PaneId)
  : option PaneId :=
  let candidates := List.filter (fun e =>
      bool_decide (pane_id e.2 <> exited_pane_id) && visible e.2 && accepts_input e.2 &&
      runtime_pane_is_live s (pane_id e.2)) (imap pair (floating_surfaces s)) in
  let live i := bool_decide (i <> exited_pane_id) && runtime_pane_is_live s i in
  match max_by_key (fun e => (to_attach_layer (layer e.2), z e.2, Z.of_nat e.1)) candidates with
  | Some e => Some (pane_id e.2)
  | None =>
      match List.find live (ordered_tiled_pane_ids s) with
      | Some i => Some i
      | None => List.find live (sorted_keys (panes s))
      end
  end.

Definition floating_surface_visible_for_attach (owner_session_id attach_session_id : SessionId)
    (s : SessionRuntimeHandle) (surface : FloatingSurfaceRuntime) (client : N)
    (context : option N) : bool :=
  has_pane s (pane_id surface) &&
  match scope surface with
  | PerPane =>
      bool_decide (owner_session_id = attach_session_id) &&
      match anchor_pane_id surface with Some anchor => has_pane s anchor | None => false end
  | PerWindow =>
      bool_decide (owner_session_id = attach_session_id) &&
      (bool_decide (context_id surface = None) || bool_decide (context_id surface = context))
  | PerSession => bool_decide (owner_session_id = attach_session_id)
  | ClientGlobal =>
      match client_id surface with None => true | Some owner => bool_decide (owner = client) end
  | ServerGlobal => true
  end.

(** ** Updating a session *)

Definition set_focus (s : SessionRuntimeHandle) (i : PaneId) : SessionRuntimeHandle :=
  mkSession (panes s) (layout_root s) i (zoomed_pane_id s) (floating_surfaces s)
    (attached_clients s) (attach_viewport s).

Definition set_zoom (s : SessionRuntimeHandle) (i : option PaneId) : SessionRuntimeHandle :=
  mkSession (panes s) (layout_root s) (focused_pane_id s) i (floating_surfaces s)
    (attached_clients s) (attach_viewport s).

Definition set_layout (s : SessionRuntimeHandle) (root : option PaneLayoutNode)
  : SessionRuntimeHandle :=
  mkSession (panes s) root (focused_pane_id s) (zoomed_pane_id s) (floating_surfaces s)
    (attached_clients s) (attach_viewport s).

Definition set_panes (s : SessionRuntimeHandle) (p : gmap PaneId PaneRuntimeHandle)
  : SessionRuntimeHandle :=
  mkSession p (layout_root s) (focused_pane_id s) (zoomed_pane_id s) (floating_surfaces s)
    (attached_clients s) (attach_viewport s).

Definition set_surfaces (s : SessionRuntimeHandle) (f : list FloatingSurfaceRuntime)
  : SessionRuntimeHandle :=
  mkSession (panes s) (layout_root s) (focused_pane_id s) (zoomed_pane_id s) f
    (attached_clients s) (attach_viewport s).

Definition set_viewport (s : SessionRuntimeHandle) (v : option AttachViewport)
  : SessionRuntimeHandle :=
  mkSession (panes s) (layout_root s) (focused_pane_id s) (zoomed_pane_id s)
    (floating_surfaces s) (attached_clients s) v.

Definition set_cursor_owner (surface : FloatingSurfaceRuntime) (b : bool)
  : FloatingSurfaceRuntime :=
  mkSurface (surface_id surface) (pane_id surface) (anchor_pane_id surface) (context_id surface)
    (client_id surface) (rect surface) (scope surface) (layer surface) (z surface)
    (visible surface) (opaque surface) (accepts_input surface) b.

Definition live_pane : PaneRuntimeHandle := mkPaneHandle false.

(** The runtime of a fresh session with its first pane. *)
Definition fresh_runtime (first_pane_id : PaneId) : SessionRuntimeHandle :=
  mkSession {[first_pane_id := live_pane]} (Some (Leaf first_pane_id)) first_pane_id None [] ∅ None.

(** An operation on one session, [None] leaving it as it is. *)
Definition on_session {A} (m : Manager) (sid : SessionId)
    (f : SessionRuntimeHandle -> result RuntimeError A * SessionRuntimeHandle)
  : result RuntimeError A * Manager :=
  match m !! sid with
  | None => (Err RuntimeNotFound, m)
  | Some s => let '(r, s) := f s in (r, <[sid := s]> m)
  end.

(** ** Splits *)

Definition create_split_pane (m : Manager) (sid : SessionId) (target : option PaneSelector)
    (direction : PaneSplitDirection) (options_ok producers_ok : bool) (fresh : PaneId)
  : result RuntimeError PaneId * Manager :=
  if negb options_ok then (Err InvalidShellOptions, m)
  else on_session m sid (fun s =>
    match resolve_pane_id_from_selector s (default Active target) with
    | None => (Err TargetPaneNotFound, s)
    | Some target_pane_id =>
        let next_layout :=
          match layout_root s with
          | Some layout =>
              let '(replaced, layout) :=
                replace_leaf_with_split layout target_pane_id direction f32_0_5 fresh in
              if replaced then Some layout else None
          | None => Some (Leaf fresh)
          end in
        match next_layout with
        | None => (Err SplitFailed, s)
        | Some layout =>
            if negb producers_ok then (Err ProducerBudgetExhausted, s)
            else
              let s := set_panes s (<[fresh := live_pane]> (panes s)) in
              let s := set_layout s (Some layout) in
              (Ok fresh, set_focus (set_zoom s None) fresh)
        end
    end).

(** The commit of a prepared split: the target must still run the same execution
    and the prepared pane must have started. *)
Definition commit_split (m : Manager) (sid : SessionId) (target : PaneId)
    (direction : PaneSplitDirection) (ratio : F32) (unchanged started producers_ok : bool)
    (fresh : PaneId) : result RuntimeError PaneId * Manager :=
  on_session m sid (fun s =>
    match panes s !! target with
    | None => (Err TargetPaneNotFound, s)
    | Some source =>
        if exited source then (Err TargetExited, s)
        else if negb unchanged then (Err TargetChanged, s)
        else if negb started then (Err StartupUnavailable, s)
        else
          match layout_root s with
          | None => (Err SplitLayoutUnavailable, s)
          | Some layout =>
              let '(replaced, layout) := replace_leaf_with_split layout target direction ratio fresh in
              if negb replaced then (Err SplitFailed, s)
              else if negb producers_ok then (Err ProducerBudgetExhausted, s)
              else
                let s := set_panes s (<[fresh := live_pane]> (panes s)) in
                let s := set_layout s (Some layout) in
                (Ok fresh, set_focus (set_zoom s None) fresh)
          end
    end).

(** ** Focus and zoom *)

(** [pane_ids[next_index]] is in range: the list is not empty and the index is
    below its length. *)
Definition focus_pane (m : Manager) (sid : SessionId) (direction : PaneFocusDirection)
  : result RuntimeError PaneId * Manager :=
  on_session m sid (fun s =>
    let was_zoomed := bool_decide (is_Some (zoomed_pane_id s)) in
    let pane_ids := ordered_pane_ids s in
    let len := zlen pane_ids in
    let current_index := Z.of_nat (default O (position (focused_pane_id s) pane_ids)) in
    let next_index :=
      match direction with
      | Next => (current_index + 1) mod len
      | Prev => if decide (current_index = 0) then len - 1 else current_index - 1
      end in
    if decide (pane_ids = []) then (Err NoPanesInSession, s)
    else
      let i := nth (Z.to_nat next_index) pane_ids (focused_pane_id s) in
      let s := set_focus s i in
      (Ok i, if was_zoomed then set_zoom s (Some i) else s)).

Definition focus_pane_target (m : Manager) (sid : SessionId) (target : PaneSelector)
  : result RuntimeError PaneId * Manager :=
  on_session m sid (fun s =>
    let was_zoomed := bool_decide (is_Some (zoomed_pane_id s)) in
    match resolve_pane_id_from_selector s target with
    | None => (Err TargetPaneNotFound, s)
    | Some i =>
        let s := set_focus s i in
        (Ok i, if was_zoomed then set_zoom s (Some i) else s)
    end).

Definition toggle_zoom (m : Manager) (sid : SessionId)
  : result RuntimeError (PaneId * bool) * Manager :=
  on_session m sid (fun s =>
    let focused := focused_pane_id s in
    match zoomed_pane_id s with
    | Some _ => (Ok (focused, false), set_zoom s None)
    | None =>
        if decide (zlen (ordered_tiled_pane_ids s) < 2) then (Ok (focused, false), s)
        else (Ok (focused, true), set_zoom s (Some focused))
    end).

(** ** Closing, restarting and resizing *)

(** The surfaces anchored to a pane, other than its own. *)
Definition anchored (s : SessionRuntimeHandle) (i : PaneId) : list FloatingSurfaceRuntime :=
  List.filter (fun surface => bool_decide (anchor_pane_id surface = Some i) &&
                              bool_decide (pane_id surface <> i)) (floating_surfaces s).

(** The part of [close_pane] after its checks: [i] is a pane of the session and
    not everything goes with it. *)
Definition close_panes (s : SessionRuntimeHandle) (i : PaneId) : SessionRuntimeHandle :=
  let next_focus :=
    match layout_root s with
    | Some root => next_focus_after_close root (focused_pane_id s) i (attach_viewport s)
    | None => None
    end in
  let anchored_floating_panes := pane_id <$> anchored s i in
  let panes' := foldr delete (delete i (panes s)) anchored_floating_panes in
  let surfaces := List.filter (fun surface => bool_decide (pane_id surface <> i) &&
                                negb (bool_decide (anchor_pane_id surface = Some i)))
                    (floating_surfaces s) in
  let root := (fun root => (remove_leaf root i).2) <$> layout_root s in
  let layout_ids := match root with Some root => pane_order root [] | None => [] end in
  let root := if existsb (fun j => negb (bool_decide (is_Some (panes' !! j)))) layout_ids
              then None else root in
  let s := set_layout (set_surfaces (set_panes s panes') surfaces) root in
  if bool_decide (focused_pane_id s = i) || negb (has_pane s (focused_pane_id s)) then
    match (match next_focus with Some j => Some j | None => head (ordered_pane_ids s) end) with
    | Some next_id => set_focus s next_id
    | None => s
    end
  else s.

Definition close_pane (m : Manager) (sid : SessionId) (target : option PaneSelector)
  : result RuntimeError PaneId * Manager :=
  on_session m sid (fun s =>
    let s := set_zoom s None in
    match resolve_pane_id_from_selector s (default Active target) with
    | None => (Err TargetPaneNotFound, s)
    | Some i =>
        if decide (Z.of_nat (size (panes s)) <= 1 + zlen (anchored s i)) then (Err FinalPane, s)
        else (Ok i, close_panes s i)
    end).

Definition restart_pane (m : Manager) (sid : SessionId) (target : option PaneSelector)
    (admitted : bool) : result RuntimeError PaneId * Manager :=
  if negb admitted then (Err NotAdmitted, m)
  else on_session m sid (fun s =>
    match resolve_pane_id_from_selector s (default Active target) with
    | None => (Err TargetPaneNotFound, s)
    | Some i => (Ok i, set_focus (set_panes s (<[i := live_pane]> (panes s))) i)
    end).

Definition resize_pane (m : Manager) (sid : SessionId) (target : option PaneSelector)
    (direction : PaneResizeDirection) (cells : Z) : result RuntimeError unit * Manager :=
  on_session m sid (fun s =>
    let s := set_zoom s None in
    match resolve_pane_id_from_selector s (default Active target) with
    | None => (Err TargetPaneNotFound, s)
    | Some i =>
        let root := scene_root_from_viewport (attach_viewport s) in
        (Ok tt, set_layout s
                  ((fun layout => (resize_focused layout i direction root (Z.max cells 1)).2)
                     <$> layout_root s))
    end).

Definition set_attach_viewport (m : Manager) (sid : SessionId) (client : N) (observer : bool)
    (cols rows top right bottom left : Z) : result RuntimeError AttachViewport * Manager :=
  if observer then (Err NotAttached, m)
  else on_session m sid (fun s =>
    if negb (bool_decide (client ∈ attached_clients s)) then (Err NotAttached, s)
    else
      let v := normalized cols rows top right bottom left in
      (Ok v, set_viewport s (Some v))).

(** ** Floating panes *)

(** [current_context] is the session's context in the context registry;
    [launch_ok] whether the command is well formed. *)
Definition create_floating_pane (m : Manager) (sid : SessionId) (target : option PaneSelector)
    (r : LayoutRect) (sc : FloatingPaneScope) (ly : FloatingPaneLayer) (depth : Z)
    (anchor context client current_context : option N) (admitted launch_ok : bool)
    (fresh fresh_surface : N) : result RuntimeError FloatingSurfaceRuntime * Manager :=
  if negb admitted then (Err NotAdmitted, m)
  else on_session m sid (fun s =>
    let target_pane_id := default (focused_pane_id s)
      (resolve_pane_id_from_selector s (default Active target)) in
    if negb launch_ok then (Err LaunchRejected, s)
    else
      let surface := mkSurface fresh_surface fresh
        (if decide (sc = PerPane) then Some (default target_pane_id anchor) else None)
        (if decide (sc = PerWindow)
         then match context with Some c => Some c | None => current_context end else None)
        (if decide (sc = ClientGlobal) then client else None)
        r sc ly depth true true true true in
      let s := set_panes s (<[fresh := live_pane]> (panes s)) in
      let s := set_surfaces s
        (((fun f => set_cursor_owner f false) <$> floating_surfaces s) ++ [surface]) in
      (Ok surface, set_focus s fresh)).

Definition has_surface (s : SessionRuntimeHandle) (i : PaneId) : bool :=
  existsb (fun surface => bool_decide (pane_id surface = i)) (floating_surfaces s).

(** The first session, in the order of the identifiers, for which [f] holds. *)
Definition find_session (m : Manager) (f : SessionRuntimeHandle -> bool) : option SessionId :=
  List.find (fun sid => match m !! sid with Some s => f s | None => false end) (sorted_keys m).

(** [.max()] and [.min()] with [unwrap_or(0)]. *)
Definition max_z (l : list Z) : Z := match l with [] => 0 | a :: l => foldr Z.max a l end.
Definition min_z (l : list Z) : Z := match l with [] => 0 | a :: l => foldr Z.min a l end.

(** [iter_mut().find(...)]: update the first surface of the pane. *)
Fixpoint update_first (i : PaneId) (f : FloatingSurfaceRuntime -> FloatingSurfaceRuntime)
    (l : list FloatingSurfaceRuntime) : list FloatingSurfaceRuntime :=
  match l with
  | [] => []
  | a :: l => if decide (pane_id a = i) then f a :: l else a :: update_first i f l
  end.

Definition update_floating_pane (m : Manager) (i : PaneId)
    (update : FloatingSurfaceRuntime -> Z -> Z -> FloatingSurfaceRuntime)
  : result RuntimeError FloatingSurfaceRuntime * Manager :=
  match find_session m (fun s => has_surface s i) with
  | None => (Err FloatingPaneNotFound, m)
  | Some owner =>
      on_session m owner (fun s =>
        let zs := z <$> floating_surfaces s in
        let change a := update a (min_z zs) (max_z zs) in
        match List.find (fun a => bool_decide (pane_id a = i)) (floating_surfaces s) with
        | None => (Err FloatingPaneNotFound, s)
        | Some a => (Ok (change a), set_surfaces s (update_first i change (floating_surfaces s)))
        end)
  end.

Definition with_rect (a : FloatingSurfaceRuntime) (r : LayoutRect) : FloatingSurfaceRuntime :=
  mkSurface (surface_id a) (pane_id a) (anchor_pane_id a) (context_id a) (client_id a) r
    (scope a) (layer a) (z a) (visible a) (opaque a) (accepts_input a) (cursor_owner a).

Definition with_z (a : FloatingSurfaceRuntime) (depth : Z) : FloatingSurfaceRuntime :=
  mkSurface (surface_id a) (pane_id a) (anchor_pane_id a) (context_id a) (client_id a) (rect a)
    (scope a) (layer a) depth (visible a) (opaque a) (accepts_input a) (cursor_owner a).

Definition with_layer (a : FloatingSurfaceRuntime) (ly : FloatingPaneLayer)
  : FloatingSurfaceRuntime :=
  mkSurface (surface_id a) (pane_id a) (anchor_pane_id a) (context_id a) (client_id a) (rect a)
    (scope a) ly (z a) (visible a) (opaque a) (accepts_input a) (cursor_owner a).

Definition move_floating_pane (m : Manager) (i : PaneId) (px py : Z) :=
  update_floating_pane m i (fun a _ _ => with_rect a (mkLayoutRect px py (w (rect a)) (h (rect a)))).

Definition resize_floating_pane (m : Manager) (i : PaneId) (pw ph : Z) :=
  update_floating_pane m i (fun a _ _ =>
    with_rect a (mkLayoutRect (x (rect a)) (y (rect a)) (Z.max pw 1) (Z.max ph 1))).

(** [i32] saturating arithmetic. *)
Definition saturating_add_i32 (a b : Z) : Z := Z.max (- 2 ^ 31) (Z.min (a + b) (2 ^ 31 - 1)).

Definition raise_floating_pane (m : Manager) (i : PaneId) :=
  update_floating_pane m i (fun a _ top => with_z a (saturating_add_i32 top 1)).

Definition lower_floating_pane (m : Manager) (i : PaneId) :=
  update_floating_pane m i (fun a bottom _ => with_z a (saturating_add_i32 bottom (-1))).

Definition set_floating_pane_z (m : Manager) (i : PaneId) (depth : Z) :=
  update_floating_pane m i (fun a _ _ => with_z a depth).

Definition set_floating_pane_layer (m : Manager) (i : PaneId) (ly : FloatingPaneLayer) :=
  update_floating_pane m i (fun a _ _ => with_layer a ly).

(** The loop body of [focus_floating_pane] for one session. *)
Definition focus_floating_in (i : PaneId) (s : SessionRuntimeHandle) : SessionRuntimeHandle :=
  let s := set_surfaces s
    ((fun a => set_cursor_owner a (bool_decide (pane_id a = i))) <$> floating_surfaces s) in
  if has_pane s i then set_focus s i else s.

(** The last surface of the pane, over all sessions in order. *)
Definition focus_floating_pane (m : Manager) (i : PaneId)
  : result RuntimeError FloatingSurfaceRuntime * Manager :=
  let m := focus_floating_in i <$> m in
  let found := List.filter (fun a => bool_decide (pane_id a = i))
    (flat_map (fun sid => match m !! sid with Some s => floating_surfaces s | None => [] end)
       (sorted_keys m)) in
  match last found with
  | Some a => (Ok a, m)
  | None => (Err FloatingPaneNotFound, m)
  end.

Definition pane_session_for_attach (m : Manager) (sid : SessionId) (i : PaneId)
  : option SessionId :=
  if match m !! sid with Some s => has_pane s i | None => false end then Some sid
  else find_session m (fun s => has_pane s i).

Definition close_floating_pane (m : Manager) (sid : SessionId) (i : PaneId)
  : result RuntimeError PaneId * Manager :=
  let owner := default sid (pane_session_for_attach m sid i) in
  match m !! owner with
  | None => (Err RuntimeNotFound, m)
  | Some s =>
      if negb (has_surface s i) then (Err FloatingPaneNotFound, m)
      else if decide (Z.of_nat (size (panes s)) <= 1 + zlen (anchored s i)) then (Err FinalPane, m)
      else close_pane m owner (Some (ById i))
  end.

(** ** Exits *)

(** The process of a pane ends: its handle is marked. *)
Definition mark_exited (m : Manager) (sid : SessionId) (i : PaneId) : Manager :=
  alter (fun s => set_panes s (alter (fun _ => mkPaneHandle true) i (panes s))) sid m.

Definition reconcile_exited_pane_focus (m : Manager) (sid : SessionId) (i : PaneId)
  : bool * Manager :=
  match m !! sid with
  | None => (false, m)
  | Some s =>
      let exited_surfaces := List.filter (fun a => bool_decide (pane_id a = i)) (floating_surfaces s) in
      let floating_focus_is_exited := existsb cursor_owner exited_surfaces in
      let s := set_surfaces s
        ((fun a => if bool_decide (pane_id a = i) then set_cursor_owner a false else a)
           <$> floating_surfaces s) in
      let focus_is_exited :=
        match panes s !! focused_pane_id s with None => true | Some pane => exited pane end in
      let s :=
        if bool_decide (focused_pane_id s = i) || focus_is_exited || floating_focus_is_exited then
          match next_live_focus_after_exit s i with
          | None => s
          | Some next_focus =>
              set_surfaces (set_focus s next_focus)
                ((fun a => set_cursor_owner a (bool_decide (pane_id a = next_focus)))
                   <$> floating_surfaces s)
          end
        else s in
      (existsb (fun a => bool_decide (scope a = ClientGlobal) || bool_decide (scope a = ServerGlobal))
         exited_surfaces,
       <[sid := s]> m)
  end.

(** ** Sessions *)

(** The commit of a prepared session: its pane must have started and the roster
    must accept the publication. *)
Definition commit_fresh_runtime (m : Manager) (sid : SessionId) (fresh : PaneId)
    (ready published : bool) : result RuntimeError unit * Manager :=
  if bool_decide (is_Some (m !! sid)) then (Err RuntimeExists, m)
  else if negb ready then (Err StartupUnavailable, m)
  else if negb published then (Err PublicationFailed, m)
  else (Ok tt, <[sid := fresh_runtime fresh]> m).

Definition remove_runtime (m : Manager) (sid : SessionId)
  : result RuntimeError SessionRuntimeHandle * Manager :=
  match m !! sid with
  | None => (Err RuntimeNotFound, m)
  | Some s => (Ok s, delete sid m)
  end.

Record RestoreRuntimeRequest := mkRestore {
  restore_layout : option PaneLayoutNode;
  restore_focused : PaneId;
  restore_zoomed : option PaneId;
  restore_surfaces : list FloatingSurfaceRuntime;
  restore_viewport : option AttachViewport
}.

Definition layout_from_panes (ids : list PaneId) : option PaneLayoutNode :=
  match ids with
  | [] => None
  | first :: rest =>
      Some (fold_left (fun root i => Split Vertical f32_0_5 root (Leaf i)) rest (Leaf first))
  end.

(** [None] is a panic: with a viewport the initial terminal sizes are looked up
    for every pane of the layout. *)
Definition restore_runtime (m : Manager) (sid : SessionId) (ids : list PaneId)
    (req : RestoreRuntimeRequest) (admitted : bool)
  : option (result RuntimeError unit * Manager) :=
  if negb admitted then Some (Err NotAdmitted, m)
  else if bool_decide (is_Some (m !! sid)) then Some (Err RuntimeExists, m)
  else if decide (ids = []) then Some (Err RestoreWithoutPanes, m)
  else if negb (bool_decide (restore_focused req ∈ ids)) then Some (Err FocusedPaneMissing, m)
  else
    let root := match restore_layout req with
                | Some root => Some root
                | None => layout_from_panes ids
                end in
    let tiled := match root with Some root => pane_order root [] | None => [] end in
    let zoomed := match restore_zoomed req with
                  | Some i => if bool_decide (2 <= zlen tiled) && bool_decide (i ∈ tiled)
                              then Some i else None
                  | None => None
                  end in
    let sized := match root, restore_viewport req with
                 | Some root, Some viewport =>
                     match zoomed with
                     | Some i => [i]
                     | None => sorted_keys (collect_layout_rects root
                                 (scene_root_from_viewport (Some viewport)) ∅)
                     end
                 | _, _ => []
                 end in
    if negb (forallb (fun i => bool_decide (i ∈ ids)) sized) then None
    else
      let s := mkSession (list_to_map ((fun i => (i, live_pane)) <$> ids)) root
                 (restore_focused req) zoomed (restore_surfaces req) ∅ (restore_viewport req) in
      Some (validate_runtime_layout_matches_panes s, <[sid := s]> m).

(** ** The invariant *)

(** The tree's leaves are exactly the tiled panes. *)
Definition layout_matches (s : SessionRuntimeHandle) : Prop :=
  match layout_root s with
  | None => tiled_pane_ids s = ∅
  | Some root => layout_wf root /\ list_to_set (leaves root) = tiled_pane_ids s
  end.

Record runtime_wf (s : SessionRuntimeHandle) : Prop := {
  wf_layout : layout_matches s;
  wf_floating_once : NoDup (pane_id <$> floating_surfaces s);
  wf_floating_panes : floating_pane_ids s ⊆ dom (panes s);
  wf_focus : focused_pane_id s ∈ dom (panes s);
  wf_zoom : forall i, zoomed_pane_id s = Some i -> i ∈ dom (panes s);
  wf_viewport : rect_u16 (scene_root_from_viewport (attach_viewport s))
}.

Definition fresh_pane (m : Manager) (i : PaneId) : Prop :=
  map_Forall (fun _ s => i ∉ dom (panes s)) m.

(** ** Each operation keeps it

    [misrestored] are the sessions brought back from an inconsistent snapshot,
    of which nothing is promised. *)

Section invariant.
Context (misrestored : gset SessionId).

Definition manager_wf (m : Manager) : Prop := map_Forall (fun sid s => sid ∉ misrestored -> runtime_wf s) m.

Lemma validate_ok s :
  validate_runtime_layout_matches_panes s = Ok tt <-> layout_matches s.
Proof.
  unfold validate_runtime_layout_matches_panes, layout_matches.
  destruct (layout_root s) as [root|].
  - destruct (collect_runtime_layout_pane_ids root ∅) as [ids|e] eqn:E.
    + apply collect_ids_spec in E as (Hwf & _ & ->). rewrite union_empty_r_L.
      destruct (decide (tiled_pane_ids s <> list_to_set (leaves root))) as [Hn|Hn].
      * split; [done|]. intros [_ Heq]. by destruct Hn.
      * split; [|done]. intros _. split; [done|]. symmetry. by apply dec_stable.
    + split; [done|]. intros [Hwf _].
      assert (H : collect_runtime_layout_pane_ids root ∅ = Ok (list_to_set (leaves root) ∪ ∅))
        by (apply collect_ids_spec; split_and!; [done|set_solver|done]).
      by rewrite H in E.
  - destruct (decide (tiled_pane_ids s <> ∅)) as [Hn|Hn]; [done|].
    split; [|done]. intros _. by apply dec_stable.
Qed.

Lemma on_session_wf {A} (m : Manager) sid
    (f : SessionRuntimeHandle -> result RuntimeError A * SessionRuntimeHandle) :
  manager_wf m -> (forall s, m !! sid = Some s -> runtime_wf s -> runtime_wf (f s).2) ->
  manager_wf (on_session m sid f).2.
Proof.
  intros Hm Hf. unfold on_session. destruct (m !! sid) as [s|] eqn:E; [|done].
  specialize (Hf s eq_refl). pose proof (Hm _ _ E) as Hs. destruct (f s) as [r s']. simpl in *.
  apply map_Forall_insert_2; auto.
Qed.

Lemma has_pane_true s i : has_pane s i = true <-> i ∈ dom (panes s).
Proof. unfold has_pane. by rewrite bool_decide_eq_true, elem_of_dom. Qed.

Lemma ordered_tiled_elem s i :
  layout_matches s -> i ∈ ordered_tiled_pane_ids s <-> i ∈ tiled_pane_ids s.
Proof.
  unfold layout_matches, ordered_tiled_pane_ids. destruct (layout_root s) as [root|].
  - intros [_ <-]. by rewrite pane_order_leaves, elem_of_list_to_set.
  - intros ->. split; [by intros ?%elem_of_nil|set_solver].
Qed.

Lemma ordered_pane_ids_elem s i :
  layout_matches s -> floating_pane_ids s ⊆ dom (panes s) ->
  i ∈ ordered_pane_ids s <-> i ∈ dom (panes s).
Proof.
  intros Hl Hf. unfold ordered_pane_ids.
  assert (Hfold : forall l acc, (forall a, a ∈ l -> pane_id a ∈ dom (panes s)) ->
    i ∈ fold_left (fun pane_ids surface =>
      if has_pane s (pane_id surface) && negb (bool_decide (pane_id surface ∈ pane_ids))
      then pane_ids ++ [pane_id surface] else pane_ids) l acc
    <-> i ∈ acc \/ i ∈ pane_id <$> l).
  { induction l as [|a l IH]; intros acc Hp; simpl; [set_solver|].
    rewrite IH by set_solver. rewrite (proj2 (has_pane_true s (pane_id a))) by set_solver. simpl.
    case_bool_decide; simpl; set_solver. }
  rewrite Hfold.
  - rewrite ordered_tiled_elem by done. unfold tiled_pane_ids, floating_pane_ids in *.
    rewrite elem_of_difference, elem_of_list_to_set. split; [set_solver|].
    intros Hi. destruct (decide (i ∈ pane_id <$> floating_surfaces s)); tauto.
  - intros a Ha. apply Hf. unfold floating_pane_ids. rewrite elem_of_list_to_set.
    by apply list_elem_of_fmap_2.
Qed.

Lemma resolve_elem s sel i : resolve_pane_id_from_selector s sel = Some i -> i ∈ dom (panes s).
Proof.
  unfold resolve_pane_id_from_selector. intros H. rewrite <- has_pane_true.
  destruct sel as [j|n|].
  - destruct (has_pane s j) eqn:E; naive_solver.
  - destruct (decide (n = 0)); [done|]. destruct (ordered_pane_ids s !! _) as [p|]; [|done].
    destruct (has_pane s p) eqn:E; naive_solver.
  - destruct (has_pane s (focused_pane_id s)) eqn:E; naive_solver.
Qed.

(** Changes that leave panes, layout and surfaces alone. *)
Lemma set_focus_wf s i : runtime_wf s -> i ∈ dom (panes s) -> runtime_wf (set_focus s i).
Proof. by intros []. Qed.

Lemma set_zoom_wf s o :
  runtime_wf s -> (forall i, o = Some i -> i ∈ dom (panes s)) -> runtime_wf (set_zoom s o).
Proof. by intros []. Qed.

(** Surfaces may change in everything but the panes they show. *)
Lemma set_surfaces_wf s f :
  runtime_wf s -> pane_id <$> f = pane_id <$> floating_surfaces s -> runtime_wf (set_surfaces s f).
Proof.
  intros [Hl Hn Hp Hf Hz Hv] E.
  assert (Ht : tiled_pane_ids (set_surfaces s f) = tiled_pane_ids s)
    by (unfold tiled_pane_ids, floating_pane_ids; simpl; by rewrite E).
  split; simpl; try done.
  - unfold layout_matches in *. simpl. by rewrite Ht.
  - by rewrite E.
  - unfold floating_pane_ids in *. simpl. by rewrite E.
Qed.

(** A pane joins the tiled ones. *)
Lemma split_wf s root fresh :
  runtime_wf s -> fresh ∉ dom (panes s) -> layout_wf root ->
  list_to_set (leaves root) = {[fresh]} ∪ tiled_pane_ids s ->
  runtime_wf (set_focus (set_zoom (set_layout (set_panes s (<[fresh := live_pane]> (panes s)))
                (Some root)) None) fresh).
Proof.
  intros [Hl Hn Hp Hf Hz Hv] Hfresh Hwf Hleaves.
  split; simpl; rewrite ?dom_insert_L; try done; try set_solver.
  - unfold layout_matches. simpl. split; [done|]. rewrite Hleaves.
    unfold tiled_pane_ids, floating_pane_ids in *. simpl. rewrite dom_insert_L. set_solver.
Qed.

Lemma replace_split_wf s root t d r fresh :
  runtime_wf s -> layout_root s = Some root -> fresh ∉ dom (panes s) -> ratio_ok r ->
  (replace_leaf_with_split root t d r fresh).1 = true ->
  layout_wf (replace_leaf_with_split root t d r fresh).2 /\
  list_to_set (leaves (replace_leaf_with_split root t d r fresh).2)
    = {[fresh]} ∪ tiled_pane_ids s.
Proof.
  intros [Hl _ _ _ _ _] Hroot Hfresh Hr Hrep. unfold layout_matches in Hl. rewrite Hroot in Hl.
  destruct Hl as [[Hnd Hok] Hset]. destruct (replace_leaf_spec root t d r fresh) as (H1 & H2 & _ & H4).
  rewrite H1 in Hrep. simpl in Hrep. apply bool_decide_eq_true in Hrep.
  assert (Hn : fresh ∉ leaves root).
  { intros Hin. apply Hfresh. rewrite <- (elem_of_list_to_set (C := gset PaneId)), Hset in Hin.
    unfold tiled_pane_ids in Hin. set_solver. }
  split; [split; [rewrite H2; by apply NoDup_insert_after|auto]|].
  rewrite H2, <- Hset. apply set_eq. intros i.
  rewrite elem_of_union, !elem_of_list_to_set, elem_of_insert_after by done. set_solver.
Qed.

Lemma create_split_pane_wf m sid target d options_ok producers_ok fresh :
  manager_wf m -> fresh_pane m fresh ->
  manager_wf (create_split_pane m sid target d options_ok producers_ok fresh).2.
Proof.
  intros Hm Hfresh. unfold create_split_pane. destruct options_ok; [|done]. simpl.
  apply on_session_wf; [done|]. intros s Es Hs. specialize (Hfresh _ _ Es). simpl in Hfresh.
  destruct (resolve_pane_id_from_selector s _) as [t|]; [|done].
  destruct (layout_root s) as [root|] eqn:Eroot.
  - pose proof (replace_split_wf s root t d f32_0_5 fresh Hs Eroot Hfresh ratio_ok_0_5) as Hrep.
    destruct (replace_leaf_with_split root t d f32_0_5 fresh) as [[] root']; [|done].
    destruct producers_ok; [|done]. simpl in *. destruct (Hrep eq_refl). by apply split_wf.
  - destruct producers_ok; [|done]. simpl. apply split_wf; [done|done| |].
    + split; [apply NoDup_singleton|done].
    + destruct Hs as [Hl _ _ _ _ _]. unfold layout_matches in Hl. rewrite Eroot in Hl.
      simpl. set_solver.
Qed.

Lemma commit_split_wf m sid t d r unchanged started producers_ok fresh :
  manager_wf m -> fresh_pane m fresh -> ratio_ok r ->
  manager_wf (commit_split m sid t d r unchanged started producers_ok fresh).2.
Proof.
  intros Hm Hfresh Hr. unfold commit_split. apply on_session_wf; [done|].
  intros s Es Hs. specialize (Hfresh _ _ Es). simpl in Hfresh.
  destruct (panes s !! t) as [source|]; [|done]. destruct (exited source); [done|].
  destruct unchanged; [|done]. destruct started; [|done]. simpl.
  destruct (layout_root s) as [root|] eqn:Eroot; [|done].
  pose proof (replace_split_wf s root t d r fresh Hs Eroot Hfresh Hr) as Hrep.
  destruct (replace_leaf_with_split root t d r fresh) as [[] root']; [|done].
  destruct producers_ok; [|done]. simpl in *. destruct (Hrep eq_refl). by apply split_wf.
Qed.

(** *** Closing a pane *)

Lemma elem_of_anchored s i a :
  a ∈ anchored s i <-> a ∈ floating_surfaces s /\ anchor_pane_id a = Some i /\ pane_id a <> i.
Proof.
  unfold anchored. rewrite list_elem_of_In, filter_In, <- list_elem_of_In, andb_true_iff.
  by rewrite !bool_decide_eq_true.
Qed.

Lemma dom_foldr_delete (l : list PaneId) (p : gmap PaneId PaneRuntimeHandle) :
  dom (foldr delete p l) = dom p ∖ list_to_set l.
Proof.
  induction l as [|i l IH]; simpl; [set_solver|]. rewrite dom_delete_L, IH. set_solver.
Qed.

(** What is left after a close: the panes without the closed one and its
    dependents, the surfaces of the floating ones among them. *)
Definition kept_surfaces (s : SessionRuntimeHandle) (i : PaneId) : list FloatingSurfaceRuntime :=
  List.filter (fun surface => bool_decide (pane_id surface <> i) &&
                 negb (bool_decide (anchor_pane_id surface = Some i))) (floating_surfaces s).

Definition kept_panes (s : SessionRuntimeHandle) (i : PaneId) : gmap PaneId PaneRuntimeHandle :=
  foldr delete (delete i (panes s)) (pane_id <$> anchored s i).

Lemma elem_of_kept_surfaces s i a :
  a ∈ kept_surfaces s i <->
  a ∈ floating_surfaces s /\ pane_id a <> i /\ anchor_pane_id a <> Some i.
Proof.
  unfold kept_surfaces. rewrite list_elem_of_In, filter_In, <- list_elem_of_In, andb_true_iff.
  by rewrite negb_true_iff, bool_decide_eq_true, bool_decide_eq_false.
Qed.

Lemma elem_of_kept_panes s i j :
  j ∈ dom (kept_panes s i) <->
  j ∈ dom (panes s) /\ j <> i /\
  ~ exists a, a ∈ floating_surfaces s /\ anchor_pane_id a = Some i /\ pane_id a = j.
Proof.
  unfold kept_panes. rewrite dom_foldr_delete, dom_delete_L.
  rewrite !elem_of_difference, elem_of_singleton, elem_of_list_to_set, list_elem_of_fmap. split.
  - intros [[Hj Hi] Ha]. split_and!; try done. intros (a & Hin & Han & <-). apply Ha. exists a.
    split; [done|]. by apply elem_of_anchored.
  - intros (Hj & Hi & Ha). split; [done|]. intros (a & -> & Hin). apply elem_of_anchored in Hin as (? & ? & ?).
    eauto.
Qed.

Lemma kept_tiled s i :
  runtime_wf s ->
  dom (kept_panes s i) ∖ list_to_set (pane_id <$> kept_surfaces s i) = tiled_pane_ids s ∖ {[i]}.
Proof.
  intros [_ Hn Hp _ _ _]. apply set_eq. intros j. unfold tiled_pane_ids, floating_pane_ids in *.
  rewrite !elem_of_difference, elem_of_singleton, !elem_of_list_to_set, elem_of_kept_panes.
  rewrite !list_elem_of_fmap. split.
  - intros ((Hj & Hi & Ha) & Hk). split_and!; try done. intros (a & -> & Hin). apply Hk.
    exists a. split; [done|]. apply elem_of_kept_surfaces. split_and!; try done.
    intros Han. apply Ha. eauto.
  - intros ((Hj & Hk) & Hi). split_and!; try done.
    + intros (a & Hin & _ & <-). apply Hk. eauto.
    + intros (a & -> & Hin). apply elem_of_kept_surfaces in Hin as (Hin & _). apply Hk. eauto.
Qed.

Lemma size_list_to_set_le (l : list PaneId) : (size (list_to_set l : gset PaneId) <= length l)%nat.
Proof.
  induction l as [|i l IH]; [done|]. simpl.
  rewrite size_union_alt, size_singleton.
  assert (size ((list_to_set l : gset PaneId) ∖ {[i]}) <= size (list_to_set l : gset PaneId))%nat
    by (apply subseteq_size; set_solver). lia.
Qed.

Lemma kept_nonempty s i :
  1 + zlen (anchored s i) < Z.of_nat (size (panes s)) -> dom (kept_panes s i) <> ∅.
Proof.
  intros Hsize Hempty. unfold kept_panes in Hempty. rewrite dom_foldr_delete, dom_delete_L in Hempty.
  assert (Hsub : dom (panes s) ⊆ list_to_set (i :: (pane_id <$> anchored s i))).
  { simpl. intros j Hj. destruct (decide (j = i)); [set_solver|].
    destruct (decide (j ∈ pane_id <$> anchored s i)); [set_solver|]. set_solver. }
  apply subseteq_size in Hsub. rewrite size_dom in Hsub.
  pose proof (size_list_to_set_le (i :: (pane_id <$> anchored s i))) as Hle. simpl in Hle.
  rewrite length_fmap in Hle. unfold zlen in Hsize. simpl in Hsub. lia.
Qed.

(** The layout after a close. *)
Definition kept_layout (s : SessionRuntimeHandle) (i : PaneId) : option PaneLayoutNode :=
  let root := (fun root => (remove_leaf root i).2) <$> layout_root s in
  let layout_ids := match root with Some root => pane_order root [] | None => [] end in
  if existsb (fun j => negb (bool_decide (is_Some (kept_panes s i !! j)))) layout_ids
  then None else root.

Definition kept (s : SessionRuntimeHandle) (i : PaneId) : SessionRuntimeHandle :=
  set_layout (set_surfaces (set_panes s (kept_panes s i)) (kept_surfaces s i)) (kept_layout s i).

Lemma existsb_missing (p : gmap PaneId PaneRuntimeHandle) l :
  existsb (fun j => negb (bool_decide (is_Some (p !! j)))) l = false <->
  forall j, j ∈ l -> j ∈ dom p.
Proof.
  rewrite <- not_true_iff_false, existsb_exists. split.
  - intros H j Hj. apply elem_of_dom. destruct (p !! j) eqn:E; [by eexists|]. destruct H.
    exists j. split; [by apply list_elem_of_In|]. by rewrite E.
  - intros H (j & Hj & Hn). apply list_elem_of_In, H, elem_of_dom in Hj.
    by rewrite bool_decide_eq_true_2 in Hn.
Qed.

Lemma kept_layout_matches s i : runtime_wf s -> layout_matches (kept s i).
Proof.
  intros Hs. pose proof (kept_tiled s i Hs) as Ht. destruct Hs as [Hl _ _ _ _ _].
  unfold layout_matches in *. simpl. unfold tiled_pane_ids at 1 2, floating_pane_ids at 1 2. simpl.
  rewrite Ht. unfold kept_layout. destruct (layout_root s) as [root|] eqn:Eroot; simpl.
  2: { rewrite Hl. set_solver. }
  destruct Hl as [[Hnd Hok] Hset]. pose proof (remove_leaf_spec root i Hnd) as Hrem.
  destruct (remove_leaf root i) as [b root']. simpl in *. destruct Hrem as (_ & Hleaves & Hok').
  rewrite pane_order_leaves. simpl.
  assert (Htiled : forall j, j ∈ tiled_pane_ids s ∖ {[i]} -> j ∈ dom (kept_panes s i))
    by (intros j; rewrite <- Ht; set_solver).
  destruct (decide (leaves root = [i])) as [E|E].
  - rewrite Hleaves. simpl. rewrite bool_decide_eq_false_2; simpl.
    + rewrite <- Hset, E. set_solver.
    + rewrite <- elem_of_dom, elem_of_kept_panes. tauto.
  - rewrite (proj2 (existsb_missing _ _)).
    + split; [split; [rewrite Hleaves; by apply NoDup_without|auto]|].
      rewrite Hleaves, <- Hset. apply set_eq. intros j.
      rewrite elem_of_list_to_set, elem_of_without. set_solver.
    + intros j. rewrite Hleaves, elem_of_without. intros [Hj Hji]. apply Htiled.
      rewrite <- Hset. set_solver.
Qed.

Lemma close_panes_wf s i :
  runtime_wf s -> zoomed_pane_id s = None -> i ∈ dom (panes s) ->
  1 + zlen (anchored s i) < Z.of_nat (size (panes s)) ->
  runtime_wf (close_panes s i).
Proof.
  intros Hs Hz Hi Hsize. pose proof (kept_layout_matches s i Hs) as Hmatch.
  pose proof (kept_nonempty s i Hsize) as Hne.
  assert (Hfloat : floating_pane_ids (kept s i) ⊆ dom (panes (kept s i))).
  { unfold floating_pane_ids. simpl. intros j. rewrite elem_of_list_to_set, list_elem_of_fmap.
    intros (a & -> & Ha). apply elem_of_kept_surfaces in Ha as (Ha & Hai & Hanc).
    apply elem_of_kept_panes. destruct Hs as [_ Hn Hp _ _ _]. split_and!; [|done|].
    - apply Hp. unfold floating_pane_ids. rewrite elem_of_list_to_set. by apply list_elem_of_fmap_2.
    - intros (b & Hb & Hbanc & E).
      assert (b = a) as -> by (eapply NoDup_fmap_eq; eauto). done. }
  assert (Hkept : forall f, f ∈ dom (panes (kept s i)) -> runtime_wf (set_focus (kept s i) f)).
  { intros f Hf. destruct Hs as [_ Hn _ _ _ Hv]. split; try done.
    - simpl. by apply NoDup_fmap_filter.
    - simpl. rewrite Hz. done. }
  unfold close_panes. fold (kept_panes s i) (kept_surfaces s i). fold (kept_layout s i).
  fold (kept s i). change (focused_pane_id (kept s i)) with (focused_pane_id s).
  destruct (bool_decide (focused_pane_id s = i) || negb (has_pane (kept s i) (focused_pane_id s))) eqn:E.
  2: { apply orb_false_iff in E as [_ E]. apply negb_false_iff, has_pane_true in E.
       by apply (Hkept (focused_pane_id s)). }
  assert (Hord : forall j, j ∈ ordered_pane_ids (kept s i) <-> j ∈ dom (panes (kept s i)))
    by (intros j; by apply ordered_pane_ids_elem).
  destruct (match layout_root s with
            | Some root => next_focus_after_close root (focused_pane_id s) i (attach_viewport s)
            | None => None end) as [j|] eqn:Enext.
  - apply Hkept. destruct (layout_root s) as [root|] eqn:Eroot; [|done].
    pose proof (kept_tiled s i Hs) as Ht. destruct Hs as [Hl _ _ _ _ _].
    unfold layout_matches in Hl. rewrite Eroot in Hl. destruct Hl as [[Hnd _] Hset].
    destruct (next_focus_remaining _ _ _ _ _ Hnd Enext) as [Hj Hji].
    assert (Hin : j ∈ tiled_pane_ids s ∖ {[i]}) by (rewrite <- Hset; set_solver).
    rewrite <- Ht in Hin. set_solver.
  - destruct (ordered_pane_ids (kept s i)) as [|j l] eqn:Eo.
    + destruct Hne. apply set_eq. intros j. split; [|set_solver]. intros Hj.
      apply (Hord j) in Hj. by apply elem_of_nil in Hj.
    + apply Hkept, Hord. by left.
Qed.

Lemma close_pane_wf m sid target : manager_wf m -> manager_wf (close_pane m sid target).2.
Proof.
  intros Hm. unfold close_pane. apply on_session_wf; [done|]. intros s _ Hs.
  assert (Hs' : runtime_wf (set_zoom s None)) by (by apply set_zoom_wf).
  destruct (resolve_pane_id_from_selector (set_zoom s None) _) as [i|] eqn:E; [|done].
  case_decide; [done|]. apply resolve_elem in E. apply close_panes_wf; [done|done|done|lia].
Qed.

(** *** The other operations *)

Lemma focus_zoom_wf s i :
  runtime_wf s -> i ∈ dom (panes s) ->
  runtime_wf (if bool_decide (is_Some (zoomed_pane_id s)) then set_zoom (set_focus s i) (Some i)
              else set_focus s i).
Proof.
  intros Hs Hi. pose proof (set_focus_wf s i Hs Hi). case_bool_decide; [|done].
  apply set_zoom_wf; [done|]. by intros j [= <-].
Qed.

Lemma focus_pane_wf m sid d : manager_wf m -> manager_wf (focus_pane m sid d).2.
Proof.
  intros Hm. unfold focus_pane. apply on_session_wf; [done|]. intros s _ Hs.
  destruct (decide (ordered_pane_ids s = [])); [done|]. apply focus_zoom_wf; [done|].
  match goal with |- nth ?n ?l ?d ∈ _ => destruct (nth_in_or_default n l d) as [Hin|E] end.
  - apply list_elem_of_In in Hin. destruct Hs. by apply (ordered_pane_ids_elem s).
  - rewrite E. by apply wf_focus.
Qed.

Lemma focus_pane_target_wf m sid t : manager_wf m -> manager_wf (focus_pane_target m sid t).2.
Proof.
  intros Hm. unfold focus_pane_target. apply on_session_wf; [done|]. intros s _ Hs.
  destruct (resolve_pane_id_from_selector s t) as [i|] eqn:E; [|done].
  apply focus_zoom_wf; [done|]. by eapply resolve_elem.
Qed.

Lemma toggle_zoom_wf m sid : manager_wf m -> manager_wf (toggle_zoom m sid).2.
Proof.
  intros Hm. unfold toggle_zoom. apply on_session_wf; [done|]. intros s _ Hs.
  destruct (zoomed_pane_id s); [by apply set_zoom_wf|]. case_decide; [done|].
  apply set_zoom_wf; [done|]. intros i [= <-]. by apply wf_focus.
Qed.

(** Replacing the handle of a pane. *)
Lemma set_panes_wf s p : runtime_wf s -> dom p = dom (panes s) -> runtime_wf (set_panes s p).
Proof.
  intros [Hl Hn Hp Hf Hz Hv] E.
  assert (Ht : tiled_pane_ids (set_panes s p) = tiled_pane_ids s)
    by (unfold tiled_pane_ids, floating_pane_ids; simpl; by rewrite E).
  split; simpl; rewrite ?E; try done. unfold layout_matches in *. simpl. by rewrite Ht.
Qed.

Lemma restart_pane_wf m sid t admitted :
  manager_wf m -> manager_wf (restart_pane m sid t admitted).2.
Proof.
  intros Hm. unfold restart_pane. destruct admitted; [|done]. simpl.
  apply on_session_wf; [done|]. intros s _ Hs.
  destruct (resolve_pane_id_from_selector s _) as [i|] eqn:E; [|done]. apply resolve_elem in E.
  assert (Hd : dom (<[i := live_pane]> (panes s)) = dom (panes s))
    by (rewrite dom_insert_L; set_solver).
  apply set_focus_wf; [by apply set_panes_wf|]. simpl. by rewrite Hd.
Qed.

Lemma resize_pane_wf m sid t d cells :
  manager_wf m -> u16 cells -> manager_wf (resize_pane m sid t d cells).2.
Proof.
  intros Hm Hc. unfold resize_pane. apply on_session_wf; [done|]. intros s _ Hs.
  assert (Hs' : runtime_wf (set_zoom s None)) by (by apply set_zoom_wf).
  destruct (resolve_pane_id_from_selector (set_zoom s None) _) as [i|]; [|done].
  destruct Hs' as [Hl Hn Hp Hf Hz Hv]. split; try done. unfold layout_matches in *. simpl in *.
  destruct (layout_root s) as [root|]; simpl; [|done]. destruct Hl as [[Hnd Hok] Hset].
  destruct (resize_focused_keeps root i d (scene_root_from_viewport (attach_viewport s)) (Z.max cells 1))
    as [Hleaves Hr]; [done|int_lia|].
  split; [split; [by rewrite Hleaves|by apply Hr]|]. by rewrite Hleaves.
Qed.

Lemma set_attach_viewport_wf m sid c o cols rows t r b l :
  manager_wf m -> u16 cols -> u16 rows -> u16 t -> u16 r -> u16 b -> u16 l ->
  manager_wf (set_attach_viewport m sid c o cols rows t r b l).2.
Proof.
  intros Hm Hc Hr Ht Hri Hb Hl. unfold set_attach_viewport. destruct o; [done|].
  apply on_session_wf; [done|]. intros s _ Hs. case_bool_decide; [|done].
  destruct Hs. split; try done.
  destruct (scene_root_inside cols rows t r b l) as ((? & ? & ? & ? & ? & ?) & _); try done.
  unfold rect_u16. simpl in *. lia.
Qed.

Lemma create_floating_pane_wf m sid t r sc ly depth anchor context client cur admitted launch_ok
    fresh fresh_surface :
  manager_wf m -> fresh_pane m fresh ->
  manager_wf (create_floating_pane m sid t r sc ly depth anchor context client cur admitted
    launch_ok fresh fresh_surface).2.
Proof.
  intros Hm Hfresh. unfold create_floating_pane. destruct admitted; [|done]. simpl.
  apply on_session_wf; [done|]. intros s Es Hs. specialize (Hfresh _ _ Es). simpl in Hfresh.
  destruct launch_ok; [|done]. simpl. set (a := mkSurface _ _ _ _ _ _ _ _ _ _ _ _ _).
  destruct Hs as [Hl Hn Hp Hf Hz Hv].
  assert (Hids : pane_id <$> (((fun f => set_cursor_owner f false) <$> floating_surfaces s) ++ [a])
    = (pane_id <$> floating_surfaces s) ++ [fresh]).
  { rewrite fmap_app. by rewrite <- list_fmap_compose. }
  unfold floating_pane_ids in Hp.
  assert (Ht : tiled_pane_ids (set_focus (set_surfaces (set_panes s (<[fresh:=live_pane]> (panes s)))
    (((fun f => set_cursor_owner f false) <$> floating_surfaces s) ++ [a])) fresh) = tiled_pane_ids s).
  { unfold tiled_pane_ids, floating_pane_ids. simpl. rewrite Hids, list_to_set_app_L, dom_insert_L.
    set_solver. }
  split.
  - unfold layout_matches in *. rewrite Ht. simpl. exact Hl.
  - simpl. rewrite Hids. apply NoDup_app. split_and!; [done| |apply NoDup_singleton].
    intros i Hi ->%list_elem_of_singleton. apply Hfresh, Hp. by rewrite elem_of_list_to_set.
  - unfold floating_pane_ids. simpl. rewrite Hids, list_to_set_app_L, dom_insert_L. set_solver.
  - simpl. rewrite dom_insert_L. set_solver.
  - simpl. intros i Hi. rewrite dom_insert_L. apply Hz in Hi. set_solver.
  - done.
Qed.



Lemma focus_floating_in_wf i s : runtime_wf s -> runtime_wf (focus_floating_in i s).
Proof.
  intros Hs. unfold focus_floating_in.
  set (s' := set_surfaces s _).
  assert (Hs' : runtime_wf s').
  { apply set_surfaces_wf; [done|]. by rewrite <- list_fmap_compose. }
  destruct (has_pane s' i) eqn:E; [|done]. apply set_focus_wf; [done|]. by apply has_pane_true.
Qed.

Lemma focus_floating_pane_wf m i : manager_wf m -> manager_wf (focus_floating_pane m i).2.
Proof.
  intros Hm. unfold focus_floating_pane.
  assert (manager_wf (focus_floating_in i <$> m)).
  { intros sid s. rewrite lookup_fmap, fmap_Some. intros (s0 & Hs & ->) Hsid.
    by apply focus_floating_in_wf, (Hm sid). }
  by destruct (last _).
Qed.

Lemma close_floating_pane_wf m sid i : manager_wf m -> manager_wf (close_floating_pane m sid i).2.
Proof.
  intros Hm. unfold close_floating_pane. destruct (m !! _); [|done].
  destruct (negb _); [done|]. case_decide; [done|]. by apply close_pane_wf.
Qed.

Lemma mark_exited_wf m sid i : manager_wf m -> manager_wf (mark_exited m sid i).
Proof.
  intros Hm. unfold mark_exited. intros sid' s. destruct (decide (sid = sid')) as [->|Hne].
  - rewrite lookup_alter_eq, fmap_Some. intros (s0 & Hs & ->) Hsid.
    apply set_panes_wf; [by apply (Hm sid')|]. by rewrite dom_alter_L.
  - rewrite lookup_alter_ne by done. apply Hm.
Qed.

Lemma max_by_key_elem {A} (key : A -> Z * Z * Z) l a : max_by_key key l = Some a -> a ∈ l.
Proof.
  revert a. induction l as [|b l IH]; intros a; simpl; [done|].
  destruct (max_by_key key l) as [c|]; [|intros [= ->]; by left].
  destruct (key_lt (key c) (key b)); intros [= ->]; [by left|right; by apply IH].
Qed.

Lemma runtime_pane_is_live_elem s i : runtime_pane_is_live s i = true -> i ∈ dom (panes s).
Proof.
  unfold runtime_pane_is_live. rewrite elem_of_dom. destruct (panes s !! i); [by eexists|done].
Qed.

Lemma next_live_focus_live s i j :
  next_live_focus_after_exit s i = Some j -> runtime_pane_is_live s j = true /\ j <> i.
Proof.
  unfold next_live_focus_after_exit.
  destruct (max_by_key _ _) as [e|] eqn:E.
  - intros [= <-]. apply max_by_key_elem, list_elem_of_In, filter_In in E as [_ E].
    apply andb_true_iff in E as [E Hl]. apply andb_true_iff in E as [E _].
    apply andb_true_iff in E as [E _]. by apply bool_decide_eq_true in E.
  - destruct (List.find _ (ordered_tiled_pane_ids s)) as [k|] eqn:Ef.
    + intros [= <-]. apply find_some in Ef as [_ Ef]. apply andb_true_iff in Ef as [Hn Hl].
      by apply bool_decide_eq_true in Hn.
    + intros Ef'. apply find_some in Ef' as [_ Ef']. apply andb_true_iff in Ef' as [Hn Hl].
      by apply bool_decide_eq_true in Hn.
Qed.

Lemma reconcile_exited_pane_focus_wf m sid i :
  manager_wf m -> manager_wf (reconcile_exited_pane_focus m sid i).2.
Proof.
  intros Hm. unfold reconcile_exited_pane_focus. destruct (m !! sid) as [s|] eqn:Es; [|done].
  simpl. apply map_Forall_insert_2; [|done]. intros Hsid. pose proof (Hm _ _ Es Hsid) as Hs. simpl in Hs.
  set (s1 := set_surfaces s _).
  assert (Hs1 : runtime_wf s1).
  { apply set_surfaces_wf; [done|]. rewrite <- list_fmap_compose. apply list_fmap_ext.
    intros _ a _. simpl. by case_bool_decide. }
  destruct (_ || _); [|done]. destruct (next_live_focus_after_exit s1 i) as [j|] eqn:E; [|done].
  apply next_live_focus_live in E as [E _]. apply runtime_pane_is_live_elem in E.
  apply set_surfaces_wf; [by apply set_focus_wf|]. simpl. by rewrite <- list_fmap_compose.
Qed.

Lemma fresh_runtime_wf i : runtime_wf (fresh_runtime i).
Proof.
  split; try done.
  - split; [split; [apply NoDup_singleton|done]|]. unfold tiled_pane_ids. simpl.
    rewrite dom_singleton_L. unfold floating_pane_ids. simpl. set_solver.
  - apply NoDup_nil_2.
  - simpl. rewrite dom_singleton_L. set_solver.
Qed.

Lemma commit_fresh_runtime_wf m sid fresh ready published :
  manager_wf m -> manager_wf (commit_fresh_runtime m sid fresh ready published).2.
Proof.
  intros Hm. unfold commit_fresh_runtime. case_bool_decide; [done|].
  destruct ready; [|done]. destruct published; [|done].
  apply map_Forall_insert_2; [intros _; apply fresh_runtime_wf|done].
Qed.

(** What a restore leaves to the snapshot: its floating surfaces show distinct
    restored panes and its viewport has [u16] coordinates. *)
Definition restorable (ids : list PaneId) (req : RestoreRuntimeRequest) : Prop :=
  NoDup (pane_id <$> restore_surfaces req) /\
  (forall a, a ∈ restore_surfaces req -> pane_id a ∈ ids) /\
  rect_u16 (scene_root_from_viewport (restore_viewport req)).


End invariant.




(** ** The ratio of a split

    Half for a split of the service interface ([split_pane]), a percentage from
    10 to 90 for [split_shell_v1]. *)
Definition split_ratio (ratio_percent : option Z) : option F32 :=
  match ratio_percent with
  | None => Some f32_0_5
  | Some p => if decide (10 <= p <= 90) then Some (f32_div (f32_from p) f32_100) else None
  end.

Lemma split_ratio_ok percent r : split_ratio percent = Some r -> ratio_ok r.
Proof.
  destruct percent as [p|]; simpl; [|by intros [= <-]]. case_decide as Hp; [|done]. intros [= <-].
  assert (forallb (fun q => f32_contains f32_0_1 f32_0_9 (f32_div (f32_from q) f32_100)) (seqZ 10 81) = true) as H
    by (vm_compute; reflexivity).
  rewrite forallb_forall in H. apply H, list_elem_of_In, elem_of_seqZ. lia.
Qed.

(** ** Reachable states *)

Inductive runtime_step (m : Manager) : Manager -> Prop :=
| step_start sid fresh ready published :
    runtime_step m (commit_fresh_runtime m sid fresh ready published).2
| step_split sid target d options_ok producers_ok fresh :
    fresh_pane m fresh ->
    runtime_step m (create_split_pane m sid target d options_ok producers_ok fresh).2
| step_commit_split sid t d percent r unchanged started producers_ok fresh :
    fresh_pane m fresh -> split_ratio percent = Some r ->
    runtime_step m (commit_split m sid t d r unchanged started producers_ok fresh).2
| step_focus sid d : runtime_step m (focus_pane m sid d).2
| step_focus_target sid t : runtime_step m (focus_pane_target m sid t).2
| step_zoom sid : runtime_step m (toggle_zoom m sid).2
| step_close sid target : runtime_step m (close_pane m sid target).2
| step_restart sid target admitted : runtime_step m (restart_pane m sid target admitted).2
| step_resize sid target d cells :
    u16 cells -> runtime_step m (resize_pane m sid target d cells).2
| step_viewport sid c o cols rows t r b l :
    u16 cols -> u16 rows -> u16 t -> u16 r -> u16 b -> u16 l ->
    runtime_step m (set_attach_viewport m sid c o cols rows t r b l).2
| step_float sid t r sc ly depth anchor context client cur admitted launch_ok fresh fresh_surface :
    fresh_pane m fresh ->
    runtime_step m (create_floating_pane m sid t r sc ly depth anchor context client cur admitted
      launch_ok fresh fresh_surface).2
| step_move i px py : runtime_step m (move_floating_pane m i px py).2
| step_resize_float i pw ph : runtime_step m (resize_floating_pane m i pw ph).2
| step_raise i : runtime_step m (raise_floating_pane m i).2
| step_lower i : runtime_step m (lower_floating_pane m i).2
| step_set_z i depth : runtime_step m (set_floating_pane_z m i depth).2
| step_set_layer i ly : runtime_step m (set_floating_pane_layer m i ly).2
| step_focus_float i : runtime_step m (focus_floating_pane m i).2
| step_close_float sid i : runtime_step m (close_floating_pane m sid i).2
| step_exit sid i : runtime_step m (mark_exited m sid i)
| step_reconcile sid i : runtime_step m (reconcile_exited_pane_focus m sid i).2.

#[local] Hint Resolve commit_fresh_runtime_wf create_split_pane_wf split_ratio_ok
  commit_split_wf focus_pane_wf focus_pane_target_wf toggle_zoom_wf close_pane_wf restart_pane_wf
  resize_pane_wf set_attach_viewport_wf create_floating_pane_wf focus_floating_pane_wf
  close_floating_pane_wf mark_exited_wf reconcile_exited_pane_focus_wf : bmux.


(** The steps from an empty manager, removals and restores included, with the
    sessions that a restore brought back although the snapshot was inconsistent:
    its layout does not match its panes, which the restore reports but does not
    undo, or its floating surfaces do not show distinct restored panes. Removing
    such a session ends that. *)
Inductive reachable : gset SessionId -> Manager -> Prop :=
| reachable_init : reachable ∅ ∅
| reachable_step bad m m' : reachable bad m -> runtime_step m m' -> reachable bad m'
| reachable_remove bad m sid : reachable bad m -> reachable (bad ∖ {[sid]}) (remove_runtime m sid).2
| reachable_restore bad m sid ids req admitted r m' :
    reachable bad m -> restore_runtime m sid ids req admitted = Some (r, m') ->
    m' = m \/ r = Ok tt /\ restorable ids req -> reachable bad m'
| reachable_misrestore bad m sid ids req admitted r m' :
    reachable bad m -> restore_runtime m sid ids req admitted = Some (r, m') -> reachable ({[sid]} ∪ bad) m'.






(** ** Where the operations fall short *)

(** A floating pane tied to the only tiled pane, and one tied to that floating
    pane; then the tiled pane is closed. *)
Definition nested_floats : Manager :=
  let m := (commit_fresh_runtime ∅ 1 10 true true).2 in
  let m := (create_floating_pane m 1 None (mkLayoutRect 0 0 5 5) PerPane FloatingLayer 0
              None None None None true true 20 21).2 in
  (create_floating_pane m 1 None (mkLayoutRect 0 0 5 5) PerPane FloatingLayer 0
     None None None None true true 30 31).2.

(** closing a pane removes the floating panes tied to it but not those tied
    to these.  After the close the session consists of one pane, focused and
    running, whose surface is anchored to a pane that no longer exists and
    therefore visible to no client in any context: the session shows nothing. *)
Theorem nested_float_survives_invisible :
  reachable ∅ (close_pane nested_floats 1 (Some (ById 10))).2 /\
  (close_pane nested_floats 1 (Some (ById 10))).1 = Ok 10%N /\
  exists s a, (close_pane nested_floats 1 (Some (ById 10))).2 !! 1%N = Some s /\
    dom (panes s) = {[30%N]} /\ focused_pane_id s = 30%N /\ layout_root s = None /\
    floating_surfaces s = [a] /\ pane_id a = 30%N /\ anchor_pane_id a = Some 20%N /\
    forall client context, floating_surface_visible_for_attach 1 1 s a client context = false.
Proof.
  split; [|split; [vm_compute; reflexivity|]].
  - eapply reachable_step; [|apply step_close]. eapply reachable_step; [|apply step_float].
    + eapply reachable_step; [|apply step_float].
      * eapply reachable_step; [|apply step_start]. constructor.
      * by apply (bool_decide_unpack _); vm_compute.
    + by apply (bool_decide_unpack _); vm_compute.
  - eexists _, _. split; [vm_compute; reflexivity|]. split; [vm_compute; reflexivity|].
    do 2 (split; [reflexivity|]). split; [reflexivity|]. split; [reflexivity|].
    split; [reflexivity|]. intros client context. reflexivity.
Qed.

(** Zooming while a floating pane is focused zooms that pane, which is not in the
    layout. *)
Theorem zoom_leaves_layout :
  let m := (commit_fresh_runtime ∅ 1 10 true true).2 in
  let m := (create_split_pane m 1 None Vertical true true 11).2 in
  let m := (create_floating_pane m 1 None (mkLayoutRect 0 0 5 5) PerSession FloatingLayer 0
              None None None None true true 12 13).2 in
  (toggle_zoom m 1).1 = Ok (12%N, true) /\
  exists s, (toggle_zoom m 1).2 !! 1%N = Some s /\ zoomed_pane_id s = Some 12%N /\
    ordered_tiled_pane_ids s = [10%N; 11%N].
Proof.
  intros m0 m1 m. split; [vm_compute; reflexivity|].
  eexists. split; [vm_compute; reflexivity|]. split; reflexivity.
Qed.

(** a restore with a layout that does not match the panes is not undone.
    When a leaf of the snapshot's layout is not among the restored panes and no
    viewport is stored, the restore fails but the inconsistent session stays
    registered, so that restoring it again fails because it exists; with a stored
    viewport and no valid zoom the same snapshot makes the restore panic. *)
Theorem mismatched_restore_not_undone (m : Manager) (sid : SessionId) (ids : list PaneId)
    (req : RestoreRuntimeRequest) (root : PaneLayoutNode) (i : PaneId) :
  m !! sid = None -> restore_focused req ∈ ids -> restore_layout req = Some root ->
  restore_zoomed req = None -> NoDup (leaves root) -> i ∈ leaves root -> i ∉ ids ->
  match restore_viewport req with
  | None => exists e m' s, restore_runtime m sid ids req true = Some (Err e, m') /\
      m' !! sid = Some s /\ validate_runtime_layout_matches_panes s = Err e /\
      forall ids' req', restore_runtime m' sid ids' req' true = Some (Err RuntimeExists, m')
  | Some _ => restore_runtime m sid ids req true = None
  end.
Proof.
  intros Hsid Hfocus Hroot Hzoom Hnd Hi Hids.
  set (s := mkSession (list_to_map ((fun i => (i, live_pane)) <$> ids)) (Some root)
    (restore_focused req) None (restore_surfaces req) ∅ (restore_viewport req)).
  assert (Hres : restore_runtime m sid ids req true
    = if forallb (fun i => bool_decide (i ∈ ids)) (match restore_viewport req with
        | Some v => sorted_keys (collect_layout_rects root (scene_root_from_viewport (Some v)) ∅)
        | None => [] end)
      then Some (validate_runtime_layout_matches_panes s, <[sid := s]> m) else None).
  { unfold restore_runtime. cbn [negb]. rewrite Hsid.
    rewrite bool_decide_eq_false_2 by (by intros [? ?]).
    rewrite (decide_False (P := ids = [])) by (intros ->; by apply elem_of_nil in Hfocus).
    rewrite (bool_decide_eq_true_2 (_ ∈ ids)) by done. rewrite Hroot, Hzoom. cbn [negb].
    by destruct (forallb _ _). }
  rewrite Hres. destruct (restore_viewport req) as [v|] eqn:Ev; cbn [forallb].
  - destruct (forallb _ _) eqn:Hall; [|done]. exfalso. rewrite forallb_forall in Hall.
    specialize (Hall i). rewrite bool_decide_eq_true in Hall. apply Hids, Hall.
    apply list_elem_of_In, elem_of_sorted_keys. rewrite collect_layout_rects_lookup by done.
    destruct (proj2 (pane_rect_is_Some root (scene_root_from_viewport (Some v)) i) Hi) as [q ->].
    by eexists.
  - clear Hres.
    destruct (validate_runtime_layout_matches_panes s) as [[]|e] eqn:Eval.
    + exfalso. apply validate_ok in Eval. destruct Eval as [_ Hset]. apply Hids.
      assert (Hin : i ∈ tiled_pane_ids s) by (rewrite <- Hset; by apply elem_of_list_to_set).
      unfold tiled_pane_ids in Hin. apply elem_of_difference in Hin as [Hin _]. simpl in Hin.
      rewrite dom_list_to_map_L, <- list_fmap_compose, elem_of_list_to_set in Hin.
      by rewrite list_fmap_id in Hin.
    + exists e, (<[sid := s]> m), s. rewrite lookup_insert_eq. split_and!; try done.
      intros ids' req'. unfold restore_runtime. simpl. rewrite lookup_insert_eq.
      by rewrite bool_decide_eq_true_2 by (by eexists).
Qed.

Lemma mismatched_restore_not_undone_witness :
  let req := mkRestore (Some (Leaf 2%N)) 1 None [] None in
  exists e m' s, restore_runtime ∅ 7 [1%N] req true = Some (Err e, m') /\
    m' !! 7%N = Some s /\ validate_runtime_layout_matches_panes s = Err e /\
    forall ids' req', restore_runtime m' 7 ids' req' true = Some (Err RuntimeExists, m').
Proof.
  intros req.
  apply (mismatched_restore_not_undone ∅ 7 [1%N] req (Leaf 2%N) 2);
    [reflexivity| |reflexivity|reflexivity|apply NoDup_singleton| |];
    by apply (bool_decide_unpack _); vm_compute.
Defined.
