(* ===== verification/FollowState.v ===== *)
(** * Client follow state and selection reservations

    [src/plugins/clients-plugin/src/follow_state.rs] and [selection.rs]: connected
    clients, the target each has selected, follow relations, and the reservations
    that suspend a client's target between [begin_selection] and
    [commit_selection]; with the writer operations that [FollowStateAdapter]
    ([lib.rs]) adds: clearing selections, snapshot and restore.

    Client, context and session identifiers are UUIDs, compared as numbers.  The
    adapter's lock makes every operation atomic, so an execution is a sequence of
    operations ([op], [run]). *)

From S2P Require Import Prelude.

Notation ClientId := N (only parsing).
Notation SessionId := N (only parsing).
Notation Uuid := N (only parsing).

Record FollowEntry := mkFollowEntry { leader_client_id : ClientId; global : bool }.

Record FollowState := mkFollowState {
  selection_revisions : gmap ClientId Z;
  selection_reservations : gmap ClientId Z;
  connected_clients : gset ClientId;
  selected_contexts : gmap ClientId (option Uuid);
  selected_sessions : gmap ClientId (option SessionId);
  follows : gmap ClientId FollowEntry;
  attached_stream_sessions : gmap ClientId (option SessionId);
  attach_detach_allowed : gmap ClientId bool;
}.

Definition FollowState_default : FollowState := mkFollowState ∅ ∅ ∅ ∅ ∅ ∅ ∅ ∅.

Definition set_selection (s : FollowState) (revs reservs : gmap ClientId Z)
    (ctxs : gmap ClientId (option Uuid)) (sess : gmap ClientId (option SessionId)) : FollowState :=
  mkFollowState revs reservs (connected_clients s) ctxs sess (follows s)
    (attached_stream_sessions s) (attach_detach_allowed s).

Definition set_follows (s : FollowState) (f : gmap ClientId FollowEntry) : FollowState :=
  mkFollowState (selection_revisions s) (selection_reservations s) (connected_clients s)
    (selected_contexts s) (selected_sessions s) f (attached_stream_sessions s)
    (attach_detach_allowed s).

(** [entry(k).or_insert(v)]. *)
Definition or_insert {A} (k : ClientId) (v : A) (m : gmap ClientId A) : gmap ClientId A :=
  match m !! k with Some _ => m | None => <[k := v]> m end.

(** ** [FollowState] *)

Definition connect_client (s : FollowState) (client_id : ClientId) : FollowState :=
  mkFollowState (selection_revisions s) (selection_reservations s)
    ({[client_id]} ∪ connected_clients s)
    (or_insert client_id None (selected_contexts s))
    (or_insert client_id None (selected_sessions s))
    (follows s)
    (or_insert client_id None (attached_stream_sessions s))
    (or_insert client_id true (attach_detach_allowed s)).

Record FollowTargetGoneUpdate := mkGone {
  gone_follower : ClientId;
  former_leader : ClientId;
}.

Definition follows_leader (f : gmap ClientId FollowEntry) (leader : ClientId) (id : ClientId)
  : bool :=
  match f !! id with
  | Some entry => bool_decide (leader_client_id entry = leader)
  | None => false
  end.

Fixpoint remove_followers (f : gmap ClientId FollowEntry) (ids : list ClientId)
  : gmap ClientId FollowEntry * list FollowTargetGoneUpdate :=
  match ids with
  | [] => (f, [])
  | id :: ids =>
      let '(f', updates) := remove_followers (delete id f) ids in
      match f !! id with
      | Some entry => (f', mkGone id (leader_client_id entry) :: updates)
      | None => (f', updates)
      end
  end.

Definition disconnect_client (s : FollowState) (client_id : ClientId)
  : FollowState * list FollowTargetGoneUpdate :=
  let revs :=
    match selection_revisions s !! client_id with
    | Some revision => <[client_id := saturating_add 64 revision 1]> (selection_revisions s)
    | None => selection_revisions s
    end in
  let f := delete client_id (follows s) in
  let impacted_followers := List.filter (follows_leader f client_id) (sorted_keys f) in
  let '(f', updates) := remove_followers f impacted_followers in
  (mkFollowState revs (delete client_id (selection_reservations s))
     (connected_clients s ∖ {[client_id]})
     (delete client_id (selected_contexts s)) (delete client_id (selected_sessions s)) f'
     (delete client_id (attached_stream_sessions s)) (delete client_id (attach_detach_allowed s)),
   updates).

Definition revision (s : FollowState) (client : ClientId) : Z :=
  default 0 (selection_revisions s !! client).

Definition set_selected_target (s : FollowState) (client_id : ClientId)
    (context_id : option Uuid) (session_id : option SessionId) : FollowState :=
  if decide (client_id ∈ connected_clients s) then
    match checked_add 64 (revision s client_id) 1 with
    | None =>
        set_selection s (or_insert client_id 0 (selection_revisions s))
          (<[client_id := max_u 64]> (selection_reservations s))
          (selected_contexts s) (selected_sessions s)
    | Some next_revision =>
        set_selection s (<[client_id := next_revision]> (selection_revisions s))
          (selection_reservations s)
          (<[client_id := context_id]> (selected_contexts s))
          (<[client_id := session_id]> (selected_sessions s))
    end
  else s.

Definition selected_target (s : FollowState) (client_id : ClientId)
  : option (option Uuid * option SessionId) :=
  match selection_reservations s !! client_id with
  | Some _ => Some (None, None)
  | None =>
      match selected_contexts s !! client_id, selected_sessions s !! client_id with
      | Some c, Some t => Some (c, t)
      | _, _ => None
      end
  end.

Inductive follow_error : Set :=
| CannotFollowSelf
| TargetNotConnected
| FollowerNotConnected.

Definition start_follow (s : FollowState) (follower leader : ClientId) (global : bool)
  : FollowState * result follow_error (option Uuid * option SessionId) :=
  if decide (follower = leader) then (s, Err CannotFollowSelf)
  else if decide (leader ∉ connected_clients s) then (s, Err TargetNotConnected)
  else if decide (follower ∉ connected_clients s) then (s, Err FollowerNotConnected)
  else
    let s' := set_follows s (<[follower := mkFollowEntry leader global]> (follows s)) in
    if (global : bool) then
      let target := default (None, None) (selected_target s' leader) in
      (set_selected_target s' follower target.1 target.2, Ok target)
    else (s', Ok (None, None)).

Definition stop_follow (s : FollowState) (follower : ClientId) : FollowState * bool :=
  (set_follows s (delete follower (follows s)), bool_decide (is_Some (follows s !! follower))).

Record FollowTargetUpdate := mkUpdate {
  up_follower : ClientId;
  up_leader : ClientId;
  up_context : option Uuid;
  up_session : option SessionId;
}.

(** [get(id).copied().flatten()]. *)
Definition flat_get {A} (m : gmap ClientId (option A)) (id : ClientId) : option A :=
  default None (m !! id).

Definition global_follower (f : gmap ClientId FollowEntry) (leader : ClientId) (id : ClientId)
  : bool :=
  match f !! id with
  | Some entry => bool_decide (leader_client_id entry = leader) && global entry
  | None => false
  end.

Fixpoint sync_loop (s : FollowState) (leader : ClientId) (ctx : option Uuid)
    (sess : option SessionId) (followers : list ClientId)
  : FollowState * list FollowTargetUpdate :=
  match followers with
  | [] => (s, [])
  | id :: followers =>
      if decide (id ∈ connected_clients s) then
        let changed := bool_decide (flat_get (selected_sessions s) id <> sess) ||
                       bool_decide (flat_get (selected_contexts s) id <> ctx) in
        let '(s', updates) :=
          sync_loop (set_selected_target s id ctx sess) leader ctx sess followers in
        (s', if changed then mkUpdate id leader ctx sess :: updates else updates)
      else sync_loop s leader ctx sess followers
  end.

Definition sync_followers_from_leader (s : FollowState) (leader : ClientId)
    (ctx : option Uuid) (sess : option SessionId) : FollowState * list FollowTargetUpdate :=
  sync_loop s leader ctx sess
    (List.filter (global_follower (follows s) leader) (sorted_keys (follows s))).

Record ClientSummary := mkSummary {
  sum_id : ClientId;
  sum_context : option Uuid;
  sum_session : option SessionId;
  sum_following : option ClientId;
  sum_following_global : bool;
}.

Definition list_clients (s : FollowState) : list ClientSummary :=
  (fun id =>
     let target := default (None, None) (selected_target s id) in
     match follows s !! id with
     | Some entry =>
         mkSummary id target.1 target.2 (Some (leader_client_id entry)) (global entry)
     | None => mkSummary id target.1 target.2 None false
     end) <$> sorted_elements (connected_clients s).

Definition attached_stream_session (s : FollowState) (client_id : ClientId) : option SessionId :=
  flat_get (attached_stream_sessions s) client_id.

Definition set_attached_stream_session (s : FollowState) (client_id : ClientId)
    (session_id : option SessionId) : FollowState :=
  if decide (client_id ∈ connected_clients s) then
    mkFollowState (selection_revisions s) (selection_reservations s) (connected_clients s)
      (selected_contexts s) (selected_sessions s) (follows s)
      (<[client_id := session_id]> (attached_stream_sessions s)) (attach_detach_allowed s)
  else s.

Definition attach_detach_allowed_for (s : FollowState) (client_id : ClientId) : bool :=
  default true (attach_detach_allowed s !! client_id).

Definition set_attach_detach_allowed (s : FollowState) (client_id : ClientId) (allowed : bool)
  : FollowState :=
  if decide (client_id ∈ connected_clients s) then
    mkFollowState (selection_revisions s) (selection_reservations s) (connected_clients s)
      (selected_contexts s) (selected_sessions s) (follows s) (attached_stream_sessions s)
      (<[client_id := allowed]> (attach_detach_allowed s))
  else s.

(** ** Selection reservations ([selection.rs]) *)

Record Selection := mkSelection {
  sel_revision : Z;
  sel_context : option Uuid;
  sel_session : option SessionId;
  suspended : bool;
}.

Inductive SelectionError : Set :=
| NoCurrentClient
| Conflict
| InvalidTarget
| Failed.

Definition selection (s : FollowState) (client : ClientId) : result SelectionError Selection :=
  if decide (client ∉ connected_clients s) then Err NoCurrentClient
  else Ok (mkSelection (revision s client) (flat_get (selected_contexts s) client)
             (flat_get (selected_sessions s) client)
             (bool_decide (is_Some (selection_reservations s !! client)))).

(** A failed operation has not changed the state. *)
Definition keep {E A} (s : FollowState) (r : result E (FollowState * A))
  : FollowState * result E A :=
  match r with
  | Ok (s', a) => (s', Ok a)
  | Err e => (s, Err e)
  end.

Open Scope bmux_scope.

Definition recover_selection (s : FollowState) (client : ClientId) (expected : Z)
  : FollowState * result SelectionError Selection :=
  keep s (
    let? current := selection s client in
    if negb (bool_decide (sel_revision current = expected)) || negb (suspended current)
    then Err Conflict
    else
      let? revision := ok_or (checked_add 64 expected 1) Failed in
      let s' := set_selection s (<[client := revision]> (selection_revisions s))
                  (delete client (selection_reservations s))
                  (<[client := None]> (selected_contexts s))
                  (<[client := None]> (selected_sessions s)) in
      let? sel := selection s' client in Ok (s', sel)).

Definition begin_selection (s : FollowState) (client : ClientId) (expected : Z)
  : FollowState * result SelectionError Selection :=
  keep s (
    let? current := selection s client in
    if negb (bool_decide (sel_revision current = expected)) || suspended current
    then Err Conflict
    else
      let? revision := ok_or (checked_add 64 expected 1) Failed in
      let s' := set_selection s (<[client := revision]> (selection_revisions s))
                  (<[client := revision]> (selection_reservations s))
                  (selected_contexts s) (selected_sessions s) in
      let? sel := selection s' client in Ok (s', sel)).

Definition commit_selection (s : FollowState) (client : ClientId) (expected : Z)
    (context : option Uuid) (session : option SessionId)
  : FollowState * result SelectionError Selection :=
  keep s (
    let? current := selection s client in
    if negb (bool_decide (sel_revision current = expected)) ||
       negb (bool_decide (selection_reservations s !! client = Some expected))
    then Err Conflict
    else if bool_decide (is_Some context) && bool_decide (session = None)
    then Err InvalidTarget
    else
      let? revision := ok_or (checked_add 64 expected 1) Failed in
      let s' := set_selection s (<[client := revision]> (selection_revisions s))
                  (delete client (selection_reservations s))
                  (<[client := context]> (selected_contexts s))
                  (<[client := session]> (selected_sessions s)) in
      let? sel := selection s' client in Ok (s', sel)).

Close Scope bmux_scope.

(** ** [FollowStateAdapter]'s other writers ([lib.rs]) *)

Definition clear_targets (s : FollowState) (clients : list ClientId) : FollowState :=
  foldl (fun s client => set_selected_target s client None None) s clients.

Definition clear_all_selections (s : FollowState) : FollowState :=
  clear_targets s (sorted_elements (connected_clients s)).

Definition clear_all_follow_state (s : FollowState) : FollowState :=
  clear_targets (set_follows s ∅) (sorted_elements (connected_clients s)).

Definition clear_selections_for_session (s : FollowState) (session_id : SessionId)
  : FollowState :=
  let affected_clients :=
    List.filter (fun id => bool_decide (selected_sessions s !! id = Some (Some session_id)))
      (sorted_keys (selected_sessions s)) in
  foldl (fun s client => (sync_followers_from_leader s client None None).1)
    (clear_targets s affected_clients) affected_clients.

Record FollowStateSnapshot := mkSnapshot {
  snap_connected : gset ClientId;
  snap_contexts : gmap ClientId (option Uuid);
  snap_sessions : gmap ClientId (option SessionId);
  snap_follows : gmap ClientId FollowEntry;
  snap_attached : gmap ClientId (option SessionId);
  snap_detach : gmap ClientId bool;
}.

Definition snapshot (s : FollowState) : FollowStateSnapshot :=
  mkSnapshot (connected_clients s) (selected_contexts s) (selected_sessions s) (follows s)
    (attached_stream_sessions s) (attach_detach_allowed s).

Definition fence (revs : gmap ClientId Z) (clients : list ClientId) : gmap ClientId Z :=
  foldl (fun revs client =>
           <[client := saturating_add 64 (default 0 (revs !! client)) 1]> revs) revs clients.

Definition restore_snapshot (s : FollowState) (snap : FollowStateSnapshot) : FollowState :=
  mkFollowState (fence (selection_revisions s) (sorted_elements (snap_connected snap)))
    (selection_reservations s) (snap_connected snap) (snap_contexts snap) (snap_sessions snap)
    (snap_follows snap) (snap_attached snap) (snap_detach snap).

(** ** Executions *)

Inductive op :=
| Connect (c : ClientId)
| Disconnect (c : ClientId)
| SetTarget (c : ClientId) (ctx : option Uuid) (sess : option SessionId)
| StartFollow (follower leader : ClientId) (global : bool)
| StopFollow (follower : ClientId)
| SyncFollowers (leader : ClientId) (ctx : option Uuid) (sess : option SessionId)
| SetAttached (c : ClientId) (sess : option SessionId)
| SetDetachAllowed (c : ClientId) (allowed : bool)
| BeginSelection (c : ClientId) (expected : Z)
| RecoverSelection (c : ClientId) (expected : Z)
| CommitSelection (c : ClientId) (expected : Z) (ctx : option Uuid) (sess : option SessionId)
| ClearAllSelections
| ClearAllFollowState
| ClearSelectionsForSession (sess : SessionId)
| RestoreSnapshot (snap : FollowStateSnapshot).

Definition step (s : FollowState) (o : op) : FollowState :=
  match o with
  | Connect c => connect_client s c
  | Disconnect c => (disconnect_client s c).1
  | SetTarget c ctx sess => set_selected_target s c ctx sess
  | StartFollow f l g => (start_follow s f l g).1
  | StopFollow f => (stop_follow s f).1
  | SyncFollowers l ctx sess => (sync_followers_from_leader s l ctx sess).1
  | SetAttached c sess => set_attached_stream_session s c sess
  | SetDetachAllowed c allowed => set_attach_detach_allowed s c allowed
  | BeginSelection c e => (begin_selection s c e).1
  | RecoverSelection c e => (recover_selection s c e).1
  | CommitSelection c e ctx sess => (commit_selection s c e ctx sess).1
  | ClearAllSelections => clear_all_selections s
  | ClearAllFollowState => clear_all_follow_state s
  | ClearSelectionsForSession sess => clear_selections_for_session s sess
  | RestoreSnapshot snap => restore_snapshot s snap
  end.

Definition run (s : FollowState) (ops : list op) : FollowState := foldl step s ops.

(** ** Well-formed states *)

Record follow_wf (s : FollowState) : Prop := {
  wf_contexts : dom (selected_contexts s) = connected_clients s;
  wf_sessions : dom (selected_sessions s) = connected_clients s;
  wf_attached : dom (attached_stream_sessions s) = connected_clients s;
  wf_detach : dom (attach_detach_allowed s) = connected_clients s;
  wf_follows : forall f e, follows s !! f = Some e ->
    f ∈ connected_clients s /\ leader_client_id e ∈ connected_clients s /\
    f <> leader_client_id e;
  wf_revisions : forall c r, selection_revisions s !! c = Some r -> in_u 64 r;
}.

(** A snapshot taken of a well-formed state. *)
Definition snap_wf (snap : FollowStateSnapshot) : Prop :=
  follow_wf (mkFollowState ∅ ∅ (snap_connected snap) (snap_contexts snap) (snap_sessions snap)
               (snap_follows snap) (snap_attached snap) (snap_detach snap)).

Definition restores_wf (o : op) : Prop :=
  match o with RestoreSnapshot snap => snap_wf snap | _ => True end.

(** ** What an operation does to one client's selection *)

Definition slot_ok (s : FollowState) (c : ClientId) : Prop :=
  c ∈ connected_clients s /\ is_Some (selected_contexts s !! c) /\
  is_Some (selected_sessions s !! c).

Record frame (s s' : FollowState) (c : ClientId) : Prop := {
  fr_connected : c ∈ connected_clients s' <-> c ∈ connected_clients s;
  fr_reservation : selection_reservations s' !! c = selection_reservations s !! c;
  fr_context : selected_contexts s' !! c = selected_contexts s !! c;
  fr_session : selected_sessions s' !! c = selected_sessions s !! c;
}.

(** A client's revision never decreases, and as long as it stands still the
    client's selection and reservation do too. *)
Definition advances (s s' : FollowState) (c : ClientId) : Prop :=
  forall r, selection_revisions s !! c = Some r -> in_u 64 r ->
  exists r', selection_revisions s' !! c = Some r' /\ r <= r' /\ in_u 64 r' /\
    (slot_ok s c -> r < max_u 64 -> r' = r -> frame s s' c).

Lemma frame_refl s c : frame s s c.
Proof. by split. Qed.

Lemma frame_slot_ok s s' c : frame s s' c -> slot_ok s c -> slot_ok s' c.
Proof. intros [H1 _ H2 H3] (H4 & H5 & H6). unfold slot_ok. rewrite H1, H2, H3. done. Qed.

Lemma frame_trans s1 s2 s3 c : frame s1 s2 c -> frame s2 s3 c -> frame s1 s3 c.
Proof. intros [] []. split; [tauto|congruence..]. Qed.

Lemma advances_frame s s' c :
  selection_revisions s' !! c = selection_revisions s !! c ->
  (slot_ok s c -> frame s s' c) -> advances s s' c.
Proof. intros Hr Hf r Hs Hu. exists r. rewrite Hr. split_and!; [done|lia|done|auto]. Qed.

Lemma advances_refl s c : advances s s c.
Proof. apply advances_frame; [done|]. intros _. apply frame_refl. Qed.

Lemma advances_trans s1 s2 s3 c : advances s1 s2 c -> advances s2 s3 c -> advances s1 s3 c.
Proof.
  intros H12 H23 r Hr Hu. destruct (H12 r Hr Hu) as (r2 & Hr2 & Hle & Hu2 & Hf).
  destruct (H23 r2 Hr2 Hu2) as (r3 & Hr3 & Hle' & Hu3 & Hf'). exists r3.
  split_and!; [done|lia|done|]. intros Hok Hlt ->.
  assert (r2 = r) as -> by lia. specialize (Hf Hok Hlt eq_refl).
  eapply frame_trans; [exact Hf|]. apply Hf'; [by eapply frame_slot_ok|done|done].
Qed.

Lemma checked_add_one r n : checked_add 64 r 1 = Some n -> n = r + 1 /\ r < max_u 64.
Proof. unfold checked_add. case_decide; [|done]. intros [= <-]. revert H. int_lia. Qed.

Lemma revision_lookup s c r : selection_revisions s !! c = Some r -> revision s c = r.
Proof. unfold revision. by intros ->. Qed.

Lemma set_selected_target_advances s d ctx sess c :
  advances s (set_selected_target s d ctx sess) c.
Proof.
  unfold set_selected_target. case_decide; [|apply advances_refl].
  destruct (decide (d = c)) as [->|Hd].
  - intros r Hr Hu. rewrite (revision_lookup _ _ _ Hr).
    destruct (checked_add 64 r 1) as [n|] eqn:Hn; simpl.
    + apply checked_add_one in Hn as [-> Hlt]. exists (r + 1).
      rewrite lookup_insert_eq. split_and!; [done|lia|revert Hu Hlt; int_lia|lia].
    + exists r. unfold or_insert. rewrite Hr. split_and!; [done|lia|done|].
      intros _ Hlt. unfold checked_add in Hn. case_decide as Hc; [done|].
      revert Hc Hlt Hu. int_lia.
  - apply advances_frame; destruct (checked_add _ _ _); simpl.
    + by rewrite lookup_insert_ne.
    + unfold or_insert. destruct (selection_revisions s !! d); [done|]. by rewrite lookup_insert_ne.
    + intros _. split; simpl; rewrite ?lookup_insert_ne by done; done.
    + intros _. split; simpl; rewrite ?lookup_insert_ne by done; done.
Qed.

Lemma clear_targets_advances s l c : advances s (clear_targets s l) c.
Proof.
  revert s; induction l as [|d l IH]; intros s; [apply advances_refl|].
  eapply advances_trans; [apply set_selected_target_advances|apply IH].
Qed.

Lemma sync_loop_advances s l ctx sess fs c : advances s (sync_loop s l ctx sess fs).1 c.
Proof.
  revert s; induction fs as [|d fs IH]; intros s; [apply advances_refl|]. simpl.
  case_decide; [|apply IH].
  pose proof (IH (set_selected_target s d ctx sess)) as H'.
  destruct (sync_loop (set_selected_target s d ctx sess) l ctx sess fs).
  eapply advances_trans; [apply set_selected_target_advances|done].
Qed.

Lemma sync_fold_advances s l c :
  advances s (foldl (fun s client => (sync_followers_from_leader s client None None).1) s l) c.
Proof.
  revert s; induction l as [|d l IH]; intros s; [apply advances_refl|].
  eapply advances_trans; [apply sync_loop_advances|apply IH].
Qed.

Lemma set_follows_advances s f c : advances s (set_follows s f) c.
Proof. apply advances_frame; [done|]. intros _. by split. Qed.

(** The result of the [?]-chains. *)
Lemma keep_fst {E A} s (r : result E (FollowState * A)) :
  (keep s r).1 = s \/ exists a, r = Ok ((keep s r).1, a).
Proof. destruct r as [[s' a]|e]; simpl; eauto. Qed.

(** A reservation operation that succeeds moves the client's revision from
    [expected] to its successor and touches no other client. *)
Definition bumps (s s' : FollowState) (client : ClientId) (expected : Z) : Prop :=
  revision s client = expected /\ expected < max_u 64 /\
  exists reservs ctxs sess,
    s' = set_selection s (<[client := expected + 1]> (selection_revisions s)) reservs ctxs sess /\
    forall c, c <> client ->
      reservs !! c = selection_reservations s !! c /\
      ctxs !! c = selected_contexts s !! c /\ sess !! c = selected_sessions s !! c.

Lemma bumps_advances s s' d e c : bumps s s' d e -> advances s s' c.
Proof.
  intros (He & Hlt & reservs & ctxs & sess & -> & Hoth).
  destruct (decide (c = d)) as [->|Hd].
  - intros r Hr Hu. rewrite (revision_lookup _ _ _ Hr) in He. subst e.
    exists (r + 1). simpl. rewrite lookup_insert_eq.
    split_and!; [done|lia|revert Hu Hlt; int_lia|lia].
  - apply advances_frame; simpl; [by rewrite lookup_insert_ne|].
    intros _. destruct (Hoth c Hd) as (? & ? & ?). by split.
Qed.

(** The shape shared by the three reservation operations. *)
Lemma reserve_shape s client expected (guard : Selection -> option SelectionError)
    reservs ctxs sess s' a :
  (forall c, c <> client -> reservs !! c = selection_reservations s !! c /\
      ctxs !! c = selected_contexts s !! c /\ sess !! c = selected_sessions s !! c) ->
  (forall cur, guard cur = None -> sel_revision cur = expected) ->
  rbind (selection s client) (fun current =>
    match guard current with
    | Some e => Err e
    | None =>
        rbind (ok_or (checked_add 64 expected 1) Failed) (fun revision =>
          let s' := set_selection s (<[client := revision]> (selection_revisions s))
                      reservs ctxs sess in
          rbind (selection s' client) (fun sel => Ok (s', sel)))
    end) = Ok (s', a) ->
  bumps s s' client expected /\ client ∈ connected_clients s /\
  s' = set_selection s (<[client := expected + 1]> (selection_revisions s)) reservs ctxs sess /\
  selection s' client = Ok a /\
  exists cur, selection s client = Ok cur /\ guard cur = None.
Proof.
  intros Hoth Hg. unfold selection at 1. destruct (decide (client ∉ connected_clients s)) as [|Hc];
    [done|]. apply dec_stable in Hc. cbn [rbind].
  set (cur := mkSelection _ _ _ _). destruct (guard cur) eqn:Hgc; [done|].
  destruct (checked_add 64 expected 1) as [n|] eqn:Hn; [|done]. cbn [ok_or rbind].
  apply checked_add_one in Hn as [-> Hlt].
  set (s1 := set_selection _ _ _ _ _).
  destruct (selection s1 client) as [sel|] eqn:Hsel; [|done]. intros [= <- <-].
  specialize (Hg cur Hgc). split_and!; try done.
  - split_and!; [done|done|]. by exists reservs, ctxs, sess.
  - exists cur. split; [|done]. unfold selection. by rewrite decide_False by tauto.
Qed.

Lemma begin_ok s client e s' sel :
  begin_selection s client e = (s', Ok sel) ->
  bumps s s' client e /\ client ∈ connected_clients s /\
  s' = set_selection s (<[client := e + 1]> (selection_revisions s))
         (<[client := e + 1]> (selection_reservations s)) (selected_contexts s)
         (selected_sessions s) /\
  selection s' client = Ok sel /\ selection_reservations s !! client = None.
Proof.
  unfold begin_selection, keep.
  set (r := rbind (selection s client) _). destruct r as [[s1 a]|] eqn:Hr; [|done].
  intros [= <- <-]. subst r.
  destruct (reserve_shape s client e
    (fun cur => if negb (bool_decide (sel_revision cur = e)) || suspended cur
                then Some Conflict else None)
    (<[client := e + 1]> (selection_reservations s)) (selected_contexts s)
    (selected_sessions s) s1 a) as (Hb & Hc & Hs & Hsel & cur & Hcur & Hg).
  - intros c Hne. by rewrite lookup_insert_ne.
  - intros cur. case_bool_decide; done.
  - rewrite <- Hr. destruct (selection s client) as [cur|]; [|done]. cbn [rbind].
    destruct (_ || _); [done|]. destruct (checked_add 64 e 1) as [n|] eqn:Hn; [|done].
    by apply checked_add_one in Hn as [-> _].
  - split_and!; try done. unfold selection in Hcur. case_decide; [done|].
    injection Hcur as <-. simpl in Hg.
    destruct (selection_reservations s !! client) eqn:Hres; [|done].
    rewrite (bool_decide_eq_true_2 (is_Some (Some z))), orb_true_r in Hg by eauto. done.
Qed.

Lemma recover_ok s client e s' sel :
  recover_selection s client e = (s', Ok sel) ->
  bumps s s' client e /\ client ∈ connected_clients s /\
  s' = set_selection s (<[client := e + 1]> (selection_revisions s))
         (delete client (selection_reservations s))
         (<[client := None]> (selected_contexts s)) (<[client := None]> (selected_sessions s)) /\
  selection s' client = Ok sel.
Proof.
  unfold recover_selection, keep.
  set (r := rbind (selection s client) _). destruct r as [[s1 a]|] eqn:Hr; [|done].
  intros [= <- <-]. subst r.
  destruct (reserve_shape s client e
    (fun cur => if negb (bool_decide (sel_revision cur = e)) || negb (suspended cur)
                then Some Conflict else None)
    (delete client (selection_reservations s)) (<[client := None]> (selected_contexts s))
    (<[client := None]> (selected_sessions s)) s1 a) as (Hb & Hc & Hs & Hsel & _);
    [| | |by split_and!].
  - intros c Hne. by rewrite lookup_delete_ne, !lookup_insert_ne.
  - intros cur. case_bool_decide; done.
  - rewrite <- Hr. destruct (selection s client) as [cur|]; [|done]. cbn [rbind].
    destruct (_ || _); [done|]. by destruct (checked_add 64 e 1).
Qed.

Lemma commit_ok s client e ctx sess s' sel :
  commit_selection s client e ctx sess = (s', Ok sel) ->
  bumps s s' client e /\ client ∈ connected_clients s /\
  s' = set_selection s (<[client := e + 1]> (selection_revisions s))
         (delete client (selection_reservations s))
         (<[client := ctx]> (selected_contexts s)) (<[client := sess]> (selected_sessions s)) /\
  selection s' client = Ok sel /\ selection_reservations s !! client = Some e /\
  (is_Some ctx -> is_Some sess).
Proof.
  unfold commit_selection, keep.
  set (r := rbind (selection s client) _). destruct r as [[s1 a]|] eqn:Hr; [|done].
  intros [= <- <-]. subst r.
  destruct (reserve_shape s client e
    (fun cur => if negb (bool_decide (sel_revision cur = e)) ||
                   negb (bool_decide (selection_reservations s !! client = Some e))
                then Some Conflict
                else if bool_decide (is_Some ctx) && bool_decide (sess = None)
                then Some InvalidTarget else None)
    (delete client (selection_reservations s)) (<[client := ctx]> (selected_contexts s))
    (<[client := sess]> (selected_sessions s)) s1 a)
    as (Hb & Hc & Hs & Hsel & cur & Hcur & Hg).
  - intros c Hne. by rewrite lookup_delete_ne, !lookup_insert_ne.
  - intros cur. destruct (decide (sel_revision cur = e)); [done|].
    by rewrite bool_decide_eq_false_2.
  - rewrite <- Hr. destruct (selection s client) as [cur|]; [|done]. cbn [rbind].
    destruct (_ || _); [done|]. destruct (_ && _); [done|]. by destruct (checked_add 64 e 1).
  - destruct (bool_decide (selection_reservations s !! client = Some e)) eqn:Hres;
      [|by rewrite orb_true_r in Hg].
    apply bool_decide_eq_true in Hres. cbn [negb] in Hg. rewrite orb_false_r in Hg.
    destruct (bool_decide (sel_revision cur = e)); [|done]. cbn [negb] in Hg.
    split_and!; try done. intros Hi.
    rewrite (bool_decide_eq_true_2 _ Hi) in Hg. destruct sess; [eauto|done].
Qed.

Lemma fence_notin l revs c : c ∉ l -> fence revs l !! c = revs !! c.
Proof.
  revert revs; induction l as [|d l IH]; intros revs H; [done|].
  apply not_elem_of_cons in H as [Hd H]. simpl. rewrite IH by done.
  by rewrite lookup_insert_ne.
Qed.

Lemma fence_in l revs c :
  NoDup l -> c ∈ l -> fence revs l !! c = Some (saturating_add 64 (default 0 (revs !! c)) 1).
Proof.
  revert revs; induction l as [|d l IH]; intros revs Hnd H; [by apply elem_of_nil in H|].
  apply NoDup_cons in Hnd as [Hd Hnd]. simpl.
  destruct (decide (c = d)) as [->|Hcd].
  - rewrite fence_notin by done. by rewrite lookup_insert_eq.
  - apply elem_of_cons in H as [H|H]; [done|]. rewrite IH by done. by rewrite lookup_insert_ne.
Qed.

(** A restore replaces the client roster; it fences only the clients of the
    snapshot. *)
Definition keeps (c : ClientId) (o : op) : Prop :=
  match o with RestoreSnapshot snap => c ∈ snap_connected snap | _ => True end.

Lemma saturating_succ r : in_u 64 r -> in_u 64 (saturating_add 64 r 1) /\
  r <= saturating_add 64 r 1 /\ (r < max_u 64 -> saturating_add 64 r 1 <> r).
Proof. int_lia. Qed.

Lemma disconnect_advances s d c : advances s (disconnect_client s d).1 c.
Proof.
  unfold disconnect_client. destruct (remove_followers _ _) as [f' ups]. simpl.
  destruct (decide (c = d)) as [->|Hd].
  - intros r Hr Hu. simpl. rewrite Hr, lookup_insert_eq.
    destruct (saturating_succ r Hu) as (Hu' & Hle & Hne).
    eexists; split_and!; [done|done|done|]. intros _ Hlt Heq. by destruct (Hne Hlt).
  - apply advances_frame; simpl.
    + destruct (selection_revisions s !! d); [by rewrite lookup_insert_ne|done].
    + intros _. split; simpl; rewrite ?lookup_delete_ne by done; try done. set_solver.
Qed.

Lemma or_insert_lookup {A} k (v : A) m c x : m !! c = Some x -> or_insert k v m !! c = Some x.
Proof.
  intros H. unfold or_insert. destruct (m !! k) eqn:Hk; [done|].
  rewrite lookup_insert_ne; [done|]. by intros ->; rewrite H in Hk.
Qed.

Lemma step_advances s o c : keeps c o -> advances s (step s o) c.
Proof.
  intros Hk. destruct o; simpl.
  - apply advances_frame; [done|]. intros (Hc & [x Hx] & [y Hy]). split; simpl; try done.
    + set_solver.
    + rewrite Hx. by apply or_insert_lookup.
    + rewrite Hy. by apply or_insert_lookup.
  - apply disconnect_advances.
  - apply set_selected_target_advances.
  - unfold start_follow. repeat (case_decide; [apply advances_refl|]).
    destruct global0; simpl; [|apply set_follows_advances].
    eapply advances_trans; [apply set_follows_advances|apply set_selected_target_advances].
  - apply set_follows_advances.
  - apply sync_loop_advances.
  - unfold set_attached_stream_session. case_decide; [|apply advances_refl].
    apply advances_frame; [done|]. intros _. by split.
  - unfold set_attach_detach_allowed. case_decide; [|apply advances_refl].
    apply advances_frame; [done|]. intros _. by split.
  - destruct (begin_selection s c0 expected) as [s' [sel|e]] eqn:H.
    + eapply bumps_advances. by apply begin_ok in H as [H _].
    + unfold begin_selection, keep in H. destruct (rbind _ _) as [[]|]; [done|].
      injection H as <- _. apply advances_refl.
  - destruct (recover_selection s c0 expected) as [s' [sel|e]] eqn:H.
    + eapply bumps_advances. by apply recover_ok in H as [H _].
    + unfold recover_selection, keep in H. destruct (rbind _ _) as [[]|]; [done|].
      injection H as <- _. apply advances_refl.
  - destruct (commit_selection s c0 expected ctx sess) as [s' [sel|e]] eqn:H.
    + eapply bumps_advances. by apply commit_ok in H as [H _].
    + unfold commit_selection, keep in H. destruct (rbind _ _) as [[]|]; [done|].
      injection H as <- _. apply advances_refl.
  - apply clear_targets_advances.
  - eapply advances_trans; [apply set_follows_advances|apply clear_targets_advances].
  - eapply advances_trans; [apply clear_targets_advances|apply sync_fold_advances].
  - intros r Hr Hu. simpl. rewrite fence_in.
    + rewrite Hr. simpl. destruct (saturating_succ r Hu) as (Hu' & Hle & Hne).
      eexists; split_and!; [done|done|done|]. intros _ Hlt Heq. by destruct (Hne Hlt).
    + apply NoDup_sorted_elements.
    + by apply elem_of_sorted_elements.
Qed.

Lemma run_advances s ops c : Forall (keeps c) ops -> advances s (run s ops) c.
Proof.
  unfold run. revert s; induction ops as [|o ops IH]; intros s Hk; [apply advances_refl|].
  apply Forall_cons in Hk as [Ho Hk]. simpl.
  eapply advances_trans; [by apply step_advances|by apply IH].
Qed.

(** ** Preservation of well-formedness *)

Lemma set_selection_wf s revs reservs ctxs sess :
  follow_wf s -> dom ctxs = dom (selected_contexts s) -> dom sess = dom (selected_sessions s) ->
  (forall c r, revs !! c = Some r -> in_u 64 r) ->
  follow_wf (set_selection s revs reservs ctxs sess).
Proof. intros [] Hc Hs Hr. split; simpl; try done; congruence. Qed.

Lemma insert_range (revs : gmap ClientId Z) d n :
  (forall c r, revs !! c = Some r -> in_u 64 r) -> in_u 64 n ->
  forall c r, <[d := n]> revs !! c = Some r -> in_u 64 r.
Proof.
  intros H Hn c r. destruct (decide (c = d)) as [->|Hd].
  - rewrite lookup_insert_eq. by intros [= <-].
  - rewrite lookup_insert_ne by done. apply H.
Qed.

Lemma revision_range s c : follow_wf s -> in_u 64 (revision s c).
Proof.
  intros Hwf. unfold revision. destruct (selection_revisions s !! c) eqn:H; simpl.
  - by eapply wf_revisions.
  - int_lia.
Qed.

Lemma dom_insert_present {A} (m : gmap ClientId A) c x : c ∈ dom m -> dom (<[c := x]> m) = dom m.
Proof. intros H. rewrite dom_insert_L. set_solver. Qed.

Lemma set_selected_target_wf s c ctx sess :
  follow_wf s -> follow_wf (set_selected_target s c ctx sess).
Proof.
  intros Hwf. unfold set_selected_target. case_decide as Hc; [|done].
  pose proof (revision_range s c Hwf) as Hu. pose proof Hwf as [Hx Hy _ _ _ Hr].
  destruct (checked_add 64 (revision s c) 1) as [n|] eqn:Hn; apply set_selection_wf; try done.
  - by rewrite dom_insert_present by (by rewrite Hx).
  - by rewrite dom_insert_present by (by rewrite Hy).
  - apply checked_add_one in Hn as [-> Hlt]. apply insert_range; [done|]. revert Hu Hlt. int_lia.
  - unfold or_insert. destruct (selection_revisions s !! c); [done|].
    apply insert_range; [done|]. int_lia.
Qed.

Lemma set_selected_target_connected s c ctx sess :
  connected_clients (set_selected_target s c ctx sess) = connected_clients s.
Proof. unfold set_selected_target. case_decide; [|done]. by destruct (checked_add _ _ _). Qed.

Lemma set_selected_target_follows s c ctx sess :
  follows (set_selected_target s c ctx sess) = follows s.
Proof. unfold set_selected_target. case_decide; [|done]. by destruct (checked_add _ _ _). Qed.

Lemma clear_targets_wf s l : follow_wf s -> follow_wf (clear_targets s l).
Proof.
  revert s; induction l as [|c l IH]; intros s H; [done|]. by apply IH, set_selected_target_wf.
Qed.

Lemma sync_loop_wf s l ctx sess fs : follow_wf s -> follow_wf (sync_loop s l ctx sess fs).1.
Proof.
  revert s; induction fs as [|c fs IH]; intros s H; [done|]. simpl.
  case_decide; [|by apply IH].
  specialize (IH _ (set_selected_target_wf s c ctx sess H)).
  by destruct (sync_loop (set_selected_target s c ctx sess) l ctx sess fs).
Qed.

Lemma set_follows_wf s f :
  follow_wf s ->
  (forall c e, f !! c = Some e -> c ∈ connected_clients s /\
     leader_client_id e ∈ connected_clients s /\ c <> leader_client_id e) ->
  follow_wf (set_follows s f).
Proof. intros [] H. by split. Qed.

Lemma dom_or_insert {A} k (v : A) m : dom (or_insert k v m) = {[k]} ∪ dom m.
Proof.
  unfold or_insert. destruct (m !! k) eqn:H.
  - apply elem_of_dom_2 in H. set_solver.
  - apply dom_insert_L.
Qed.

Lemma connect_wf s c : follow_wf s -> follow_wf (connect_client s c).
Proof.
  intros [H1 H2 H3 H4 H5 H6]. split; simpl; rewrite ?dom_or_insert, ?H1, ?H2, ?H3, ?H4; try done.
  intros f e Hf. destruct (H5 f e Hf) as (? & ? & ?). set_solver.
Qed.

(** Disconnecting removes exactly the follow entries that lead to the client. *)
Lemma remove_followers_spec f ids :
  NoDup ids -> (forall id, id ∈ ids -> is_Some (f !! id)) ->
  (forall c, (remove_followers f ids).1 !! c = if decide (c ∈ ids) then None else f !! c) /\
  gone_follower <$> (remove_followers f ids).2 = ids /\
  (forall u, u ∈ (remove_followers f ids).2 ->
     leader_client_id <$> f !! gone_follower u = Some (former_leader u)).
Proof.
  revert f; induction ids as [|id ids IH]; intros f Hnd Hin; simpl.
  { split_and!; [done|done|]. intros u Hu. by apply elem_of_nil in Hu. }
  apply NoDup_cons in Hnd as [Hid Hnd].
  destruct (Hin id) as [e He]; [apply elem_of_cons; by left|].
  destruct (IH (delete id f) Hnd) as (IH1 & IH2 & IH3).
  { intros j Hj. rewrite lookup_delete_ne; [|by intros ->].
    apply Hin. apply elem_of_cons. by right. }
  destruct (remove_followers (delete id f) ids) as [f' ups]. simpl in *. rewrite He. simpl.
  split_and!.
  - intros c. rewrite IH1. destruct (decide (c = id)) as [->|Hc].
    + rewrite lookup_delete_eq. repeat case_decide; try done. set_solver.
    + rewrite lookup_delete_ne by done. repeat case_decide; try done; set_solver.
  - f_equal. exact IH2.
  - intros u Hu. apply elem_of_cons in Hu as [->|Hu].
    + simpl. by rewrite He.
    + specialize (IH3 u Hu). destruct (decide (gone_follower u = id)) as [Heq|Hne].
      * rewrite Heq, lookup_delete_eq in IH3. done.
      * by rewrite lookup_delete_ne in IH3.
Qed.

Definition impacted (s : FollowState) (c : ClientId) : list ClientId :=
  List.filter (follows_leader (delete c (follows s)) c) (sorted_keys (delete c (follows s))).

Lemma elem_of_impacted s c f :
  f ∈ impacted s c <-> f <> c /\ leader_client_id <$> follows s !! f = Some c.
Proof.
  unfold impacted. rewrite list_elem_of_In, filter_In, <- list_elem_of_In, elem_of_sorted_keys.
  unfold follows_leader. destruct (decide (f = c)) as [->|Hf].
  - rewrite lookup_delete_eq. split; [intros [[? ?] _]; done|tauto].
  - rewrite lookup_delete_ne by done. destruct (follows s !! f) as [e|]; simpl.
    + rewrite bool_decide_eq_true. split; [intros [_ ->]; done|].
      intros [_ [= ->]]. eauto.
    + split; [intros [[? ?] _]; done|intros [_ ?]; done].
Qed.

Lemma NoDup_impacted s c : NoDup (impacted s c).
Proof. apply NoDup_ListNoDup, List.NoDup_filter, NoDup_ListNoDup, NoDup_sorted_keys. Qed.

Lemma disconnect_follows s c f :
  follows (disconnect_client s c).1 !! f =
    if decide (f = c \/ leader_client_id <$> follows s !! f = Some c) then None
    else follows s !! f.
Proof.
  unfold disconnect_client. fold (impacted s c).
  destruct (remove_followers_spec (delete c (follows s)) (impacted s c)) as (H1 & _ & _).
  - apply NoDup_impacted.
  - intros id Hid. apply elem_of_impacted in Hid as [Hne Hid].
    rewrite lookup_delete_ne by done. by destruct (follows s !! id).
  - destruct (remove_followers _ _) as [f' ups]. simpl in *. rewrite H1.
    destruct (decide (f = c)) as [->|Hf].
    + rewrite lookup_delete_eq. repeat case_decide; done || tauto.
    + rewrite lookup_delete_ne by done.
      repeat case_decide; try done; rewrite elem_of_impacted in *; tauto.
Qed.

Lemma disconnect_wf s c : follow_wf s -> follow_wf (disconnect_client s c).1.
Proof.
  intros [H1 H2 H3 H4 H5 H6]. pose proof (disconnect_follows s c) as Hf.
  unfold disconnect_client in *. destruct (remove_followers _ _) as [f' ups]. simpl in *.
  split; simpl; rewrite ?dom_delete_L, ?H1, ?H2, ?H3, ?H4; try done.
  - intros f e He. rewrite Hf in He. case_decide as Hd; [done|].
    destruct (H5 f e He) as (? & ? & ?). rewrite He in Hd. simpl in Hd.
    assert (leader_client_id e <> c) by (intros Heq; apply Hd; right; by f_equal). set_solver.
  - destruct (selection_revisions s !! c) eqn:Hr; [|done].
    apply insert_range; [done|]. by apply saturating_succ, (H6 c).
Qed.

Lemma fence_range l revs :
  (forall c r, revs !! c = Some r -> in_u 64 r) ->
  forall c r, fence revs l !! c = Some r -> in_u 64 r.
Proof.
  revert revs; induction l as [|d l IH]; intros revs H; [done|]. simpl. apply IH.
  apply insert_range; [done|]. apply saturating_succ.
  destruct (revs !! d) eqn:Hd; simpl; [by eapply H|int_lia].
Qed.

Lemma sync_fold_wf s l :
  follow_wf s ->
  follow_wf (foldl (fun s client => (sync_followers_from_leader s client None None).1) s l).
Proof.
  revert s; induction l as [|d l IH]; intros s H; [done|]. by apply IH, sync_loop_wf.
Qed.

Lemma bump_wf s c e reservs ctxs sess :
  follow_wf s -> c ∈ connected_clients s -> revision s c = e -> e < max_u 64 ->
  dom ctxs = dom (selected_contexts s) -> dom sess = dom (selected_sessions s) ->
  follow_wf (set_selection s (<[c := e + 1]> (selection_revisions s)) reservs ctxs sess).
Proof.
  intros Hwf Hc He Hlt Hx Hy. apply set_selection_wf; try done. apply insert_range.
  - apply Hwf.
  - pose proof (revision_range s c Hwf). subst e. revert H Hlt. int_lia.
Qed.

Lemma keep_err {E A} s (r : result E (FollowState * A)) s' e : keep s r = (s', Err e) -> s' = s.
Proof. destruct r as [[]|]; simpl; congruence. Qed.

Lemma step_wf s o : follow_wf s -> restores_wf o -> follow_wf (step s o).
Proof.
  intros Hwf Ho. pose proof Hwf as [H1 H2 H3 H4 H5 H6]. destruct o; simpl.
  - by apply connect_wf.
  - by apply disconnect_wf.
  - by apply set_selected_target_wf.
  - unfold start_follow. case_decide; [done|]. case_decide as Hl; [done|].
    case_decide as Hf; [done|].
    assert (Hs : follow_wf (set_follows s (<[follower := mkFollowEntry leader global0]> (follows s)))).
    { apply set_follows_wf; [done|]. intros c e. destruct (decide (c = follower)) as [->|Hc].
      - rewrite lookup_insert_eq. by intros [= <-].
      - rewrite lookup_insert_ne by done. apply H5. }
    destruct global0; [by apply set_selected_target_wf|done].
  - apply set_follows_wf; [done|]. intros c e. rewrite lookup_delete_Some.
    intros [_ He]. by apply H5.
  - by apply sync_loop_wf.
  - unfold set_attached_stream_session. case_decide; [|done]. split; simpl; try done.
    by rewrite dom_insert_present by (by rewrite H3).
  - unfold set_attach_detach_allowed. case_decide; [|done]. split; simpl; try done.
    by rewrite dom_insert_present by (by rewrite H4).
  - destruct (begin_selection s c expected) as [s' [sel|e]] eqn:H.
    + apply begin_ok in H as ((? & ? & _) & ? & -> & _). by apply bump_wf.
    + apply keep_err in H as ->. done.
  - destruct (recover_selection s c expected) as [s' [sel|e]] eqn:H.
    + apply recover_ok in H as ((? & ? & _) & ? & -> & _).
      apply bump_wf; try done; rewrite dom_insert_present by (by rewrite ?H1, ?H2); done.
    + apply keep_err in H as ->. done.
  - destruct (commit_selection s c expected ctx sess) as [s' [sel|e]] eqn:H.
    + apply commit_ok in H as ((? & ? & _) & ? & -> & _).
      apply bump_wf; try done; rewrite dom_insert_present by (by rewrite ?H1, ?H2); done.
    + apply keep_err in H as ->. done.
  - by apply clear_targets_wf.
  - apply clear_targets_wf, set_follows_wf; [done|]. intros c e. by rewrite lookup_empty.
  - by apply sync_fold_wf, clear_targets_wf.
  - destruct Ho. split; simpl; try done. by apply fence_range.
Qed.

Lemma default_wf : follow_wf FollowState_default.
Proof. split; simpl; rewrite ?dom_empty_L; try done; intros *; by rewrite lookup_empty. Qed.

Lemma run_wf s ops : follow_wf s -> Forall restores_wf ops -> follow_wf (run s ops).
Proof.
  unfold run. revert s; induction ops as [|o ops IH]; intros s Hwf Ho; [done|].
  apply Forall_cons in Ho as [Ho Hos]. simpl. apply IH; [by apply step_wf|done].
Qed.

(** ** What clearing and synchronising leave behind *)

(** After an assignment the client's target is the one assigned, or is suspended
    because its revisions are exhausted. *)
(** A write leaves a client suspended when it holds a reservation already, or when
    its revisions are used up and the write makes one. *)
Definition stays_suspended (s : FollowState) (c : ClientId) : bool :=
  match selection_reservations s !! c, checked_add 64 (revision s c) 1 with
  | None, Some _ => false
  | _, _ => true
  end.

Lemma set_selected_target_visible s c ctx sess :
  c ∈ connected_clients s ->
  selected_target (set_selected_target s c ctx sess) c =
    Some (if stays_suspended s c then (None, None) else (ctx, sess)).
Proof.
  intros Hc. unfold set_selected_target, stays_suspended. rewrite decide_True by done.
  destruct (checked_add _ _ _); unfold selected_target; simpl.
  - destruct (selection_reservations s !! c); [done|]. by rewrite !lookup_insert_eq.
  - rewrite lookup_insert_eq. by destruct (selection_reservations s !! c).
Qed.

Lemma set_selected_target_suspended_other s c d ctx sess :
  d <> c -> stays_suspended (set_selected_target s c ctx sess) d = stays_suspended s d.
Proof.
  intros Hd. unfold set_selected_target. case_decide; [|done].
  destruct (checked_add _ _ _); unfold stays_suspended, revision; simpl;
    rewrite ?lookup_insert_ne by done; [done|].
  unfold or_insert. destruct (selection_revisions s !! c); [done|]. by rewrite lookup_insert_ne.
Qed.

Lemma set_selected_target_other s c d ctx sess :
  d <> c -> selected_target (set_selected_target s c ctx sess) d = selected_target s d.
Proof.
  intros Hd. unfold set_selected_target. case_decide; [|done].
  destruct (checked_add _ _ _); unfold selected_target; simpl; by rewrite !lookup_insert_ne.
Qed.

Definition targets (s : FollowState) (c : ClientId) (session : SessionId) : Prop :=
  exists ctx, selected_target s c = Some (ctx, Some session).

Lemma clear_target_targets s c d session :
  targets (set_selected_target s c None None) d session -> targets s d session.
Proof.
  intros [ctx H]. destruct (decide (d = c)) as [->|Hd].
  - destruct (decide (c ∈ connected_clients s)) as [Hc|Hc].
    + rewrite set_selected_target_visible in H by done. by destruct (stays_suspended s c).
    + unfold set_selected_target in H. rewrite decide_False in H by done. by exists ctx.
  - rewrite set_selected_target_other in H by done. by exists ctx.
Qed.

Lemma clear_targets_targets s l d session :
  follow_wf s -> targets (clear_targets s l) d session -> targets s d session /\ d ∉ l.
Proof.
  revert s; induction l as [|c l IH]; intros s Hwf H; [split; [done|apply not_elem_of_nil]|].
  apply IH in H as [H Hl]; [|by apply set_selected_target_wf].
  split; [by eapply clear_target_targets|]. apply not_elem_of_cons. split; [|done]. intros ->.
  destruct H as [ctx H].
  destruct (decide (c ∈ connected_clients s)) as [Hc|Hc].
  - rewrite set_selected_target_visible in H by done. by destruct (stays_suspended s c).
  - unfold set_selected_target in H. rewrite decide_False in H by done.
    unfold selected_target in H. destruct (selection_reservations s !! c); [congruence|].
    rewrite <- (wf_contexts s Hwf) in Hc. apply not_elem_of_dom in Hc. by rewrite Hc in H.
Qed.

Lemma sync_clear_targets s leader fs d session :
  targets (sync_loop s leader None None fs).1 d session -> targets s d session.
Proof.
  revert s; induction fs as [|c fs IH]; intros s H; [done|]. simpl in H.
  case_decide; [|by apply IH].
  specialize (IH (set_selected_target s c None None)).
  destruct (sync_loop (set_selected_target s c None None) leader None None fs).
  by eapply clear_target_targets, IH.
Qed.

Lemma sync_fold_targets s l d session :
  targets (foldl (fun s client => (sync_followers_from_leader s client None None).1) s l)
    d session -> targets s d session.
Proof.
  revert s; induction l as [|c l IH]; intros s H; [done|].
  apply IH in H. by eapply sync_clear_targets.
Qed.

Lemma sync_loop_connected s leader ctx sess fs :
  connected_clients (sync_loop s leader ctx sess fs).1 = connected_clients s.
Proof.
  revert s; induction fs as [|c fs IH]; intros s; [done|]. simpl. case_decide; [|apply IH].
  specialize (IH (set_selected_target s c ctx sess)). rewrite set_selected_target_connected in IH.
  by destruct (sync_loop (set_selected_target s c ctx sess) leader ctx sess fs).
Qed.

Lemma sync_loop_other s leader ctx sess fs d :
  d ∉ fs -> selected_target (sync_loop s leader ctx sess fs).1 d = selected_target s d.
Proof.
  revert s; induction fs as [|c fs IH]; intros s H; [done|].
  apply not_elem_of_cons in H as [Hd H]. simpl. case_decide; [|by apply IH].
  specialize (IH (set_selected_target s c ctx sess) H).
  destruct (sync_loop (set_selected_target s c ctx sess) leader ctx sess fs). simpl in *.
  rewrite IH. by apply set_selected_target_other.
Qed.

Lemma sync_loop_visible s leader ctx sess fs d :
  NoDup fs -> d ∈ fs -> d ∈ connected_clients s ->
  selected_target (sync_loop s leader ctx sess fs).1 d =
    Some (if stays_suspended s d then (None, None) else (ctx, sess)).
Proof.
  revert s; induction fs as [|c fs IH]; intros s Hnd Hd Hc; [by apply elem_of_nil in Hd|].
  apply NoDup_cons in Hnd as [Hcf Hnd]. simpl.
  destruct (decide (d = c)) as [->|Hne].
  - rewrite decide_True by done.
    pose proof (sync_loop_other (set_selected_target s c ctx sess) leader ctx sess fs c Hcf) as Ho.
    destruct (sync_loop (set_selected_target s c ctx sess) leader ctx sess fs). simpl in *.
    rewrite Ho. by apply set_selected_target_visible.
  - apply elem_of_cons in Hd as [Hd|Hd]; [done|]. case_decide; [|by apply IH].
    specialize (IH (set_selected_target s c ctx sess) Hnd Hd).
    rewrite set_selected_target_connected, set_selected_target_suspended_other in IH by done.
    specialize (IH Hc).
    by destruct (sync_loop (set_selected_target s c ctx sess) leader ctx sess fs).
Qed.

Definition global_followers (s : FollowState) (leader : ClientId) : list ClientId :=
  List.filter (global_follower (follows s) leader) (sorted_keys (follows s)).

Lemma elem_of_global_followers s leader d :
  d ∈ global_followers s leader <-> follows s !! d = Some (mkFollowEntry leader true).
Proof.
  unfold global_followers.
  rewrite list_elem_of_In, filter_In, <- list_elem_of_In, elem_of_sorted_keys.
  unfold global_follower. destruct (follows s !! d) as [[l g]|]; simpl.
  - rewrite andb_true_iff, bool_decide_eq_true. split; [intros [_ [-> ->]]; done|].
    intros [= -> ->]. eauto.
  - split; [intros [[? ?] _]; done|done].
Qed.

Lemma NoDup_global_followers s leader : NoDup (global_followers s leader).
Proof. apply NoDup_ListNoDup, List.NoDup_filter, NoDup_ListNoDup, NoDup_sorted_keys. Qed.

Lemma selected_sessions_other s c d ctx sess :
  d <> c ->
  selected_sessions (set_selected_target s c ctx sess) !! d = selected_sessions s !! d /\
  selected_contexts (set_selected_target s c ctx sess) !! d = selected_contexts s !! d.
Proof.
  intros Hd. unfold set_selected_target. case_decide; [|done].
  destruct (checked_add _ _ _); simpl; rewrite ?lookup_insert_ne by done; done.
Qed.

Lemma sync_loop_updates s leader ctx sess fs u :
  NoDup fs ->
  u ∈ (sync_loop s leader ctx sess fs).2 <->
  exists d, u = mkUpdate d leader ctx sess /\ d ∈ fs /\ d ∈ connected_clients s /\
    (flat_get (selected_sessions s) d <> sess \/ flat_get (selected_contexts s) d <> ctx).
Proof.
  revert s; induction fs as [|c fs IH]; intros s Hnd; simpl.
  { split; [intros H; by apply elem_of_nil in H|].
    intros (d & _ & H & _). by apply elem_of_nil in H. }
  apply NoDup_cons in Hnd as [Hcf Hnd].
  destruct (decide (c ∈ connected_clients s)) as [Hc|Hc].
  2: { rewrite IH by done. split.
       - intros (d & -> & Hd & ? & ?). exists d. split_and!; try done. by apply elem_of_cons; right.
       - intros (d & -> & Hd & ? & ?). exists d. split_and!; try done.
         by apply elem_of_cons in Hd as [->|]. }
  specialize (IH (set_selected_target s c ctx sess) Hnd).
  destruct (sync_loop (set_selected_target s c ctx sess) leader ctx sess fs) as [s' ups].
  simpl in *. rewrite set_selected_target_connected in IH.
  assert (Hrest : u ∈ ups <-> exists d, u = mkUpdate d leader ctx sess /\ d ∈ fs /\
    d ∈ connected_clients s /\
    (flat_get (selected_sessions s) d <> sess \/ flat_get (selected_contexts s) d <> ctx)).
  { rewrite IH. unfold flat_get. split; intros (d & -> & Hd & Hdc & Hch); exists d;
      (destruct (selected_sessions_other s c d ctx sess) as [E1 E2]; [by intros ->|]);
      rewrite E1, E2 in *; done. }
  assert (Hcons : (exists d, u = mkUpdate d leader ctx sess /\ d ∈ c :: fs /\
      d ∈ connected_clients s /\ (flat_get (selected_sessions s) d <> sess \/
      flat_get (selected_contexts s) d <> ctx)) <->
    (u = mkUpdate c leader ctx sess /\ (flat_get (selected_sessions s) c <> sess \/
      flat_get (selected_contexts s) c <> ctx)) \/ u ∈ ups).
  { rewrite Hrest. split.
    - intros (d & -> & Hd & Hdc & Hch). apply elem_of_cons in Hd as [->|Hd]; [by left|].
      right. by exists d.
    - intros [[-> Hch]|(d & -> & Hd & Hdc & Hch)].
      + exists c. split_and!; try done. apply elem_of_cons. by left.
      + exists d. split_and!; try done. apply elem_of_cons. by right. }
  rewrite Hcons, <- bool_decide_or. case_bool_decide as Hb; [rewrite elem_of_cons|]; tauto.
Qed.

(** ** The component's properties *)

(** C35: a reservation commits only if nothing touched the client since it began,
    as long as no restore dropped the client.  If [commit_selection] accepts the
    revision [begin_selection] returned, and the operations other callers ran in
    between are any but restores of a snapshot without the client (disconnects,
    follows, clears and restores that keep the client are all allowed), then at
    every moment in between the client was connected, its revision stood still, its visible target was suspended
    and its stored target was the one before the reservation; the commit then
    makes exactly the requested target visible.  Revisions saturate instead of
    wrapping, so no such sequence brings an old revision back.  The excluded restores do revive a
    reservation: [restore_revives_reservation]. *)
Theorem reservation_commits_only_untouched (s s1 s3 : FollowState) (c : ClientId) (e : Z)
    (sel sel' : Selection) (before after : list op) (ctx : option Uuid) (sess : option SessionId) :
  follow_wf s -> begin_selection s c e = (s1, Ok sel) ->
  Forall (keeps c) (before ++ after) ->
  commit_selection (run s1 (before ++ after)) c (sel_revision sel) ctx sess = (s3, Ok sel') ->
  let m := run s1 before in
  c ∈ connected_clients m /\ revision m c = sel_revision sel /\
  selected_target m c = Some (None, None) /\
  selected_contexts m !! c = selected_contexts s !! c /\
  selected_sessions m !! c = selected_sessions s !! c /\
  selected_target s3 c = Some (ctx, sess).
Proof.
  intros Hwf Hb Hk Hc m.
  apply begin_ok in Hb as ((He & Hlt & _) & Hcon & -> & Hsel & _).
  unfold selection in Hsel. case_decide; [done|]. injection Hsel as <-.
  unfold revision in Hc |- *. simpl in Hc |- *. rewrite lookup_insert_eq in Hc |- *.
  simpl in Hc |- *.
  apply commit_ok in Hc as ((Hr & Hlt' & _) & _ & -> & _ & Hres & _).
  set (s1 := set_selection _ _ _ _ _) in *.
  apply Forall_app in Hk as [Hk1 Hk2].
  assert (Hu : in_u 64 (e + 1)).
  { pose proof (revision_range s c Hwf). revert H0 Hlt He. int_lia. }
  assert (Hs1 : selection_revisions s1 !! c = Some (e + 1)) by apply lookup_insert_eq.
  destruct (run_advances s1 before c Hk1 _ Hs1 Hu) as (r1 & Hr1 & Hle1 & Hu1 & Hf1).
  destruct (run_advances (run s1 before) after c Hk2 _ Hr1 Hu1) as (r2 & Hr2 & Hle2 & _ & _).
  assert (Happ : run s1 (before ++ after) = run (run s1 before) after)
    by (unfold run; apply foldl_app).
  rewrite Happ in Hr. unfold revision in Hr. rewrite Hr2 in Hr. simpl in Hr.
  assert (r1 = e + 1) as -> by lia.
  assert (Hslot : slot_ok s1 c).
  { split; [done|]. simpl. rewrite <- (wf_contexts s Hwf) in Hcon. split.
    - by apply elem_of_dom.
    - apply elem_of_dom. by rewrite (wf_sessions s Hwf), <- (wf_contexts s Hwf). }
  destruct (Hf1 Hslot Hlt' eq_refl) as [F1 F2 F3 F4]. fold m in Hr1, F1, F2, F3, F4.
  split_and!.
  - by apply F1.
  - by rewrite Hr1.
  - unfold selected_target. rewrite F2. simpl. by rewrite lookup_insert_eq.
  - done.
  - done.
  - unfold selected_target. simpl. by rewrite lookup_delete_eq, !lookup_insert_eq.
Qed.

Definition two_clients : FollowState :=
  run FollowState_default [Connect 1; Connect 2; SetTarget 1 None (Some 10%N)].

Lemma two_clients_wf : follow_wf two_clients.
Proof. apply run_wf; [apply default_wf|]. by repeat constructor. Qed.

Lemma reservation_commits_only_untouched_witness :
  let s1 := (begin_selection two_clients 1 1).1 in
  let m := run s1 [SetTarget 2 None (Some 7%N); StartFollow 2 1 true] in
  selected_target m 1 = Some (None, None) /\
  selected_target (commit_selection (run m [StopFollow 2]) 1 2 (Some 3%N) (Some 4%N)).1 1
    = Some (Some 3%N, Some 4%N).
Proof.
  destruct (reservation_commits_only_untouched two_clients
    (begin_selection two_clients 1 1).1
    (commit_selection (run (begin_selection two_clients 1 1).1
       ([SetTarget 2 None (Some 7%N); StartFollow 2 1 true] ++ [StopFollow 2])) 1 2
       (Some 3%N) (Some 4%N)).1
    1 1 (mkSelection 2 None (Some 10%N) true) (mkSelection 3 (Some 3%N) (Some 4%N) false)
    [SetTarget 2 None (Some 7%N); StartFollow 2 1 true] [StopFollow 2] (Some 3%N) (Some 4%N))
    as (_ & _ & H1 & _ & _ & H2).
  - apply two_clients_wf.
  - by vm_compute.
  - by repeat constructor.
  - by vm_compute.
  - by split.
Defined.

(** C12: the roster invariant.  Every state reachable from the initial one by any
    sequence of operations (snapshots restored being well-formed themselves) has a
    target, stream and detach entry for exactly the connected clients, follow
    relations only between two distinct connected clients, and revisions within
    64 bits. *)
Theorem reachable_follow_state_wf (ops : list op) :
  Forall restores_wf ops -> follow_wf (run FollowState_default ops).
Proof. intros H. apply run_wf; [apply default_wf|done]. Qed.

Lemma reachable_follow_state_wf_witness :
  follow_wf (run FollowState_default
    [Connect 1; Connect 2; StartFollow 1 2 true; RestoreSnapshot (snapshot FollowState_default)]).
Proof.
  apply (reachable_follow_state_wf
    [Connect 1; Connect 2; StartFollow 1 2 true; RestoreSnapshot (snapshot FollowState_default)]).
  repeat constructor; simpl; rewrite ?dom_empty_L; try done; rewrite lookup_empty in *; done.
Defined.

(** disconnecting a client reports exactly the clients that followed it, each
    once and in ascending order, removes their follow relations and its own,
    leaves every other relation alone, and forgets the client's target. *)
Theorem disconnect_reports_followers (s : FollowState) (c : ClientId) :
  let r := disconnect_client s c in
  (forall f l, mkGone f l ∈ r.2 <->
     f <> c /\ l = c /\ leader_client_id <$> follows s !! f = Some c) /\
  NoDup (gone_follower <$> r.2) /\ Sorted N.le (gone_follower <$> r.2) /\
  (forall f, follows r.1 !! f =
     if decide (f = c \/ leader_client_id <$> follows s !! f = Some c) then None
     else follows s !! f) /\
  c ∉ connected_clients r.1 /\ selected_target r.1 c = None.
Proof.
  pose proof (disconnect_follows s c) as Hfol.
  assert (Hin : forall id, id ∈ impacted s c -> is_Some (delete c (follows s) !! id)).
  { intros id Hid. apply elem_of_impacted in Hid as [Hne Hid].
    rewrite lookup_delete_ne by done. by destruct (follows s !! id). }
  destruct (remove_followers_spec _ _ (NoDup_impacted s c) Hin) as (_ & H2 & H3).
  unfold disconnect_client in *. fold (impacted s c) in *.
  destruct (remove_followers (delete c (follows s)) (impacted s c)) as [f' ups].
  cbn [fst snd] in *. rewrite H2. split_and!.
  - intros f l. split.
    + intros Hu. assert (Hf : f ∈ impacted s c).
      { rewrite <- H2. apply (list_elem_of_fmap_2 gone_follower) in Hu. done. }
      specialize (H3 _ Hu). simpl in H3. apply elem_of_impacted in Hf as [Hne Hf].
      rewrite lookup_delete_ne in H3 by done. split_and!; [done|congruence|done].
    + intros (Hne & -> & Hf). assert (Hfi : f ∈ impacted s c) by by apply elem_of_impacted.
      rewrite <- H2 in Hfi. apply list_elem_of_fmap in Hfi as ([f2 l2] & Heq & Hu).
      simpl in Heq. subst f2. specialize (H3 _ Hu). simpl in H3.
      rewrite lookup_delete_ne, Hf in H3 by done. by injection H3 as ->.
  - apply NoDup_impacted.
  - apply Sorted_filter_keys.
  - done.
  - simpl. set_solver.
  - unfold selected_target. simpl. by rewrite !lookup_delete_eq.
Qed.

(** C36: synchronising followers shows every connected global follower of the
    leader the leader's target, except exactly those that hold a reservation or
    are out of revisions, which read as suspended ([(None, None)]); it changes no
    other client's target, and reports exactly the connected global followers whose
    stored context or session was different, suspended ones included. *)
Theorem sync_reaches_global_followers (s : FollowState) (leader : ClientId)
    (ctx : option Uuid) (sess : option SessionId) :
  let r := sync_followers_from_leader s leader ctx sess in
  (forall d, follows s !! d = Some (mkFollowEntry leader true) -> d ∈ connected_clients s ->
     selected_target r.1 d =
       Some (if stays_suspended s d then (None, None) else (ctx, sess))) /\
  (forall d, follows s !! d <> Some (mkFollowEntry leader true) ->
     selected_target r.1 d = selected_target s d) /\
  (forall u, u ∈ r.2 <-> exists d, u = mkUpdate d leader ctx sess /\
     follows s !! d = Some (mkFollowEntry leader true) /\ d ∈ connected_clients s /\
     (flat_get (selected_sessions s) d <> sess \/ flat_get (selected_contexts s) d <> ctx)).
Proof.
  unfold sync_followers_from_leader. fold (global_followers s leader). cbn zeta. split_and!.
  - intros d Hd Hc. apply sync_loop_visible; [apply NoDup_global_followers| |done].
    by apply elem_of_global_followers.
  - intros d Hd. apply sync_loop_other. by rewrite elem_of_global_followers.
  - intros u. rewrite sync_loop_updates by apply NoDup_global_followers.
    by setoid_rewrite elem_of_global_followers.
Qed.

(** once a session's selections are cleared no client's target is that session,
    not even for a client whose revisions are exhausted. *)
Theorem cleared_session_untargeted (s : FollowState) (session : SessionId) (c : ClientId) :
  follow_wf s -> ~ targets (clear_selections_for_session s session) c session.
Proof.
  intros Hwf H. unfold clear_selections_for_session in H.
  apply sync_fold_targets, clear_targets_targets in H as [[ctx H] Hn]; [|done].
  apply Hn. rewrite list_elem_of_In, filter_In, <- list_elem_of_In, elem_of_sorted_keys.
  unfold selected_target in H. destruct (selection_reservations s !! c); [done|].
  destruct (selected_contexts s !! c); [|done].
  destruct (selected_sessions s !! c); [|done]. injection H as -> ->.
  split; [eauto|]. by apply bool_decide_eq_true_2.
Qed.

Lemma cleared_session_untargeted_witness :
  ~ targets (clear_selections_for_session two_clients 10) 1 10 /\
  selected_target two_clients 1 = Some (None, Some 10%N).
Proof.
  split; [apply (cleared_session_untargeted two_clients 10 1), two_clients_wf|by vm_compute].
Defined.

(** a restore that drops a client does not fence its reservation.  A client
    reserves its selection, the server restores a snapshot without it, the client
    identifier connects again, and the reservation made before the restore still
    commits: its revision is the old one and its reservation was kept. *)
Theorem restore_revives_reservation :
  let s0 := run FollowState_default [Connect 1; BeginSelection 1 0] in
  let s1 := run s0 [RestoreSnapshot (snapshot FollowState_default); Connect 1] in
  1%N ∉ connected_clients (run s0 [RestoreSnapshot (snapshot FollowState_default)]) /\
  revision s1 1 = revision s0 1 /\
  (commit_selection s1 1 1 None (Some 5%N)).2 = Ok (mkSelection 2 None (Some 5%N) false).
Proof. split; [apply not_elem_of_empty|]. by vm_compute. Qed.
