(* ===== verification/VtParser.v ===== *)
(** * The terminal syntax decoder

    [src/packages/terminal-grid/src/vt_parser.rs]: the byte-driven parser that
    turns a pane's output into printed characters and control callbacks, with
    its fixed-size storage, and the replay prefix from which a fresh parser is
    brought back to a snapshot's state.

    [Perform]'s callbacks are the constructors of [Action]; an operation returns
    the parser after it and the callbacks it made, in order.  The fixed arrays
    are lists that keep their length; the invariant [wf] puts every index the
    code uses within them, so no access can panic. *)

From S2P Require Import Prelude Utf8.

(** ** Parameters *)

Record Params := mkParams {
  values : list Z;
  ends : list nat;
  used : nat;
  groups : nat;
}.

Definition Params_new : Params := mkParams (replicate 32 0) (replicate 32 0%nat) 0 0.

Definition Params_clear (self : Params) : Params :=
  mkParams (values self) (replicate 32 0%nat) 0 0.

Definition append (self : Params) (value : Z) (close : bool) : Params * bool :=
  if decide (used self = length (values self)) then (self, false)
  else
    let values' := <[used self := value]> (values self) in
    let used' := S (used self) in
    let ends' := <[groups self := used']> (ends self) in
    (mkParams values' ends' used' (if close then S (groups self) else groups self), true).

Definition finish (self : Params) (value : Z) : Params * bool :=
  let '(self', stored) := append self value true in
  if stored then (self', true)
  else if decide (groups self' < length (ends self') /\
                  ends self' !! groups self' = Some (used self'))%nat
  then (mkParams (values self') (ends self') (used self') (S (groups self')), false)
  else (self', false).

(** [ParamsIter]: the groups from index [group] on, the first of which starts at
    [start]. *)
Fixpoint iter_from (self : Params) (group start remaining : nat) : list (list Z) :=
  match remaining with
  | O => []
  | S remaining =>
      let end_ := default 0%nat (ends self !! group) in
      take (end_ - start) (drop start (values self))
        :: iter_from self (S group) end_ remaining
  end.

Definition iter (self : Params) : list (list Z) := iter_from self 0 0 (groups self).

(** ** The parser's state *)

Inductive Action :=
| APrint (character : Z)
| AExecute (byte : Z)
| AHook (params : list (list Z)) (intermediates : list Z) (ignore : bool) (action : Z)
| APut (byte : Z)
| AUnhook
| AOscDispatch (params : list (list Z)) (bell_terminated : bool)
| ACsiDispatch (params : list (list Z)) (intermediates : list Z) (ignore : bool) (action : Z)
| AEscDispatch (intermediates : list Z) (ignore : bool) (byte : Z).

Inductive State : Set :=
| Text | Escape | EscapeCollect
| CsiStart | CsiNumbers | CsiCollect | CsiDiscard
| DcsStart | DcsNumbers | DcsCollect | DcsDiscard | DcsData
| Osc | OscEscape | StringDiscard.

#[export] Instance State_eq_dec : EqDecision State.
Proof. solve_decision. Defined.

Record Parser := mkParser {
  state : State;
  params : Params;
  number : Z;
  intermediates : list Z;
  intermediate_len : nat;
  ignored : bool;
  osc : list Z;
  osc_len : nat;
  osc_ends : list nat;
  osc_args : nat;
  osc_overflow : bool;
  utf8 : list Z;
  utf8_len : nat;
  utf8_expected : nat;
}.

Definition new_with_size (N : nat) : Parser := {|
  state := Text; params := Params_new; number := 0;
  intermediates := replicate 2 0; intermediate_len := 0; ignored := false;
  osc := replicate N 0; osc_len := 0; osc_ends := replicate 16 0%nat; osc_args := 0;
  osc_overflow := false; utf8 := replicate 4 0; utf8_len := 0; utf8_expected := 0;
|}.

Definition new : Parser := new_with_size 1024.

Definition set_state (p : Parser) (s : State) : Parser :=
  mkParser s (params p) (number p) (intermediates p) (intermediate_len p) (ignored p) (osc p)
    (osc_len p) (osc_ends p) (osc_args p) (osc_overflow p) (utf8 p) (utf8_len p) (utf8_expected p).
Definition set_header (p : Parser) (ps : Params) (n : Z) (im : list Z) (il : nat) (ig : bool)
  : Parser :=
  mkParser (state p) ps n im il ig (osc p) (osc_len p) (osc_ends p) (osc_args p)
    (osc_overflow p) (utf8 p) (utf8_len p) (utf8_expected p).
Definition set_osc (p : Parser) (o : list Z) (ol : nat) (oe : list nat) (oa : nat) (ov : bool)
  : Parser :=
  mkParser (state p) (params p) (number p) (intermediates p) (intermediate_len p) (ignored p)
    o ol oe oa ov (utf8 p) (utf8_len p) (utf8_expected p).
Definition set_utf8 (p : Parser) (u : list Z) (ul ue : nat) : Parser :=
  mkParser (state p) (params p) (number p) (intermediates p) (intermediate_len p) (ignored p)
    (osc p) (osc_len p) (osc_ends p) (osc_args p) (osc_overflow p) u ul ue.

Definition clear_header (p : Parser) : Parser :=
  set_header p (Params_clear (params p)) 0 (intermediates p) 0 false.

Definition collect (p : Parser) (byte : Z) : Parser :=
  if decide (intermediate_len p < length (intermediates p))%nat
  then set_header p (params p) (number p) (<[intermediate_len p := byte]> (intermediates p))
         (S (intermediate_len p)) (ignored p)
  else set_header p (params p) (number p) (intermediates p) (intermediate_len p) true.

Definition parameter (p : Parser) (byte : Z) : Parser :=
  if decide (used (params p) = 32%nat)
  then set_header p (params p) (number p) (intermediates p) (intermediate_len p) true
  else if decide (48 <= byte <= 57)
  then set_header p (params p)
         (saturating_add 16 (saturating_mul 16 (number p) 10) (byte - 48))
         (intermediates p) (intermediate_len p) (ignored p)
  else if decide (byte = 58 \/ byte = 59)
  then set_header p (append (params p) (number p) (bool_decide (byte = 59))).1 0
         (intermediates p) (intermediate_len p) (ignored p)
  else p.

Definition finish_header (p : Parser) : Parser :=
  let '(ps, ok) := finish (params p) (number p) in
  set_header p ps (number p) (intermediates p) (intermediate_len p)
    (if ok then ignored p else true).

Definition is_pointer_osc (p : Parser) : bool :=
  negb (bool_decide (osc_args p = 0%nat)) &&
  bool_decide (osc_ends p !! 0%nat = Some 2%nat) &&
  bool_decide (take 2 (osc p) = [50; 50]).

(** The slices [osc[start..end]] that [end_string] hands to [osc_dispatch]. *)
Fixpoint osc_slices (bytes : list Z) (start : nat) (ends : list nat) : list (list Z) :=
  match ends with
  | [] => []
  | end_ :: rest => take (end_ - start) (drop start bytes) :: osc_slices bytes end_ rest
  end.

Definition end_string (p : Parser) (bell : bool) : Parser * list Action :=
  match state p with
  | DcsData => (p, [AUnhook])
  | Osc | OscEscape =>
      if is_pointer_osc p && osc_overflow p then (p, [])
      else
        let p' :=
          if decide (osc_args p < 16)%nat
          then set_osc p (osc p) (osc_len p) (<[osc_args p := osc_len p]> (osc_ends p))
                 (S (osc_args p)) (osc_overflow p)
          else p in
        (p', [AOscDispatch (osc_slices (osc p') 0 (take (osc_args p') (osc_ends p'))) bell])
  | _ => (p, [])
  end.

Definition pointer_string_control (p : Parser) (byte : Z) : Parser * list Action * bool :=
  if decide (state p = OscEscape) then
    if decide (byte = 92) then
      let '(p, acts) := end_string p false in
      (set_state p Text, acts, true)
    else (clear_header (set_state p Escape), [], false)
  else if bool_decide (state p = Osc) && is_pointer_osc p then
    if decide (byte = 27) then (set_state p OscEscape, [], true)
    else if decide (byte = 24 \/ byte = 26) then (set_state p Text, [], true)
    else (p, [], false)
  else (p, [], false).

(** ** UTF-8 *)

Definition REPLACEMENT : Z := 65533.

Definition complete_saved_utf8 (p : Parser) (added : nat) : Parser * list Action * nat :=
  let original := (utf8_len p - added)%nat in
  let '(chars, valid_up_to, outcome) := from_utf8 (take (utf8_len p) (utf8 p)) in
  match outcome with
  | Utf8_ok =>
      match chars with
      | [] => (set_utf8 p (utf8 p) 0 (utf8_expected p), [], (0 - original)%nat)
      | c :: _ => (set_utf8 p (utf8 p) 0 (utf8_expected p), [APrint c],
                   (len_utf8 c - original)%nat)
      end
  | Utf8_error error_len =>
      if decide (valid_up_to <> 0)%nat then
        (set_utf8 p (utf8 p) 0 (utf8_expected p),
         match chars with [] => [] | c :: _ => [APrint c] end,
         (valid_up_to - original)%nat)
      else
        match error_len with
        | Some length => (set_utf8 p (utf8 p) 0 (utf8_expected p), [APrint REPLACEMENT],
                          (length - original)%nat)
        | None => (p, [], added)
        end
  end.

Definition continue_utf8 (p : Parser) (byte : Z) : Parser * list Action * bool :=
  let first := default 0 (utf8 p !! 0%nat) in
  let valid :=
    bool_decide (128 <= byte <= 191) &&
    (negb (bool_decide (utf8_len p = 1%nat)) ||
     (if decide (first = 224) then bool_decide (160 <= byte)
      else if decide (first = 237) then bool_decide (byte <= 159)
      else if decide (first = 240) then bool_decide (144 <= byte)
      else if decide (first = 244) then bool_decide (byte <= 143)
      else true)) in
  if negb valid then (set_utf8 p (utf8 p) 0 (utf8_expected p), [APrint REPLACEMENT], false)
  else
    let u := <[utf8_len p := byte]> (utf8 p) in
    let ul := S (utf8_len p) in
    if decide (ul = utf8_expected p) then
      let '(chars, _, outcome) := from_utf8 (take ul u) in
      let acts :=
        match outcome, chars with
        | Utf8_ok, c :: _ => if decide (128 <= c <= 159) then [AExecute c] else [APrint c]
        | _, _ => []
        end in
      (set_utf8 p u 0 (utf8_expected p), acts, true)
    else (set_utf8 p u ul (utf8_expected p), [], true).

(** ** Consuming bytes *)

Definition text (p : Parser) (byte : Z) : Parser * list Action :=
  if decide (0 <= byte <= 31 \/ 128 <= byte <= 159) then (p, [AExecute byte])
  else if decide (32 <= byte <= 127) then (p, [APrint byte])
  else if decide (194 <= byte <= 244) then
    (set_utf8 p (<[0%nat := byte]> (utf8 p)) 1
       (if decide (byte < 224) then 2%nat else if decide (byte < 240) then 3%nat else 4%nat), [])
  else (p, [APrint REPLACEMENT]).

Definition escape (p : Parser) (byte : Z) : Parser * list Action :=
  if decide (0 <= byte <= 31) then (p, [AExecute byte])
  else if decide (32 <= byte <= 47) then (set_state (collect p byte) EscapeCollect, [])
  else if decide (byte = 91 /\ state p = Escape) then (set_state (clear_header p) CsiStart, [])
  else if decide (byte = 80 /\ state p = Escape) then (set_state (clear_header p) DcsStart, [])
  else if decide (byte = 93 /\ state p = Escape) then
    (set_state (set_osc p (osc p) 0 (osc_ends p) 0 false) Osc, [])
  else if decide ((byte = 88 \/ byte = 94 \/ byte = 95) /\ state p = Escape) then
    (set_state p StringDiscard, [])
  else if decide (48 <= byte <= 126) then
    (set_state p Text,
     [AEscDispatch (take (intermediate_len p) (intermediates p)) (ignored p) byte])
  else (p, []).

Definition is_dcs (s : State) : bool :=
  match s with DcsStart | DcsNumbers | DcsCollect => true | _ => false end.
Definition is_collecting (s : State) : bool :=
  match s with CsiCollect | DcsCollect => true | _ => false end.
Definition is_entry (s : State) : bool :=
  match s with CsiStart | DcsStart => true | _ => false end.

Definition header (p : Parser) (byte : Z) : Parser * list Action :=
  let dcs := is_dcs (state p) in
  let collecting := is_collecting (state p) in
  let entry := is_entry (state p) in
  if decide (0 <= byte <= 31) then (p, if dcs then [] else [AExecute byte])
  else if decide (32 <= byte <= 47) then
    (set_state (collect p byte) (if dcs then DcsCollect else CsiCollect), [])
  else if decide (48 <= byte <= 63) then
    if collecting || (bool_decide (60 <= byte) && negb entry)
    then (set_state p (if dcs then DcsDiscard else CsiDiscard), [])
    else if decide (60 <= byte)
    then (set_state (collect p byte) (if dcs then DcsNumbers else CsiNumbers), [])
    else (set_state (parameter p byte) (if dcs then DcsNumbers else CsiNumbers), [])
  else if decide (64 <= byte <= 126) then
    let p := finish_header p in
    let im := take (intermediate_len p) (intermediates p) in
    if dcs then (set_state p DcsData, [AHook (iter (params p)) im (ignored p) byte])
    else (set_state p Text, [ACsiDispatch (iter (params p)) im (ignored p) byte])
  else (p, []).

(** The [State::Osc] arm of [consume]. *)
Definition osc_byte (p : Parser) (byte : Z) : Parser * list Action :=
  if decide (byte = 7) then
    let '(p, acts) := end_string p true in (set_state p Text, acts)
  else if decide (0 <= byte <= 31) then
    (if is_pointer_osc p
     then set_osc p (osc p) (osc_len p) (osc_ends p) (osc_args p) true else p, [])
  else if decide (byte = 59) then
    (if decide (osc_args p < 16)%nat
     then set_osc p (osc p) (osc_len p) (<[osc_args p := osc_len p]> (osc_ends p))
            (S (osc_args p)) (osc_overflow p)
     else set_osc p (osc p) (osc_len p) (osc_ends p) (osc_args p) true, [])
  else
    (if decide (osc_len p < length (osc p) /\ osc_args p < 16)%nat
     then set_osc p (<[osc_len p := byte]> (osc p)) (S (osc_len p)) (osc_ends p) (osc_args p)
            (osc_overflow p)
     else set_osc p (osc p) (osc_len p) (osc_ends p) (osc_args p) true, []).

(** The second [match] of [consume], on the state. *)
Definition state_byte (p : Parser) (byte : Z) : Parser * list Action :=
  match state p with
  | Text => text p byte
  | Escape | EscapeCollect => escape p byte
  | CsiStart | CsiNumbers | CsiCollect | DcsStart | DcsNumbers | DcsCollect => header p byte
  | CsiDiscard =>
      if decide (0 <= byte <= 31) then (p, [AExecute byte])
      else if decide (64 <= byte <= 126) then (set_state p Text, [])
      else (p, [])
  | DcsData =>
      if decide (byte = 156) then (set_state p Text, [AUnhook])
      else if decide (0 <= byte <= 126) then (p, [APut byte])
      else (p, [])
  | Osc => osc_byte p byte
  | OscEscape => (p, [])
  | DcsDiscard => if decide (byte = 156) then (set_state p Text, []) else (p, [])
  | StringDiscard => (p, [])
  end.

(** The rest of [consume], after saved text and OSC 22 strings. *)
Definition dispatch (p : Parser) (byte : Z) : Parser * list Action :=
  if decide (byte = 24 \/ byte = 26) then
    let '(p, acts) := end_string p false in
    (set_state p Text, acts ++ [AExecute byte])
  else if decide (byte = 27) then
    let '(p, acts) := end_string p false in
    (set_state (clear_header p) Escape, acts)
  else state_byte p byte.

Definition consume (p : Parser) (byte : Z) : Parser * list Action :=
  let '(p, acts1, done1) :=
    if bool_decide (state p = Text) && negb (bool_decide (utf8_len p = 0%nat))
    then continue_utf8 p byte else (p, [], false) in
  if (done1 : bool) then (p, acts1)
  else
    let '(p, acts2, done2) := pointer_string_control p byte in
    if (done2 : bool) then (p, acts1 ++ acts2)
    else let '(p, acts3) := dispatch p byte in (p, acts1 ++ acts2 ++ acts3).

Fixpoint consume_all (p : Parser) (bytes : list Z) : Parser * list Action :=
  match bytes with
  | [] => (p, [])
  | byte :: rest =>
      let '(p, acts) := consume p byte in
      let '(p, acts') := consume_all p rest in
      (p, acts ++ acts')
  end.

(** [Parser::advance]. *)
Definition vt_advance (p : Parser) (bytes : list Z) : Parser * list Action :=
  let '(p, acts, offset) :=
    if decide (utf8_len p <> 0)%nat then
      let count := Nat.min (4 - utf8_len p) (length bytes) in
      let u := take (utf8_len p) (utf8 p) ++ take count bytes
               ++ drop (utf8_len p + count) (utf8 p) in
      complete_saved_utf8 (set_utf8 p u (utf8_len p + count) (utf8_expected p)) count
    else (p, [], 0%nat) in
  let '(p, acts') := consume_all p (drop offset bytes) in
  (p, acts ++ acts').

(** ** The replay prefix *)

(** The digits of a [u16], most significant first: five are enough. *)
Fixpoint digits_loop (fuel : nat) (remaining : Z) (digits : list Z) : list Z :=
  match fuel with
  | O => digits
  | S fuel =>
      let digits := (48 + remaining `mod` 10) :: digits in
      let remaining := remaining / 10 in
      if decide (remaining = 0) then digits else digits_loop fuel remaining digits
  end.

Definition write_number (value : Z) : list Z := digits_loop 5 value [].

(** The loop over [0..self.params.used], from [index] with [group] closed
    groups passed. *)
Fixpoint write_params (self : Params) (index group remaining : nat) : list Z :=
  match remaining with
  | O => []
  | S remaining =>
      let closed := bool_decide (group < groups self)%nat &&
                    bool_decide (ends self !! group = Some (S index)) in
      write_number (default 0 (values self !! index)) ++ [if closed then 59 else 58]
        ++ write_params self (S index) (if closed then S group else group) remaining
  end.

Fixpoint write_segments (bytes : list Z) (start : nat) (ends : list nat) (stop : nat)
  : list Z :=
  match ends with
  | [] => take (stop - start) (drop start bytes)
  | end_ :: rest =>
      take (end_ - start) (drop start bytes) ++ [59] ++ write_segments bytes end_ rest stop
  end.

Definition pointer_prefix (p : Parser) : bool :=
  bool_decide (osc_args p = 0%nat) &&
  (bool_decide (osc_len p = 0%nat) ||
   bool_decide (take (osc_len p) (osc p) = take (length (take (osc_len p) (osc p))) [50; 50])).

Definition write_osc_prefix (p : Parser) : list Z :=
  [27; 93] ++
  (if is_pointer_osc p || pointer_prefix p then
     if osc_overflow p then [50; 50; 59] ++ replicate (length (osc p) + 1) 120
     else write_segments (osc p) 0 (take (osc_args p) (osc_ends p)) (osc_len p)
   else []) ++
  (if decide (state p = OscEscape) then [27] else []).

Definition is_numbers (s : State) : bool :=
  match s with CsiNumbers | DcsNumbers => true | _ => false end.

Definition replay_prefix (p : Parser) : list Z :=
  match state p with
  | Text => take (utf8_len p) (utf8 p)
  | Osc | OscEscape => write_osc_prefix p
  | StringDiscard => [27; 95]
  | DcsData => [27; 80; 113]
  | DcsDiscard => [27; 80; 32; 36; 48]
  | CsiDiscard => [27; 91; 32; 36; 48]
  | Escape | EscapeCollect =>
      [27] ++ take (intermediate_len p) (intermediates p) ++ (if ignored p then [32] else [])
  | CsiStart | CsiNumbers | CsiCollect | DcsStart | DcsNumbers | DcsCollect =>
      let im := take (intermediate_len p) (intermediates p) in
      let private :=
        match im with first :: _ => if decide (60 <= first) then 1%nat else 0%nat
                    | [] => 0%nat end in
      (if is_dcs (state p) then [27; 80] else [27; 91])
        ++ take private im
        ++ write_params (params p) 0 0 (used (params p))
        ++ (if bool_decide (used (params p) <> 0%nat) || bool_decide (number p <> 0)
               || is_numbers (state p)
            then write_number (number p) else [])
        ++ (if ignored p && bool_decide (used (params p) = 32%nat) then [48] else [])
        ++ drop private im
        ++ (if ignored p && bool_decide (used (params p) < 32)%nat then [32] else [])
  end.

(** Feeding a decoder a sequence of chunks. *)
Fixpoint feed (p : Parser) (chunks : list (list Z)) : Parser * list Action :=
  match chunks with
  | [] => (p, [])
  | chunk :: rest =>
      let '(p, acts) := vt_advance p chunk in
      let '(p, acts') := feed p rest in
      (p, acts ++ acts')
  end.
