(* ===== verification/VtSpec.v ===== *)
(** * A reference decoder on lists

    The reference the fixed-storage decoder of [VtParser.v] is compared with: the
    same control automaton with unbounded lists in place of arrays, counters and
    end tables, a state that carries only what can still influence the output,
    and the storage limits as explicit length tests.  [VtParserProps.v] proves
    that the decoder refines it. *)

From S2P Require Import Prelude Utf8 VtParser.

Inductive phase : Set := PStart | PNumbers | PCollect.

#[export] Instance phase_eq_dec : EqDecision phase.
Proof. solve_decision. Defined.

(** The decoder's meaning: pending UTF-8 bytes; an escape sequence; a control
    header with its parameters as (value, closed) pairs; string states. [VDead]
    is an OSC 22 string that has overflowed and will be dropped. *)
Inductive vstate :=
| VText (pending : list Z)
| VEsc (collecting : bool) (im : list Z) (ign : bool)
| VHdr (dcs : bool) (ph : phase) (ps : list (Z * bool)) (n : Z) (im : list Z) (ign : bool)
| VDiscard (dcs : bool)
| VData
| VOsc (args : list (list Z)) (cur : list Z) (over : bool)
| VOscEsc (args : list (list Z)) (cur : list Z)
| VDead (esc : bool)
| VString.

(** The groups closed by a semicolon or the final byte. *)
Fixpoint groups_of (cur : list Z) (ps : list (Z * bool)) : list (list Z) :=
  match ps with
  | [] => []
  | (v, true) :: ps => (cur ++ [v]) :: groups_of [] ps
  | (v, false) :: ps => groups_of (cur ++ [v]) ps
  end.

(** An open last group is closed by overflow. *)
Fixpoint close_last_group (ps : list (Z * bool)) : list (Z * bool) :=
  match ps with
  | [] => []
  | [(v, _)] => [(v, true)]
  | x :: ps => x :: close_last_group ps
  end.

Definition vfinish (ps : list (Z * bool)) (n : Z) : list (list Z) :=
  groups_of [] (if decide (length ps = 32%nat) then close_last_group ps else ps ++ [(n, true)]).

Definition vcollect (im : list Z) (ign : bool) (b : Z) : list Z * bool :=
  if decide (length im < 2)%nat then (im ++ [b], ign) else (im, true).

Definition vparameter (ps : list (Z * bool)) (n : Z) (ign : bool) (b : Z)
  : list (Z * bool) * Z * bool :=
  if decide (length ps = 32%nat) then (ps, n, true)
  else if decide (48 <= b <= 57)
  then (ps, saturating_add 16 (saturating_mul 16 n 10) (b - 48), ign)
  else if decide (b = 58 \/ b = 59)
  then let ps := ps ++ [(n, bool_decide (b = 59))] in
       (ps, 0, ign || bool_decide (length ps = 32%nat))
  else (ps, n, ign).

Definition vtext (b : Z) : vstate * list Action :=
  if decide (0 <= b <= 31 \/ 128 <= b <= 159) then (VText [], [AExecute b])
  else if decide (32 <= b <= 127) then (VText [], [APrint b])
  else if decide (194 <= b <= 244) then (VText [b], [])
  else (VText [], [APrint REPLACEMENT]).

Definition vesc (c : bool) (im : list Z) (ign : bool) (b : Z) : vstate * list Action :=
  if decide (0 <= b <= 31) then (VEsc c im ign, [AExecute b])
  else if decide (32 <= b <= 47) then
    let '(im, ign) := vcollect im ign b in (VEsc true im ign, [])
  else if decide (b = 91 /\ c = false) then (VHdr false PStart [] 0 [] false, [])
  else if decide (b = 80 /\ c = false) then (VHdr true PStart [] 0 [] false, [])
  else if decide (b = 93 /\ c = false) then (VOsc [] [] false, [])
  else if decide ((b = 88 \/ b = 94 \/ b = 95) /\ c = false) then (VString, [])
  else if decide (48 <= b <= 126) then (VText [], [AEscDispatch im ign b])
  else (VEsc c im ign, []).

Definition vhdr (dcs : bool) (ph : phase) (ps : list (Z * bool)) (n : Z) (im : list Z)
    (ign : bool) (b : Z) : vstate * list Action :=
  if decide (0 <= b <= 31) then (VHdr dcs ph ps n im ign, if dcs then [] else [AExecute b])
  else if decide (32 <= b <= 47) then
    let '(im, ign) := vcollect im ign b in (VHdr dcs PCollect ps n im ign, [])
  else if decide (48 <= b <= 63) then
    if bool_decide (ph = PCollect) || (bool_decide (60 <= b) && negb (bool_decide (ph = PStart)))
    then (VDiscard dcs, [])
    else if decide (60 <= b) then
      let '(im, ign) := vcollect im ign b in (VHdr dcs PNumbers ps n im ign, [])
    else let '(ps, n, ign) := vparameter ps n ign b in (VHdr dcs PNumbers ps n im ign, [])
  else if decide (64 <= b <= 126) then
    if dcs then (VData, [AHook (vfinish ps n) im ign b])
    else (VText [], [ACsiDispatch (vfinish ps n) im ign b])
  else (VHdr dcs ph ps n im ign, []).

Definition is_pointer (args : list (list Z)) : bool := bool_decide (head args = Some [50; 50]).

(** The arguments dispatched at the end of an OSC string. *)
Definition vosc_end (args : list (list Z)) (cur : list Z) (bell : bool) : list Action :=
  [AOscDispatch (if decide (length args < 16)%nat then args ++ [cur] else args) bell].

(** An OSC 22 string that has overflowed is dead. *)
Definition vosc (args : list (list Z)) (cur : list Z) (over : bool) : vstate :=
  if is_pointer args && over then VDead false else VOsc args cur over.

Section Capacity.
Context (N : nat).

Definition osc_total (args : list (list Z)) (cur : list Z) : nat := length (concat args ++ cur).

Definition vosc_byte (args : list (list Z)) (cur : list Z) (over : bool) (b : Z)
  : vstate * list Action :=
  if decide (b = 7) then (VText [], vosc_end args cur true)
  else if decide (0 <= b <= 31) then (vosc args cur (over || is_pointer args), [])
  else if decide (b = 59) then
    (if decide (length args < 16)%nat then vosc (args ++ [cur]) [] over
     else vosc args cur true, [])
  else
    (if decide (osc_total args cur < N /\ length args < 16)%nat
     then vosc args (cur ++ [b]) over
     else vosc args cur true, []).

(** CAN, SUB and ESC end whatever is in progress, after the exit callbacks. *)
Definition vinterrupt (exit : list Action) (b : Z) (k : vstate * list Action)
  : vstate * list Action :=
  if decide (b = 24 \/ b = 26) then (VText [], exit ++ [AExecute b])
  else if decide (b = 27) then (VEsc false [] false, exit)
  else k.

(** [continue_utf8]'s test of the next byte of a character. *)
Definition continues (pending : list Z) (b : Z) : bool :=
  match pending with
  | [first] => is_continuation b && second_ok first b
  | _ => is_continuation b
  end.

Definition width (first : Z) : nat :=
  if decide (first < 224) then 2%nat else if decide (first < 240) then 3%nat else 4%nat.

Definition scalar_action (bytes : list Z) : list Action :=
  match decode_char bytes with
  | inr (c, _) => if decide (128 <= c <= 159) then [AExecute c] else [APrint c]
  | inl _ => []
  end.

Definition with_actions (acts : list Action) (r : vstate * list Action) : vstate * list Action :=
  (r.1, acts ++ r.2).

Definition vconsume (v : vstate) (b : Z) : vstate * list Action :=
  match v with
  | VText [] => vinterrupt [] b (vtext b)
  | VText (first :: rest) =>
      if continues (first :: rest) b then
        let bytes := first :: rest ++ [b] in
        if decide (length bytes = width first) then (VText [], scalar_action bytes)
        else (VText bytes, [])
      else with_actions [APrint REPLACEMENT] (vinterrupt [] b (vtext b))
  | VEsc c im ign => vinterrupt [] b (vesc c im ign b)
  | VHdr dcs ph ps n im ign => vinterrupt [] b (vhdr dcs ph ps n im ign b)
  | VDiscard false =>
      vinterrupt [] b
        (if decide (0 <= b <= 31) then (VDiscard false, [AExecute b])
         else if decide (64 <= b <= 126) then (VText [], []) else (VDiscard false, []))
  | VDiscard true =>
      vinterrupt [] b (if decide (b = 156) then (VText [], []) else (VDiscard true, []))
  | VData =>
      vinterrupt [AUnhook] b
        (if decide (b = 156) then (VText [], [AUnhook])
         else if decide (0 <= b <= 126) then (VData, [APut b]) else (VData, []))
  | VOsc args cur over =>
      if is_pointer args then
        if decide (b = 27) then (VOscEsc args cur, [])
        else if decide (b = 24 \/ b = 26) then (VText [], [])
        else vosc_byte args cur over b
      else vinterrupt (vosc_end args cur false) b (vosc_byte args cur over b)
  | VOscEsc args cur =>
      if decide (b = 92) then (VText [], vosc_end args cur false)
      else vinterrupt [] b (vesc false [] false b)
  | VDead false =>
      if decide (b = 27) then (VDead true, [])
      else if decide (b = 24 \/ b = 26) then (VText [], [])
      else if decide (b = 7) then (VText [], []) else (VDead false, [])
  | VDead true =>
      if decide (b = 92) then (VText [], []) else vinterrupt [] b (vesc false [] false b)
  | VString => vinterrupt [] b (VString, [])
  end.

Fixpoint vconsume_all (v : vstate) (bytes : list Z) : vstate * list Action :=
  match bytes with
  | [] => (v, [])
  | b :: rest =>
      let '(v, acts) := vconsume v b in
      let '(v, acts') := vconsume_all v rest in
      (v, acts ++ acts')
  end.

(** A new chunk after an unfinished character: the character is completed from
    at most four bytes at once. *)
Definition vcomplete (pending bytes : list Z) : vstate * list Action * nat :=
  let added := Nat.min (4 - length pending) (length bytes) in
  let buffer := pending ++ take added bytes in
  let '(chars, valid_up_to, outcome) := from_utf8 buffer in
  let first_char := match chars with c :: _ => [APrint c] | [] => [] end in
  match outcome with
  | Utf8_ok =>
      (VText [], first_char,
       (match chars with c :: _ => len_utf8 c | [] => 0 end - length pending)%nat)
  | Utf8_error error_len =>
      if decide (valid_up_to <> 0)%nat then (VText [], first_char, (valid_up_to - length pending)%nat)
      else match error_len with
           | Some n => (VText [], [APrint REPLACEMENT], (n - length pending)%nat)
           | None => (VText buffer, [], added)
           end
  end.

Definition vadvance (v : vstate) (bytes : list Z) : vstate * list Action :=
  match v with
  | VText (first :: rest) =>
      let '(v, acts, offset) := vcomplete (first :: rest) bytes in
      with_actions acts (vconsume_all v (drop offset bytes))
  | _ => vconsume_all v bytes
  end.

Fixpoint vfeed (v : vstate) (chunks : list (list Z)) : vstate * list Action :=
  match chunks with
  | [] => (v, [])
  | chunk :: rest =>
      let '(v, acts) := vadvance v chunk in
      let '(v, acts') := vfeed v rest in
      (v, acts ++ acts')
  end.

End Capacity.

(** ** What the representation relation is made of *)

(** Positions just past the closed parameters. *)
Fixpoint closed_ends (i : nat) (ps : list (Z * bool)) : list nat :=
  match ps with
  | [] => []
  | (_, c) :: ps => if c then S i :: closed_ends (S i) ps else closed_ends (S i) ps
  end.

Definition last_open (ps : list (Z * bool)) : bool :=
  match last ps with Some (_, c) => negb c | None => false end.

Record params_rep (self : Params) (ps : list (Z * bool)) : Prop := {
  pr_values_length : length (values self) = 32%nat;
  pr_used : used self = length ps;
  pr_capacity : (length ps <= 32)%nat;
  pr_values : take (used self) (values self) = ps.*1;
  pr_groups : groups self = length (closed_ends 0 ps);
  pr_ends : ends self = closed_ends 0 ps ++
              (if last_open ps
               then length ps :: replicate (31 - groups self) 0%nat
               else replicate (32 - groups self) 0%nat);
}.

Fixpoint arg_ends (start : nat) (args : list (list Z)) : list nat :=
  match args with
  | [] => []
  | a :: args => (start + length a)%nat :: arg_ends (start + length a) args
  end.

Record arrays (N : nat) (p : Parser) : Prop := {
  ar_values : length (values (params p)) = 32%nat;
  ar_intermediates : length (intermediates p) = 2%nat;
  ar_osc : length (osc p) = N;
  ar_osc_ends : length (osc_ends p) = 16%nat;
  ar_utf8 : length (utf8 p) = 4%nat;
}.

Record osc_rep (p : Parser) (args : list (list Z)) (cur : list Z) : Prop := {
  or_len : osc_len p = osc_total args cur;
  or_capacity : (osc_len p <= length (osc p))%nat;
  or_bytes : take (osc_len p) (osc p) = concat args ++ cur;
  or_args : osc_args p = length args;
  or_max : (length args <= 16)%nat;
  or_ends : take (osc_args p) (osc_ends p) = arg_ends 0 args;
  or_full : length args = 16%nat -> cur = [];
}.

Definition hdr_state (dcs : bool) (ph : phase) : State :=
  match dcs, ph with
  | false, PStart => CsiStart | false, PNumbers => CsiNumbers | false, PCollect => CsiCollect
  | true, PStart => DcsStart | true, PNumbers => DcsNumbers | true, PCollect => DcsCollect
  end.

Definition im_rep (p : Parser) (im : list Z) : Prop :=
  intermediate_len p = length im /\ (length im <= 2)%nat /\
  take (intermediate_len p) (intermediates p) = im.

(** A proper, non-empty prefix of a well-formed multi-byte character. *)
Definition pending_ok (pending : list Z) : Prop :=
  exists first rest, pending = first :: rest /\ 194 <= first <= 244 /\
    (length pending < width first)%nat /\ Forall (fun b => is_continuation b) rest /\
    match rest with b :: _ => second_ok first b = true | [] => True end.

Definition rep_view (p : Parser) (v : vstate) : Prop :=
  match v with
  | VText [] => state p = Text /\ utf8_len p = 0%nat
  | VText pending =>
      state p = Text /\ utf8_len p = length pending /\
      take (utf8_len p) (utf8 p) = pending /\ pending_ok pending /\
      utf8_expected p = width (default 0 (head pending))
  | VEsc c im ign =>
      state p = (if c then EscapeCollect else Escape) /\ utf8_len p = 0%nat /\
      im_rep p im /\ ignored p = ign
  | VHdr dcs ph ps n im ign =>
      state p = hdr_state dcs ph /\ utf8_len p = 0%nat /\ im_rep p im /\
      ignored p || bool_decide (used (params p) = 32%nat) = ign /\ number p = n /\
      params_rep (params p) ps
  | VDiscard dcs => state p = (if dcs then DcsDiscard else CsiDiscard) /\ utf8_len p = 0%nat
  | VData => state p = DcsData /\ utf8_len p = 0%nat
  | VOsc args cur over =>
      state p = Osc /\ utf8_len p = 0%nat /\ osc_rep p args cur /\ osc_overflow p = over /\
      is_pointer args && over = false
  | VOscEsc args cur =>
      state p = OscEscape /\ utf8_len p = 0%nat /\ osc_rep p args cur /\
      osc_overflow p = false /\ is_pointer args = true
  | VDead esc =>
      state p = (if esc then OscEscape else Osc) /\ utf8_len p = 0%nat /\
      is_pointer_osc p = true /\ osc_overflow p = true /\ (2 <= osc_len p <= length (osc p))%nat
  | VString => state p = StringDiscard /\ utf8_len p = 0%nat
  end.

(** The fixed-storage parser [p] stands for [v]. *)
Definition rep (N : nat) (p : Parser) (v : vstate) : Prop := arrays N p /\ rep_view p v.
