(* ===== verification/VtParserProps.v ===== *)
(** * Correctness of the terminal syntax decoder

    The fixed-storage decoder of [VtParser.v] refines the list-based reference of
    [VtSpec.v]; its indices stay within its arrays; and a fresh decoder fed the
    replay prefix continues exactly as the snapshotted one. *)

From S2P Require Import Prelude Utf8 VtParser VtSpec.

(** ** Parameters *)

Lemma closed_ends_app i l1 l2 :
  closed_ends i (l1 ++ l2) = closed_ends i l1 ++ closed_ends (i + length l1) l2.
Proof.
  revert i; induction l1 as [|[v c] l1 IH]; intros i; simpl.
  - by rewrite Nat.add_0_r.
  - rewrite IH. replace (S i + length l1)%nat with (i + S (length l1))%nat by lia.
    by destruct c.
Qed.

Lemma closed_ends_length i ps : (length (closed_ends i ps) <= length ps)%nat.
Proof.
  revert i; induction ps as [|[v c] ps IH]; intros i; simpl; [done|].
  specialize (IH (S i)). destruct c; simpl; lia.
Qed.

Lemma last_open_length i ps :
  last_open ps = true -> (length (closed_ends i ps) < length ps)%nat.
Proof.
  intros H. destruct ps as [|x ps _] using rev_ind; [done|].
  unfold last_open in H. rewrite last_snoc in H. destruct x as [v []]; [done|].
  rewrite closed_ends_app, !length_app; simpl.
  pose proof (closed_ends_length i ps). lia.
Qed.

Lemma params_rep_clear self :
  length (values self) = 32%nat -> params_rep (Params_clear self) [].
Proof. intros H. split; simpl; try done; lia. Qed.

Lemma params_rep_append self ps v c :
  params_rep self ps -> (length ps < 32)%nat ->
  exists self', append self v c = (self', true) /\ params_rep self' (ps ++ [(v, c)]).
Proof.
  intros [Hv Hu Hc Hvs Hg He] Hlt. unfold append.
  rewrite decide_False by lia. eexists; split; [done|].
  set (g := groups self) in *.
  assert (Hgl : (g <= length ps)%nat) by (rewrite Hg; apply closed_ends_length).
  assert (Hends : <[g:=S (used self)]> (ends self)
                  = closed_ends 0 ps ++ S (length ps) :: replicate (31 - g) 0%nat).
  { rewrite He, Hu, insert_app_r_alt by lia. f_equal. rewrite <- Hg, Nat.sub_diag.
    destruct (last_open ps); [done|].
    replace (32 - g)%nat with (S (31 - g)) by lia. done. }
  split; simpl.
  - by rewrite length_insert.
  - rewrite length_app; simpl; lia.
  - rewrite length_app; simpl; lia.
  - erewrite take_S_r by (apply list_lookup_insert_eq; lia).
    rewrite take_insert_ge by lia. by rewrite Hvs, fmap_app.
  - rewrite closed_ends_app, length_app; simpl. destruct c; simpl; lia.
  - rewrite Hends, closed_ends_app, length_app; simpl.
    unfold last_open; rewrite last_snoc; simpl.
    destruct c; simpl.
    + rewrite <- app_assoc; simpl. repeat f_equal.
    + rewrite app_nil_r. repeat f_equal; lia.
Qed.

Lemma append_full self ps v c :
  params_rep self ps -> length ps = 32%nat -> append self v c = (self, false).
Proof. intros [] H. unfold append. by rewrite decide_True by lia. Qed.

Lemma close_last_group_snoc ps v c : close_last_group (ps ++ [(v, c)]) = ps ++ [(v, true)].
Proof.
  induction ps as [|[w d] ps IH]; [done|]. simpl. rewrite IH.
  by destruct ps as [|[] ps].
Qed.

Lemma close_last_group_length ps : length (close_last_group ps) = length ps.
Proof.
  destruct ps as [|[v c] ps _] using rev_ind; [done|].
  by rewrite close_last_group_snoc, !length_app.
Qed.

Lemma params_rep_finish self ps n :
  params_rep self ps ->
  exists self', finish self n = (self', bool_decide (length ps <> 32%nat)) /\
    params_rep self' (if decide (length ps = 32%nat) then close_last_group ps else ps ++ [(n, true)]).
Proof.
  intros Hrep. unfold finish. destruct (decide (length ps = 32%nat)) as [Hf|Hf].
  2: { destruct (params_rep_append self ps n true Hrep) as (self' & -> & Hrep').
       { destruct Hrep; lia. }
       exists self'. by rewrite bool_decide_eq_true_2. }
  rewrite (append_full _ _ _ _ Hrep Hf), bool_decide_eq_false_2 by tauto.
  pose proof Hrep as [Hv Hu Hc Hvs Hg He].
  destruct ps as [|[v c] ps _] using rev_ind; [done|].
  rewrite close_last_group_snoc. rewrite length_app in Hf; simpl in Hf.
  pose proof (closed_ends_length 0 (ps ++ [(v, c)])) as Hle. rewrite length_app in Hle; simpl in Hle.
  destruct c.
  - rewrite decide_False; [by exists self|].
    intros [Hlt Hlk]. revert Hlk. rewrite He. rewrite lookup_app_r by lia.
    unfold last_open; rewrite last_snoc; simpl. rewrite Hg, Nat.sub_diag.
    intros Hlk. apply lookup_replicate in Hlk as [Hlk _].
    rewrite Hu, length_app in Hlk; simpl in Hlk. lia.
  - rewrite closed_ends_app in Hg, He; simpl in Hg, He. rewrite app_nil_r in Hg, He.
    unfold last_open in He; rewrite last_snoc in He; simpl in He.
    assert (Hgl := closed_ends_length 0 ps).
    rewrite decide_True.
    2: { rewrite He. rewrite length_app; simpl. split; [lia|].
         rewrite lookup_app_r, Hg, Nat.sub_diag by lia. simpl.
         rewrite Hu. by rewrite length_app. }
    eexists; split; [done|]. split; simpl.
    + done.
    + rewrite Hu, !length_app. done.
    + rewrite length_app in *; simpl in *; lia.
    + rewrite Hvs, !fmap_app. done.
    + rewrite closed_ends_app, length_app; simpl. lia.
    + rewrite He, closed_ends_app. unfold last_open; rewrite last_snoc; simpl.
      rewrite length_app, <- app_assoc; simpl. repeat f_equal; lia.
Qed.

Lemma iter_from_groups self (ps l : list (Z * bool)) pre cur :
  length (values self) = 32%nat ->
  (length pre + length cur + length l <= 32)%nat ->
  take (length ps) (values self) = ps.*1 ->
  ps.*1 = pre ++ cur ++ l.*1 ->
  forall g, take (length (closed_ends (length pre + length cur) l)) (drop g (ends self))
    = closed_ends (length pre + length cur) l ->
  iter_from self g (length pre) (length (closed_ends (length pre + length cur) l))
    = groups_of cur l.
Proof.
  intros Hv Hlen Hvs Heq. revert pre cur Hlen Heq.
  induction l as [|[v c] l IH]; intros pre cur Hlen Heq g Hg; [done|].
  rewrite fmap_cons in Heq; cbn [fst] in Heq. simpl in Hlen, Hg |- *.
  destruct c; simpl in Hg |- *.
  - destruct (drop g (ends self)) as [|e es] eqn:Hd; [done|]. simpl in Hg.
    injection Hg as Hg1 Hg2.
    assert (Hlk : ends self !! g = Some e).
    { rewrite <- (Nat.add_0_r g), <- lookup_drop, Hd. done. }
    rewrite Hlk; simpl. rewrite Hg1. f_equal.
    + assert (Hall : take (length pre + length (cur ++ [v])) (values self) = pre ++ cur ++ [v]).
      { assert (length ps = length pre + (length cur + S (length l)))%nat as Hl.
        { rewrite <- (length_fmap fst ps), Heq, !length_app; simpl. by rewrite length_fmap. }
        replace (take (length pre + length (cur ++ [v])) (values self))
          with (take (length pre + length (cur ++ [v])) (take (length ps) (values self))).
        - rewrite Hvs, Heq.
          replace (pre ++ cur ++ v :: l.*1) with ((pre ++ cur ++ [v]) ++ l.*1)
            by (by rewrite <- !app_assoc).
          apply take_app_length'. by rewrite (length_app pre).
        - rewrite take_take. f_equal. rewrite length_app; simpl; lia. }
      replace (S (length pre + length cur) - length pre)%nat with (length (cur ++ [v]))
        by (rewrite length_app; simpl; lia).
      rewrite take_drop_commute, Hall. by rewrite drop_app_length.
    + specialize (IH (pre ++ cur ++ [v]) []).
      replace (length (pre ++ cur ++ [v]) + length (@nil Z))%nat
        with (S (length pre + length cur)) in IH by (rewrite !length_app; simpl; lia).
      replace (length (pre ++ cur ++ [v])) with (S (length pre + length cur)) in IH
        by (rewrite !length_app; simpl; lia).
      apply IH.
      * simpl in Hlen |- *; lia.
      * rewrite Heq, <- !app_assoc. done.
      * replace (drop (S g) (ends self)) with es; [done|].
        rewrite <- Nat.add_1_r, <- drop_drop, Hd. done.
  - specialize (IH pre (cur ++ [v])).
    replace (length pre + length (cur ++ [v]))%nat
      with (S (length pre + length cur)) in IH by (rewrite !length_app; simpl; lia).
    apply IH.
    + simpl in Hlen; lia.
    + rewrite Heq, <- !app_assoc. done.
    + done.
Qed.

Lemma params_rep_iter self ps : params_rep self ps -> iter self = groups_of [] ps.
Proof.
  intros [Hv Hu Hc Hvs Hg He]. unfold iter. rewrite Hg.
  apply (iter_from_groups self ps ps [] []); simpl; try done.
  - by rewrite <- Hu.
  - rewrite He, drop_0. by rewrite take_app_length.
Qed.

(** ** Intermediates and OSC storage *)

Lemma vcollect_fst im ign ign' b : (vcollect im ign b).1 = (vcollect im ign' b).1.
Proof. unfold vcollect. by case_decide. Qed.

Lemma collect_rep p im b :
  im_rep p im -> length (intermediates p) = 2%nat ->
  exists I L, collect p b
      = set_header p (params p) (number p) I L (ignored p || bool_decide (length im = 2%nat)) /\
    length I = 2%nat /\ L = length (vcollect im false b).1 /\ (L <= 2)%nat /\
    take L I = (vcollect im false b).1.
Proof.
  intros (Hl & Hle & Ht) HI. unfold collect, vcollect. rewrite HI, Hl.
  case_decide; simpl.
  - rewrite bool_decide_eq_false_2, orb_false_r by lia.
    eexists _, _; split; [done|]. rewrite length_insert, length_app; simpl.
    repeat split; [lia..|].
    erewrite take_S_r by (apply list_lookup_insert_eq; lia).
    rewrite take_insert_ge by lia. by rewrite <- Hl, Ht.
  - rewrite bool_decide_eq_true_2, orb_true_r by lia.
    eexists _, _; split; [done|]. repeat split; [lia..|]. by rewrite <- Hl.
Qed.

Lemma vcollect_snd im ign b : (vcollect im ign b).2 = ign || bool_decide (2 <= length im)%nat.
Proof.
  unfold vcollect. case_decide; simpl.
  - by rewrite bool_decide_eq_false_2, orb_false_r by lia.
  - by rewrite bool_decide_eq_true_2, orb_true_r by lia.
Qed.

Lemma arg_ends_app start l1 l2 :
  arg_ends start (l1 ++ l2) = arg_ends start l1 ++ arg_ends (start + length (concat l1)) l2.
Proof.
  revert start; induction l1 as [|a l1 IH]; intros start; simpl.
  - by rewrite Nat.add_0_r.
  - rewrite IH, length_app. by rewrite Nat.add_assoc.
Qed.

Lemma arg_ends_length start args : length (arg_ends start args) = length args.
Proof. revert start; induction args; intros; simpl; auto. Qed.

Lemma osc_slices_arg_ends bytes start args rest :
  drop start bytes = concat args ++ rest -> osc_slices bytes start (arg_ends start args) = args.
Proof.
  revert start; induction args as [|a args IH]; intros start H; [done|]. simpl in H |- *.
  replace (start + length a - start)%nat with (length a) by lia.
  rewrite H, <- app_assoc, take_app_length. f_equal. apply IH.
  rewrite <- drop_drop, H, <- app_assoc. by rewrite drop_app_length.
Qed.

Lemma osc_rep_pointer p args cur :
  osc_rep p args cur -> is_pointer_osc p = is_pointer args.
Proof.
  intros [Hl Hc Hb Ha Hm He Hf]. unfold is_pointer_osc, is_pointer. rewrite Ha.
  destruct args as [|a args]; [done|]. simpl in Ha |- *.
  rewrite Ha in He; simpl in He.
  destruct (osc_ends p) as [|e es]; [done|]. simpl in He. injection He as He _. simpl.
  assert (Hta : take (length a) (osc p) = a).
  { unfold osc_total in Hl; simpl in Hl, Hb. rewrite !length_app in Hl.
    rewrite <- app_assoc in Hb.
    transitivity (take (length a) (take (osc_len p) (osc p))).
    - rewrite take_take. f_equal. lia.
    - by rewrite Hb, take_app_length. }
  rewrite <- bool_decide_and. apply bool_decide_ext. rewrite He. split.
  - intros [[= H1] H2]. rewrite H1 in Hta. congruence.
  - intros [= H]. rewrite H in Hta |- *. simpl in Hta |- *. done.
Qed.

Lemma osc_rep_close p args cur ov :
  osc_rep p args cur -> length (osc_ends p) = 16%nat -> (length args < 16)%nat ->
  osc_rep (set_osc p (osc p) (osc_len p) (<[osc_args p := osc_len p]> (osc_ends p))
             (S (osc_args p)) ov) (args ++ [cur]) [].
Proof.
  intros [Hl Hc Hb Ha Hm He Hf] H16 Hlt. unfold osc_total in *. split; simpl.
  - unfold osc_total. by rewrite app_nil_r, concat_app, concat_cons, app_nil_r.
  - done.
  - by rewrite app_nil_r, concat_app, concat_cons, app_nil_r.
  - rewrite length_app; simpl; lia.
  - rewrite length_app; simpl; lia.
  - erewrite take_S_r by (apply list_lookup_insert_eq; lia).
    rewrite take_insert_ge by lia. rewrite He, arg_ends_app; simpl.
    by rewrite Hl, length_app.
  - done.
Qed.

Lemma osc_rep_push p args cur b ov :
  osc_rep p args cur -> (osc_len p < length (osc p))%nat -> (length args < 16)%nat ->
  osc_rep (set_osc p (<[osc_len p := b]> (osc p)) (S (osc_len p)) (osc_ends p) (osc_args p) ov)
    args (cur ++ [b]).
Proof.
  intros [Hl Hc Hb Ha Hm He Hf] Hlt H16. unfold osc_total in *. split; simpl; try done.
  - unfold osc_total. rewrite app_assoc, length_app; simpl. lia.
  - rewrite length_insert. lia.
  - erewrite take_S_r by (apply list_lookup_insert_eq; lia).
    rewrite take_insert_ge by lia. by rewrite Hb, app_assoc.
  - lia.
Qed.

(** The stored arguments are what [end_string] dispatches. *)
Lemma osc_rep_slices p args cur :
  osc_rep p args cur -> osc_slices (osc p) 0 (take (osc_args p) (osc_ends p)) = args.
Proof.
  intros [Hl Hc Hb Ha Hm He Hf]. rewrite He.
  apply (osc_slices_arg_ends _ _ _ (cur ++ drop (osc_len p) (osc p))).
  rewrite drop_0, app_assoc, <- Hb. by rewrite take_drop.
Qed.

Lemma end_string_osc p args cur bell :
  (state p = Osc \/ state p = OscEscape) -> osc_rep p args cur ->
  length (osc_ends p) = 16%nat -> is_pointer args && osc_overflow p = false ->
  exists e a, end_string p bell
    = (set_osc p (osc p) (osc_len p) e a (osc_overflow p), vosc_end args cur bell) /\
    length e = 16%nat.
Proof.
  intros Hs Hr H16 Hp. unfold end_string, vosc_end.
  assert (Hrep := Hr). destruct Hrep as [_ _ _ Ha _ _ _].
  destruct (decide (length args < 16)%nat) as [Hlt|Hlt].
  - exists (<[osc_args p := osc_len p]> (osc_ends p)), (S (osc_args p)).
    split; [|by rewrite length_insert].
    pose proof (osc_rep_slices _ _ _ (osc_rep_close _ _ _ (osc_overflow p) Hr H16 Hlt)) as Hsl.
    destruct Hs as [Hs|Hs]; rewrite Hs, (osc_rep_pointer _ _ _ Hr), Hp, decide_True by lia;
      by rewrite Hsl.
  - exists (osc_ends p), (osc_args p). split; [|done].
    destruct Hs as [Hs|Hs]; rewrite Hs, (osc_rep_pointer _ _ _ Hr), Hp, decide_False by lia;
      rewrite (osc_rep_slices _ _ _ Hr); by destruct p.
Qed.

(** ** UTF-8 *)

Lemma decode_char_width l c n : decode_char l = inr (c, n) -> (1 <= n <= length l)%nat.
Proof.
  unfold decode_char. destruct l as [|a l]; [done|].
  repeat (case_decide || case_match; subst; try done);
    intros [= <- <-]; simpl; lia.
Qed.

Lemma from_utf8_loop_valid fuel l k cs :
  (k <= (from_utf8_loop fuel l k cs).1.2)%nat.
Proof.
  revert l k cs; induction fuel as [|fuel IH]; intros l k cs; simpl.
  - by destruct l.
  - destruct l; [done|]. destruct (decode_char _) as [|[c n]]; [done|].
    etransitivity; [|apply IH]. lia.
Qed.

Lemma from_utf8_single l c :
  decode_char l = inr (c, length l) -> from_utf8 l = ([c], length l, Utf8_ok).
Proof.
  intros H. unfold from_utf8. destruct l as [|a l]; [done|].
  cbn [from_utf8_loop length]. rewrite H. cbn [length].
  rewrite (drop_ge (a :: l)) by (simpl; lia). by destruct (length l).
Qed.

Lemma second_ok_continuation a b : second_ok a b = true -> is_continuation b.
Proof.
  unfold second_ok, is_continuation.
  repeat case_decide; rewrite ?bool_decide_eq_true; intros H'; apply bool_decide_pack; lia.
Qed.

Lemma pending_cases l :
  decode_char l = inl None -> l <> [] -> pending_ok l.
Proof.
  intros H Hne. destruct l as [|a l]; [done|]. exists a, l. split; [done|].
  unfold decode_char in H. unfold width. simpl.
  repeat (case_decide || case_match; subst; try done; simpl in * );
    repeat match goal with
           | H : negb _ = false |- _ => apply negb_false_iff in H
           end;
    split_and!; try done; try lia; repeat constructor; try done; try by rewrite H.
  1-3: by eapply second_ok_continuation.
  by apply Is_true_true.
Qed.

Lemma continues_code first rest b :
  (bool_decide (128 <= b <= 191) &&
   (negb (bool_decide (length (first :: rest) = 1%nat)) ||
    (if decide (first = 224) then bool_decide (160 <= b)
     else if decide (first = 237) then bool_decide (b <= 159)
     else if decide (first = 240) then bool_decide (144 <= b)
     else if decide (first = 244) then bool_decide (b <= 143)
     else true))) = continues (first :: rest) b.
Proof.
  unfold continues, second_ok, is_continuation. destruct rest as [|c rest].
  - rewrite (bool_decide_eq_true_2 (_ = 1%nat)) by done. cbn [negb orb].
    repeat case_decide; rewrite ?andb_true_r, ?andb_diag, <- ?bool_decide_and;
      try apply bool_decide_ext; lia || done.
  - rewrite (bool_decide_eq_false_2 (_ = 1%nat)) by done. cbn [negb orb].
    by rewrite andb_true_r.
Qed.

Lemma pending_extend first rest b :
  pending_ok (first :: rest) -> continues (first :: rest) b = true ->
  if decide (length (first :: rest ++ [b]) = width first)
  then exists c, decode_char (first :: rest ++ [b]) = inr (c, length (first :: rest ++ [b]))
  else pending_ok (first :: rest ++ [b]).
Proof.
  intros (f & r & [= <- <-] & Hf & Hlen & Hr & Hs) Hc.
  assert (Hcont : is_continuation b).
  { destruct rest; simpl in Hc; [apply andb_true_iff in Hc as [Hc _]|]; by rewrite Hc. }
  assert (Hs' : match rest ++ [b] with c :: _ => second_ok first c = true | [] => True end).
  { destruct rest; simpl in *; [by apply andb_true_iff in Hc as [_ Hc]|done]. }
  assert (Hall : Forall (fun c => is_continuation c) (rest ++ [b])).
  { apply Forall_app; split; [done|by constructor]. }
  case_decide as Hw.
  - clear Hc Hr Hs Hcont Hlen. simpl in Hw. unfold width in Hw.
    destruct (rest ++ [b]) as [|c0 t]; [repeat case_decide; simpl in Hw; lia|].
    unfold decode_char.
    inversion Hall as [|? ? H0 Hall']; subst. simpl in Hw.
    repeat case_decide; try lia;
      destruct t as [|c1 t]; simpl in Hw; try lia;
      try (inversion Hall' as [|? ? H1' Hall'']; subst);
      try (destruct t as [|c2 t]; simpl in Hw; try lia);
      try (inversion Hall'' as [|? ? H2' Hall''']; subst);
      try (destruct t as [|c3 t]; simpl in Hw; try lia);
      repeat match goal with H : Is_true _ |- _ => apply Is_true_true in H; rewrite ?H end;
      rewrite ?Hs'; simpl; eauto.
  - exists first, (rest ++ [b]). split; [done|]. split; [done|]. split; [|done].
    simpl in *. rewrite length_app in *; simpl in *. lia.
Qed.

Lemma continue_utf8_rep N p first rest b :
  rep N p (VText (first :: rest)) ->
  if continues (first :: rest) b then
    exists p', continue_utf8 p b
      = (p', (vconsume N (VText (first :: rest)) b).2, true) /\
      rep N p' (vconsume N (VText (first :: rest)) b).1
  else exists p', continue_utf8 p b = (p', [APrint REPLACEMENT], false) /\ rep N p' (VText []).
Proof.
  intros [[] (Hs & Hl & Ht & Hok & He)].
  assert (H0 : utf8 p !! 0%nat = Some first).
  { destruct (utf8 p); rewrite Hl in Ht; [done|]. simpl in Ht. by injection Ht as ->. }
  assert (Hlt : (length (first :: rest) < 4)%nat).
  { destruct Hok as (f & r & [= <- <-] & _ & Hw & _). unfold width in Hw.
    repeat case_decide; lia. }
  unfold continue_utf8. rewrite H0, Hl. cbn [default from_option id].
  rewrite continues_code.
  destruct (continues (first :: rest) b) eqn:Hc; cbn [negb].
  2: { eexists; split; [done|]. by split. }
  pose proof (pending_extend _ _ _ Hok Hc) as Hext.
  cbn [vconsume]. rewrite Hc, He. cbn [head default from_option id].
  assert (Htake : take (S (length (first :: rest))) (<[length (first :: rest) := b]> (utf8 p))
                  = first :: rest ++ [b]).
  { erewrite take_S_r by (apply list_lookup_insert_eq; lia).
    rewrite take_insert_ge by lia. by rewrite <- Hl, Ht. }
  rewrite Htake.
  replace (S (length (first :: rest))) with (length (first :: rest ++ [b]))
    by (simpl; rewrite length_app; simpl; lia).
  case_decide.
  - destruct Hext as [c Hd]. rewrite (from_utf8_single _ _ Hd). unfold scalar_action. rewrite Hd.
    eexists; split; [done|]. split; [split; simpl; try done; by rewrite length_insert|by split].
  - eexists; split; [done|]. split; [split; simpl; try done; by rewrite length_insert|].
    simpl. split_and!; try done.
    etransitivity; [|exact Htake]. f_equal. simpl. rewrite length_app; simpl; lia.
Qed.

(** ** One byte *)

Definition refines (N : nat) (r : Parser * list Action) (s : vstate * list Action) : Prop :=
  rep N r.1 s.1 /\ r.2 = s.2.

Lemma osc_rep_empty p :
  osc_len p = 0%nat -> osc_args p = 0%nat -> osc_rep p [] [].
Proof. intros H1 H2. split; rewrite ?H1, ?H2; simpl; done || lia. Qed.

(** Discharges the easy parts of a representation. *)
Ltac parts :=
  simpl; unfold im_rep; simpl;
  repeat match goal with |- _ /\ _ => split end; try done; try lia;
  try (by apply params_rep_clear); try (by apply osc_rep_empty).


Ltac arrays := split; simpl; rewrite ?length_insert; done.

Lemma rep_escape N p :
  arrays N p -> utf8_len p = 0%nat ->
  rep N (set_state (clear_header p) Escape) (VEsc false [] false).
Proof. intros [] H. split; [arrays|]. parts. Qed.

Lemma rep_text N p : arrays N p -> utf8_len p = 0%nat -> rep N (set_state p Text) (VText []).
Proof. intros [] H. split; [arrays|done]. Qed.

(** CAN, SUB and ESC leave any state through its exit callbacks. *)
Lemma dispatch_refines N p b p1 exit kv :
  end_string p false = (p1, exit) -> arrays N p1 -> utf8_len p1 = 0%nat ->
  refines N (state_byte p b) kv -> refines N (dispatch p b) (vinterrupt exit b kv).
Proof.
  intros He Ha Hu Hk. unfold dispatch, vinterrupt. rewrite He.
  case_decide; [|case_decide; [|done]].
  - split; [by apply rep_text|done].
  - split; [by apply rep_escape|done].
Qed.

Lemma text_refines N p b : rep N p (VText []) -> refines N (text p b) (vtext b).
Proof.
  intros [[] [Hs Hu]]. unfold text, vtext.
  case_decide; [by split; [split; [arrays|]|]|].
  case_decide; [by split; [split; [arrays|]|]|].
  case_decide; [|by split; [split; [arrays|]|]].
  split; [|done]. split; [arrays|]. simpl. split_and!; try done.
  - destruct (utf8 p); [done|]. simpl. by rewrite take_0.
  - exists b, []. split_and!; try done; [lia..|].
    unfold width. simpl. repeat case_decide; lia.
Qed.

Lemma state_byte_text N p b :
  rep N p (VText []) -> refines N (dispatch p b) (vinterrupt [] b (vtext b)).
Proof.
  intros H. pose proof H as [Ha [Hs Hu]]. apply (dispatch_refines _ _ _ p).
  - unfold end_string. by rewrite Hs.
  - done.
  - done.
  - unfold state_byte. rewrite Hs. by apply text_refines.
Qed.

Lemma escape_refines N p b c im ign :
  rep N p (VEsc c im ign) -> refines N (escape p b) (vesc c im ign b).
Proof.
  intros [Ha (Hs & Hu & Him & Hig)]. pose proof Ha as []. pose proof Him as (Hl & Hle & Ht).
  unfold escape, vesc. rewrite Hs.
  assert (Hc : forall P : Prop, (P /\ (if c then EscapeCollect else Escape) = Escape) <->
                                (P /\ c = false)).
  { intros P. destruct c; split; intros []; done. }
  case_decide; [by split; [split; [arrays|]|]|].
  case_decide.
  { destruct (collect_rep _ _ b Him) as (I & L & -> & HI & HL & HL2 & HtI); [done|].
    destruct (vcollect im ign b) as [im' ign'] eqn:Hv.
    pose proof (vcollect_fst im ign false b) as H1. pose proof (vcollect_snd im ign b) as H2.
    rewrite Hv in H1, H2; simpl in H1, H2. rewrite <- H1 in HL, HtI.
    split; [|done]. split; [arrays|]. parts.
    rewrite H2, Hig. f_equal. apply bool_decide_ext. lia. }
  rewrite !(decide_ext _ _ _ _ (Hc _)).
  repeat (case_decide; [split; [split; [arrays|parts]|try done]|]).
  - by rewrite Ht, Hig.
  - by split.
Qed.

Ltac dec_goal := match goal with |- context [decide ?P] => destruct (decide P) as [?Hd|?Hd] end.

Lemma is_dcs_hdr dcs ph : is_dcs (hdr_state dcs ph) = dcs.
Proof. by destruct dcs, ph. Qed.
Lemma is_collecting_hdr dcs ph : is_collecting (hdr_state dcs ph) = bool_decide (ph = PCollect).
Proof. by destruct dcs, ph. Qed.
Lemma is_entry_hdr dcs ph : is_entry (hdr_state dcs ph) = bool_decide (ph = PStart).
Proof. by destruct dcs, ph. Qed.

Lemma collect_hdr N p dcs ph ps n im ign b ph' :
  rep N p (VHdr dcs ph ps n im ign) ->
  let '(im', ign') := vcollect im ign b in
  rep N (set_state (collect p b) (hdr_state dcs ph')) (VHdr dcs ph' ps n im' ign').
Proof.
  intros [[] (Hs & Hu & Him & Hig & Hn & Hps)]. pose proof Him as (_ & Hle & _).
  destruct (collect_rep _ _ b Him) as (I & L & -> & HI & HL & HL2 & HtI); [done|].
  destruct (vcollect im ign b) as [im' ign'] eqn:Hv.
  pose proof (vcollect_fst im ign false b) as H1. pose proof (vcollect_snd im ign b) as H2.
  rewrite Hv in H1, H2; simpl in H1, H2. rewrite <- H1 in HL, HtI.
  split; [arrays|]. parts. rewrite H2, <- Hig.
  rewrite (bool_decide_ext (length im = 2%nat) (2 <= length im)%nat) by lia.
  by destruct (ignored p), (bool_decide (2 <= length im)%nat), (bool_decide (used _ = _)).
Qed.

Lemma parameter_hdr N p dcs ph ps n im ign b :
  rep N p (VHdr dcs ph ps n im ign) ->
  let '(ps', n', ign') := vparameter ps n ign b in
  rep N (set_state (parameter p b) (hdr_state dcs PNumbers)) (VHdr dcs PNumbers ps' n' im ign').
Proof.
  intros [[] (Hs & Hu & Him & Hig & Hn & Hps)]. pose proof Him as (Hl & Hle & Ht).
  unfold parameter, vparameter. pose proof Hps as [_ Hused Hcap _ _ _]. rewrite Hused.
  destruct (decide (length ps = 32%nat)).
  { split; [arrays|]. by parts; rewrite <- Hig, Hused, bool_decide_eq_true_2, orb_true_r. }
  rewrite Hn.
  destruct (decide (48 <= b <= 57)); [split; [arrays|]; by parts|].
  destruct (decide (b = 58 \/ b = 59)); [|split; [arrays|]; by parts].
  destruct (params_rep_append _ _ n (bool_decide (b = 59)) Hps) as (self' & Happ & Hrep); [lia|].
  rewrite Happ. pose proof Hrep as [Hv' Hu' _ _ _ _].
  split; [split; simpl; done|]. parts.
  rewrite <- Hig, Hu', Hused.
  rewrite (bool_decide_eq_false_2 (length ps = 32%nat)) by lia. by rewrite orb_false_r.
Qed.

Lemma header_refines N p b dcs ph ps n im ign :
  rep N p (VHdr dcs ph ps n im ign) -> refines N (header p b) (vhdr dcs ph ps n im ign b).
Proof.
  intros H. pose proof H as [[] (Hs & Hu & Him & Hig & Hn & Hps)].
  unfold header, vhdr. rewrite Hs, is_dcs_hdr, is_collecting_hdr, is_entry_hdr.
  dec_goal; [by split|].
  dec_goal.
  { pose proof (collect_hdr _ _ _ _ _ _ _ _ b PCollect H) as Hc.
    destruct (vcollect im ign b). split; [by destruct dcs|done]. }
  dec_goal.
  { destruct (bool_decide (ph = PCollect) || _).
    { split; [split; [arrays|by destruct dcs]|done]. }
    dec_goal.
    - pose proof (collect_hdr _ _ _ _ _ _ _ _ b PNumbers H) as Hc.
      destruct (vcollect im ign b). split; [by destruct dcs|done].
    - pose proof (parameter_hdr _ _ _ _ _ _ _ _ b H) as Hc.
      destruct (vparameter ps n ign b) as [[? ?] ?]. split; [by destruct dcs|done]. }
  dec_goal; [|by split].
  destruct (params_rep_finish _ _ n Hps) as (self' & Hf & Hrep).
  unfold finish_header. rewrite Hn, Hf. simpl.
  assert (Hign : (if bool_decide (length ps <> 32%nat) then ignored p else true) = ign).
  { rewrite <- Hig, (pr_used _ _ Hps). case_bool_decide.
    - by rewrite bool_decide_eq_false_2, orb_false_r.
    - rewrite bool_decide_eq_true_2, orb_true_r; [done|]. destruct (decide (length ps = 32%nat)); tauto. }
  destruct Him as (Hl & Hle & Ht). pose proof Hrep as [Hv' _ _ _ _ _].
  rewrite Hign, (params_rep_iter _ _ Hrep), Ht.
  destruct dcs; split; try done; split; simpl; try done; split; done.
Qed.

Lemma osc_byte_refines N p b args cur over :
  rep N p (VOsc args cur over) -> refines N (osc_byte p b) (vosc_byte N args cur over b).
Proof.
  intros [[] (Hs & Hu & Hosc & Hov & Hp)]. unfold osc_byte, vosc_byte.
  pose proof (osc_rep_pointer _ _ _ Hosc) as Hptr. rewrite Hptr.
  assert (Hgo : forall q args' cur', arrays N q -> state q = Osc -> utf8_len q = 0%nat ->
            osc_rep q args' cur' -> rep N q (vosc args' cur' (osc_overflow q))).
  { intros q args' cur' Hq Hsq Huq Hoq. unfold vosc.
    destruct (is_pointer args' && osc_overflow q) eqn:Hpo; [|by split; [|parts]].
    apply andb_true_iff in Hpo as [Hp1 Hp2]. split; [done|]. parts.
    - by rewrite (osc_rep_pointer _ _ _ Hoq).
    - rewrite (or_len _ _ _ Hoq). unfold osc_total. apply bool_decide_eq_true in Hp1.
      destruct args' as [|a args']; [done|]. injection Hp1 as ->. simpl. lia.
    - apply (or_capacity _ _ _ Hoq). }
  dec_goal.
  { destruct (end_string_osc p args cur true) as (e & a & -> & He); [by left|done..|by rewrite Hov|].
    split; [split; [arrays|done]|done]. }
  dec_goal.
  { split; [|done]. simpl.
    destruct (is_pointer args) eqn:Hpa.
    - rewrite orb_true_r. apply (Hgo (set_osc p _ _ _ _ true)); try done.
      destruct Hosc; by split.
    - rewrite orb_false_r, <- Hov. by apply Hgo. }
  dec_goal.
  { rewrite (or_args _ _ _ Hosc). dec_goal; (split; [|done]); cbn [fst snd].
    - rewrite <- Hov, <- (or_args _ _ _ Hosc).
      apply (Hgo (set_osc p _ _ _ _ _)); try done; [arrays|].
      by apply osc_rep_close.
    - rewrite <- (or_args _ _ _ Hosc). apply (Hgo (set_osc p _ _ _ _ true)); try done.
      destruct Hosc; by split. }
  rewrite (or_args _ _ _ Hosc), (or_len _ _ _ Hosc), ar_osc.
  destruct (decide (osc_total args cur < N /\ length args < 16)%nat) as [Hfit|Hfit];
    (split; [|done]); cbn [fst snd].
  - rewrite <- Hov, <- (or_len _ _ _ Hosc), <- (or_args _ _ _ Hosc).
    apply (Hgo (set_osc p _ _ _ _ _)); try done; [arrays|].
    rewrite <- (or_len _ _ _ Hosc) in Hfit.
    apply osc_rep_push; [done|lia..].
  - rewrite <- (or_len _ _ _ Hosc), <- (or_args _ _ _ Hosc).
    apply (Hgo (set_osc p _ _ _ _ true)); try done.
    destruct Hosc; by split.
Qed.

(** A byte outside saved text and OSC 22 strings goes straight to dispatch. *)
Lemma consume_dispatch p b :
  utf8_len p = 0%nat -> pointer_string_control p b = (p, [], false) ->
  consume p b = dispatch p b.
Proof.
  intros Hu Hp. unfold consume. rewrite Hu, andb_false_r, Hp. by destruct (dispatch p b).
Qed.

Lemma pointer_string_control_skip p b :
  state p <> OscEscape -> (state p = Osc -> is_pointer_osc p = false) ->
  pointer_string_control p b = (p, [], false).
Proof.
  intros H1 H2. unfold pointer_string_control. rewrite decide_False by done.
  destruct (decide (state p = Osc)) as [H|H].
  - by rewrite H2, andb_false_r.
  - by rewrite bool_decide_eq_false_2.
Qed.

(** States that only [dispatch] handles and that have no exit callback. *)
Lemma consume_plain N p v b kv :
  rep N p v -> utf8_len p = 0%nat -> state p <> OscEscape -> state p <> Osc ->
  state p <> DcsData -> refines N (state_byte p b) kv ->
  refines N (consume p b) (vinterrupt [] b kv).
Proof.
  intros [Ha _] Hu H1 H2 H3 Hk.
  rewrite consume_dispatch by (done || by apply pointer_string_control_skip).
  apply (dispatch_refines _ _ _ p); try done.
  unfold end_string. by destruct (state p).
Qed.

(** An escape that did not end an OSC 22 string starts over as an escape
    sequence. *)
Lemma consume_osc_escape N p b :
  arrays N p -> state p = OscEscape -> utf8_len p = 0%nat -> b <> 92 ->
  refines N (consume p b) (vinterrupt [] b (vesc false [] false b)).
Proof.
  intros Ha Hs Hu Hb.
  set (q := clear_header (set_state p Escape)).
  assert (Hq : rep N q (VEsc false [] false)) by by apply (rep_escape N p).
  assert (H : refines N (consume q b) (vinterrupt [] b (vesc false [] false b))).
  { apply (consume_plain N q _ b _ Hq); try done. by apply escape_refines. }
  rewrite consume_dispatch in H by (done || by apply pointer_string_control_skip).
  unfold consume, pointer_string_control. rewrite Hu, andb_false_r, decide_True, decide_False by done.
  fold q. by destruct (dispatch q b).
Qed.

Lemma osc_byte_dead N p b :
  rep N p (VDead false) -> ~ (b = 27 \/ b = 24 \/ b = 26) ->
  refines N (osc_byte p b) (if decide (b = 7) then (VText [], []) else (VDead false, [])).
Proof.
  intros [[] (Hs & Hu & Hp & Hov & Hlen)] Hb. unfold osc_byte.
  assert (Hparts := Hp). unfold is_pointer_osc in Hparts.
  apply andb_true_iff in Hparts as [Hparts H22]. apply andb_true_iff in Hparts as [Hargs H2].
  dec_goal.
  { unfold end_string. rewrite Hs, Hp, Hov. split; [split; [arrays|done]|done]. }
  rewrite Hp. dec_goal; [split; [split; [arrays|by parts]|done]|].
  assert (Hne : osc_args p <> 0%nat).
  { intros H0. rewrite H0 in Hargs. done. }
  dec_goal.
  - dec_goal; (split; [|done]); (split; [arrays|]); simpl; split_and!; try done; try lia.
    unfold is_pointer_osc; simpl. rewrite list_lookup_insert_ne by done. by rewrite H2, H22.
  - dec_goal; (split; [|done]); (split; [arrays|]); simpl; split_and!; try done; try lia.
    + unfold is_pointer_osc; simpl. rewrite take_insert_ge by lia. by rewrite Hargs, H2, H22.
    + rewrite length_insert. lia.
Qed.

Lemma consume_pending N p first rest b :
  rep N p (VText (first :: rest)) ->
  refines N (consume p b) (vconsume N (VText (first :: rest)) b).
Proof.
  intros H. pose proof (continue_utf8_rep N p first rest b H) as Hc.
  unfold consume. destruct H as [_ (Hs & Hu & _)]. rewrite Hs, Hu.
  replace (bool_decide (Text = Text) && negb (bool_decide (length (first :: rest) = 0%nat)))
    with true by done.
  cbn [vconsume] in Hc |- *. destruct (continues (first :: rest) b).
  { destruct Hc as (p' & -> & Hr). by split. }
  destruct Hc as (p' & -> & Hr). pose proof Hr as [_ [Hs' Hu']].
  rewrite pointer_string_control_skip by by rewrite Hs'.
  destruct (state_byte_text N p' b Hr) as [Hr1 Hr2].
  destruct (dispatch p' b) as [p'' acts]. simpl in Hr1, Hr2. subst. by split.
Qed.

(** Inside an OSC 22 string, escape is deferred and CAN and SUB drop it. *)
Lemma consume_pointer p b :
  state p = Osc -> is_pointer_osc p = true -> utf8_len p = 0%nat ->
  consume p b =
    if decide (b = 27) then (set_state p OscEscape, [])
    else if decide (b = 24 \/ b = 26) then (set_state p Text, []) else osc_byte p b.
Proof.
  intros Hs Hp Hu. unfold consume, pointer_string_control, dispatch, state_byte.
  rewrite Hu, andb_false_r, Hs, Hp, decide_False by done.
  rewrite (bool_decide_eq_true_2 (Osc = Osc)) by done. cbn [andb].
  dec_goal; [done|]. dec_goal; [done|]. rewrite Hs. by destruct (osc_byte p b).
Qed.

Lemma consume_osc N p args cur over b :
  rep N p (VOsc args cur over) -> refines N (consume p b) (vconsume N (VOsc args cur over) b).
Proof.
  intros H. pose proof H as [[] (Hs & Hu & Hosc & Hov & Hp)]. cbn [vconsume].
  pose proof (osc_rep_pointer _ _ _ Hosc) as Hptr.
  destruct (is_pointer args) eqn:Hpa.
  - simpl in Hp. subst over. rewrite consume_pointer by done.
    dec_goal.
    { split; [|done]. split; [arrays|]. parts. destruct Hosc; by split. }
    dec_goal; [split; [by apply rep_text|done]|].
    by apply osc_byte_refines.
  - rewrite consume_dispatch by (done || apply pointer_string_control_skip; by rewrite Hs).
    destruct (end_string_osc p args cur false) as (e & a & He & Hel);
      [by left|done..|by rewrite Hpa|].
    apply (dispatch_refines _ _ _ _ _ _ He); [arrays|done|].
    unfold state_byte. rewrite Hs. by apply osc_byte_refines.
Qed.

(** A backslash after the deferred escape ends the string. *)
Lemma consume_string_end p :
  state p = OscEscape -> utf8_len p = 0%nat ->
  consume p 92 = (set_state (end_string p false).1 Text, (end_string p false).2).
Proof.
  intros Hs Hu. unfold consume, pointer_string_control.
  rewrite Hu, andb_false_r, Hs, !decide_True by done. by destruct (end_string p false).
Qed.

Lemma consume_osc_esc N p args cur b :
  rep N p (VOscEsc args cur) -> refines N (consume p b) (vconsume N (VOscEsc args cur) b).
Proof.
  intros [Ha (Hs & Hu & Hosc & Hov & Hp)]. pose proof Ha as []. cbn [vconsume].
  destruct (decide (b = 92)) as [->|Hb]; [|by apply (consume_osc_escape N p b)].
  rewrite consume_string_end by done.
  destruct (end_string_osc p args cur false) as (e & a & -> & Hel);
    [by right|done..|by rewrite Hov, andb_false_r|].
  split; [split; [arrays|done]|done].
Qed.

Lemma consume_dead N p esc b :
  rep N p (VDead esc) -> refines N (consume p b) (vconsume N (VDead esc) b).
Proof.
  intros H. pose proof H as [Ha (Hs & Hu & Hp & Hov & Hlen)]. pose proof Ha as [].
  destruct esc; cbn [vconsume].
  - destruct (decide (b = 92)) as [->|Hb]; [|by apply (consume_osc_escape N p b)].
    rewrite consume_string_end by done. unfold end_string. rewrite Hs, Hp, Hov.
    split; [by apply rep_text|done].
  - rewrite consume_pointer by done.
    dec_goal; [split; [split; [arrays|by parts]|done]|].
    dec_goal; [split; [by apply rep_text|done]|].
    apply osc_byte_dead; [done|]. intros [?|[?|?]]; tauto.
Qed.

(** One byte: the fixed-storage decoder makes the reference's callbacks and
    stands for the reference's next state. *)
Lemma consume_refines N p v b : rep N p v -> refines N (consume p b) (vconsume N v b).
Proof.
  intros H. pose proof H as [Ha Hv].
  destruct v as [[|first rest]|c im ign|dcs ph ps n im ign|dcs| |args cur over|args cur|esc| ].
  - destruct Hv as [Hs Hu]. cbn [vconsume].
    rewrite consume_dispatch by (done || apply pointer_string_control_skip; by rewrite Hs).
    by apply state_byte_text.
  - by apply consume_pending.
  - destruct Hv as (Hs & Hu & _). apply (consume_plain N p _ b _ H); try done;
      try (rewrite Hs; by destruct c).
    unfold state_byte. rewrite Hs. destruct c; by apply escape_refines.
  - destruct Hv as (Hs & Hu & _). apply (consume_plain N p _ b _ H); try done;
      try (rewrite Hs; by destruct dcs, ph).
    unfold state_byte. rewrite Hs. destruct dcs, ph; by apply header_refines.
  - destruct Hv as (Hs & Hu).
    destruct dcs; apply (consume_plain N p _ b _ H); try done; try by rewrite Hs.
    all: unfold state_byte; rewrite Hs; repeat dec_goal; split; try done; by apply rep_text.
  - destruct Hv as (Hs & Hu). cbn [vconsume].
    rewrite consume_dispatch by (done || apply pointer_string_control_skip; by rewrite Hs).
    apply (dispatch_refines _ _ _ p); try done; unfold end_string, state_byte; rewrite Hs;
      [done|].
    repeat dec_goal; split; try done; by apply rep_text.
  - by apply consume_osc.
  - by apply consume_osc_esc.
  - by apply consume_dead.
  - destruct Hv as (Hs & Hu). apply (consume_plain N p _ b _ H); try done; try by rewrite Hs.
    unfold state_byte. rewrite Hs. by split.
Qed.

(** ** Chunks *)

Lemma consume_all_refines N p v bytes :
  rep N p v -> refines N (consume_all p bytes) (vconsume_all N v bytes).
Proof.
  revert p v; induction bytes as [|b bytes IH]; intros p v H; [by split|]. simpl.
  destruct (consume_refines N p v b H) as [Hr Ha].
  destruct (consume p b) as [p1 a1], (vconsume N v b) as [v1 b1]. simpl in Hr, Ha. subst.
  destruct (IH p1 v1 Hr) as [Hr' Ha'].
  destruct (consume_all p1 bytes), (vconsume_all N v1 bytes). simpl in Hr', Ha'. subst. by split.
Qed.

(** An error at the very start that is an unexpected end of input. *)
Lemma from_utf8_incomplete l chars :
  from_utf8 l = (chars, 0%nat, Utf8_error None) -> pending_ok l.
Proof.
  unfold from_utf8. destruct l as [|a l]; [done|]. cbn [length from_utf8_loop].
  destruct (decode_char (a :: l)) as [e|[c n]] eqn:Hd.
  - intros [= _ ->]. by apply pending_cases.
  - intros H. pose proof (from_utf8_loop_valid (length l) (drop n (a :: l)) (0 + n) ([] ++ [c])) as Hv.
    rewrite H in Hv. simpl in Hv. apply decode_char_width in Hd. lia.
Qed.

Lemma complete_refines N p first rest bytes :
  rep N p (VText (first :: rest)) ->
  let count := Nat.min (4 - utf8_len p) (length bytes) in
  let u := take (utf8_len p) (utf8 p) ++ take count bytes ++ drop (utf8_len p + count) (utf8 p) in
  let r := complete_saved_utf8 (set_utf8 p u (utf8_len p + count) (utf8_expected p)) count in
  let s := vcomplete (first :: rest) bytes in
  refines N r.1 s.1 /\ r.2 = s.2.
Proof.
  intros [[] (Hs & Hl & Ht & Hok & He)] count u. subst count u. rewrite Hl, <- Hl, Ht, Hl.
  set (k := Nat.min _ _).
  assert (Hlt : (length (first :: rest) < 4)%nat).
  { destruct Hok as (f & r & [= <- <-] & _ & Hw & _). unfold width in Hw.
    repeat case_decide; lia. }
  assert (Hk : length (take k bytes) = k) by (rewrite length_take; lia).
  set (u := (first :: rest) ++ take k bytes ++ drop _ (utf8 p)).
  assert (Hu : take (length (first :: rest) + k) u = (first :: rest) ++ take k bytes).
  { subst u. rewrite app_assoc. apply take_app_length'. rewrite length_app. lia. }
  assert (Hul : length u = 4%nat).
  { subst u. rewrite !length_app, Hk, length_drop. lia. }
  assert (Htxt : rep N (set_utf8 p u 0 (utf8_expected p)) (VText [])) by (split; [arrays|done]).
  unfold complete_saved_utf8, vcomplete. cbn zeta. cbn [utf8 utf8_len set_utf8 utf8_expected].
  rewrite Hu. fold k.
  replace (length (first :: rest) + k - k)%nat with (length (first :: rest)) by lia.
  destruct (from_utf8 _) as [[chars n] [|e]] eqn:Hf.
  { by destruct chars. }
  destruct (decide (n <> 0%nat)) as [Hn|Hn]; [done|].
  destruct e as [e|]; [done|]. cbn [fst snd]. split; [|done]. split; [|done].
  assert (n = 0%nat) as -> by lia. apply from_utf8_incomplete in Hf.
  split; [arrays|]. simpl. split_and!; try done.
  by rewrite length_app, Hk.
Qed.

Lemma vt_advance_refines N p v bytes :
  rep N p v -> refines N (vt_advance p bytes) (vadvance N v bytes).
Proof.
  intros H.
  assert (Hp : (exists first rest, v = VText (first :: rest)) \/
               (utf8_len p = 0%nat /\ vadvance N v bytes = vconsume_all N v bytes)).
  { destruct H as [_ H]. destruct v as [[|]| | | | | | | |]; simpl in H; try (right; tauto). eauto. }
  unfold vt_advance. destruct Hp as [(first & rest & ->)|[Hu ->]].
  - pose proof (complete_refines N p first rest bytes H) as Hc. cbn zeta in Hc.
    destruct H as [_ (Hs & Hl & _)].
    rewrite decide_True by (rewrite Hl; simpl; lia). cbn zeta. cbn [vadvance].
    destruct (complete_saved_utf8 _ _) as [[p1 a1] o1], (vcomplete _ _) as [[v1 b1] o2].
    simpl in Hc. destruct Hc as [[Hr Ha] Ho]. simpl in Hr, Ha. subst.
    destruct (consume_all_refines N p1 v1 (drop o2 bytes) Hr) as [Hr' Ha'].
    destruct (consume_all p1 _), (vconsume_all N v1 _). simpl in Hr', Ha'. subst. by split.
  - rewrite decide_False by lia. rewrite drop_0.
    pose proof (consume_all_refines N p v bytes H) as [Hr Ha].
    by destruct (consume_all p bytes).
Qed.

Lemma feed_refines N p v chunks :
  rep N p v -> refines N (feed p chunks) (vfeed N v chunks).
Proof.
  revert p v; induction chunks as [|c chunks IH]; intros p v H; [by split|]. simpl.
  destruct (vt_advance_refines N p v c H) as [Hr Ha].
  destruct (vt_advance p c) as [p1 a1], (vadvance N v c) as [v1 b1]. simpl in Hr, Ha. subst.
  destruct (IH p1 v1 Hr) as [Hr' Ha'].
  destruct (feed p1 chunks), (vfeed N v1 chunks). simpl in Hr', Ha'. subst. by split.
Qed.

Lemma rep_new N : rep N (new_with_size N) (VText []).
Proof. split; [split; simpl; rewrite ?length_replicate; done|done]. Qed.
