(* ===== verification/VtReplay.v ===== *)
(** * Hydrating a decoder from its replay prefix

    [Parser::replay_prefix] writes bytes that bring a fresh decoder to an
    equivalent state.  This file proves it, and characterises the one family of
    states for which it does not hold: OSC strings other than OSC 22. *)

From S2P Require Import Prelude Utf8 VtParser VtSpec VtParserProps.

(** ** Well-formed reference states *)

Definition osc_char (b : Z) : Prop := ~ (0 <= b <= 31) /\ b <> 59.

Definition hdr_wf (ph : phase) (ps : list (Z * bool)) (n : Z) (priv rest : list Z) (ign : bool)
  : Prop :=
  in_u 16 n /\ Forall (fun x => in_u 16 x.1) ps /\ (length ps <= 32)%nat /\
  (length ps = 32%nat -> n = 0 /\ ign = true) /\
  (priv = [] \/ exists x, priv = [x] /\ 60 <= x <= 63) /\
  Forall (fun x => 32 <= x <= 47) rest /\ (length (priv ++ rest) <= 2)%nat /\
  match ph with
  | PStart => ps = [] /\ n = 0 /\ priv = [] /\ rest = [] /\ ign = false
  | PNumbers => rest = []
  | PCollect => rest <> []
  end /\
  (ign = true -> length ps = 32%nat \/ (ph = PCollect /\ length (priv ++ rest) = 2%nat)).

Definition osc_wf (N : nat) (args : list (list Z)) (cur : list Z) (over : bool) : Prop :=
  Forall (Forall osc_char) args /\ Forall osc_char cur /\ (length args <= 16)%nat /\
  (length args = 16%nat -> cur = []) /\ (osc_total args cur <= N)%nat /\
  (over = true -> length args = 16%nat \/ (N <= osc_total args cur)%nat).

Definition vwf (N : nat) (v : vstate) : Prop :=
  match v with
  | VText pending => pending = [] \/ pending_ok pending
  | VEsc c im ign =>
      Forall (fun x => 32 <= x <= 47) im /\ (length im <= 2)%nat /\ (c = false <-> im = []) /\
      (ign = true -> length im = 2%nat)
  | VHdr dcs ph ps n im ign => exists priv rest, im = priv ++ rest /\ hdr_wf ph ps n priv rest ign
  | VOsc args cur over => osc_wf N args cur over
  | VOscEsc args cur => osc_wf N args cur false /\ is_pointer args = true
  | _ => True
  end.

Lemma vesc_start_wf N : vwf N (VEsc false [] false).
Proof. simpl. split_and!; done || lia || constructor. Qed.

Lemma vinterrupt_wf N exit b kv : vwf N kv.1 -> vwf N (vinterrupt exit b kv).1.
Proof.
  intros H. unfold vinterrupt. case_decide; [by left|].
  case_decide; [apply vesc_start_wf|done].
Qed.

Lemma vtext_wf N b : vwf N (vtext b).1.
Proof.
  unfold vtext. repeat case_decide; simpl; auto. right.
  exists b, []. unfold width. split_and!; try done; [lia..|].
  simpl. repeat case_decide; lia.
Qed.

Lemma hdr_start_wf N dcs : vwf N (VHdr dcs PStart [] 0 [] false).
Proof.
  exists [], []. split; [done|]. unfold hdr_wf. simpl.
  split_and!; try done; try lia; try by constructor; try (unfold_int; lia).
Qed.

Lemma vesc_wf N c im ign b : vwf N (VEsc c im ign) -> vwf N (vesc c im ign b).1.
Proof.
  intros (Hf & Hl & Hc & Hi). unfold vesc.
  case_decide; [done|]. case_decide.
  { unfold vcollect. case_decide; simpl; split_and!; try done; try lia.
    - apply Forall_app; split; [done|]. repeat constructor; lia.
    - rewrite length_app; simpl; lia.
    - split; [done|]. by destruct im.
    - intros Hig. specialize (Hi Hig). lia.
    - split; [done|]. intros ->. simpl in *; lia. }
  repeat case_decide; cbn [fst]; try done; try apply hdr_start_wf.
  - unfold vwf, osc_wf, osc_total. simpl. split_and!; done || lia || constructor.
  - by left.
Qed.

Lemma vhdr_wf N dcs ph ps n im ign b :
  vwf N (VHdr dcs ph ps n im ign) -> vwf N (vhdr dcs ph ps n im ign b).1.
Proof.
  intros (priv & rest & -> & Hwf). pose proof Hwf as (Hn & Hps & Hlen & Hfull & Hpriv & Hrest & Him & Hph & Hign).
  unfold vhdr. case_decide; [by exists priv, rest|].
  case_decide.
  { unfold vcollect. case_decide; simpl.
    - exists priv, (rest ++ [b]). rewrite app_assoc. split; [done|].
      unfold hdr_wf. rewrite app_assoc. split_and!; try done.
      + apply Forall_app; split; [done|]. repeat constructor; lia.
      + rewrite length_app; simpl; lia.
      + by destruct rest.
      + intros Hi. destruct (Hign Hi) as [|[_ ?]]; [by left|lia].
    - exists priv, rest. split; [done|].
      unfold hdr_wf; split_and!; try done.
      + intros H'. by destruct (Hfull H').
      + intros ->. rewrite app_nil_r in *. destruct Hpriv as [->|(x & -> & _)]; simpl in *; lia.
      + intros _. right. split; [done|]. lia. }
  case_decide.
  2: { case_decide; [destruct dcs; simpl; auto|by exists priv, rest]. }
  destruct (decide (ph = PCollect)) as [->|Hnc]; [done|].
  rewrite (bool_decide_eq_false_2 (ph = PCollect)) by done. cbn [orb].
  assert (rest = []) as -> by (destruct ph; tauto).
  rewrite app_nil_r in *.
  destruct (decide (60 <= b)).
  - rewrite bool_decide_eq_true_2 by done. cbn [andb].
    destruct (decide (ph = PStart)) as [->|Hns]; [|by rewrite bool_decide_eq_false_2 by done].
    rewrite bool_decide_eq_true_2 by done. cbn [negb]. destruct Hph as (-> & -> & -> & _ & ->).
    simpl. exists [b], []. split; [done|]. unfold hdr_wf. simpl. split_and!; try done; try lia.
    right. exists b. split; [done|lia].
  - rewrite bool_decide_eq_false_2 by done. cbn [andb].
    assert (Hstep : forall ps' n' ign', in_u 16 n' -> Forall (fun x => in_u 16 x.1) ps' ->
              (length ps' <= 32)%nat -> (length ps' = 32%nat -> n' = 0 /\ ign' = true) ->
              (ign' = true -> length ps' = 32%nat) ->
              vwf N (VHdr dcs PNumbers ps' n' priv ign')).
    { intros. exists priv, []. rewrite app_nil_r. split; [done|]. unfold hdr_wf.
      rewrite app_nil_r. split_and!; try done. auto. }
    assert (Hig' : ign = true -> length ps = 32%nat) by (intros Hi; destruct (Hign Hi); tauto).
    unfold vparameter. destruct (decide (length ps = 32%nat)) as [H32|H32].
    { destruct (Hfull H32) as [-> ->]. by apply Hstep. }
    destruct (decide (48 <= b <= 57)) as [Hd|Hd];
      [|destruct (decide (b = 58 \/ b = 59))]; apply Hstep; try done; try lia; try tauto.
    + clear - Hn Hd. int_lia.
    + apply Forall_app; split; [done|]. by rewrite Forall_singleton.
    + rewrite length_app; simpl; lia.
    + intros HL. split; [done|]. rewrite bool_decide_eq_true_2 by done. by rewrite orb_true_r.
    + intros Ho. apply orb_true_iff in Ho as [Ho|Ho]; [tauto|]. by apply bool_decide_eq_true in Ho.
Qed.

Lemma vosc_wf N args cur over : osc_wf N args cur over -> vwf N (vosc args cur over).
Proof. intros H. unfold vosc. by destruct (_ && _). Qed.

Lemma vosc_byte_wf N args cur over b :
  osc_wf N args cur over -> vwf N (vosc_byte N args cur over b).1.
Proof.
  intros H. pose proof H as (Ha & Hc & Hl & Hf & Ht & Ho). unfold vosc_byte.
  dec_goal; [by left|]. dec_goal.
  { unfold vosc. destruct (is_pointer args); [by rewrite orb_true_r|by rewrite orb_false_r]. }
  dec_goal.
  { dec_goal; apply vosc_wf; unfold osc_wf, osc_total in *; split_and!; try done; try lia.
    - apply Forall_app; split; [done|]. by repeat constructor.
    - rewrite length_app; simpl; lia.
    - rewrite concat_app, concat_cons, !app_nil_r. done.
    - rewrite concat_app, concat_cons, !app_nil_r, !length_app. simpl.
      intros Hov. destruct (Ho Hov) as [?|?]; [lia|]. right. by rewrite <- length_app. }
  dec_goal; apply vosc_wf; unfold osc_wf, osc_total in *; split_and!; try done; try lia.
  - apply Forall_app; split; [done|]. repeat constructor; done.
  - rewrite app_assoc, length_app; simpl; lia.
  - intros Hov. destruct (Ho Hov) as [?|?]; lia.
Qed.

Lemma vconsume_wf N v b : vwf N v -> vwf N (vconsume N v b).1.
Proof.
  intros H. destruct v as [[|f r]|c im ign|dcs ph ps n im ign|[]| |args cur over|args cur|[]| ];
    cbn [vconsume].
  - apply vinterrupt_wf, vtext_wf.
  - destruct (continues (f :: r) b) eqn:Hc; [|apply vinterrupt_wf, vtext_wf].
    destruct H as [|H]; [done|]. pose proof (pending_extend _ _ _ H Hc).
    case_decide; [by left|by right].
  - by apply vinterrupt_wf, vesc_wf.
  - by apply vinterrupt_wf, vhdr_wf.
  - apply vinterrupt_wf. case_decide; simpl; auto.
  - apply vinterrupt_wf. repeat case_decide; simpl; auto.
  - apply vinterrupt_wf. repeat case_decide; simpl; auto.
  - destruct (is_pointer args) eqn:Hp; [|by apply vinterrupt_wf, vosc_byte_wf].
    dec_goal; [|dec_goal; [by left|by apply vosc_byte_wf]].
    split; [|done]. destruct H as (? & ? & ? & ? & ? & ?). by split_and!.
  - dec_goal; [by left|]. by apply vinterrupt_wf, (vesc_wf N), vesc_start_wf.
  - dec_goal; [by left|]. by apply vinterrupt_wf, (vesc_wf N), vesc_start_wf.
  - repeat dec_goal; simpl; auto.
  - by apply vinterrupt_wf.
Qed.

Lemma vconsume_all_wf N v bytes : vwf N v -> vwf N (vconsume_all N v bytes).1.
Proof.
  revert v; induction bytes as [|b bytes IH]; intros v H; [done|]. simpl.
  pose proof (vconsume_wf N v b H). destruct (vconsume N v b) as [v1 a].
  specialize (IH v1). destruct (vconsume_all N v1 bytes). by apply IH.
Qed.

Lemma vadvance_wf N v bytes : vwf N v -> vwf N (vadvance N v bytes).1.
Proof.
  intros H. destruct v as [[|f r]| | | | | | | |]; try by apply vconsume_all_wf.
  cbn [vadvance]. unfold vcomplete. cbn zeta.
  destruct (from_utf8 _) as [[chars n] [|e]] eqn:Hf.
  { apply vconsume_all_wf. by left. }
  case_decide; [apply vconsume_all_wf; by left|].
  destruct e; [apply vconsume_all_wf; by left|].
  apply vconsume_all_wf. right. assert (n = 0%nat) as -> by lia. by eapply from_utf8_incomplete.
Qed.

Lemma vfeed_wf N v chunks : vwf N v -> vwf N (vfeed N v chunks).1.
Proof.
  revert v; induction chunks as [|c chunks IH]; intros v H; [done|]. simpl.
  pose proof (vadvance_wf N v c H). destruct (vadvance N v c) as [v1 a].
  specialize (IH v1). destruct (vfeed N v1 chunks). by apply IH.
Qed.

(** ** Running the reference on a prefix *)

Definition goes (N : nat) (v : vstate) (bytes : list Z) (v' : vstate) : Prop :=
  (vconsume_all N v bytes).1 = v'.

Lemma goes_app N v1 l1 v2 l2 v3 : goes N v1 l1 v2 -> goes N v2 l2 v3 -> goes N v1 (l1 ++ l2) v3.
Proof.
  unfold goes. revert v1; induction l1 as [|b l1 IH]; intros v1 H1 H2; simpl in *.
  - by subst.
  - destruct (vconsume N v1 b) as [v a]. specialize (IH v).
    destruct (vconsume_all N v l1), (vconsume_all N v (l1 ++ l2)). simpl in *. auto.
Qed.

Lemma goes_nil N v : goes N v [] v.
Proof. done. Qed.

Lemma goes_one N v b : goes N v [b] (vconsume N v b).1.
Proof. unfold goes. simpl. by destruct (vconsume N v b). Qed.

Lemma goes_cons N v b l v' : goes N (vconsume N v b).1 l v' -> goes N v (b :: l) v'.
Proof. intros H. apply (goes_app N v [b] _ l _ (goes_one N v b) H). Qed.

Lemma vinterrupt_none exit b kv : ~ (b = 24 \/ b = 26) -> b <> 27 -> vinterrupt exit b kv = kv.
Proof. intros H1 H2. unfold vinterrupt. by rewrite !decide_False. Qed.

(** Header bytes. *)
Lemma hdr_digit N dcs ph ps n im ign d :
  ph <> PCollect -> (length ps < 32)%nat -> 0 <= d <= 9 ->
  vconsume N (VHdr dcs ph ps n im ign) (48 + d)
    = (VHdr dcs PNumbers ps (saturating_add 16 (saturating_mul 16 n 10) d) im ign, []).
Proof.
  intros Hph Hlen Hd. cbn [vconsume]. rewrite vinterrupt_none by lia. unfold vhdr, vparameter.
  rewrite !decide_False by lia. rewrite decide_True by lia.
  rewrite (bool_decide_eq_false_2 (ph = PCollect)), (bool_decide_eq_false_2 (60 <= _)) by (done || lia).
  cbn [orb andb]. rewrite !decide_False by lia. rewrite decide_True by lia.
  by replace (48 + d - 48) with d by lia.
Qed.

Lemma hdr_separator N dcs ph ps n im ign c :
  ph <> PCollect -> (length ps < 32)%nat ->
  vconsume N (VHdr dcs ph ps n im ign) (if (c : bool) then 59 else 58)
    = (VHdr dcs PNumbers (ps ++ [(n, c)]) 0 im
         (ign || bool_decide (length (ps ++ [(n, c)]) = 32%nat)), []).
Proof.
  intros Hph Hlen. cbn [vconsume].
  rewrite vinterrupt_none by (destruct c; lia). unfold vhdr, vparameter.
  rewrite !(decide_False (P := 0 <= _ <= 31)), !(decide_False (P := 32 <= _ <= 47)),
    (decide_True (P := 48 <= _ <= 63)) by (destruct c; lia).
  rewrite (bool_decide_eq_false_2 (ph = PCollect)), (bool_decide_eq_false_2 (60 <= _))
    by (done || destruct c; lia).
  cbn [orb andb]. rewrite !decide_False by (destruct c; lia).
  rewrite decide_True by (destruct c; lia). by destruct c.
Qed.

Lemma hdr_full N dcs ph ps n im ign :
  ph <> PCollect -> length ps = 32%nat ->
  vconsume N (VHdr dcs ph ps n im ign) 48 = (VHdr dcs PNumbers ps n im true, []).
Proof.
  intros Hph Hlen. cbn [vconsume]. rewrite vinterrupt_none by lia. unfold vhdr, vparameter.
  rewrite !decide_False by lia. rewrite decide_True by lia.
  rewrite (bool_decide_eq_false_2 (ph = PCollect)), (bool_decide_eq_false_2 (60 <= _)) by (done || lia).
  cbn [orb andb]. rewrite decide_False by lia. by rewrite decide_True by lia.
Qed.

Lemma hdr_collect N dcs ph ps n im ign b :
  32 <= b <= 47 ->
  vconsume N (VHdr dcs ph ps n im ign) b
    = (VHdr dcs PCollect ps n (vcollect im ign b).1 (vcollect im ign b).2, []).
Proof.
  intros Hb. cbn [vconsume]. rewrite vinterrupt_none by lia. unfold vhdr.
  rewrite decide_False, decide_True by lia. by destruct (vcollect im ign b).
Qed.

(** Reading back a written number restores it, whatever digits follow. *)
Lemma goes_digits N dcs ph ps im ign fuel r acc v' :
  ph <> PCollect -> (length ps < 32)%nat -> 0 <= r < 10 ^ Z.of_nat fuel -> in_u 16 r ->
  (0 < fuel)%nat ->
  goes N (VHdr dcs PNumbers ps r im ign) acc v' ->
  goes N (VHdr dcs ph ps 0 im ign) (digits_loop fuel r acc) v'.
Proof.
  intros Hph Hlen. revert r acc; induction fuel as [|fuel IH]; intros r acc Hr H16 Hf Hg; [lia|].
  cbn [digits_loop]. pose proof (Z.mod_pos_bound r 10).
  case_decide as Hz.
  - assert (Hr10 : r `mod` 10 = r) by (revert Hz; div_lia).
    apply goes_cons. rewrite hdr_digit by (done || lia). rewrite Hr10. cbn [fst].
    replace (saturating_add 16 (saturating_mul 16 0 10) r) with r by int_lia. done.
  - assert (Hpow : 10 ^ Z.of_nat (S fuel) = 10 * 10 ^ Z.of_nat fuel).
    { rewrite Nat2Z.inj_succ, Z.pow_succ_r by lia. lia. }
    apply IH.
    + split; [apply Z.div_pos; lia|]. apply Z.div_lt_upper_bound; lia.
    + revert H16. div_lia.
    + destruct fuel; [|lia]. exfalso. apply Hz. apply Z.div_small. simpl in Hr. lia.
    + apply goes_cons. rewrite hdr_digit by (done || lia). cbn [fst].
      replace (saturating_add 16 (saturating_mul 16 (r / 10) 10) (r `mod` 10)) with r; [done|].
      revert H16. div_lia.
Qed.

Lemma goes_number N dcs ph ps im ign n :
  ph <> PCollect -> (length ps < 32)%nat -> in_u 16 n ->
  goes N (VHdr dcs ph ps 0 im ign) (write_number n) (VHdr dcs PNumbers ps n im ign).
Proof.
  intros Hph Hlen Hn. apply goes_digits; try done; [|lia].
  change (10 ^ Z.of_nat 5) with 100000. revert Hn. int_lia.
Qed.

Definition param_bytes (x : Z * bool) : list Z :=
  write_number x.1 ++ [if x.2 then 59 else 58].

Lemma goes_params N dcs ph ps0 im ign ps :
  ph <> PCollect -> (length (ps0 ++ ps) <= 32)%nat -> Forall (fun x => in_u 16 x.1) ps ->
  (length ps0 < 32)%nat -> ign = false ->
  goes N (VHdr dcs ph ps0 0 im ign) (concat (param_bytes <$> ps))
    (VHdr dcs (match ps with [] => ph | _ => PNumbers end) (ps0 ++ ps) 0 im
       (bool_decide (length (ps0 ++ ps) = 32%nat))).
Proof.
  intros Hph Hlen Hall H0 ->. revert ph ps0 Hph Hlen H0.
  induction ps as [|[v c] ps IH]; intros ph ps0 Hph Hlen H0.
  - rewrite app_nil_r. rewrite bool_decide_eq_false_2 by lia. apply goes_nil.
  - apply Forall_cons in Hall as [Hv Hall].
    rewrite fmap_cons, concat_cons. unfold param_bytes at 1. cbn [fst snd].
    rewrite length_app in Hlen; simpl in Hlen.
    eapply goes_app; [eapply goes_app|].
    + by apply goes_number.
    + apply goes_one.
    + rewrite hdr_separator by done. cbn [fst orb].
      replace (ps0 ++ (v, c) :: ps) with ((ps0 ++ [(v, c)]) ++ ps) by (by rewrite <- app_assoc).
      destruct ps as [|x ps].
      * rewrite app_nil_r. apply goes_nil.
      * assert (Hl : length (ps0 ++ [(v, c)]) <> 32%nat)
          by (rewrite length_app; simpl in *; lia).
        rewrite (bool_decide_eq_false_2 (length (ps0 ++ [(v, c)]) = 32%nat)) by done.
        apply (IH Hall PNumbers).
        -- done.
        -- rewrite !length_app in *; simpl in *; lia.
        -- rewrite length_app in *; simpl in *; lia.
Qed.

Lemma goes_rest N dcs ph ps n im ign rest :
  Forall (fun x => 32 <= x <= 47) rest -> (length (im ++ rest) <= 2)%nat ->
  goes N (VHdr dcs ph ps n im ign) rest
    (VHdr dcs (match rest with [] => ph | _ => PCollect end) ps n (im ++ rest) ign).
Proof.
  revert ph im; induction rest as [|b rest IH]; intros ph im Hall Hlen.
  - rewrite app_nil_r. apply goes_nil.
  - apply Forall_cons in Hall as [Hb Hall]. rewrite length_app in Hlen; simpl in Hlen.
    apply goes_cons. rewrite hdr_collect by done. unfold vcollect. rewrite decide_True by lia.
    cbn [fst snd]. replace (im ++ b :: rest) with ((im ++ [b]) ++ rest) by (by rewrite <- app_assoc).
    specialize (IH PCollect (im ++ [b]) Hall). rewrite !length_app in IH; simpl in IH.
    destruct rest; apply IH; simpl in *; lia.
Qed.

(** The header part of the prefix; [zero] is the digit written for an
    overflowed parameter list. *)
Definition hdr_prefix (dcs : bool) (ph : phase) (ps : list (Z * bool)) (n : Z)
    (priv rest : list Z) (ign : bool) (zero : list Z) : list Z :=
  (if dcs then [27; 80] else [27; 91]) ++ priv ++ concat (param_bytes <$> ps)
    ++ (if bool_decide (ps <> []) || bool_decide (n <> 0) || bool_decide (ph = PNumbers)
        then write_number n else [])
    ++ zero ++ rest ++ (if ign && bool_decide (length ps < 32)%nat then [32] else []).

Lemma goes_hdr_open N (dcs : bool) priv :
  (priv = [] \/ exists x, priv = [x] /\ 60 <= x <= 63) ->
  goes N (VText []) ((if dcs then [27; 80] else [27; 91]) ++ priv)
    (VHdr dcs (match priv with [] => PStart | _ => PNumbers end) [] 0 priv false).
Proof.
  intros Hp. eapply (goes_app _ _ _ (VHdr dcs PStart [] 0 [] false)).
  - destruct dcs; vm_compute; done.
  - destruct Hp as [->|(x & -> & Hx)]; [apply goes_nil|].
    apply goes_cons. cbn [vconsume]. rewrite vinterrupt_none by lia. unfold vhdr.
    rewrite !decide_False, decide_True by lia.
    rewrite (bool_decide_eq_false_2 (PStart = PCollect)), (bool_decide_eq_true_2 (60 <= x)) by (done || lia).
    rewrite (bool_decide_eq_true_2 (PStart = PStart)) by done. cbn [negb andb orb].
    by rewrite decide_True by lia.
Qed.

Lemma goes_hdr N dcs ph ps n priv rest ign zero :
  hdr_wf ph ps n priv rest ign ->
  (zero = [] \/ (zero = [48] /\ length ps = 32%nat)) ->
  goes N (VText []) (hdr_prefix dcs ph ps n priv rest ign zero)
    (VHdr dcs ph ps n (priv ++ rest) ign).
Proof.
  intros (Hn & Hps & Hlen & Hfull & Hpriv & Hrest & Him & Hph & Hign) Hz.
  unfold hdr_prefix. rewrite app_assoc.
  eapply goes_app; [by apply goes_hdr_open|].
  set (ph0 := match priv with [] => PStart | _ => PNumbers end).
  assert (Hph0 : ph0 <> PCollect) by (subst ph0; by destruct priv).
  eapply goes_app; [apply (goes_params N dcs ph0 [] priv false ps); try done; simpl; lia|].
  cbn [app]. set (g := bool_decide (length ps = 32%nat)).
  set (ph1 := match ps with [] => ph0 | _ => PNumbers end).
  assert (Hph1 : ph1 <> PCollect) by (subst ph1; by destruct ps).
  (* the number, then the marker of an overflowed list *)
  set (wr := bool_decide (ps <> []) || bool_decide (n <> 0) || bool_decide (ph = PNumbers)).
  set (ph2 := if wr then PNumbers else ph0).
  assert (Hph2 : ph2 <> PCollect) by (subst ph2; by destruct wr).
  eapply (goes_app _ _ _ (VHdr dcs ph2 ps n priv g)).
  { subst ph2. destruct wr eqn:Hw; subst wr.
    - destruct (decide (length ps = 32%nat)) as [H32|H32]; [|by apply goes_number; [|lia|]].
      destruct (Hfull H32) as [-> ->]. apply goes_cons.
      rewrite hdr_full by done. subst g. by rewrite bool_decide_eq_true_2.
    - apply orb_false_iff in Hw as [Hw _]. apply orb_false_iff in Hw as [Hw1 Hw2].
      apply bool_decide_eq_false in Hw1, Hw2.
      assert (ps = []) as -> by (destruct ps; [done|]; exfalso; by apply Hw1).
      assert (n = 0) as -> by lia. apply goes_nil. }
  eapply (goes_app _ _ _ (VHdr dcs ph2 ps n priv g)).
  { destruct Hz as [->|[-> H32]]; [apply goes_nil|]. apply goes_cons.
    rewrite hdr_full by done. subst g ph2 wr.
    assert (ps <> []) by (by intros ->).
    rewrite (bool_decide_eq_true_2 (ps <> [])), (bool_decide_eq_true_2 (length ps = _)) by done.
    apply goes_nil. }
  eapply goes_app; [by apply goes_rest|].
  assert (Hend : (match rest with [] => ph2 | _ => PCollect end) = ph).
  { subst ph2 wr ph0. destruct ph.
    - destruct Hph as (-> & -> & -> & -> & _). done.
    - subst rest. by rewrite (bool_decide_eq_true_2 (PNumbers = PNumbers)), orb_true_r.
    - by destruct rest. }
  rewrite Hend. destruct (decide (length ps = 32%nat)) as [H32|H32].
  - destruct (Hfull H32) as [_ ->]. subst g. rewrite bool_decide_eq_true_2 by done.
    rewrite bool_decide_eq_false_2 by lia. apply goes_nil.
  - subst g. rewrite bool_decide_eq_false_2 by done. rewrite (bool_decide_eq_true_2 (_ < 32)%nat) by lia.
    destruct ign; [|apply goes_nil]. destruct (Hign eq_refl) as [|[-> H2]]; [done|].
    apply goes_cons. rewrite hdr_collect by lia. unfold vcollect.
    rewrite decide_False by lia. apply goes_nil.
Qed.

Lemma closed_ends_gt i ps : Forall (fun e => i < e)%nat (closed_ends i ps).
Proof.
  revert i; induction ps as [|[v c] ps IH]; intros i; simpl; [constructor|].
  assert (H : Forall (fun e => i < e)%nat (closed_ends (S i) ps)).
  { eapply Forall_impl; [apply IH|]. simpl. lia. }
  destruct c; [constructor; [lia|done]|done].
Qed.

Lemma write_params_rep self ps pre l :
  params_rep self ps -> ps = pre ++ l ->
  write_params self (length pre) (length (closed_ends 0 pre)) (length l)
    = concat (param_bytes <$> l).
Proof.
  intros Hrep. revert pre; induction l as [|[v c] l IH]; intros pre ->; [done|].
  pose proof Hrep as [Hv Hu Hcap Hvs Hg He]. cbn [length write_params].
  assert (Hval : values self !! length pre = Some v).
  { assert (Hl : take (used self) (values self) !! length pre = Some v).
    { rewrite Hvs, fmap_app, lookup_app_r by (rewrite length_fmap; lia).
      by rewrite length_fmap, Nat.sub_diag. }
    by apply lookup_take_Some in Hl as [? _]. }
  rewrite closed_ends_app in Hg, He. rewrite Nat.add_0_l in Hg, He.
  assert (Hclosed : bool_decide (length (closed_ends 0 pre) < groups self)%nat &&
            bool_decide (ends self !! length (closed_ends 0 pre) = Some (S (length pre))) = c).
  { rewrite <- bool_decide_and. rewrite length_app in Hg. cbn [closed_ends] in Hg, He.
    destruct c.
    - apply bool_decide_eq_true_2. simpl in Hg. split; [lia|].
      rewrite He, <- app_assoc, lookup_app_r, Nat.sub_diag by lia. done.
    - apply bool_decide_eq_false_2. intros [Hlt Hlk].
      rewrite He, <- app_assoc, lookup_app_r, Nat.sub_diag in Hlk by lia.
      pose proof (closed_ends_gt (S (length pre)) l) as Hgt.
      destruct (closed_ends (S (length pre)) l); [simpl in Hg; lia|].
      simpl in Hlk. apply Forall_cons in Hgt as [Hgt _]. injection Hlk as ->. lia. }
  rewrite Hclosed, Hval. rewrite fmap_cons, concat_cons. unfold param_bytes at 1.
  cbn [fst snd default from_option id]. rewrite <- !app_assoc. do 2 f_equal.
  specialize (IH (pre ++ [(v, c)])). rewrite <- app_assoc in IH. specialize (IH eq_refl).
  rewrite closed_ends_app in IH. rewrite !length_app, Nat.add_0_l in IH. simpl in IH.
  rewrite Nat.add_1_r in IH. destruct c; simpl in IH |- *.
  - by rewrite Nat.add_1_r in IH.
  - by rewrite Nat.add_0_r in IH.
Qed.

Lemma write_segments_rep bytes start args cur rest :
  drop start bytes = concat args ++ cur ++ rest ->
  write_segments bytes start (arg_ends start args) (start + length (concat args ++ cur))
    = concat ((fun a => a ++ [59]) <$> args) ++ cur.
Proof.
  revert start; induction args as [|a args IH]; intros start H; simpl in H |- *.
  - replace (start + length cur - start)%nat with (length cur) by lia.
    by rewrite H, take_app_length.
  - replace (start + length a - start)%nat with (length a) by lia.
    rewrite H, <- !app_assoc, take_app_length. f_equal. simpl. f_equal.
    rewrite length_app, Nat.add_assoc. apply IH.
    rewrite <- drop_drop, H, <- !app_assoc. by rewrite drop_app_length.
Qed.

(** OSC bytes are stored as they come. *)
Lemma goes_osc_bytes N args cur l :
  Forall osc_char l -> (osc_total args (cur ++ l) <= N)%nat -> (length args < 16)%nat ->
  goes N (VOsc args cur false) l (VOsc args (cur ++ l) false).
Proof.
  revert cur; induction l as [|b l IH]; intros cur Hl Ht Ha.
  - rewrite app_nil_r. apply goes_nil.
  - apply Forall_cons in Hl as [[Hb1 Hb2] Hl]. apply goes_cons. cbn [vconsume].
    assert (Hstep : vosc_byte N args cur false b = (VOsc args (cur ++ [b]) false, [])).
    { unfold vosc_byte, vosc. rewrite !decide_False by lia.
      unfold osc_total in *. rewrite !length_app in *; simpl in *.
      rewrite decide_True by lia. by rewrite andb_false_r. }
    rewrite vinterrupt_none, Hstep, !decide_False by lia.
    replace (cur ++ b :: l) with ((cur ++ [b]) ++ l) in * by (by rewrite <- app_assoc).
    destruct (is_pointer args); by apply IH.
Qed.

Lemma goes_osc_args N args0 args cur :
  Forall (Forall osc_char) args -> (osc_total (args0 ++ args) cur <= N)%nat ->
  (length (args0 ++ args) <= 16)%nat ->
  goes N (VOsc args0 [] false) (concat ((fun a => a ++ [59]) <$> args))
    (VOsc (args0 ++ args) [] false).
Proof.
  revert args0; induction args as [|a args IH]; intros args0 Ha Ht Hl.
  - rewrite app_nil_r. apply goes_nil.
  - apply Forall_cons in Ha as [Ha Hargs]. rewrite fmap_cons, concat_cons.
    replace (args0 ++ a :: args) with ((args0 ++ [a]) ++ args) in * by (by rewrite <- app_assoc).
    eapply goes_app; [eapply goes_app|].
    + apply goes_osc_bytes; [done| |].
      * unfold osc_total in *. rewrite !concat_app, !length_app in *. simpl in *.
        rewrite length_app in *. simpl in *. lia.
      * rewrite !length_app in Hl; simpl in Hl; lia.
    + apply goes_one.
    + cbn [vconsume app]. rewrite vinterrupt_none by lia.
      assert (Hstep : vosc_byte N args0 a false 59 = (VOsc (args0 ++ [a]) [] false, [])).
      { unfold vosc_byte, vosc. rewrite !length_app in Hl; simpl in Hl.
        rewrite (decide_False (P := 59 = 7)), (decide_False (P := 0 <= 59 <= 31)),
          (decide_True (P := 59 = 59)), decide_True by lia. by rewrite andb_false_r. }
      rewrite Hstep, !decide_False by lia. destruct (is_pointer args0); by apply IH.
Qed.

Lemma goes_osc N args cur :
  osc_wf N args cur false ->
  goes N (VText []) ([27; 93] ++ concat ((fun a => a ++ [59]) <$> args) ++ cur)
    (VOsc args cur false).
Proof.
  intros (Ha & Hc & Hl & Hf & Ht & _).
  eapply (goes_app _ _ _ (VOsc [] [] false)); [by vm_compute|].
  eapply goes_app; [by apply (goes_osc_args N [] args cur)|].
  destruct (decide (length args = 16%nat)) as [H16|H16].
  - rewrite (Hf H16). apply goes_nil.
  - by apply goes_osc_bytes; [| |simpl; lia].
Qed.

Lemma goes_overflow N cur k :
  Forall osc_char cur -> (2 + length cur <= N)%nat -> (N < 2 + length cur + k)%nat ->
  goes N (VOsc [[50; 50]] cur false) (replicate k 120) (VDead false).
Proof.
  revert cur; induction k as [|k IH]; intros cur Hc H1 H2; [lia|].
  simpl. apply goes_cons. cbn [vconsume].
  change (is_pointer [[50; 50]]) with true. rewrite !decide_False by lia.
  unfold vosc_byte. rewrite !decide_False by lia. unfold osc_total. simpl.
  destruct (decide _) as [Hd|Hd].
  - unfold vosc. rewrite andb_false_r. apply IH.
    + apply Forall_app; split; [done|]. rewrite Forall_singleton. split; lia.
    + rewrite length_app; simpl; lia.
    + rewrite length_app; simpl; lia.
  - clear IH H2. simpl. induction k as [|k IH]; [apply goes_nil|].
    simpl. by apply goes_cons.
Qed.

Lemma goes_dead N :
  (2 <= N)%nat ->
  goes N (VText []) ([27; 93] ++ [50; 50; 59] ++ replicate (N + 1) 120) (VDead false).
Proof.
  intros HN. rewrite app_assoc. eapply goes_app.
  - apply (goes_osc N [[50; 50]] []). unfold osc_wf, osc_total; simpl.
    split_and!; try done; try lia. repeat constructor; unfold osc_char; lia.
  - apply goes_overflow; simpl; done || lia.
Qed.

Lemma goes_pending N pending : pending_ok pending -> goes N (VText []) pending (VText pending).
Proof.
  intros (f & rest & -> & Hf & Hlen & Hall & Hs).
  apply goes_cons. cbn [vconsume]. rewrite vinterrupt_none by lia. unfold vtext.
  rewrite !decide_False, decide_True by lia. cbn [fst].
  assert (Hstep : forall done_ b, continues (f :: done_) b = true ->
            (length (f :: done_ ++ [b]) < width f)%nat ->
            vconsume N (VText (f :: done_)) b = (VText (f :: done_ ++ [b]), [])).
  { intros done_ b Hb Hl. cbn [vconsume]. rewrite Hb, decide_False by lia. done. }
  destruct rest as [|b1 rest]; [apply goes_nil|].
  apply Forall_cons in Hall as [H1 Hall]. apply Is_true_true in H1.
  apply goes_cons. rewrite Hstep by (simpl in *; rewrite ?H1, ?Hs; done || lia).
  destruct rest as [|b2 rest]; [apply goes_nil|].
  apply Forall_cons in Hall as [H2 Hall]. apply Is_true_true in H2.
  apply goes_cons. cbn [fst app]. rewrite Hstep by (simpl in *; rewrite ?H2; done || lia).
  destruct rest as [|b3 rest]; [apply goes_nil|].
  exfalso. unfold width in Hlen. simpl in Hlen. repeat case_decide; lia.
Qed.

Lemma goes_esc N c im ign :
  vwf N (VEsc c im ign) ->
  goes N (VText []) ([27] ++ im ++ (if ign then [32] else [])) (VEsc c im ign).
Proof.
  intros (Hf & Hl & Hc & Hi).
  assert (Hct : im <> [] -> c = true) by (destruct c; tauto).
  eapply goes_app; [apply goes_one|].
  change (vconsume N (VText []) 27).1 with (VEsc false [] false).
  assert (Hstep : forall c' im' g b, 32 <= b <= 47 -> vconsume N (VEsc c' im' g) b
            = (VEsc true (vcollect im' g b).1 (vcollect im' g b).2, [])).
  { intros c' im' g b Hb. cbn [vconsume]. rewrite vinterrupt_none by lia. unfold vesc.
    rewrite decide_False, decide_True by lia. by destruct (vcollect im' g b). }
  eapply (goes_app _ _ _ (VEsc c im false)).
  - destruct im as [|x [|y [|]]]; simpl in Hl; try lia.
    + destruct Hc as [_ ->]; [|done]. apply goes_nil.
    + assert (c = true) as -> by (by apply Hct).
      rewrite Forall_singleton in Hf. apply goes_cons. rewrite Hstep by done. apply goes_nil.
    + assert (c = true) as -> by (by apply Hct).
      apply Forall_cons in Hf as [Hx Hf]. rewrite Forall_singleton in Hf.
      apply goes_cons. rewrite Hstep by done. apply goes_cons. cbn [fst].
      rewrite Hstep by done. apply goes_nil.
  - destruct ign; [|apply goes_nil]. specialize (Hi eq_refl).
    assert (c = true) as -> by (apply Hct; by intros ->).
    apply goes_cons. rewrite Hstep by lia. unfold vcollect. rewrite decide_False by lia.
    apply goes_nil.
Qed.

(** ** The prefix a parser writes *)

Lemma is_numbers_hdr dcs ph : is_numbers (hdr_state dcs ph) = bool_decide (ph = PNumbers).
Proof. by destruct dcs, ph. Qed.

Lemma private_split priv rest :
  (priv = [] \/ exists x, priv = [x] /\ 60 <= x <= 63) ->
  Forall (fun x => 32 <= x <= 47) rest ->
  let k := match priv ++ rest with first :: _ => if decide (60 <= first) then 1%nat else 0%nat
           | [] => 0%nat end in
  take k (priv ++ rest) = priv /\ drop k (priv ++ rest) = rest.
Proof.
  intros [->|(x & -> & Hx)] Hr; simpl.
  - destruct rest as [|r rest]; [done|]. apply Forall_cons in Hr as [Hr _].
    by rewrite decide_False by lia.
  - rewrite decide_True by lia. simpl. by rewrite take_0.
Qed.

Lemma replay_prefix_hdr N p dcs ph ps n priv rest ign :
  rep N p (VHdr dcs ph ps n (priv ++ rest) ign) -> hdr_wf ph ps n priv rest ign ->
  exists zero, replay_prefix p = hdr_prefix dcs ph ps n priv rest ign zero /\
    (zero = [] \/ (zero = [48] /\ length ps = 32%nat)).
Proof.
  intros [Ha (Hs & Hu & (Hil & _ & Ht) & Hig & Hn & Hps)] (_ & _ & Hlen & _ & Hpriv & Hrest & _ & _ & _).
  exists (if ignored p && bool_decide (used (params p) = 32%nat) then [48] else []).
  pose proof (pr_used _ _ Hps) as Hused. split.
  2: { rewrite Hused. destruct (ignored p && _) eqn:E; [right|by left].
       apply andb_true_iff in E as [_ E]. by apply bool_decide_eq_true in E. }
  pose proof (private_split priv rest Hpriv Hrest) as [Htk Hdr].
  assert (Hbody : replay_prefix p =
    (if is_dcs (state p) then [27; 80] else [27; 91])
        ++ take (match priv ++ rest with first :: _ => if decide (60 <= first) then 1%nat else 0%nat
                 | [] => 0%nat end) (priv ++ rest)
        ++ write_params (params p) 0 0 (used (params p))
        ++ (if bool_decide (used (params p) <> 0%nat) || bool_decide (number p <> 0)
               || is_numbers (state p)
            then write_number (number p) else [])
        ++ (if ignored p && bool_decide (used (params p) = 32%nat) then [48] else [])
        ++ drop (match priv ++ rest with first :: _ => if decide (60 <= first) then 1%nat else 0%nat
                 | [] => 0%nat end) (priv ++ rest)
        ++ (if ignored p && bool_decide (used (params p) < 32)%nat then [32] else [])).
  { unfold replay_prefix. rewrite Ht, Hs. by destruct dcs, ph. }
  rewrite Hbody, Htk, Hdr, Hs, is_dcs_hdr, is_numbers_hdr, Hn. unfold hdr_prefix.
  rewrite Hused at 1. rewrite (write_params_rep _ ps [] ps Hps eq_refl : write_params _ 0 0 _ = _).
  rewrite Hused. rewrite Hused in Hig.
  do 3 f_equal. f_equal; [|do 2 f_equal].
  - rewrite (bool_decide_ext (length ps <> 0%nat) (ps <> [])); [done|].
    destruct ps; simpl; split; done || lia.
  - destruct (decide (length ps < 32)%nat).
    + by rewrite <- Hig, (bool_decide_eq_false_2 (length ps = 32%nat)), orb_false_r by lia.
    + by rewrite (bool_decide_eq_false_2 (length ps < 32)%nat), !andb_false_r.
Qed.

Lemma write_osc_prefix_rep p args cur :
  osc_rep p args cur -> osc_overflow p = false ->
  is_pointer_osc p || pointer_prefix p = true ->
  write_osc_prefix p = ([27; 93] ++ concat ((fun a => a ++ [59]) <$> args) ++ cur)
    ++ (if decide (state p = OscEscape) then [27] else []).
Proof.
  intros Hosc Hov Hp. unfold write_osc_prefix. rewrite Hp, Hov, <- app_assoc. f_equal. f_equal.
  rewrite (or_ends _ _ _ Hosc), (or_len _ _ _ Hosc).
  apply (write_segments_rep _ 0 _ _ (drop (osc_len p) (osc p))).
  rewrite drop_0, app_assoc, <- (or_bytes _ _ _ Hosc). by rewrite take_drop.
Qed.

(** An unfinished selector never overflows. *)
Lemma pointer_prefix_fits N p args cur :
  (3 <= N)%nat -> osc_rep p args cur -> osc_wf N args cur (osc_overflow p) ->
  pointer_prefix p = true -> osc_overflow p = false.
Proof.
  intros HN Hosc (_ & _ & _ & _ & _ & Hov) Hp. destruct (osc_overflow p); [|done].
  unfold pointer_prefix in Hp. apply andb_true_iff in Hp as [H0 Hp].
  apply bool_decide_eq_true in H0. rewrite (or_args _ _ _ Hosc) in H0.
  destruct args; [|done]. destruct (Hov eq_refl) as [|Hle]; [done|].
  unfold osc_total in Hle. simpl in Hle.
  pose proof (or_len _ _ _ Hosc) as Hl. unfold osc_total in Hl. simpl in Hl.
  apply orb_true_iff in Hp as [Hp|Hp]; apply bool_decide_eq_true in Hp; [lia|].
  rewrite (or_bytes _ _ _ Hosc) in Hp. simpl in Hp. rewrite Hp in Hle.
  rewrite length_take in Hle. simpl in Hle. lia.
Qed.

Lemma replay_goes N p v :
  (3 <= N)%nat -> rep N p v -> vwf N v ->
  (state p = Osc -> is_pointer_osc p || pointer_prefix p = true) ->
  goes N (VText []) (replay_prefix p) v.
Proof.
  intros HN H Hwf Hosc. pose proof H as [Ha Hv].
  destruct v as [[|f r]|c im ign|dcs ph ps n im ign|dcs| |args cur over|args cur|esc| ];
    cbn [rep_view] in Hv.
  - destruct Hv as [Hs Hu]. unfold replay_prefix. rewrite Hs, Hu, take_0. apply goes_nil.
  - destruct Hv as (Hs & Hu & Ht & Hok & _). unfold replay_prefix. rewrite Hs, Ht.
    by apply goes_pending.
  - destruct Hv as (Hs & Hu & (_ & _ & Ht) & Hig). unfold replay_prefix. rewrite Hs, Ht, Hig.
    destruct c; by apply goes_esc.
  - destruct Hwf as (priv & rest & -> & Hwf).
    destruct (replay_prefix_hdr _ _ _ _ _ _ _ _ _ H Hwf) as (zero & -> & Hz).
    by apply goes_hdr.
  - destruct Hv as [Hs _]. unfold replay_prefix. rewrite Hs. by destruct dcs; vm_compute.
  - destruct Hv as [Hs _]. unfold replay_prefix. rewrite Hs. by vm_compute.
  - destruct Hv as (Hs & _ & Hr & Hov & Hp). specialize (Hosc Hs).
    pose proof (osc_rep_pointer _ _ _ Hr) as Hptr.
    assert (Hof : osc_overflow p = false).
    { apply orb_true_iff in Hosc as [Hx|Hx].
      - rewrite Hptr in Hx. rewrite Hx in Hp. by rewrite Hov.
      - eapply pointer_prefix_fits; [done|done| |done]. by rewrite Hov. }
    unfold replay_prefix. rewrite Hs, (write_osc_prefix_rep _ _ _ Hr Hof Hosc).
    rewrite decide_False by (by rewrite Hs). rewrite app_nil_r.
    subst over. rewrite Hof in Hwf |- *. by apply goes_osc.
  - destruct Hv as (Hs & _ & Hr & Hov & Hp). destruct Hwf as [Hwf _].
    pose proof (osc_rep_pointer _ _ _ Hr) as Hptr.
    unfold replay_prefix. rewrite Hs, (write_osc_prefix_rep _ _ _ Hr Hov) by by rewrite Hptr, Hp.
    rewrite decide_True by done. eapply goes_app; [by apply goes_osc|].
    apply goes_cons. cbn [vconsume]. rewrite Hp, decide_True by done. apply goes_nil.
  - destruct Hv as (Hs & _ & Hp & Hov & Hl).
    assert (Hpre : replay_prefix p = ([27; 93] ++ [50; 50; 59] ++ replicate (N + 1) 120)
                     ++ (if esc then [27] else [])).
    { unfold replay_prefix, write_osc_prefix. rewrite Hs, Hp, Hov, (ar_osc _ _ Ha).
      destruct esc; cbn [orb]; [rewrite decide_True by done|rewrite decide_False by done];
        by rewrite <- !app_assoc. }
    rewrite Hpre. eapply goes_app; [apply goes_dead; lia|]. destruct esc; by vm_compute.
  - destruct Hv as [Hs _]. unfold replay_prefix. rewrite Hs. by vm_compute.
Qed.

(** ** Index safety *)

Definition ascending_to (bound : nat) (ends : list nat) : Prop :=
  StronglySorted le ends /\ Forall (fun e => e <= bound)%nat ends.

(** What the decoder's array accesses rely on, by state: the write positions are
    inside the arrays and the end tables cut them into well-formed slices. *)
Record index_safe (N : nat) (p : Parser) : Prop := {
  is_utf8 : (utf8_len p < 4)%nat;
  is_intermediates :
    match state p with
    | Escape | EscapeCollect | CsiStart | CsiNumbers | CsiCollect | DcsStart | DcsNumbers
    | DcsCollect => (intermediate_len p <= 2)%nat
    | _ => True
    end;
  is_params :
    match state p with
    | CsiStart | CsiNumbers | CsiCollect | DcsStart | DcsNumbers | DcsCollect =>
        (used (params p) <= 32)%nat /\ (groups (params p) <= used (params p))%nat /\
        length (ends (params p)) = 32%nat /\
        ascending_to (used (params p)) (take (groups (params p)) (ends (params p)))
    | _ => True
    end;
  is_osc :
    match state p with
    | Osc | OscEscape =>
        (osc_len p <= N)%nat /\
        (is_pointer_osc p && osc_overflow p = false ->
         (osc_args p <= 16)%nat /\ ascending_to (osc_len p) (take (osc_args p) (osc_ends p)))
    | _ => True
    end;
}.

Lemma ascending_cons bound e es :
  (e <= bound)%nat -> Forall (fun x => e <= x)%nat es -> ascending_to bound es ->
  ascending_to bound (e :: es).
Proof. intros H1 H2 [H3 H4]. split; by constructor. Qed.

Lemma closed_ends_ascending i ps : ascending_to (i + length ps) (closed_ends i ps).
Proof.
  revert i; induction ps as [|[v c] ps IH]; intros i; simpl; [split; constructor|].
  rewrite <- Nat.add_succ_comm. destruct c; [|apply IH].
  apply ascending_cons; [lia| |apply IH].
  eapply Forall_impl; [apply closed_ends_gt|]. simpl. lia.
Qed.

Lemma arg_ends_ascending start args :
  ascending_to (start + length (concat args)) (arg_ends start args) /\
  Forall (fun x => start <= x)%nat (arg_ends start args).
Proof.
  revert start; induction args as [|a args IH]; intros start; simpl;
    [split; [split|]; constructor|].
  rewrite length_app, Nat.add_assoc. destruct (IH (start + length a)%nat) as [IH1 IH2]. split.
  - apply ascending_cons; [lia|done|done].
  - constructor; [lia|]. eapply Forall_impl; [exact IH2|]. simpl. lia.
Qed.

Lemma params_rep_safe self ps :
  params_rep self ps ->
  (used self <= 32)%nat /\ (groups self <= used self)%nat /\ length (ends self) = 32%nat /\
  ascending_to (used self) (take (groups self) (ends self)).
Proof.
  intros [Hv Hu Hc Hvs Hg He]. pose proof (closed_ends_length 0 ps) as Hl.
  split_and!; [lia|lia| |].
  - rewrite He, length_app. destruct (last_open ps) eqn:Ho; simpl; rewrite length_replicate.
    + pose proof (last_open_length 0 ps Ho). lia.
    + lia.
  - rewrite He, Hg, take_app_length, Hu. apply (closed_ends_ascending 0 ps).
Qed.

Lemma osc_rep_safe p args cur :
  osc_rep p args cur ->
  (osc_args p <= 16)%nat /\ ascending_to (osc_len p) (take (osc_args p) (osc_ends p)).
Proof.
  intros [Hl Hc Hb Ha Hm He Hf]. split; [lia|]. rewrite He.
  destruct (arg_ends_ascending 0 args) as [[Hs Hall] _]. split; [done|].
  eapply Forall_impl; [exact Hall|]. simpl. rewrite Hl. unfold osc_total.
  rewrite length_app. lia.
Qed.

Lemma rep_index_safe N p v : rep N p v -> index_safe N p.
Proof.
  intros [Ha Hv]. pose proof (ar_osc _ _ Ha) as HN.
  destruct v as [[|f r]|c im ign|dcs ph ps n im ign|dcs| |args cur over|args cur|esc| ];
    cbn [rep_view] in Hv.
  - destruct Hv as [Hs Hu]. split; rewrite ?Hs; done || lia.
  - destruct Hv as (Hs & Hu & _ & Hok & _). split; rewrite ?Hs; try done.
    destruct Hok as (? & ? & [= <- <-] & _ & Hw & _). unfold width in Hw.
    repeat case_decide; lia.
  - destruct Hv as (Hs & Hu & (Hil & Hle & _) & _). split; rewrite ?Hs; destruct c; done || lia.
  - destruct Hv as (Hs & Hu & (Hil & Hle & _) & _ & _ & Hps).
    pose proof (params_rep_safe _ _ Hps).
    split; rewrite ?Hs; destruct dcs, ph; simpl; done || lia.
  - destruct Hv as [Hs Hu]. split; rewrite ?Hs; destruct dcs; done || lia.
  - destruct Hv as [Hs Hu]. split; rewrite ?Hs; done || lia.
  - destruct Hv as (Hs & Hu & Hr & _). pose proof (osc_rep_safe _ _ _ Hr).
    pose proof (or_capacity _ _ _ Hr). split; rewrite ?Hs; try done; try lia.
    split; [lia|done].
  - destruct Hv as (Hs & Hu & Hr & _). pose proof (osc_rep_safe _ _ _ Hr).
    pose proof (or_capacity _ _ _ Hr). split; rewrite ?Hs; try done; try lia.
    split; [lia|done].
  - destruct Hv as (Hs & Hu & Hp & Hov & Hl).
    split; rewrite ?Hs; destruct esc; try done; try lia;
      (split; [lia|]); rewrite Hp, Hov; done.
  - destruct Hv as [Hs Hu]. split; rewrite ?Hs; done || lia.
Qed.

(** ** The decoder's properties *)

(** C9: for every sequence of chunks the fixed-storage decoder makes exactly the
    callbacks of the list-based reference decoder, in the same order, and its
    final storage stands for the reference's final state. *)
Theorem decoder_refines_reference (N : nat) (chunks : list (list Z)) :
  let r := feed (new_with_size N) chunks in
  let s := vfeed N (VText []) chunks in
  r.2 = s.2 /\ rep N r.1 s.1.
Proof. destruct (feed_refines N _ _ chunks (rep_new N)). done. Qed.

(** C32: after any input every array position the decoder may touch is in range,
    the end tables cut the stored parameters and OSC bytes into well-formed
    slices, and the [unreachable!] arm of [consume] is not reached: control of
    OSC 22 strings never passes an [OscEscape] state on to it. *)
Theorem decoder_never_panics (N : nat) (chunks : list (list Z)) (b : Z) :
  let p := (feed (new_with_size N) chunks).1 in
  index_safe N p /\
  forall q acts, pointer_string_control p b = (q, acts, false) -> state q <> OscEscape.
Proof.
  cbn zeta. split; [eapply rep_index_safe, feed_refines, rep_new|].
  unfold pointer_string_control. intros q acts.
  repeat (case_decide || destruct (_ && _) || destruct (end_string _ _)); intros [= <- _]; done.
Qed.

(** C30: a fresh decoder fed the replay prefix of any reachable decoder makes, on
    every later input, exactly the callbacks the original would make: numeric
    groups, intermediates, ignore flags, partial UTF-8 and OSC 22 strings all
    survive.  The one exception is an OSC string that is not, and cannot become,
    an OSC 22 request. *)
Theorem hydrated_decoder_continues (N : nat) (prior later : list (list Z)) :
  (3 <= N)%nat ->
  let p := (feed (new_with_size N) prior).1 in
  (state p = Osc -> is_pointer_osc p || pointer_prefix p = true) ->
  let q := (vt_advance (new_with_size N) (replay_prefix p)).1 in
  (feed q later).2 = (feed p later).2.
Proof.
  intros HN p Hosc q.
  destruct (feed_refines N _ _ prior (rep_new N)) as [Hp _]. fold p in Hp.
  set (v := (vfeed N (VText []) prior).1) in *.
  assert (Hwf : vwf N v) by (apply vfeed_wf; by left).
  assert (Hq : rep N q v).
  { destruct (vt_advance_refines N _ _ (replay_prefix p) (rep_new N)) as [Hq _].
    fold q in Hq. cbn [vadvance] in Hq. by rewrite (replay_goes N p v HN Hp Hwf Hosc) in Hq. }
  destruct (feed_refines N p v later Hp) as [_ ->].
  by destruct (feed_refines N q v later Hq) as [_ ->].
Qed.

(** A header with a private marker, a colon group and an intermediate, cut after
    the intermediate and continued. *)
Lemma hydrated_decoder_continues_witness :
  let p := (feed (new_with_size 8) [[27; 91; 63; 49; 58; 50; 59]; [55; 36]]).1 in
  let q := (vt_advance (new_with_size 8) (replay_prefix p)).1 in
  (feed q [[112]]).2 = (feed p [[112]]).2 /\
  (feed p [[112]]).2 = [ACsiDispatch [[1; 2]; [7]] [63; 36] false 112].
Proof.
  split; [|by vm_compute].
  apply (hydrated_decoder_continues 8 [[27; 91; 63; 49; 58; 50; 59]; [55; 36]] [[112]]); [lia|].
  by vm_compute.
Defined.

(** hydration in the middle of any other OSC string loses its selector, and
    what follows is read as a new one: a title that contains [22;x], cut after
    its selector, is dispatched as a title by the original decoder and as an OSC
    22 pointer-shape request by the hydrated one. *)
Theorem hydrated_title_becomes_pointer_request :
  let p := (feed new [[27; 93; 48; 59]]).1 in
  let q := (vt_advance new (replay_prefix p)).1 in
  let later := [[50; 50; 59; 120; 7]] in
  (feed p later).2 = [AOscDispatch [[48]; [50; 50]; [120]] true] /\
  (feed q later).2 = [AOscDispatch [[50; 50]; [120]] true].
Proof. by vm_compute. Qed.
