(* ===== verification/VtChunks.v ===== *)
(** * Chunk boundaries in a stream of terminal output

    A decoder is given its input in chunks. Inside a chunk a character is
    decoded byte by byte; a character that a boundary cuts is completed by
    [complete_saved_utf8] from a window of at most four bytes. This file shows
    when the two agree, so that the boundary cannot be seen, and gives the two
    cases in which it can. *)

From S2P Require Import Prelude Utf8 VtParser VtSpec VtParserProps VtReplay.

(** ** Decoding past a pending prefix *)

Ltac pending_shape H :=
  let first := fresh "first" in let rest := fresh "rest" in
  let Hf := fresh "Hf" in let Hw := fresh "Hw" in let Hall := fresh "Hall" in let Hs := fresh "Hs" in
  destruct H as (first & rest & -> & Hf & Hw & Hall & Hs);
  unfold width in Hw; cbn [length] in Hw;
  destruct rest as [|?x [|?y [|?z rest]]]; cbn [length] in Hw; repeat case_decide; try lia;
  repeat match goal with H : Forall _ (_ :: _) |- _ => apply Forall_cons in H as [?H H] end;
  repeat match goal with H : Is_true _ |- _ => apply Is_true_true in H end.

(** A proper prefix of a character is an unexpected end of input. *)
Lemma decode_pending l : pending_ok l -> decode_char l = inl None.
Proof.
  intros H. pending_shape H; unfold decode_char; repeat case_decide; try lia; try done;
    repeat match goal with H : _ = true |- _ => rewrite H; clear H end; done.
Qed.

(** A byte that does not continue it is an error after the prefix. *)
Lemma decode_broken l b r : pending_ok l -> continues l b = false -> decode_char (l ++ b :: r) = inl (Some (length l)).
Proof.
  intros H Hc. assert (forall first, is_continuation b && second_ok first b = false -> second_ok first b = false) as Hsec.
  { intros first. destruct (second_ok first b) eqn:E; [|done]. apply second_ok_continuation in E.
    apply Is_true_true in E. by rewrite E. }
  pending_shape H; unfold continues in Hc; unfold decode_char; cbn [app length]; repeat case_decide; try lia; try done;
    repeat match goal with H : _ = true |- _ => rewrite H; clear H end; rewrite ?Hc; try done;
    apply Hsec in Hc; try by rewrite Hc.
  unfold second_ok in Hc. rewrite !decide_False in Hc by lia. by rewrite Hc.
Qed.

(** The bytes of a character decide how the input goes on. *)
Lemma decode_whole l r c n : decode_char l = inr (c, n) -> n = length l -> decode_char (l ++ r) = inr (c, n).
Proof.
  unfold decode_char. destruct l as [|a l]; [done|]. intros H ->. revert H.
  repeat case_decide; try done; destruct l as [|x [|y [|z l]]]; cbn [app length]; repeat case_match; try done; congruence.
Qed.

Section decoder.
Context (N : nat).
Local Notation consume_all := (vconsume_all N).

Lemma consume_app v l r :
  consume_all v (l ++ r) = with_actions (consume_all v l).2 (consume_all (consume_all v l).1 r).
Proof.
  unfold with_actions. revert v. induction l as [|b l IH]; intros v; cbn [app vconsume_all]; [cbn; by destruct (consume_all v r)|].
  destruct (vconsume N v b) as [v1 a1]. rewrite IH. destruct (consume_all v1 l) as [v2 a2]. cbn [fst snd].
  destruct (consume_all v2 r). by rewrite app_assoc.
Qed.

(** Byte by byte, a pending prefix is decoded as [decode_char] says. *)
Lemma consume_after_pending pending l : pending_ok pending ->
  match decode_char (pending ++ l) with
  | inr (c, n) => (length pending < n)%nat /\
      consume_all (VText pending) l
      = with_actions (scalar_action (take n (pending ++ l))) (consume_all (VText []) (drop (n - length pending) l))
      /\ decode_char (take n (pending ++ l)) = inr (c, n)
  | inl (Some e) => (length pending <= e)%nat /\
      consume_all (VText pending) l = with_actions [APrint REPLACEMENT] (consume_all (VText []) (drop (e - length pending) l))
  | inl None => consume_all (VText pending) l = (VText (pending ++ l), [])
  end.
Proof.
  revert pending. induction l as [|b l IH]; intros pending Hp.
  { rewrite app_nil_r, decode_pending by done. done. }
  pose proof Hp as (first & rest & -> & _). rename Hp into Hok.
  destruct (continues (first :: rest) b) eqn:Hc.
  - pose proof (pending_extend _ _ _ Hok Hc) as Hext. cbn [vconsume_all vconsume]. rewrite Hc.
    assert ((first :: rest) ++ b :: l = (first :: rest ++ [b]) ++ l) as -> by (simpl; by rewrite <- (assoc_L app)).
    assert (length (first :: rest ++ [b]) = S (length (first :: rest))) as El by (simpl; rewrite length_app; simpl; lia).
    destruct (decide (length (first :: rest ++ [b]) = width first)) as [Hw|Hw].
    + destruct Hext as [c Hd]. pose proof (decode_whole _ l _ _ Hd eq_refl) as ->.
      rewrite take_app_length. split; [lia|]. split; [|done].
      replace (length (first :: rest ++ [b]) - length (first :: rest))%nat with 1%nat by lia. change (drop 1 (b :: l)) with l. unfold with_actions. by destruct (consume_all (VText []) l).
    + specialize (IH _ Hext).
      destruct (decode_char _) as [[e|]|[c n]].
      * destruct IH as [Hl ->]. rewrite El in *. split; [lia|].
        replace (e - length (first :: rest))%nat with (S (e - S (length (first :: rest)))) by lia. done.
      * by rewrite IH.
      * destruct IH as (Hl & -> & Hd). rewrite El in *. split; [lia|]. split; [|done].
        replace (n - length (first :: rest))%nat with (S (n - S (length (first :: rest)))) by lia. done.
  - rewrite decode_broken by done. split; [done|]. rewrite Nat.sub_diag. cbn [drop vconsume_all vconsume]. rewrite Hc.
    unfold with_actions. cbn [fst snd]. destruct (vinterrupt [] b (vtext b)) as [v a] eqn:Ev.
    cbn [fst snd]. by destruct (consume_all v l).
Qed.

(** ** Completing a cut character *)

(** The window [complete_saved_utf8] looks at. *)
Definition window (pending bytes : list Z) : list Z := pending ++ take (4 - length pending) bytes.

(** The boundary before [bytes] cannot be seen when the character it cuts, if
    it is complete in the window, is no C1 control, and the window holds no
    further whole character before bytes that do not decode. *)
Definition seamless (pending bytes : list Z) : Prop :=
  match from_utf8 (window pending bytes) with
  | (c :: _, valid_up_to, outcome) => ~ 128 <= c <= 159 /\ (outcome = Utf8_ok \/ valid_up_to = len_utf8 c)
  | _ => True
  end.

Lemma decode_char_len l c n : decode_char l = inr (c, n) -> n = len_utf8 c.
Proof.
  unfold decode_char. destruct l as [|a l]; [done|].
  destruct (decide (a < 128)); [intros [= <- <-]; unfold len_utf8; by rewrite decide_True|].
  repeat (case_decide || case_match; subst; try done); intros [= <- <-];
    repeat match goal with H : negb _ = false |- _ => apply negb_false_iff in H end;
    unfold second_ok, is_continuation in *; repeat case_decide;
    repeat match goal with H : bool_decide _ = true |- _ => apply bool_decide_eq_true in H end;
    unfold len_utf8; repeat case_decide; lia.
Qed.

(** Errors and characters lie within the first four bytes. *)
Lemma decode_char_error l e : decode_char l = inl (Some e) -> (e <= 3)%nat.
Proof. unfold decode_char. destruct l as [|a l]; [done|]. repeat (case_decide || case_match; try done); intros [= <-]; lia. Qed.

Lemma decode_char_short l c n : decode_char l = inr (c, n) -> (n <= 4)%nat.
Proof. intros ->%decode_char_len. unfold len_utf8. repeat case_decide; lia. Qed.

Lemma from_utf8_loop_chars fuel l k cs : exists more, (from_utf8_loop fuel l k cs).1.1 = cs ++ more.
Proof.
  revert l k cs. induction fuel as [|fuel IH]; intros l k cs; cbn [from_utf8_loop].
  - exists []. rewrite app_nil_r. by destruct l.
  - destruct l; [exists []; by rewrite app_nil_r|]. destruct (decode_char _) as [|[c n]]; [exists []; by rewrite app_nil_r|].
    destruct (IH (drop n (z :: l)) (k + n)%nat (cs ++ [c])) as [more ->]. exists (c :: more). by rewrite <- (assoc_L app).
Qed.

Lemma window_drop {A} (j k : nat) (l : list A) : (j <= k)%nat \/ (length l <= k)%nat -> drop j (take k l) ++ drop k l = drop j l.
Proof. intros [Hj|Hk]; [by apply drop_take_drop|]. by rewrite (take_ge l k), (drop_ge l k), app_nil_r. Qed.

(** Where the boundary cannot be seen, completing a character at once is
    decoding it byte by byte. *)
Lemma from_utf8_first_error buffer e : buffer <> [] -> decode_char buffer = inl e ->
  from_utf8_loop (length buffer) buffer 0 [] = ([], 0%nat, Utf8_error e).
Proof. intros Hne Hd. destruct buffer as [|x l]; [done|]. cbn [length from_utf8_loop]. by rewrite Hd. Qed.

Lemma from_utf8_first_char buffer c n : buffer <> [] -> decode_char buffer = inr (c, n) ->
  exists more valid outcome,
    from_utf8_loop (length buffer) buffer 0 [] = (c :: more, valid, outcome) /\ (n <= valid)%nat.
Proof.
  intros Hne Hd. destruct buffer as [|x l]; [done|]. cbn [length from_utf8_loop]. rewrite Hd.
  match goal with |- context [from_utf8_loop ?f ?r ?k ?cs] =>
    pose proof (from_utf8_loop_chars f r k cs) as [more Em]; pose proof (from_utf8_loop_valid f r k cs) as Hv;
    destruct (from_utf8_loop f r k cs) as [[cs' valid] outcome] end.
  cbn in Em, Hv. rewrite Em. by exists more, valid, outcome.
Qed.

Lemma seamless_advance pending bytes : pending_ok pending ->
  seamless pending bytes -> vadvance N (VText pending) bytes = consume_all (VText pending) bytes.
Proof.
  intros Hp Hs. pose proof Hp as (first & rest & Ep & Hf & Hw & _).
  assert (length pending < 4)%nat as Hlen by (unfold width in Hw; repeat case_decide; lia).
  assert (vadvance N (VText pending) bytes
    = (let '(v, acts, offset) := vcomplete pending bytes in with_actions acts (consume_all v (drop offset bytes)))) as ->
    by (by rewrite Ep). clear Ep.
  unfold vcomplete. set (k := Nat.min (4 - length pending) (length bytes)).
  assert (take (4 - length pending) bytes = take k bytes) as Et.
  { subst k. destruct (decide (4 - length pending <= length bytes)%nat); [by rewrite Nat.min_l by done|].
    rewrite Nat.min_r by lia. by rewrite !take_ge by lia. }
  unfold seamless, window in Hs. rewrite Et in Hs. set (buffer := pending ++ take k bytes) in *.
  assert (forall j, (j <= 4 - length pending)%nat -> drop j (take k bytes) ++ drop k bytes = drop j bytes) as Hdrop.
  { intros j Hj. apply window_drop. lia. }
  assert (forall v, consume_all v bytes = consume_all v (take k bytes ++ drop k bytes)) as Hsplit by (intros; by rewrite take_drop).
  rewrite Hsplit, consume_app. pose proof (consume_after_pending pending (take k bytes) Hp) as H. fold buffer in H.
  assert (buffer <> []) as Hne by (subst buffer; destruct pending; [destruct Hp as (? & ? & ? & _)|]; done).
  unfold from_utf8 in *. destruct (decode_char buffer) as [[e|]|[c n]] eqn:Hd.
  - rewrite (from_utf8_first_error _ _ Hne Hd).
    destruct H as [He ->]. cbn [fst snd with_actions]. rewrite decide_False by lia.
    apply decode_char_error in Hd. rewrite <- (Hdrop (e - length pending)%nat) by lia. rewrite consume_app. unfold with_actions. done.
  - rewrite (from_utf8_first_error _ _ Hne Hd).
    rewrite H. rewrite decide_False by lia. done.
  - destruct H as (Hn & -> & Hd'). pose proof (decode_char_len _ _ _ Hd) as Hl. pose proof (decode_char_short _ _ _ Hd) as H4.
    destruct (from_utf8_first_char _ _ _ Hne Hd) as (more & valid & outcome & Ef & Hv).
    rewrite Ef in *. destruct Hs as [Hc1 Hend].
    assert (scalar_action (take n buffer) = [APrint c]) as -> by (unfold scalar_action; rewrite Hd'; by rewrite decide_False).
    destruct outcome as [|e].
    + rewrite <- Hl, <- (Hdrop (n - length pending)%nat), consume_app by lia. done.
    + destruct Hend as [|Hend]; [done|]. rewrite decide_True by lia.
      rewrite Hend, <- Hl, <- (Hdrop (n - length pending)%nat), consume_app by lia. done.
Qed.

End decoder.

(** ** Whole streams *)

(** The bytes of a character a decoder has saved. *)
Definition saved (p : Parser) : list Z := take (utf8_len p) (utf8 p).

Fixpoint boundaries_seamless (p : Parser) (chunks : list (list Z)) : Prop :=
  match chunks with
  | [] => True
  | chunk :: rest =>
      (utf8_len p <> 0%nat -> seamless (saved p) chunk) /\ boundaries_seamless (vt_advance p chunk).1 rest
  end.

Lemma seamless_feed N p v chunks : rep N p v -> boundaries_seamless p chunks ->
  vfeed N v chunks = vconsume_all N v (concat chunks).
Proof.
  revert p v. induction chunks as [|chunk chunks IH]; intros p v Hr; [done|]. intros [Hs Hrest].
  cbn [vfeed concat]. rewrite consume_app.
  assert (vadvance N v chunk = vconsume_all N v chunk) as Ea.
  { destruct v as [[|first rest]| | | | | | | |]; try done.
    destruct Hr as [_ (_ & Hl & Ht & Hok & _)]. apply seamless_advance; [done|].
    unfold saved in Hs. rewrite Hl in Hs. rewrite <- Hl, Ht in Hs. apply Hs. by rewrite Hl. }
  destruct (vt_advance_refines N p v chunk Hr) as [Hr' _]. rewrite Ea in *.
  destruct (vconsume_all N v chunk) as [v1 a1]. cbn [fst snd] in *. rewrite (IH _ _ Hr' Hrest).
  unfold with_actions. by destruct (vconsume_all N v1 (concat chunks)).
Qed.

(** C31: A stream cut into chunks is decoded like the stream in one piece: the
    same callbacks, then and for whatever follows, on malformed input too,
    wherever the chunks are cut. A cut inside a character is excepted when that
    character is a C1 control, or when the four bytes from its start hold
    another whole character before bytes that do not decode or are cut off
    again. *)
Theorem chunk_boundary_invisible (N : nat) (chunks : list (list Z)) :
  boundaries_seamless (new_with_size N) chunks ->
  let r := feed (new_with_size N) chunks in
  let s := vt_advance (new_with_size N) (concat chunks) in
  r.2 = s.2 /\ forall later, (feed r.1 later).2 = (feed s.1 later).2.
Proof.
  intros Hs r s. destruct (feed_refines N _ _ chunks (rep_new N)) as [Hr Ha].
  destruct (vt_advance_refines N _ _ (concat chunks) (rep_new N)) as [Hr' Ha'].
  rewrite (seamless_feed N _ _ _ (rep_new N) Hs) in Hr, Ha. cbn [vadvance] in Hr', Ha'. subst r s.
  split; [congruence|]. intros later. destruct (feed_refines N _ _ later Hr) as [_ ->].
  by destruct (feed_refines N _ _ later Hr') as [_ ->].
Qed.

(** A character cut in the middle, an escape sequence cut in its parameters, and
    a malformed byte. *)
Lemma chunk_boundary_invisible_witness :
  let chunks := [[97; 226; 130]; [172; 27; 91]; [49; 109; 226]; [40; 98]] in
  boundaries_seamless (new_with_size 4) chunks /\
  (feed (new_with_size 4) chunks).2 = (vt_advance (new_with_size 4) (concat chunks)).2.
Proof.
  intros chunks. assert (boundaries_seamless (new_with_size 4) chunks) as H.
  { vm_compute. intuition congruence. }
  split; [exact H|]. exact (proj1 (chunk_boundary_invisible 4 chunks H)).
Defined.

(** The two cases in which a cut shows. Of three characters, the first cut in
    two, the one in the middle is lost; and a next-line control is printed
    instead of executed. *)
Lemma cut_character_shows :
  (feed new [[195]; [169; 65; 195; 169]]).2 = [APrint 233; APrint 233] /\
  (vt_advance new [195; 169; 65; 195; 169]).2 = [APrint 233; APrint 65; APrint 233] /\
  (feed new [[194]; [133]]).2 = [APrint 133] /\ (vt_advance new [194; 133]).2 = [AExecute 133].
Proof. by vm_compute. Qed.
