(* ===== verification/GridCell.v ===== *)
(** * Cells, rows and reflow of the terminal grid

    Styles and their interner (packages/terminal-grid/src/style.rs), cells and
    physical rows (model.rs) and the projection of logical lines to a width
    (reflow.rs). Columns, widths and style identifiers are [nat]: they are
    bounded by the 16-bit dimensions and by the number of styles, so the
    saturating arithmetic on them is exact. Allocation does not fail. *)

From S2P Require Import Prelude Utf8 TextStr.

(** ** Styles *)

Inductive Color :=
| Indexed (index : Z)
| Rgb (r g b : Z).

Record Style := mkStyle {
  fg : option Color;
  bg : option Color;
  bold : bool;
  italic : bool;
  underline : bool;
  inverse : bool;
  dim : bool;
  strike : bool;
  hidden : bool;
}.

#[export] Instance Color_eq_dec : EqDecision Color.
Proof. solve_decision. Defined.
#[export] Instance Style_eq_dec : EqDecision Style.
Proof. solve_decision. Defined.

Definition Style_default : Style := mkStyle None None false false false false false false false.

Definition erase_fill (s : Style) : Style :=
  if inverse s then mkStyle (fg s) (bg s) false false false true false false false
  else mkStyle None (bg s) false false false false false false false.

(** The interner: the styles in order of their identifiers. *)
Definition StylePalette : Type := list Style.
Definition StylePalette_default : StylePalette := [Style_default].
Definition DEFAULT : nat := 0.

Fixpoint position (styles : list Style) (s : Style) : option nat :=
  match styles with
  | [] => None
  | s' :: styles => if decide (s' = s) then Some 0%nat else S <$> position styles s
  end.

(** [StyleId(u32::try_from(index).unwrap_or(u32::MAX))]. *)
Definition style_id (index : nat) : nat :=
  if decide (Z.of_nat index <= max_u 32) then index else Z.to_nat (max_u 32).

Definition intern (p : StylePalette) (s : Style) : StylePalette * nat :=
  match position p s with
  | Some index => (p, style_id index)
  | None => (p ++ [s], style_id (length p))
  end.

Definition palette_get (p : StylePalette) (id : nat) : Style := default Style_default (p !! id).

(** ** Cells *)

Record Cell := mkCell {
  c_text : list Z;
  c_style : nat;
  c_width : nat;
  c_cont : bool;
}.

#[export] Instance Cell_eq_dec : EqDecision Cell.
Proof. solve_decision. Defined.

Definition Cell_new (text : list Z) (style width : nat) : Cell := mkCell text style (Nat.max width 1) false.
Definition spacer (style : nat) : Cell := mkCell [] style 0 true.
Definition blank (style : nat) : Cell := Cell_new [32] style 1.

Definition is_discardable_blank (c : Cell) : bool :=
  bool_decide (c_text c = [32]) && bool_decide (c_style c = DEFAULT) && negb (c_cont c).

(** ** Rows *)

Record PhysicalRow := mkRow {
  cells : list Cell;
  wrapped : bool;
}.

Definition PhysicalRow_new : PhysicalRow := mkRow [] false.

Definition set_wrapped (r : PhysicalRow) (b : bool) : PhysicalRow := mkRow (cells r) b.

Definition erase_filled (width style : nat) : PhysicalRow :=
  if decide (style = DEFAULT) then PhysicalRow_new else mkRow (replicate width (blank style)) false.

(** [while self.cells.last().is_some_and(..) { pop }]. *)
Fixpoint trim_front (l : list Cell) : list Cell :=
  match l with
  | c :: rest => if is_discardable_blank c then trim_front rest else l
  | [] => []
  end.

Definition trim_trailing_blank_cells (l : list Cell) : list Cell := reverse (trim_front (reverse l)).

(** [resize_with(n, ..)] that only grows. *)
Definition pad_to (n : nat) (l : list Cell) : list Cell := l ++ replicate (n - length l) (blank DEFAULT).

(** [resize_with]: grows with blanks or truncates. *)
Definition resize_cells (n : nat) (l : list Cell) : list Cell := take n (pad_to n l).

Definition set_cell (r : PhysicalRow) (col : nat) (c : Cell) : PhysicalRow :=
  mkRow (trim_trailing_blank_cells (<[col := c]> (pad_to (col + 1) (cells r)))) (wrapped r).

Definition cont_at (l : list Cell) (i : nat) : bool :=
  match l !! i with Some c => c_cont c | None => false end.

(** Cells [start..end] of a list become [c]. *)
Definition fill (l : list Cell) (start stop : nat) (c : Cell) : list Cell :=
  imap (fun i d => if bool_decide (start <= i < stop)%nat then c else d) l.

Definition clear_range (r : PhysicalRow) (start stop style : nat) : PhysicalRow :=
  if decide (stop <= start)%nat then r
  else
    let start := if cont_at (cells r) start then (start - 1)%nat else start in
    let stop := if cont_at (cells r) stop then (stop + 1)%nat else stop in
    if decide (style = DEFAULT) then
      if decide (length (cells r) <= start)%nat then r
      else
        let clamped_end := Nat.min stop (length (cells r)) in
        mkRow (trim_trailing_blank_cells (fill (cells r) start clamped_end (blank DEFAULT))) (wrapped r)
    else
      mkRow (trim_trailing_blank_cells (fill (pad_to stop (cells r)) start stop (blank style))) (wrapped r).

Definition row_truncate (r : PhysicalRow) (len : nat) : PhysicalRow :=
  let l := take len (cells r) in
  let l := match last l with
           | Some c => if bool_decide (c_width c = 2%nat) && negb (c_cont c)
                       then <[(length l - 1)%nat := blank DEFAULT]> l else l
           | None => l
           end in
  mkRow (trim_trailing_blank_cells l) (wrapped r).

Definition visual_cells (r : PhysicalRow) (width : nat) : list Cell := resize_cells width (cells r).

Definition row_is_blank (r : PhysicalRow) : bool := forallb is_discardable_blank (cells r).

(** [normalized_visual_cells]: [prev] is the cell before, as rewritten. *)
Fixpoint normalize_cells (prev : option Cell) (l : list Cell) : list Cell :=
  match l with
  | [] => []
  | c :: rest =>
      if c_cont c then
        let valid_previous := match prev with
                              | Some p => negb (c_cont p) && bool_decide (c_width p = 2%nat)
                              | None => false
                              end in
        let c := if valid_previous then c else blank DEFAULT in
        c :: normalize_cells (Some c) rest
      else if decide (c_width c = 2%nat) then
        match rest with
        | [] => [blank DEFAULT]
        | d :: rest' =>
            if c_cont d then c :: spacer (c_style c) :: normalize_cells (Some (spacer (c_style c))) rest'
            else blank DEFAULT :: normalize_cells (Some (blank DEFAULT)) rest
        end
      else c :: normalize_cells (Some c) rest
  end.

Definition normalized_visual_cells (l : list Cell) (width : nat) : list Cell :=
  normalize_cells None (resize_cells width l).

Definition row_logical_cells (r : PhysicalRow) (width : nat) : list Cell :=
  List.filter (fun c => negb (c_cont c)) (visual_cells r width).

(** Bytes charged for retained cells: [size_of::<Cell>()] is 32 on the
    64-bit targets. *)
Definition CELL_SIZE : Z := 32.

Definition history_cells_bytes (l : list Cell) : Z :=
  foldl (fun bytes c => bytes + str_len (c_text c)) (zlen l * CELL_SIZE) l.

Definition logical_width (l : list Cell) : nat := list_sum ((fun c => Nat.max (c_width c) 1) <$> l).

(** ** Projection *)

Definition projection_cells (l : list Cell) : list Cell := trim_trailing_blank_cells l.

Fixpoint count_rows (width : nat) (l : list Cell) (rows col : nat) (current_has_cells : bool) : nat :=
  match l with
  | [] => if current_has_cells then S rows else rows
  | c :: l =>
      let cell_width := Nat.max (c_width c) 1 in
      let overflow := bool_decide (0 < col)%nat && bool_decide (width < col + cell_width)%nat in
      let rows := if overflow then S rows else rows in
      let col := if overflow then 0%nat else col in
      let col := Nat.min (col + cell_width) width in
      if decide (width <= col)%nat then count_rows width l (S rows) 0 false
      else count_rows width l rows col true
  end.

Definition projected_row_count (l : list Cell) (width : nat) : nat :=
  let width := Nat.max width 1 in
  let l := projection_cells l in
  if decide (l = []) then 1%nat else Nat.max (count_rows width l 0 0 false) 1.

(** [visit_logical_rows]: the cells of each row, its first logical column and
    whether it wraps; [row] collects the row that starts at [row_column]. *)
Fixpoint visit_rows (width : nat) (rest row : list Cell) (col row_column logical : nat)
  : list (list Cell * nat * bool) :=
  match rest with
  | [] => if decide (row = []) then [] else [(row, row_column, false)]
  | c :: rest =>
      let size := Nat.max (c_width c) 1 in
      let overflow := bool_decide (0 < col)%nat && bool_decide (width < col + size)%nat in
      let before := if overflow then [(row, row_column, true)] else [] in
      let row := if overflow then [] else row in
      let row_column := if overflow then logical else row_column in
      let col := if overflow then 0%nat else col in
      let col := Nat.min (col + size) width in
      let logical := (logical + size)%nat in
      before ++
      (if decide (col = width)
       then (row ++ [c], row_column, negb (bool_decide (rest = []))) :: visit_rows width rest [] 0 logical logical
       else visit_rows width rest (row ++ [c]) col row_column logical)
  end.

Definition visit_logical_rows (l : list Cell) (width : nat) : list (list Cell * nat * bool) :=
  let width := Nat.max width 1 in
  if decide (l = []) then [([], 0%nat, false)] else visit_rows width l [] 0 0 0.

Definition try_set_projected_cell (r : PhysicalRow) (col : nat) (c : Cell) (width : nat) : PhysicalRow :=
  if bool_decide (c_width c = 2%nat) && bool_decide (width <= col + 1)%nat then r
  else
    let stop := (col + (if bool_decide (c_width c = 2%nat) && bool_decide (col + 1 < width)%nat then 2 else 1))%nat in
    let l := <[col := c]> (pad_to stop (cells r)) in
    let l := if decide (col + 1 < stop)%nat then <[(col + 1)%nat := spacer (c_style c)]> l else l in
    mkRow (trim_trailing_blank_cells l) (wrapped r).

Fixpoint project_cells (r : PhysicalRow) (col width : nat) (l : list Cell) : PhysicalRow :=
  match l with
  | [] => r
  | c :: l =>
      project_cells (try_set_projected_cell r col c width) (Nat.min (col + Nat.max (c_width c) 1) width) width l
  end.

Definition project_logical_line (l : list Cell) (width : nat) : list PhysicalRow :=
  (fun sel => set_wrapped (project_cells PhysicalRow_new 0 (Nat.max width 1) sel.1.1) sel.2)
  <$> visit_logical_rows (projection_cells l) width.
