(* ===== verification/GridCellProps.v ===== *)
(** * Well-formed rows

    A row is seen as the function from columns to cells that extends it with
    blanks. A row is well formed when every column holds a proper cell, a spacer
    stands exactly after each wide cell, nothing lies beyond the width and no
    trailing blank is stored. Every row operation keeps this, and a projection
    has as many rows as the counting function announces. *)

From S2P Require Import Prelude Utf8 TextStr GridCell.

Definition cell_ok (c : Cell) : Prop :=
  if c_cont c then c_width c = 0%nat /\ c_text c = []
  else (c_width c = 1 \/ c_width c = 2)%nat /\ c_text c <> [] /\ (c_text c = [32] -> c_width c = 1%nat).

Definition wide (c : Cell) : bool := bool_decide (c_width c = 2%nat).

Definition cell_at (l : list Cell) (i : nat) : Cell := default (blank DEFAULT) (l !! i).

(** The shape of a row as a function of the column. *)
Record shape (w : nat) (f : nat -> Cell) : Prop := {
  shape_cell i : cell_ok (f i);
  shape_first : c_cont (f 0%nat) = false;
  shape_pair i : c_cont (f (S i)) = wide (f i);
  shape_end i : (w <= i)%nat -> f i = blank DEFAULT;
}.

Definition trimmed (l : list Cell) : Prop := forall c, last l = Some c -> is_discardable_blank c = false.

Record row_ok (w : nat) (r : PhysicalRow) : Prop := {
  row_shape : shape w (cell_at (cells r));
  row_trimmed : trimmed (cells r);
}.

(** ** Cells *)

Lemma blank_ok s : cell_ok (blank s).
Proof. repeat split; [by left|done]. Qed.

Lemma spacer_ok s : cell_ok (spacer s).
Proof. by split. Qed.

#[export] Hint Resolve blank_ok spacer_ok : core.

Lemma discardable_is_blank c : cell_ok c -> is_discardable_blank c = true -> c = blank DEFAULT.
Proof.
  destruct c as [t s w b]. unfold cell_ok, is_discardable_blank; simpl. intros Hok Hd.
  apply andb_true_iff in Hd as [Hd ->%negb_true_iff]. apply andb_true_iff in Hd as [Ht Hs].
  apply bool_decide_eq_true in Ht, Hs. destruct Hok as (_ & _ & Hw). subst. by rewrite Hw.
Qed.

Lemma wide_blank s : wide (blank s) = false.
Proof. done. Qed.

Lemma wide_cont c : cell_ok c -> c_cont c = true -> wide c = false.
Proof. unfold cell_ok. intros H E. rewrite E in H. destruct H as [H _]. unfold wide. by rewrite H. Qed.

(** ** Lists as functions *)

Lemma cell_at_ok l : Forall cell_ok l <-> forall i, cell_ok (cell_at l i).
Proof.
  unfold cell_at. rewrite Forall_lookup. split.
  - intros H i. destruct (l !! i) eqn:E; simpl; eauto.
  - intros H i c E. specialize (H i). by rewrite E in H.
Qed.

Lemma cell_at_beyond l i : (length l <= i)%nat -> cell_at l i = blank DEFAULT.
Proof. intros H. unfold cell_at. by rewrite lookup_ge_None_2. Qed.

Lemma cont_at_cell l i : cont_at l i = c_cont (cell_at l i).
Proof. unfold cont_at, cell_at. by destruct (l !! i). Qed.

Lemma cell_at_pad n l i : cell_at (pad_to n l) i = cell_at l i.
Proof.
  unfold cell_at, pad_to. destruct (decide (i < length l)%nat).
  - by rewrite lookup_app_l.
  - rewrite (lookup_ge_None_2 l) by lia. rewrite lookup_app_r by lia.
    destruct (replicate _ _ !! _) as [c|] eqn:E; [|done]. by apply lookup_replicate in E as [-> _].
Qed.

Lemma cell_at_insert l i j c :
  (i < length l)%nat -> cell_at (<[i := c]> l) j = if decide (j = i) then c else cell_at l j.
Proof.
  intros H. unfold cell_at. case_decide; [subst; by rewrite list_lookup_insert_eq by done|].
  by rewrite list_lookup_insert_ne.
Qed.

Lemma cell_at_take n l i : cell_at (take n l) i = if decide (i < n)%nat then cell_at l i else blank DEFAULT.
Proof.
  unfold cell_at. case_decide; [by rewrite lookup_take_lt|]. by rewrite lookup_take_ge by lia.
Qed.

Lemma cell_at_fill l s e c i :
  (e <= length l)%nat -> cell_at (fill l s e c) i = if decide (s <= i < e)%nat then c else cell_at l i.
Proof.
  intros H. unfold cell_at, fill. rewrite list_lookup_imap. destruct (l !! i) eqn:E; simpl.
  - case_bool_decide; case_decide; by try lia.
  - apply lookup_ge_None in E. case_decide; [lia|done].
Qed.

Lemma pad_to_length n l : length (pad_to n l) = Nat.max n (length l).
Proof. unfold pad_to. rewrite length_app, length_replicate. lia. Qed.

(** ** Trimming *)

Lemma trim_front_spec l :
  exists k, l = k ++ trim_front l /\ Forall (fun c => is_discardable_blank c = true) k
    /\ (forall c, head (trim_front l) = Some c -> is_discardable_blank c = false).
Proof.
  induction l as [|c l (k & E & Hk & Hh)]; simpl; [by exists []|].
  destruct (is_discardable_blank c) eqn:Hc.
  - exists (c :: k). simpl. rewrite <- E. auto.
  - exists []. split_and!; [done..|]. intros d [= <-]. done.
Qed.

Lemma trim_spec l :
  exists k, l = trim_trailing_blank_cells l ++ k /\ Forall (fun c => is_discardable_blank c = true) k.
Proof.
  destruct (trim_front_spec (reverse l)) as (k & E & Hk & _). exists (reverse k). split; [|by apply Forall_reverse].
  unfold trim_trailing_blank_cells. rewrite <- reverse_app, <- E. by rewrite reverse_involutive.
Qed.

Lemma trim_trimmed l : trimmed (trim_trailing_blank_cells l).
Proof.
  intros c. unfold trim_trailing_blank_cells. rewrite last_reverse.
  destruct (trim_front_spec (reverse l)) as (k & _ & _ & Hh). apply Hh.
Qed.

Lemma trim_ok l : Forall cell_ok l -> Forall cell_ok (trim_trailing_blank_cells l).
Proof. destruct (trim_spec l) as (k & E & _). rewrite E at 1. by intros [H _]%Forall_app. Qed.

Lemma cell_at_trim l i : Forall cell_ok l -> cell_at (trim_trailing_blank_cells l) i = cell_at l i.
Proof.
  intros Hok. destruct (trim_spec l) as (k & E & Hk). rewrite E in Hok. apply Forall_app in Hok as [_ Hok].
  rewrite E at 2. unfold cell_at. destruct (decide (i < length (trim_trailing_blank_cells l))%nat) as [H|H].
  - by rewrite lookup_app_l.
  - rewrite lookup_app_r, lookup_ge_None_2 by lia. destruct (k !! _) as [c|] eqn:Ec; [|done]. simpl.
    rewrite Forall_lookup in Hok, Hk. symmetry. eauto using discardable_is_blank.
Qed.

Lemma trimmed_length l n :
  trimmed l -> (forall i, (n <= i)%nat -> cell_at l i = blank DEFAULT) -> (length l <= n)%nat.
Proof.
  intros Ht Hb. destruct (decide (length l <= n)%nat) as [|H]; [done|]. exfalso.
  destruct (last l) as [c|] eqn:E; [|apply last_None in E; subst; simpl in H; lia].
  specialize (Ht c E). rewrite last_lookup in E. specialize (Hb (pred (length l)) ltac:(lia)).
  unfold cell_at in Hb. rewrite E in Hb. simpl in Hb. by subst.
Qed.

Lemma row_ok_length w r : row_ok w r -> (length (cells r) <= w)%nat.
Proof. intros [H Ht]. by apply trimmed_length, (shape_end _ _ H). Qed.

Lemma row_ok_cells w r : row_ok w r -> Forall cell_ok (cells r).
Proof. intros [H _]. apply cell_at_ok, (shape_cell _ _ H). Qed.

(** Trimmed lists are determined by their columns. *)
Lemma trimmed_eq l k : trimmed l -> trimmed k -> (forall i, cell_at l i = cell_at k i) -> l = k.
Proof.
  intros Hl Hk He.
  assert (length l = length k) as Hlen.
  { apply Nat.le_antisymm; apply trimmed_length; try done; intros i Hi; [rewrite He|rewrite <- He];
      by apply cell_at_beyond. }
  apply list_eq. intros i. specialize (He i). unfold cell_at in He.
  destruct (l !! i) eqn:E1, (k !! i) eqn:E2; simpl in *; try congruence.
  - apply lookup_lt_Some in E1. apply lookup_ge_None in E2. lia.
  - apply lookup_lt_Some in E2. apply lookup_ge_None in E1. lia.
Qed.

(** ** Row operations as updates of columns *)

Definition upd (f : nat -> Cell) (j : nat) (c : Cell) (i : nat) : Cell := if decide (i = j) then c else f i.

Definition erased (f : nat -> Cell) (s e style : nat) (i : nat) : Cell :=
  let s := if c_cont (f s) then (s - 1)%nat else s in
  let e := if c_cont (f e) then (e + 1)%nat else e in
  if decide (s <= i < e)%nat then blank style else f i.

Lemma shape_ext w f g : (forall i, f i = g i) -> shape w f -> shape w g.
Proof. intros E [H1 H2 H3 H4]. split; intros; rewrite <- ?E; auto. Qed.

Lemma cell_at_set_cell r j c i :
  Forall cell_ok (cells r) -> cell_ok c -> cell_at (cells (set_cell r j c)) i = upd (cell_at (cells r)) j c i.
Proof.
  intros Hr Hc. assert (Forall cell_ok (pad_to (j + 1) (cells r))) as Hp.
  { apply cell_at_ok. intros k. rewrite cell_at_pad. by apply cell_at_ok. }
  unfold set_cell, upd; simpl. rewrite cell_at_trim by (by apply Forall_insert).
  rewrite cell_at_insert by (rewrite pad_to_length; lia). case_decide; [done|]. apply cell_at_pad.
Qed.

Lemma set_cell_trimmed r j c : trimmed (cells (set_cell r j c)).
Proof. apply trim_trimmed. Qed.

Lemma fill_ok l s e c : Forall cell_ok l -> cell_ok c -> Forall cell_ok (fill l s e c).
Proof.
  intros Hl Hc. rewrite Forall_lookup in *. intros i d. unfold fill. rewrite list_lookup_imap.
  intros (d' & E & ->)%fmap_Some. case_bool_decide; eauto.
Qed.

Lemma cell_at_clear_range r s e style i :
  Forall cell_ok (cells r) -> (s < e)%nat ->
  cell_at (cells (clear_range r s e style)) i = erased (cell_at (cells r)) s e style i.
Proof.
  intros Hr Hlt. unfold clear_range, erased. rewrite decide_False by lia. rewrite !cont_at_cell.
  set (s' := if c_cont _ then (s - 1)%nat else s). set (e' := if c_cont _ then (e + 1)%nat else e).
  destruct (decide (style = DEFAULT)) as [->|Hs].
  - case_decide as Hlen; simpl.
    + case_decide; [|done]. apply cell_at_beyond. lia.
    + rewrite cell_at_trim by (by apply fill_ok). rewrite cell_at_fill by lia.
      repeat case_decide; try done; try lia. apply cell_at_beyond. lia.
  - simpl. assert (Forall cell_ok (pad_to e' (cells r))) as Hp.
    { apply cell_at_ok. intros k. rewrite cell_at_pad. by apply cell_at_ok. }
    rewrite cell_at_trim by (by apply fill_ok). rewrite cell_at_fill by (rewrite pad_to_length; lia).
    case_decide; [done|]. apply cell_at_pad.
Qed.

Lemma clear_range_trimmed r s e style : trimmed (cells r) -> trimmed (cells (clear_range r s e style)).
Proof.
  intros H. unfold clear_range. case_decide; [done|]. case_decide; [case_decide; [done|]|]; apply trim_trimmed.
Qed.

(** Erasing widens to whole wide cells, so the boundaries stay paired. *)
Lemma erased_shape w f s e style : shape w f -> (s < e <= w)%nat -> shape w (erased f s e style).
Proof.
  intros [Hc H0 Hp He] Hse. unfold erased.
  set (s' := if c_cont (f s) then (s - 1)%nat else s). set (e' := if c_cont (f e) then (e + 1)%nat else e).
  assert (s' <= s)%nat as Hs' by (unfold s'; destruct (c_cont (f s)); lia).
  assert (e <= e')%nat as He' by (unfold e'; destruct (c_cont (f e)); lia).
  assert (e' <= w)%nat as Hw.
  { subst e'. destruct (c_cont (f e)) eqn:E; [|lia]. destruct (decide (e = w)) as [->|]; [|lia].
    by rewrite He in E by lia. }
  assert (forall k, s' = S k -> wide (f k) = false) as Hleft.
  { intros k Ek. rewrite <- Hp. subst s'. destruct (c_cont (f s)) eqn:E.
    - destruct s as [|s]; [simpl in Ek; lia|]. simpl in Ek. rewrite Nat.sub_0_r in Ek. subst s.
      rewrite Hp in E. destruct (c_cont (f (S k))) eqn:E2; [|done].
      by rewrite (wide_cont (f (S k))) in E.
    - by rewrite <- Ek. }
  assert (c_cont (f e') = false) as Hright.
  { subst e'. destruct (c_cont (f e)) eqn:E; [|done]. rewrite Nat.add_1_r, Hp. by apply wide_cont. }
  split.
  - intros i. case_decide; auto.
  - case_decide; auto.
  - intros i. repeat case_decide; auto.
    + simpl. symmetry. apply Hleft. lia.
    + rewrite wide_blank. by replace (S i) with e' by lia.
  - intros i Hi. case_decide; [lia|auto].
Qed.

Lemma clear_range_ok w r s e style : row_ok w r -> (e <= w)%nat -> row_ok w (clear_range r s e style).
Proof.
  intros Hr He. destruct (decide (e <= s)%nat) as [|Hlt].
  - unfold clear_range. by rewrite decide_True.
  - split; [|apply clear_range_trimmed, Hr]. eapply shape_ext; [|apply (erased_shape w (cell_at (cells r)) s e style)].
    + intros i. symmetry. apply cell_at_clear_range; [by eapply row_ok_cells|lia].
    + apply Hr.
    + lia.
Qed.

(** After an erasure its two ends are cut: no spacer follows it, no wide cell
    reaches into it. *)
Lemma erased_inside f s e style i : (s <= i < e)%nat -> erased f s e style i = blank style.
Proof. intros H. unfold erased. case_decide as Hd; [done|]. destruct (c_cont (f s)), (c_cont (f e)); lia. Qed.

(** A cell of width [cw] put where its columns were erased. *)
Definition placed (f : nat -> Cell) (c : nat) (cell : Cell) : nat -> Cell :=
  if wide cell then upd (upd f c cell) (c + 1) (spacer (c_style cell)) else upd f c cell.

Lemma placed_shape w f c cell :
  shape w f -> cell_ok cell -> c_cont cell = false -> (c + c_width cell <= w)%nat ->
  c_cont (f c) = false -> (forall i, (c <= i < c + c_width cell)%nat -> wide (f i) = false) ->
  shape w (placed f c cell).
Proof.
  intros [Hc H0 Hp He] Hok Hn Hw Hfc Hin. unfold placed.
  assert (c_width cell = 1 \/ c_width cell = 2)%nat as Hcw.
  { unfold cell_ok in Hok. rewrite Hn in Hok. tauto. }
  destruct (wide cell) eqn:Ew; unfold wide in Ew.
  - apply bool_decide_eq_true in Ew. split; unfold upd.
    + intros i. repeat case_decide; auto.
    + repeat case_decide; try done; try lia; auto.
    + intros i. repeat case_decide; subst; try lia; try done.
      * unfold wide. by rewrite bool_decide_true.
      * rewrite Hn. symmetry. rewrite <- Hp. done.
      * rewrite Hp. simpl. apply Hin. lia.
    + intros i Hi. repeat case_decide; try lia. auto.
  - apply bool_decide_eq_false in Ew. split; unfold upd.
    + intros i. repeat case_decide; auto.
    + case_decide; auto.
    + intros i. repeat case_decide; subst; try lia; try done.
      * rewrite Hn, <- Hp. done.
      * rewrite Hp, Hin by lia. symmetry. unfold wide. by apply bool_decide_eq_false.
    + intros i Hi. case_decide; [lia|auto].
Qed.

(** Erase a cell's columns, write the cell and its spacer. *)
Definition put_cell (r : PhysicalRow) (c : nat) (cell : Cell) : PhysicalRow :=
  let r := set_cell (clear_range r c (c + c_width cell) (c_style cell)) c cell in
  if wide cell then set_cell r (c + 1) (spacer (c_style cell)) else r.

Lemma clear_range_cells_ok r s e style : Forall cell_ok (cells r) -> Forall cell_ok (cells (clear_range r s e style)).
Proof.
  intros H. apply cell_at_ok. intros i. destruct (decide (e <= s)%nat) as [|Hlt].
  - unfold clear_range. rewrite decide_True by done. by apply cell_at_ok.
  - rewrite cell_at_clear_range by (done || lia). unfold erased. case_decide; [done|]. by apply cell_at_ok.
Qed.

Lemma set_cell_cells_ok r j c : Forall cell_ok (cells r) -> cell_ok c -> Forall cell_ok (cells (set_cell r j c)).
Proof.
  intros H Hc. apply cell_at_ok. intros i. rewrite cell_at_set_cell by done. unfold upd.
  case_decide; [done|]. by apply cell_at_ok.
Qed.

Lemma cell_at_put_cell r c cell i :
  Forall cell_ok (cells r) -> cell_ok cell -> (0 < c_width cell)%nat ->
  cell_at (cells (put_cell r c cell)) i
  = placed (erased (cell_at (cells r)) c (c + c_width cell) (c_style cell)) c cell i.
Proof.
  intros Hr Hc Hw. unfold put_cell, placed.
  assert (forall k, cell_at (cells (clear_range r c (c + c_width cell) (c_style cell))) k
    = erased (cell_at (cells r)) c (c + c_width cell) (c_style cell) k) as E
    by (intros k; apply cell_at_clear_range; [done|lia]).
  pose proof (clear_range_cells_ok r c (c + c_width cell) (c_style cell) Hr) as Hok.
  destruct (wide cell); [rewrite cell_at_set_cell by auto using set_cell_cells_ok|]; unfold upd;
    [case_decide; [done|]|]; rewrite cell_at_set_cell by done; unfold upd; by rewrite E.
Qed.

Lemma put_cell_ok w r c cell :
  row_ok w r -> cell_ok cell -> c_cont cell = false -> (c + c_width cell <= w)%nat -> row_ok w (put_cell r c cell).
Proof.
  intros Hr Hok Hn Hw.
  assert (c_width cell = 1 \/ c_width cell = 2)%nat as Hcw by (unfold cell_ok in Hok; rewrite Hn in Hok; tauto).
  split; [|unfold put_cell; destruct (wide cell); apply set_cell_trimmed].
  eapply shape_ext.
  { intros i. symmetry. apply cell_at_put_cell; [by eapply row_ok_cells|done|lia]. }
  apply placed_shape; try done.
  - apply erased_shape; [apply Hr|lia].
  - by rewrite erased_inside by lia.
  - intros i Hi. by rewrite erased_inside by lia.
Qed.

Lemma empty_shape w : shape w (fun _ => blank DEFAULT).
Proof. split; auto. Qed.

Lemma empty_row_ok w b : row_ok w (mkRow [] b).
Proof. split; [apply empty_shape|done]. Qed.

#[export] Hint Resolve empty_row_ok : core.

Lemma erase_filled_ok w style : row_ok w (erase_filled w style).
Proof.
  unfold erase_filled. case_decide as Hs; [apply empty_row_ok|].
  assert (forall i, cell_at (replicate w (blank style)) i = if decide (i < w)%nat then blank style else blank DEFAULT) as E.
  { intros i. unfold cell_at. case_decide; [by rewrite lookup_replicate_2|].
    rewrite lookup_ge_None_2; [done|]. rewrite length_replicate. lia. }
  split; simpl.
  - split; intros; rewrite ?E; repeat case_decide; auto; lia.
  - intros c Hc. rewrite last_lookup in Hc. apply lookup_replicate in Hc as [-> _].
    unfold is_discardable_blank. simpl. by rewrite (bool_decide_eq_false_2 (style = _)).
Qed.

Lemma set_wrapped_ok w r b : row_ok w r -> row_ok w (set_wrapped r b).
Proof. intros [H1 H2]. by split. Qed.

Lemma shape_weaken w w' f : shape w f -> (w <= w')%nat -> shape w' f.
Proof. intros [H1 H2 H3 H4] Hw. split; auto. intros i Hi. apply H4. lia. Qed.

(** A cell's text grows in place. *)
Lemma alter_text_ok w r c t :
  row_ok w r -> (1 < length t)%nat -> cont_at (cells r) c = false ->
  row_ok w (mkRow (alter (fun d => mkCell t (c_style d) (c_width d) (c_cont d)) c (cells r)) (wrapped r)).
Proof.
  intros [[H1 H2 H3 H4] Ht] Hl Hc. rewrite cont_at_cell in Hc.
  assert (t <> [] /\ t <> [32]) as [Ht0 Ht1] by (split; intros ->; simpl in Hl; lia).
  set (f := fun d => mkCell t (c_style d) (c_width d) (c_cont d)).
  assert (forall i, cell_at (alter f c (cells r)) i = if decide (i = c /\ (i < length (cells r))%nat) then f (cell_at (cells r) i) else cell_at (cells r) i) as E.
  { intros i. unfold cell_at. destruct (decide (i = c)) as [->|].
    - rewrite list_lookup_alter_eq. destruct (cells r !! c) eqn:Ec; simpl.
      + by rewrite decide_True by (split; [done|by eapply lookup_lt_Some]).
      + apply lookup_ge_None in Ec. by rewrite decide_False by lia.
    - rewrite list_lookup_alter_ne by done. by rewrite decide_False by tauto. }
  assert (forall d, c_cont (f d) = c_cont d /\ wide (f d) = wide d) as Hf by done.
  split; simpl.
  - split.
    + intros i. rewrite E. case_decide as Hi; [|done]. destruct Hi as [-> _]. specialize (H1 c).
      unfold cell_ok in *. simpl. rewrite Hc in *. by destruct H1.
    + rewrite E. case_decide; done.
    + intros i. rewrite !E. repeat case_decide; apply H3.
    + intros i Hi. rewrite E. case_decide as Hd; [|auto]. exfalso.
      pose proof (trimmed_length _ w Ht H4). lia.
  - intros d Hd. rewrite last_lookup, length_alter in Hd. destruct (decide (c = pred (length (cells r)))) as [->|].
    + rewrite list_lookup_alter_eq in Hd. apply fmap_Some in Hd as (d' & _ & ->).
      unfold is_discardable_blank. simpl. by rewrite (bool_decide_eq_false_2 (t = _)).
    + rewrite list_lookup_alter_ne in Hd by done. apply Ht. by rewrite last_lookup.
Qed.

(** ** Truncation, normalisation, replacement *)

(** A prefix of a row whose last cell, if wide, became a blank. *)
Definition cut (w : nat) (f : nat -> Cell) (i : nat) : Cell :=
  if decide (i < w)%nat then (if bool_decide (S i = w) && wide (f i) then blank DEFAULT else f i) else blank DEFAULT.

Lemma cut_shape w w' f : shape w' f -> shape w (cut w f).
Proof.
  intros [H1 H2 H3 H4]. unfold cut. split.
  - intros i. case_decide; [|done]. destruct (_ && _); auto.
  - case_decide; [|done]. destruct (_ && _); auto.
  - intros i. destruct (decide (S i < w)%nat).
    + rewrite !decide_True by lia. rewrite (bool_decide_eq_false_2 (S i = w)) by lia. simpl.
      case_bool_decide; simpl; [|apply H3]. destruct (wide (f (S i))) eqn:E; [|apply H3].
      simpl. rewrite <- H3. symmetry. destruct (c_cont (f (S i))) eqn:E2; [|done].
      by rewrite wide_cont in E.
    + repeat case_decide; try lia; try done.
      rewrite bool_decide_eq_true_2 by lia. simpl. by destruct (wide (f i)) eqn:E.
  - intros i Hi. by rewrite decide_False by lia.
Qed.

Lemma cell_at_last l c : last l = Some c -> cell_at l (length l - 1) = c.
Proof. rewrite last_lookup. intros E. unfold cell_at. by rewrite Nat.sub_1_r, E. Qed.

Lemma cell_at_row_truncate w w' r i :
  row_ok w' r -> cell_at (cells (row_truncate r w)) i = cut w (cell_at (cells r)) i.
Proof.
  intros Hr. pose proof (row_ok_cells _ _ Hr) as Hok. destruct Hr as [[H1 H2 H3 H4] _].
  set (l := take w (cells r)). assert (Forall cell_ok l) as Hl by (by apply Forall_take).
  assert (forall k, cell_at l k = if decide (k < w)%nat then cell_at (cells r) k else blank DEFAULT) as El
    by (intros k; apply cell_at_take).
  unfold row_truncate, cut; fold l. simpl. destruct (last l) as [c|] eqn:E.
  - pose proof (cell_at_last _ _ E) as Ec. assert (l <> []) as Hne by (by intros ->).
    assert (0 < length l)%nat as Hlen by (destruct l; simpl; [done|lia]).
    assert (length l <= w)%nat as Hlw by (subst l; rewrite length_take; lia).
    destruct (bool_decide (c_width c = 2%nat) && negb (c_cont c)) eqn:Ew.
    + apply andb_true_iff in Ew as [Ew _]. rewrite cell_at_trim by (by apply Forall_insert).
      rewrite cell_at_insert by lia. rewrite El.
      assert (length l = w) as Hfull.
      { destruct (decide (length l = w)) as [|Hn]; [done|exfalso].
        assert (length l = length (cells r)) as Hs by (subst l; rewrite length_take in *; lia).
        specialize (H3 (length l - 1)%nat). rewrite El, decide_True in Ec by lia. rewrite Ec in H3.
        unfold wide in H3. rewrite Ew in H3. rewrite cell_at_beyond in H3 by lia. done. }
      assert (wide (cell_at (cells r) (w - 1)) = true) as Hwide.
      { rewrite El, Hfull, decide_True in Ec by lia. by rewrite Ec. }
      rewrite Hfull. destruct (decide (i = (w - 1)%nat)) as [->|Hi].
      * rewrite decide_True by lia. by rewrite Hwide, bool_decide_eq_true_2 by lia.
      * case_decide; [|done]. by rewrite bool_decide_eq_false_2 by lia.
    + rewrite cell_at_trim, El by done. destruct (decide (i < w)%nat); [|done].
      destruct (decide (S i = w)) as [Hi|Hi]; [|by rewrite bool_decide_eq_false_2].
      rewrite bool_decide_eq_true_2 by done. simpl.
      destruct (decide (length l = w)) as [Hf|Hf].
      * replace i with (w - 1)%nat by lia. rewrite El, Hf, decide_True in Ec by lia. rewrite Ec.
        destruct (wide c) eqn:Ew'; [|done]. pose proof (H1 (w - 1)%nat) as Hc. rewrite Ec in Hc.
        unfold wide in Ew'. rewrite Ew' in Ew. simpl in Ew. apply negb_false_iff in Ew.
        pose proof (wide_cont c Hc Ew) as Hn. unfold wide in Hn. congruence.
      * rewrite cell_at_beyond; [done|]. subst l. rewrite length_take in *. lia.
  - apply last_None in E. rewrite cell_at_trim by done. rewrite El. case_decide; [|done].
    specialize (El i). rewrite E, decide_True in El by done. rewrite <- El. by destruct (_ && _).
Qed.

Lemma row_truncate_ok w w' r : row_ok w' r -> row_ok w (row_truncate r w).
Proof.
  intros Hr. split; [|apply trim_trimmed]. eapply shape_ext; [|eapply cut_shape, Hr].
  intros i. symmetry. by eapply cell_at_row_truncate.
Qed.

Lemma resize_cells_ok n l : Forall cell_ok l -> Forall cell_ok (resize_cells n l).
Proof. intros H. apply Forall_take, cell_at_ok. intros i. rewrite cell_at_pad. by apply cell_at_ok. Qed.

Lemma resize_cells_length n l : length (resize_cells n l) = n.
Proof. unfold resize_cells. rewrite length_take, pad_to_length. lia. Qed.

Lemma cell_at_resize n l i : cell_at (resize_cells n l) i = if decide (i < n)%nat then cell_at l i else blank DEFAULT.
Proof. unfold resize_cells. rewrite cell_at_take. by rewrite cell_at_pad. Qed.

(** Whatever cells it is given, normalisation pairs them. *)
Lemma normalize_spec n l prev :
  (length l <= n)%nat -> Forall cell_ok l -> match prev with Some p => wide p = false | None => True end ->
  let l' := normalize_cells prev l in
  length l' = length l /\ Forall cell_ok l' /\ c_cont (cell_at l' 0) = false
  /\ forall i, c_cont (cell_at l' (S i)) = wide (cell_at l' i).
Proof.
  revert l prev. induction n as [|n IH]; intros l prev Hn Hok Hprev; [destruct l; simpl in *; [done|lia]|].
  destruct l as [|c l]; [done|]. inversion Hok as [|? ? Hc Hl]; subst. simpl in Hn.
  assert (forall d, wide d = false -> cell_ok d -> c_cont d = false ->
    let l' := d :: normalize_cells (Some d) l in length l' = S (length l) /\ Forall cell_ok l' /\ c_cont (cell_at l' 0) = false
    /\ forall i, c_cont (cell_at l' (S i)) = wide (cell_at l' i)) as Hstep.
  { intros d Hw Hd Hdc. destruct (IH l (Some d)) as (H1 & H2 & H3 & H4); [lia|done|done|].
    simpl. rewrite H1. split_and!; [done|by constructor|done|]. intros [|i]; [|apply H4].
    change (c_cont (cell_at (normalize_cells (Some d) l) 0) = wide d). by rewrite H3, Hw. }
  cbn [normalize_cells]. destruct (c_cont c) eqn:Ecc.
  - assert ((match prev with Some p => negb (c_cont p) && bool_decide (c_width p = 2%nat) | None => false end) = false) as ->.
    { destruct prev as [p|]; [|done]. unfold wide in Hprev. rewrite Hprev. apply andb_false_r. }
    by apply Hstep.
  - case_decide as Hcw; [|apply Hstep; [by apply bool_decide_eq_false|done|done]].
    destruct l as [|d l]; [split_and!; [done|by repeat constructor|done|by intros [|i]]|].
    destruct (c_cont d) eqn:Ed; [|by apply Hstep].
    destruct (IH l (Some (spacer (c_style c)))) as (H1 & H2 & H3 & H4); [simpl in Hn; lia|by inversion Hl|done|].
    split_and!; [simpl; by rewrite H1|by repeat constructor|done|].
    intros [|[|i]]; [|exact H3|apply H4]. simpl. symmetry. by apply bool_decide_eq_true.
Qed.

Lemma normalized_shape w l : Forall cell_ok l -> shape w (cell_at (normalized_visual_cells l w)).
Proof.
  intros H. destruct (normalize_spec w (resize_cells w l) None) as (H1 & H2 & H3 & H4); [|by apply resize_cells_ok|done|].
  { by rewrite resize_cells_length. }
  split; [by apply cell_at_ok|done|done|]. intros i Hi. apply cell_at_beyond.
  unfold normalized_visual_cells. by rewrite H1, resize_cells_length.
Qed.

(** ** Projection *)

(** Cells of logical lines: no spacers. *)
Definition leader (c : Cell) : Prop := cell_ok c /\ c_cont c = false.

Lemma leader_width c : leader c -> (c_width c = 1 \/ c_width c = 2)%nat.
Proof. intros [H E]. unfold cell_ok in H. rewrite E in H. tauto. Qed.

Definition next_col (w col : nat) (c : Cell) : nat := Nat.min (col + Nat.max (c_width c) 1) w.

(** Every cell of a projected row starts inside it. *)
Fixpoint fits (w col : nat) (l : list Cell) : Prop :=
  match l with
  | [] => True
  | c :: l => (col < w)%nat /\ fits w (next_col w col c) l
  end.

Lemma fits_snoc w col l c :
  fits w col (l ++ [c]) <-> fits w col l /\ (foldl (next_col w) col l < w)%nat.
Proof. revert col. induction l as [|d l IH]; intros col; simpl; [tauto|]. rewrite IH. tauto. Qed.

Lemma cell_at_project_cell r col c w i :
  Forall cell_ok (cells r) -> leader c -> (col < w)%nat -> ~ (c_width c = 2 /\ w <= col + 1)%nat ->
  cell_at (cells (try_set_projected_cell r col c w)) i = placed (cell_at (cells r)) col c i.
Proof.
  intros Hr [Hok Hn] Hc Hclip. unfold try_set_projected_cell, placed, wide.
  assert (forall n, Forall cell_ok (pad_to n (cells r))) as Hp.
  { intros n. apply cell_at_ok. intros k. rewrite cell_at_pad. by apply cell_at_ok. }
  destruct (decide (c_width c = 2%nat)) as [E|E].
  - rewrite !(bool_decide_eq_true_2 (c_width c = 2%nat)) by done.
    rewrite (bool_decide_eq_false_2 (w <= col + 1)%nat), (bool_decide_eq_true_2 (col + 1 < w)%nat) by lia. simpl.
    rewrite decide_True by lia. simpl. rewrite cell_at_trim by auto using Forall_insert.
    unfold upd. rewrite !cell_at_insert by (rewrite ?length_insert, pad_to_length; lia). by rewrite cell_at_pad.
  - rewrite !(bool_decide_eq_false_2 (c_width c = 2%nat)) by done. simpl. rewrite decide_False by lia. simpl.
    rewrite cell_at_trim by auto using Forall_insert. unfold upd.
    rewrite cell_at_insert by (rewrite pad_to_length; lia). by rewrite cell_at_pad.
Qed.

Lemma project_cell_ok r col c w :
  row_ok col r -> leader c -> (col < w)%nat -> row_ok (next_col w col c) (try_set_projected_cell r col c w).
Proof.
  intros Hr Hl Hc. pose proof (leader_width c Hl) as Hcw. unfold next_col.
  destruct (decide (c_width c = 2 /\ w <= col + 1)%nat) as [[E1 E2]|Hclip].
  - unfold try_set_projected_cell. rewrite !bool_decide_eq_true_2 by lia. simpl.
    destruct Hr as [Hs Ht]. split; [|done]. eapply shape_weaken; [done|lia].
  - split.
    + eapply shape_ext; [intros i; symmetry; apply cell_at_project_cell; try done; by eapply row_ok_cells|].
      destruct Hr as [Hs _]. destruct Hl as [Hok Hn]. pose proof (shape_end _ _ Hs) as He.
      apply placed_shape; try done.
      * eapply shape_weaken; [done|lia].
      * lia.
      * by rewrite He.
      * intros i Hi. by rewrite He by lia.
    + unfold try_set_projected_cell. destruct (_ && _); [apply Hr|]. apply trim_trimmed.
Qed.

Lemma project_cells_ok r col w l :
  row_ok col r -> Forall leader l -> (col <= w)%nat -> fits w col l -> row_ok w (project_cells r col w l).
Proof.
  revert r col. induction l as [|c l IH]; intros r col Hr Hl Hc Hf; simpl.
  - destruct Hr as [Hs Ht]. split; [by eapply shape_weaken|done].
  - inversion Hl; subst. destruct Hf as [Hcol Hf]. apply (IH _ (next_col w col c)); try done.
    + by apply project_cell_ok.
    + unfold next_col. lia.
Qed.

(** The rows cut a line: in order, each one fitting the width. *)
Lemma visit_rows_concat w l r col rc lg : concat ((visit_rows w l r col rc lg).*1.*1) = r ++ l.
Proof.
  revert r col rc lg. induction l as [|c l IH]; intros r col rc lg; simpl; [case_decide; subst; by simpl; rewrite ?app_nil_r|].
  destruct (bool_decide (0 < col)%nat && bool_decide (w < col + Nat.max (c_width c) 1)%nat); simpl;
    case_decide; simpl; rewrite IH; by rewrite <- ?(assoc_L (++)).
Qed.

Lemma visit_rows_fit w l r col rc lg :
  (col < w)%nat -> fits w 0 r -> foldl (next_col w) 0%nat r = col ->
  Forall (fun sel => fits w 0 sel.1.1) (visit_rows w l r col rc lg).
Proof.
  revert r col rc lg. induction l as [|c l IH]; intros r col rc lg Hc Hf Hcol; simpl.
  { case_decide; [done|]. by constructor. }
  destruct (bool_decide (0 < col)%nat && bool_decide (w < col + Nat.max (c_width c) 1)%nat); simpl.
  - constructor; [done|]. assert (fits w 0 [c]) as Hs by (by simpl; split; [lia|]).
    case_decide; [constructor; [done|]; apply IH; by simpl; try lia|]. apply IH; [lia|done|done].
  - assert (fits w 0 (r ++ [c])) as Hs by (apply fits_snoc; by rewrite Hcol).
    case_decide; [constructor; [done|]; apply IH; by simpl; try lia|].
    apply IH; [lia|done|]. by rewrite foldl_app, Hcol.
Qed.

Lemma visit_rows_count w l r col rc lg rows :
  (0 < w)%nat -> (r = [] -> col = 0%nat) ->
  (rows + length (visit_rows w l r col rc lg))%nat = count_rows w l rows col (negb (bool_decide (r = []))).
Proof.
  intros Hw. revert r col rc lg rows. induction l as [|c l IH]; intros r col rc lg rows Hr; simpl.
  { case_decide; case_bool_decide; simpl; try done; lia. }
  destruct (bool_decide (0 < col)%nat && bool_decide (w < col + Nat.max (c_width c) 1)%nat); simpl.
  - repeat case_decide; try lia; simpl.
    + rewrite !Nat.add_succ_r, <- !Nat.add_succ_l. by apply (IH []).
    + rewrite !Nat.add_succ_r, <- !Nat.add_succ_l. by apply (IH [c]).
  - repeat case_decide; try lia; simpl.
    + rewrite !Nat.add_succ_r, <- !Nat.add_succ_l. by apply (IH []).
    + assert (r ++ [c] <> []) as Hne by (by destruct r).
      rewrite (IH (r ++ [c])) by done. by rewrite bool_decide_eq_false_2.
Qed.

Lemma trim_leaders l : Forall leader l -> Forall leader (trim_trailing_blank_cells l).
Proof. destruct (trim_spec l) as (k & E & _). rewrite E at 1. by intros [H _]%Forall_app. Qed.

Lemma visit_nonempty w l : (0 < w)%nat -> l <> [] -> (1 <= length (visit_rows w l [] 0 0 0))%nat.
Proof.
  intros Hw Hl. destruct (visit_rows w l [] 0 0 0) eqn:E; simpl; [|lia].
  pose proof (visit_rows_concat w l [] 0 0 0) as H. by rewrite E in H.
Qed.

(** The count of rows is the number of rows a projection produces. *)
Lemma project_logical_line_length l w : length (project_logical_line l w) = projected_row_count l w.
Proof.
  unfold project_logical_line, projected_row_count, visit_logical_rows. rewrite length_fmap.
  destruct (decide (projection_cells l = [])); [done|].
  assert (0 < Nat.max w 1)%nat as Hw by lia.
  pose proof (visit_nonempty _ _ Hw n). pose proof (visit_rows_count (Nat.max w 1) (projection_cells l) [] 0 0 0 0 Hw (fun _ => eq_refl)).
  simpl in *. lia.
Qed.

Lemma project_logical_line_ok l w : (0 < w)%nat -> Forall leader l -> Forall (row_ok w) (project_logical_line l w).
Proof.
  intros Hw Hl. unfold project_logical_line, visit_logical_rows. replace (Nat.max w 1) with w by lia.
  apply Forall_fmap, Forall_forall. intros [[sel rc] b] Hin. simpl. apply set_wrapped_ok.
  apply trim_leaders in Hl. unfold projection_cells in *. case_decide as Hd.
  - apply list_elem_of_singleton in Hin as [= -> -> ->]. apply empty_row_ok.
  - pose proof (visit_rows_concat w (trim_trailing_blank_cells l) [] 0 0 0) as Hcat.
    pose proof (visit_rows_fit w (trim_trailing_blank_cells l) [] 0 0 0 Hw I eq_refl) as Hfit.
    rewrite Forall_forall in Hfit. apply (project_cells_ok _ 0); [apply empty_row_ok| |lia|by apply (Hfit _ Hin)].
    simpl in Hcat. rewrite <- Hcat in Hl. rewrite Forall_concat in Hl. rewrite Forall_forall in Hl. apply Hl.
    apply list_elem_of_fmap. exists (sel, rc). split; [done|]. apply list_elem_of_fmap. by exists (sel, rc, b).
Qed.

Lemma row_logical_cells_leaders w r w' : row_ok w r -> Forall leader (row_logical_cells r w').
Proof.
  intros Hr%row_ok_cells. unfold row_logical_cells, visual_cells. apply Forall_forall. intros c Hc.
  apply list_elem_of_In, filter_In in Hc as [Hc Hn%negb_true_iff]. apply list_elem_of_In in Hc.
  pose proof (resize_cells_ok w' _ Hr) as H. rewrite Forall_forall in H. by split; [apply H|].
Qed.
