(* ===== verification/Pointer.v ===== *)
(** * Pointer shapes of OSC 22

    The bounded stacks of requested pointer shapes of
    packages/terminal_protocol/src/pointer_shape.rs. A stack is the list of its
    occupied entries: the code keeps the unused tail of its array empty. *)

From stdpp Require Import strings.
From S2P Require Import Prelude.

Definition shape_chars (s : string) : list Z :=
  (fun a => Z.of_N (Ascii.N_of_ascii a)) <$> String.list_ascii_of_string s.

Definition POINTER_SHAPE_STACK_CAPACITY : nat := 16.
Definition MAX_POINTER_SHAPE_PAYLOAD_BYTES : Z := 1022.

Inductive PointerShape :=
| Alias | PCell | Copy | Crosshair | Default | EResize | EwResize | Grab | Grabbing | Help | Move
| NResize | NeResize | NeswResize | NoDrop | NotAllowed | NsResize | NwResize | NwseResize | Pointer
| Progress | SResize | SeResize | SwResize | PText | VerticalText | WResize | Wait | ZoomIn | ZoomOut.

#[export] Instance PointerShape_eq_dec : EqDecision PointerShape.
Proof. solve_decision. Defined.

Definition ALL : list PointerShape :=
  [ Alias; PCell; Copy; Crosshair; Default; EResize; EwResize; Grab; Grabbing; Help; Move; NResize; NeResize;
    NeswResize; NoDrop; NotAllowed; NsResize; NwResize; NwseResize; Pointer; Progress; SResize; SeResize; SwResize;
    PText; VerticalText; WResize; Wait; ZoomIn; ZoomOut ].

Definition as_str (s : PointerShape) : list Z :=
  shape_chars match s with
  | Alias => "alias" | PCell => "cell" | Copy => "copy" | Crosshair => "crosshair" | Default => "default"
  | EResize => "e-resize" | EwResize => "ew-resize" | Grab => "grab" | Grabbing => "grabbing" | Help => "help"
  | Move => "move" | NResize => "n-resize" | NeResize => "ne-resize" | NeswResize => "nesw-resize"
  | NoDrop => "no-drop" | NotAllowed => "not-allowed" | NsResize => "ns-resize" | NwResize => "nw-resize"
  | NwseResize => "nwse-resize" | Pointer => "pointer" | Progress => "progress" | SResize => "s-resize"
  | SeResize => "se-resize" | SwResize => "sw-resize" | PText => "text" | VerticalText => "vertical-text"
  | WResize => "w-resize" | Wait => "wait" | ZoomIn => "zoom-in" | ZoomOut => "zoom-out"
  end%string.

Definition from_name (name : list Z) : option PointerShape :=
  List.find (fun shape => bool_decide (as_str shape = name)) ALL.

Inductive PointerShapeOperation :=
| Set_ (names : list Z)
| Push (names : list Z)
| Pop
| Query (names : list Z).

(** [None]: the payload is too long. *)
Definition parse_pointer_shape (payload : list Z) : option PointerShapeOperation :=
  if decide (MAX_POINTER_SHAPE_PAYLOAD_BYTES < zlen payload) then None
  else Some match payload with
            | 61 :: rest => Set_ rest
            | 62 :: rest => Push rest
            | 60 :: _ => Pop
            | 63 :: rest => Query rest
            | _ => Set_ payload
            end.

(** The occupied entries of a stack, the first one at the bottom. *)
Definition PointerShapeStack : Type := list (option PointerShape).

Definition stack_current (s : PointerShapeStack) : option PointerShape := default None (last s).

Definition stack_set (s : PointerShapeStack) (shape : option PointerShape) : PointerShapeStack :=
  removelast s ++ [shape].

Definition stack_push (s : PointerShapeStack) (shape : PointerShape) : PointerShapeStack :=
  (if decide (length s = POINTER_SHAPE_STACK_CAPACITY) then tail s else s) ++ [Some shape].

Definition stack_pop (s : PointerShapeStack) : PointerShapeStack := removelast s.

Record PointerShapeState := mkPointers {
  main_stack : PointerShapeStack;
  alternate_stack : PointerShapeStack;
}.

#[export] Instance PointerShapeState_eq_dec : EqDecision PointerShapeState.
Proof. solve_decision. Defined.

Definition PointerShapeState_default : PointerShapeState := mkPointers [] [].

(** The pieces between commas. *)
Fixpoint split_names (names word : list Z) : list (list Z) :=
  match names with
  | [] => [word]
  | 44 :: names => word :: split_names names []
  | b :: names => split_names names (word ++ [b])
  end.

Definition apply_name (push : bool) (s : PointerShapeStack) (name : list Z) : PointerShapeStack :=
  match from_name name with
  | Some shape => if push then stack_push s shape else stack_set s (Some shape)
  | None => if bool_decide (name = []) && negb push then stack_set s None else s
  end.

Definition apply_stack (s : PointerShapeStack) (operation : PointerShapeOperation) : PointerShapeStack :=
  match operation with
  | Set_ names =>
      if decide (zlen names <= MAX_POINTER_SHAPE_PAYLOAD_BYTES)
      then foldl (apply_name false) s (split_names names []) else s
  | Push names =>
      if decide (zlen names <= MAX_POINTER_SHAPE_PAYLOAD_BYTES)
      then foldl (apply_name true) s (split_names names []) else s
  | Pop => stack_pop s
  | Query _ => s
  end.

(** The state after, and whether it changed. *)
Definition pointer_apply (st : PointerShapeState) (alternate : bool) (operation : PointerShapeOperation)
  : PointerShapeState * bool :=
  let st' := if alternate then mkPointers (main_stack st) (apply_stack (alternate_stack st) operation)
             else mkPointers (apply_stack (main_stack st) operation) (alternate_stack st) in
  (st', negb (bool_decide (st' = st))).

(** ** Encoders *)

Definition OSC22 : list Z := [27; 93; 50; 50; 59].
Definition ST : list Z := [27; 92].

Definition encode_pointer_shape_set (shape : option PointerShape) : list Z :=
  OSC22 ++ match shape with Some shape => as_str shape | None => [] end ++ ST.

Definition encode_pointer_shape_push (shape : PointerShape) : list Z := OSC22 ++ [62] ++ as_str shape ++ ST.

Definition encode_pointer_shape_pop : list Z := OSC22 ++ [60] ++ ST.

Record PointerShapeQueryContext := mkQueryContext {
  q_current : option PointerShape;
  q_default : PointerShape;
  q_grabbed : PointerShape;
}.

Definition answer (context : PointerShapeQueryContext) (token : list Z) : list Z :=
  if decide (token = shape_chars "__current__") then from_option as_str [48] (q_current context)
  else if decide (token = shape_chars "__default__") then as_str (q_default context)
  else if decide (token = shape_chars "__grabbed__") then as_str (q_grabbed context)
  else match from_name token with Some _ => [49] | None => [48] end.

(** Answers with commas between them. *)
Fixpoint join_answers (answers : list (list Z)) : list Z :=
  match answers with
  | [] => []
  | [a] => a
  | a :: answers => a ++ [44] ++ join_answers answers
  end.

(** What is appended to the output; [None] when the query is too long. *)
Definition encode_pointer_shape_query_reply (query : list Z) (context : PointerShapeQueryContext) : option (list Z) :=
  if decide (MAX_POINTER_SHAPE_PAYLOAD_BYTES < zlen query) then None
  else Some (OSC22 ++ join_answers (answer context <$> split_names query []) ++ ST).

(** [strip_prefix] and [strip_suffix]. *)
Definition strip_front (prefix l : list Z) : option (list Z) :=
  if decide (take (length prefix) l = prefix) then Some (drop (length prefix) l) else None.

Definition strip_back (suffix l : list Z) : option (list Z) :=
  if decide (drop (length l - length suffix) l = suffix) then Some (take (length l - length suffix) l) else None.

(** Every ESC is doubled. *)
Definition double_escapes (sequence : list Z) : list Z :=
  concat ((fun byte => if decide (byte = 27) then [27; byte] else [byte]) <$> sequence).

Definition tmux_valid (payload : list Z) : bool :=
  match payload with
  | [] => true
  | [60] => true
  | 62 :: name => bool_decide (is_Some (from_name name))
  | _ => bool_decide (is_Some (from_name payload))
  end.

(** What is appended to the output; [None] when the input is refused. *)
Definition encode_pointer_shape_tmux (sequence : list Z) : option (list Z) :=
  if decide (21 < zlen sequence) then None
  else
    body ← strip_front OSC22 sequence;
    payload ← strip_back ST body;
    if tmux_valid payload then Some ([27; 80] ++ shape_chars "tmux;" ++ double_escapes sequence ++ ST) else None.
