(* ===== verification/Grid.v ===== *)
(** * The terminal grid

    [TerminalGrid] of packages/terminal-grid/src/model.rs: the main screen with
    its logical scrollback, the alternate screen, the cursor and the modes, with
    every operation the parser calls and resizing. [None] is a panic: an index
    out of range or a failed [expect]. Rows and columns are [nat]; revision
    counters are 64-bit. The memo of a line's row count is not modelled: it
    caches a function of immutable cells. *)

From S2P Require Import Prelude Utf8 TextStr GridCell Pointer.

Inductive GridMode := Main | Alternate.

#[export] Instance GridMode_eq_dec : EqDecision GridMode.
Proof. solve_decision. Defined.

Record Cursor := mkCursor {
  row : nat;
  col : nat;
  visible : bool;
}.

Inductive MouseProtocolMode := MouseNone | Press | PressRelease | ButtonMotion | AnyMotion.
Inductive MouseProtocolEncoding := MouseDefault | MouseUtf8 | Sgr.

Record ProtocolState := mkProtocol {
  pointer_shapes : PointerShapeState;
  mouse_x10 : bool;
  mouse_press_release : bool;
  mouse_button_motion : bool;
  mouse_any_motion : bool;
  mouse_utf8 : bool;
  mouse_sgr : bool;
  mouse_urxvt : bool;
  application_cursor : bool;
  application_keypad : bool;
  bracketed_paste : bool;
}.

#[export] Instance ProtocolState_eq_dec : EqDecision ProtocolState.
Proof. solve_decision. Defined.

Definition ProtocolState_default : ProtocolState :=
  mkProtocol PointerShapeState_default false false false false false false false false false false.

(** Character sets (charset.rs): the line-drawing flag of the two slots, the
    active slot, the last printed character. *)
Record CharacterState := mkCharacters {
  graphics0 : bool;
  graphics1 : bool;
  active : nat;
  last_char : option Z;
}.

Definition CharacterState_default : CharacterState := mkCharacters false false 0 None.

(** The DEC line-drawing characters for [_] to [~]. *)
Definition line_drawing : list Z :=
  [32; 9670; 9618; 9225; 9228; 9229; 9226; 176; 177; 9252; 9227; 9496; 9488; 9484; 9492; 9532;
   9146; 9147; 9472; 9148; 9149; 9500; 9508; 9524; 9516; 9474; 8804; 8805; 960; 8800; 163; 183].

Definition translate (s : CharacterState) (ch : Z) : Z :=
  let graphics := match active s with O => graphics0 s | S O => graphics1 s | _ => false end in
  if negb graphics then ch
  else if decide (95 <= ch <= 126) then default ch (line_drawing !! Z.to_nat (ch - 95)) else ch.

Record TerminalState := mkTerminalState {
  origin_mode : bool;
  insert_mode : bool;
  saved_style : Style;
  saved_origin_mode : bool;
  saved_autowrap : bool;
  tab_stops : option (list nat);
}.

Definition TerminalState_default : TerminalState := mkTerminalState false false Style_default false true None.

(** The retained scrollback: completed logical lines, the bytes charged for
    them, whether something before them is gone, the cached number of rows they
    project to, and the open line that continues into the screen. *)
Record History := mkHistory {
  main_history : list (list Cell);
  history_bytes : Z;
  history_truncated : bool;
  main_history_projected_rows : option nat;
  pending_history_cells : list Cell;
}.

Record Revisions := mkRevisions {
  revision : Z;
  content_revision : Z;
  display_erase_revision : Z;
  history_erase_revision : Z;
  reset_revision : Z;
  total_scrolled_rows : Z;
  viewport_scroll_revision : Z;
}.

Record TerminalGrid := mkGrid {
  width : nat;
  height : nat;
  scrollback_rows : nat;
  hist : History;
  main_rows : list PhysicalRow;
  alt_rows : list PhysicalRow;
  mode : GridMode;
  cursor : Cursor;
  saved_cursor : Cursor;
  saved_pending_wrap : bool;
  characters : CharacterState;
  saved_characters : CharacterState;
  current_style : Style;
  terminal_state : TerminalState;
  palette : StylePalette;
  revs : Revisions;
  autowrap : bool;
  pending_wrap : bool;
  scroll_region : option (nat * nat);
  protocol : ProtocolState;
}.

(** ** Field updates *)

Definition set_hist (g : TerminalGrid) x := mkGrid (width g) (height g) (scrollback_rows g) x (main_rows g) (alt_rows g)
  (mode g) (cursor g) (saved_cursor g) (saved_pending_wrap g) (characters g) (saved_characters g) (current_style g)
  (terminal_state g) (palette g) (revs g) (autowrap g) (pending_wrap g) (scroll_region g) (protocol g).
Definition set_main_rows (g : TerminalGrid) x := mkGrid (width g) (height g) (scrollback_rows g) (hist g) x (alt_rows g)
  (mode g) (cursor g) (saved_cursor g) (saved_pending_wrap g) (characters g) (saved_characters g) (current_style g)
  (terminal_state g) (palette g) (revs g) (autowrap g) (pending_wrap g) (scroll_region g) (protocol g).
Definition set_alt_rows (g : TerminalGrid) x := mkGrid (width g) (height g) (scrollback_rows g) (hist g) (main_rows g) x
  (mode g) (cursor g) (saved_cursor g) (saved_pending_wrap g) (characters g) (saved_characters g) (current_style g)
  (terminal_state g) (palette g) (revs g) (autowrap g) (pending_wrap g) (scroll_region g) (protocol g).
Definition with_mode (g : TerminalGrid) x := mkGrid (width g) (height g) (scrollback_rows g) (hist g) (main_rows g) (alt_rows g)
  x (cursor g) (saved_cursor g) (saved_pending_wrap g) (characters g) (saved_characters g) (current_style g)
  (terminal_state g) (palette g) (revs g) (autowrap g) (pending_wrap g) (scroll_region g) (protocol g).
Definition set_cursor (g : TerminalGrid) x := mkGrid (width g) (height g) (scrollback_rows g) (hist g) (main_rows g) (alt_rows g)
  (mode g) x (saved_cursor g) (saved_pending_wrap g) (characters g) (saved_characters g) (current_style g)
  (terminal_state g) (palette g) (revs g) (autowrap g) (pending_wrap g) (scroll_region g) (protocol g).
Definition set_saved (g : TerminalGrid) c w := mkGrid (width g) (height g) (scrollback_rows g) (hist g) (main_rows g) (alt_rows g)
  (mode g) (cursor g) c w (characters g) (saved_characters g) (current_style g)
  (terminal_state g) (palette g) (revs g) (autowrap g) (pending_wrap g) (scroll_region g) (protocol g).
Definition set_characters (g : TerminalGrid) x y := mkGrid (width g) (height g) (scrollback_rows g) (hist g) (main_rows g) (alt_rows g)
  (mode g) (cursor g) (saved_cursor g) (saved_pending_wrap g) x y (current_style g)
  (terminal_state g) (palette g) (revs g) (autowrap g) (pending_wrap g) (scroll_region g) (protocol g).
Definition set_style (g : TerminalGrid) x := mkGrid (width g) (height g) (scrollback_rows g) (hist g) (main_rows g) (alt_rows g)
  (mode g) (cursor g) (saved_cursor g) (saved_pending_wrap g) (characters g) (saved_characters g) x
  (terminal_state g) (palette g) (revs g) (autowrap g) (pending_wrap g) (scroll_region g) (protocol g).
Definition set_terminal_state (g : TerminalGrid) x := mkGrid (width g) (height g) (scrollback_rows g) (hist g) (main_rows g) (alt_rows g)
  (mode g) (cursor g) (saved_cursor g) (saved_pending_wrap g) (characters g) (saved_characters g) (current_style g)
  x (palette g) (revs g) (autowrap g) (pending_wrap g) (scroll_region g) (protocol g).
Definition set_palette (g : TerminalGrid) x := mkGrid (width g) (height g) (scrollback_rows g) (hist g) (main_rows g) (alt_rows g)
  (mode g) (cursor g) (saved_cursor g) (saved_pending_wrap g) (characters g) (saved_characters g) (current_style g)
  (terminal_state g) x (revs g) (autowrap g) (pending_wrap g) (scroll_region g) (protocol g).
Definition set_revs (g : TerminalGrid) x := mkGrid (width g) (height g) (scrollback_rows g) (hist g) (main_rows g) (alt_rows g)
  (mode g) (cursor g) (saved_cursor g) (saved_pending_wrap g) (characters g) (saved_characters g) (current_style g)
  (terminal_state g) (palette g) x (autowrap g) (pending_wrap g) (scroll_region g) (protocol g).
Definition set_wrap (g : TerminalGrid) a p := mkGrid (width g) (height g) (scrollback_rows g) (hist g) (main_rows g) (alt_rows g)
  (mode g) (cursor g) (saved_cursor g) (saved_pending_wrap g) (characters g) (saved_characters g) (current_style g)
  (terminal_state g) (palette g) (revs g) a p (scroll_region g) (protocol g).
Definition set_region (g : TerminalGrid) x := mkGrid (width g) (height g) (scrollback_rows g) (hist g) (main_rows g) (alt_rows g)
  (mode g) (cursor g) (saved_cursor g) (saved_pending_wrap g) (characters g) (saved_characters g) (current_style g)
  (terminal_state g) (palette g) (revs g) (autowrap g) (pending_wrap g) x (protocol g).
Definition set_protocol (g : TerminalGrid) x := mkGrid (width g) (height g) (scrollback_rows g) (hist g) (main_rows g) (alt_rows g)
  (mode g) (cursor g) (saved_cursor g) (saved_pending_wrap g) (characters g) (saved_characters g) (current_style g)
  (terminal_state g) (palette g) (revs g) (autowrap g) (pending_wrap g) (scroll_region g) x.
Definition set_dimensions (g : TerminalGrid) w h := mkGrid w h (scrollback_rows g) (hist g) (main_rows g) (alt_rows g)
  (mode g) (cursor g) (saved_cursor g) (saved_pending_wrap g) (characters g) (saved_characters g) (current_style g)
  (terminal_state g) (palette g) (revs g) (autowrap g) (pending_wrap g) (scroll_region g) (protocol g).

Definition at_col (g : TerminalGrid) (c : nat) : TerminalGrid :=
  set_cursor g (mkCursor (row (cursor g)) c (visible (cursor g))).
Definition at_row (g : TerminalGrid) (r : nat) : TerminalGrid :=
  set_cursor g (mkCursor r (col (cursor g)) (visible (cursor g))).
Definition no_wrap (g : TerminalGrid) : TerminalGrid := set_wrap g (autowrap g) false.

(** ** Construction and counters *)

Inductive TerminalGridError := ZeroDimensions | InvalidSnapshot (reason : string).

Definition Grid_new (w h limit : nat) : result TerminalGridError TerminalGrid :=
  if decide (w = 0 \/ h = 0)%nat then Err ZeroDimensions
  else Ok (mkGrid w h limit (mkHistory [] 0 false (Some 0%nat) [])
             (replicate h PhysicalRow_new) (replicate h PhysicalRow_new) Main
             (mkCursor 0 0 true) (mkCursor 0 0 false) false
             CharacterState_default CharacterState_default Style_default TerminalState_default
             StylePalette_default (mkRevisions 0 0 0 0 0 0 0) true false None ProtocolState_default).

Definition bump_revision (g : TerminalGrid) : TerminalGrid :=
  let r := revs g in
  set_revs g (mkRevisions (saturating_add 64 (revision r) 1) (content_revision r) (display_erase_revision r)
                (history_erase_revision r) (reset_revision r) (total_scrolled_rows r) (viewport_scroll_revision r)).

Definition bump_content_revision (g : TerminalGrid) : TerminalGrid :=
  let r := revs g in
  bump_revision
    (set_revs g (mkRevisions (revision r) (saturating_add 64 (content_revision r) 1) (display_erase_revision r)
                   (history_erase_revision r) (reset_revision r) (total_scrolled_rows r) (viewport_scroll_revision r))).

Definition bump_viewport_scroll (g : TerminalGrid) (n : Z) : TerminalGrid :=
  let r := revs g in
  set_revs g (mkRevisions (revision r) (content_revision r) (display_erase_revision r) (history_erase_revision r)
                (reset_revision r) (total_scrolled_rows r) (wrap_u 64 (viewport_scroll_revision r + n))).

Definition reset (g : TerminalGrid) : TerminalGrid :=
  match Grid_new (width g) (height g) (scrollback_rows g) with
  | Ok fresh =>
      let r := revs g in
      bump_content_revision
        (set_revs fresh (mkRevisions (revision r) (content_revision r) (wrap_u 64 (display_erase_revision r + 1))
                           (wrap_u 64 (history_erase_revision r + 1)) (wrap_u 64 (reset_revision r + 1)) 0
                           (viewport_scroll_revision r)))
  | Err _ => g
  end.

(** ** Rows of the active screen *)

Definition viewport_rows (g : TerminalGrid) : list PhysicalRow :=
  match mode g with Main => main_rows g | Alternate => alt_rows g end.

Definition set_viewport_rows (g : TerminalGrid) (rows : list PhysicalRow) : TerminalGrid :=
  match mode g with Main => set_main_rows g rows | Alternate => set_alt_rows g rows end.

(** A mutation through [active_row_mut]; an index out of range panics. *)
Definition active_row_mut (g : TerminalGrid) (r : nat) (f : PhysicalRow -> PhysicalRow) : option TerminalGrid :=
  old ← viewport_rows g !! r;
  Some (set_viewport_rows g (<[r := f old]> (viewport_rows g))).

Definition set_viewport_row (g : TerminalGrid) (r : nat) (value : PhysicalRow) : option TerminalGrid :=
  active_row_mut g r (fun _ => value).

Definition erase_style (g : TerminalGrid) : TerminalGrid * nat :=
  let fill := erase_fill (current_style g) in
  if decide (fill = Style_default) then (g, DEFAULT)
  else let '(p, id) := intern (palette g) fill in (set_palette g p, id).

Definition fill_viewport_row (g : TerminalGrid) (r style : nat) : option TerminalGrid :=
  set_viewport_row g r (erase_filled (width g) style).

(** [for row in rows { .. }]. *)
Fixpoint each {A} (f : TerminalGrid -> A -> option TerminalGrid) (l : list A) (g : TerminalGrid)
  : option TerminalGrid :=
  match l with
  | [] => Some g
  | x :: l => g ← f g x; each f l g
  end.

(** [for (col, cell) in cells.into_iter().enumerate() { row.set_cell(col, cell) }]. *)
Fixpoint set_cells (r : PhysicalRow) (col : nat) (l : list Cell) : PhysicalRow :=
  match l with
  | [] => r
  | c :: l => set_cells (set_cell r col c) (S col) l
  end.

Definition replace_active_row (g : TerminalGrid) (r : nat) (l : list Cell) : option TerminalGrid :=
  active_row_mut g r (fun old =>
    set_cells (set_wrapped PhysicalRow_new (wrapped old)) 0 (normalized_visual_cells l (width g))).

Definition mark_current_row_wrapped (g : TerminalGrid) : option TerminalGrid :=
  active_row_mut g (row (cursor g)) (fun r => set_wrapped r true).

(** ** Scrollback *)

Definition history_sum (l : list (list Cell)) (w : nat) : nat :=
  list_sum ((fun line => projected_row_count line w) <$> l).

(** [main_history.iter().map(history_cells_bytes).sum()]. *)
Definition lines_bytes (lines : list (list Cell)) : Z := foldr (fun line n => history_cells_bytes line + n) 0 lines.

Definition history_line_count (h : History) : nat :=
  length (main_history h) + (if decide (pending_history_cells h = []) then 0 else 1).

Definition push_history_line (h : History) (w : nat) (line : list Cell) : History :=
  mkHistory (main_history h ++ [line]) (history_bytes h + history_cells_bytes line) (history_truncated h)
    ((fun count => (count + projected_row_count line w)%nat) <$> main_history_projected_rows h)
    (pending_history_cells h).

Definition push_history_row (h : History) (w : nat) (r : PhysicalRow) : History :=
  let l := row_logical_cells r w in
  let pending := pending_history_cells h ++ l in
  let bytes := history_bytes h + history_cells_bytes l in
  if wrapped r then
    mkHistory (main_history h) bytes (history_truncated h) (main_history_projected_rows h) pending
  else
    push_history_line
      (mkHistory (main_history h) (saturating_sub bytes (history_cells_bytes pending)) (history_truncated h)
         (main_history_projected_rows h) [])
      w (trim_trailing_blank_cells pending).

Definition history_projected_row_count (h : History) (w : nat) : nat :=
  default (history_sum (main_history h) w) (main_history_projected_rows h).

(** The eviction loop, by recursion on the completed lines it pops. *)
Fixpoint evict_lines (limit : nat) (max_bytes : Z) (w : nat) (lines : list (list Cell)) (bytes : Z)
    (truncated : bool) (projected : option nat) (pending : list Cell) : History :=
  if bool_decide (limit < length lines)%nat || bool_decide (max_bytes < bytes) then
    match lines with
    | line :: lines =>
        evict_lines limit max_bytes w lines (saturating_sub bytes (history_cells_bytes line)) true
          ((fun count => (count - projected_row_count line w)%nat) <$> projected) pending
    | [] => mkHistory [] 0 true projected []
    end
  else mkHistory lines bytes truncated projected pending.

Definition evict_history_to_budget (g : TerminalGrid) (max_bytes : Z) : TerminalGrid :=
  let h := hist g in
  set_hist g (evict_lines (scrollback_rows g) max_bytes (width g) (main_history h) (history_bytes h)
                (history_truncated h) (main_history_projected_rows h) (pending_history_cells h)).

Definition HISTORY_BUDGET : Z := 8 * 1024 * 1024.

Definition evict_excess_history (g : TerminalGrid) : TerminalGrid := evict_history_to_budget g HISTORY_BUDGET.

(** ** Cursor, modes and protocol *)

Definition clamp_cursor_to_dimensions (c : Cursor) (w h : nat) : Cursor :=
  mkCursor (Nat.min (row c) (h - 1)) (Nat.min (col c) (w - 1)) (visible c).

Definition clamp_cursor (g : TerminalGrid) : TerminalGrid :=
  set_cursor g (clamp_cursor_to_dimensions (cursor g) (width g) (height g)).

Definition set_mode (g : TerminalGrid) (m : GridMode) : TerminalGrid :=
  if decide (mode g = m) then g
  else
    let g := no_wrap (with_mode g m) in
    let g := set_cursor g (mkCursor 0 0 (visible (cursor g))) in
    let g := if decide (m = Alternate) then set_alt_rows g (replicate (height g) PhysicalRow_new) else g in
    bump_content_revision g.

Definition save_cursor (g : TerminalGrid) : TerminalGrid :=
  let t := terminal_state g in
  let g := set_characters (set_saved g (cursor g) (pending_wrap g)) (characters g) (characters g) in
  bump_revision
    (set_terminal_state g (mkTerminalState (origin_mode t) (insert_mode t) (current_style g) (origin_mode t)
                             (autowrap g) (tab_stops t))).

Definition restore_cursor (g : TerminalGrid) : TerminalGrid :=
  let t := terminal_state g in
  let g := set_cursor g (saved_cursor g) in
  let g := set_characters g (saved_characters g) (saved_characters g) in
  let g := set_style g (saved_style t) in
  let g := set_terminal_state g (mkTerminalState (saved_origin_mode t) (insert_mode t) (saved_style t)
                                   (saved_origin_mode t) (saved_autowrap t) (tab_stops t)) in
  let g := set_wrap g (saved_autowrap t) (saved_pending_wrap g) in
  bump_revision (clamp_cursor g).

Definition clear_alternate (g : TerminalGrid) : TerminalGrid :=
  set_alt_rows g (replicate (height g) PhysicalRow_new).

Definition set_alternate_mode (g : TerminalGrid) (m : Z) (enabled : bool) : TerminalGrid :=
  if negb (bool_decide (m = 47) || bool_decide (m = 1047) || bool_decide (m = 1049)) then g
  else if bool_decide (mode g = if enabled then Alternate else Main) then g
  else
    let g :=
      if enabled then
        let g := if decide (m = 1049) then save_cursor g else g in
        let g := with_mode g Alternate in
        if decide (m <> 47) then set_cursor (clear_alternate g) (mkCursor 0 0 (visible (cursor g))) else g
      else
        let g := no_wrap (with_mode g Main) in
        let g := if decide (m <> 47) then clear_alternate g else g in
        if decide (m = 1049) then restore_cursor g else g in
    let g := if enabled || negb (bool_decide (m = 1049)) then no_wrap g else g in
    bump_content_revision (clamp_cursor g).

Definition set_cursor_visible (g : TerminalGrid) (b : bool) : TerminalGrid :=
  bump_revision (set_cursor g (mkCursor (row (cursor g)) (col (cursor g)) b)).

Definition set_autowrap (g : TerminalGrid) (enabled : bool) : TerminalGrid :=
  bump_revision (set_wrap g enabled (pending_wrap g)).

(** Install a protocol state; the revision moves when it differs. *)
Definition update_protocol (g : TerminalGrid) (p : ProtocolState) : TerminalGrid :=
  if decide (p = protocol g) then g else bump_revision (set_protocol g p).

Definition is_alternate (g : TerminalGrid) : bool := bool_decide (mode g = Alternate).

Definition with_pointer_shapes (p : ProtocolState) (s : PointerShapeState) : ProtocolState :=
  mkProtocol s (mouse_x10 p) (mouse_press_release p) (mouse_button_motion p) (mouse_any_motion p) (mouse_utf8 p)
    (mouse_sgr p) (mouse_urxvt p) (application_cursor p) (application_keypad p) (bracketed_paste p).

Definition apply_pointer_shape (g : TerminalGrid) (operation : PointerShapeOperation) : TerminalGrid :=
  let '(shapes, changed) := pointer_apply (pointer_shapes (protocol g)) (is_alternate g) operation in
  let g := set_protocol g (with_pointer_shapes (protocol g) shapes) in
  if changed then bump_revision g else g.

Definition mouse_tracking (p : ProtocolState) (m : MouseProtocolMode) (b : bool) : ProtocolState :=
  let mk x r bm am := mkProtocol (pointer_shapes p) x r bm am (mouse_utf8 p) (mouse_sgr p) (mouse_urxvt p)
                        (application_cursor p) (application_keypad p) (bracketed_paste p) in
  match m with
  | MouseNone => p
  | Press => mk b (mouse_press_release p) (mouse_button_motion p) (mouse_any_motion p)
  | PressRelease => mk (mouse_x10 p) b (mouse_button_motion p) (mouse_any_motion p)
  | ButtonMotion => mk (mouse_x10 p) (mouse_press_release p) b (mouse_any_motion p)
  | AnyMotion => mk (mouse_x10 p) (mouse_press_release p) (mouse_button_motion p) b
  end.

Definition with_encoding (p : ProtocolState) (utf8 sgr urxvt : bool) : ProtocolState :=
  mkProtocol (pointer_shapes p) (mouse_x10 p) (mouse_press_release p) (mouse_button_motion p) (mouse_any_motion p)
    utf8 sgr urxvt (application_cursor p) (application_keypad p) (bracketed_paste p).

Definition mouse_encoding_flag (p : ProtocolState) (e : MouseProtocolEncoding) (b : bool) : ProtocolState :=
  match e with
  | MouseDefault => p
  | MouseUtf8 => with_encoding p b (mouse_sgr p) (mouse_urxvt p)
  | Sgr => with_encoding p (mouse_utf8 p) b (mouse_urxvt p)
  end.

Definition with_application (p : ProtocolState) (cursor_keys keypad paste : bool) : ProtocolState :=
  mkProtocol (pointer_shapes p) (mouse_x10 p) (mouse_press_release p) (mouse_button_motion p) (mouse_any_motion p)
    (mouse_utf8 p) (mouse_sgr p) (mouse_urxvt p) cursor_keys keypad paste.

Definition set_mouse_tracking_mode (g : TerminalGrid) (m : MouseProtocolMode) (enabled : bool) : TerminalGrid :=
  update_protocol g (mouse_tracking (protocol g) m enabled).

Definition set_mouse_encoding (g : TerminalGrid) (e : MouseProtocolEncoding) (enabled : bool) : TerminalGrid :=
  update_protocol g (mouse_encoding_flag (protocol g) e enabled).

Definition set_mouse_urxvt_encoding (g : TerminalGrid) (enabled : bool) : TerminalGrid :=
  let p := protocol g in update_protocol g (with_encoding p (mouse_utf8 p) (mouse_sgr p) enabled).

Definition set_application_cursor (g : TerminalGrid) (enabled : bool) : TerminalGrid :=
  let p := protocol g in update_protocol g (with_application p enabled (application_keypad p) (bracketed_paste p)).

Definition set_application_keypad (g : TerminalGrid) (enabled : bool) : TerminalGrid :=
  let p := protocol g in update_protocol g (with_application p (application_cursor p) enabled (bracketed_paste p)).

Definition set_bracketed_paste (g : TerminalGrid) (enabled : bool) : TerminalGrid :=
  let p := protocol g in update_protocol g (with_application p (application_cursor p) (application_keypad p) enabled).

Definition mouse_mode (p : ProtocolState) : MouseProtocolMode :=
  if mouse_any_motion p then AnyMotion else if mouse_button_motion p then ButtonMotion
  else if mouse_press_release p then PressRelease else if mouse_x10 p then Press else MouseNone.

Definition mouse_encoding (p : ProtocolState) : MouseProtocolEncoding :=
  if mouse_sgr p || mouse_urxvt p then Sgr else if mouse_utf8 p then MouseUtf8 else MouseDefault.

(** ** Cursor movement *)

Definition effective_scroll_region (g : TerminalGrid) : nat * nat :=
  default (0%nat, (height g - 1)%nat) (scroll_region g).

Definition cursor_row_bounds (g : TerminalGrid) : nat * nat :=
  if origin_mode (terminal_state g) then effective_scroll_region g else (0%nat, (height g - 1)%nat).

Definition move_cursor_to (g : TerminalGrid) (r c : nat) : TerminalGrid :=
  let '(top, bottom) := cursor_row_bounds g in
  let g := at_row (no_wrap g) (Nat.min (r + top) bottom) in
  bump_revision (at_col g (Nat.min c (width g - 1))).

Definition move_cursor_column (g : TerminalGrid) (c : nat) : TerminalGrid :=
  bump_revision (no_wrap (at_col g (Nat.min c (width g - 1)))).

Definition move_cursor_row (g : TerminalGrid) (r : nat) : TerminalGrid := move_cursor_to g r (col (cursor g)).

(** [usize::saturating_add_signed]. *)
Definition add_signed (n : nat) (d : Z) : nat := Z.to_nat (Z.of_nat n + d).

(** [Ord::clamp], which asserts [top <= bottom]. *)
Definition clamp (n top bottom : nat) : option nat :=
  if decide (top <= bottom)%nat then Some (Nat.max top (Nat.min n bottom)) else None.

Definition move_cursor_relative (g : TerminalGrid) (rows cols : Z) : option TerminalGrid :=
  let '(top, bottom) := cursor_row_bounds g in
  r ← clamp (add_signed (row (cursor g)) rows) top bottom;
  let g := at_row g r in
  Some (move_cursor_column g (add_signed (col (cursor g)) cols)).

Definition carriage_return (g : TerminalGrid) : TerminalGrid := bump_revision (at_col (no_wrap g) 0).

Definition backspace (g : TerminalGrid) : TerminalGrid :=
  bump_revision (at_col (no_wrap g) (col (cursor g) - 1)).

Definition set_scroll_region (g : TerminalGrid) (top bottom : option nat) : TerminalGrid :=
  let top := Nat.min (default 0%nat top) (height g - 1) in
  let bottom := Nat.min (default (height g - 1)%nat bottom) (height g - 1) in
  if decide (bottom <= top)%nat then g else move_cursor_to (set_region g (Some (top, bottom))) 0 0.

Definition with_origin_mode (g : TerminalGrid) (enabled : bool) : TerminalGrid :=
  let t := terminal_state g in
  set_terminal_state g (mkTerminalState enabled (insert_mode t) (saved_style t) (saved_origin_mode t)
                          (saved_autowrap t) (tab_stops t)).

Definition set_origin_mode (g : TerminalGrid) (enabled : bool) : TerminalGrid :=
  move_cursor_to (with_origin_mode g enabled) 0 0.

Definition set_insert_mode (g : TerminalGrid) (enabled : bool) : TerminalGrid :=
  let t := terminal_state g in
  bump_revision
    (set_terminal_state g (mkTerminalState (origin_mode t) enabled (saved_style t) (saved_origin_mode t)
                             (saved_autowrap t) (tab_stops t))).

Definition with_tab_stops (g : TerminalGrid) (stops : option (list nat)) : TerminalGrid :=
  let t := terminal_state g in
  set_terminal_state g (mkTerminalState (origin_mode t) (insert_mode t) (saved_style t) (saved_origin_mode t)
                          (saved_autowrap t) stops).

(** [(8..width).step_by(8)]. *)
Definition default_stops (w : nat) : list nat := (fun k => 8 * S k)%nat <$> seq 0 ((w - 1) / 8).

(** [binary_search] in an increasing list, with the insertion on [Err]. *)
Fixpoint insert_stop (c : nat) (stops : list nat) : list nat :=
  match stops with
  | [] => [c]
  | s :: rest => if decide (s < c)%nat then s :: insert_stop c rest
                 else if decide (s = c) then stops else c :: stops
  end.

(** [None]: a column that is not a [u16]. *)
Definition set_tab_stop (g : TerminalGrid) : option TerminalGrid :=
  let stops := default (default_stops (width g)) (tab_stops (terminal_state g)) in
  if decide (Forall (fun c => Z.of_nat c < 65536) stops /\ Z.of_nat (col (cursor g)) < 65536)
  then Some (bump_revision (with_tab_stops g (Some (insert_stop (col (cursor g)) stops))))
  else None.

Definition clear_tab_stops (g : TerminalGrid) (m : nat) : option TerminalGrid :=
  match m with
  | 0%nat =>
      g ← set_tab_stop g;
      let keep := List.filter (fun c => negb (bool_decide (c = col (cursor g)))) in
      Some (bump_revision (with_tab_stops g (keep <$> tab_stops (terminal_state g))))
  | 3%nat => Some (bump_revision (with_tab_stops g (Some [])))
  | _ => Some g
  end.

Definition tab (g : TerminalGrid) : TerminalGrid :=
  let c := col (cursor g) in
  let next := match tab_stops (terminal_state g) with
              | None => ((c / 8 + 1) * 8)%nat
              | Some stops => default (width g - 1)%nat (List.find (fun s => bool_decide (c < s)%nat) stops)
              end in
  bump_revision (at_col (no_wrap g) (Nat.min next (width g - 1))).

(** ** Scrolling *)

Definition scroll_region_up (g : TerminalGrid) (top bottom count : nat) : option TerminalGrid :=
  if decide (bottom < top \/ height g <= bottom)%nat then Some g
  else
    let n := Nat.min count (bottom - top + 1) in
    let g := if decide (top = 0 /\ bottom = height g - 1)%nat then bump_viewport_scroll g (Z.of_nat n) else g in
    let '(g, fill) := erase_style g in
    each (fun g _ =>
      g ← each (fun g r => next ← viewport_rows g !! (r + 1)%nat; set_viewport_row g r next)
            (seq top (bottom - top)) g;
      fill_viewport_row g bottom fill) (seq 0 n) g.

Definition scroll_region_down (g : TerminalGrid) (top bottom count : nat) : option TerminalGrid :=
  if decide (bottom < top \/ height g <= bottom)%nat then Some g
  else
    let '(g, fill) := erase_style g in
    each (fun g _ =>
      g ← each (fun g r => previous ← viewport_rows g !! (r - 1)%nat; set_viewport_row g r previous)
            (reverse (seq (top + 1) (bottom - top))) g;
      fill_viewport_row g top fill) (seq 0 (Nat.min count (bottom - top + 1))) g.

Definition bump_scrolled_rows (g : TerminalGrid) : TerminalGrid :=
  let r := revs g in
  set_revs g (mkRevisions (revision r) (content_revision r) (display_erase_revision r) (history_erase_revision r)
                (reset_revision r) (saturating_add 64 (total_scrolled_rows r) 1) (viewport_scroll_revision r)).

Definition scroll_up_one (g : TerminalGrid) : TerminalGrid :=
  let '(g, fill) := erase_style (bump_viewport_scroll g 1) in
  let last_row := erase_filled (width g) fill in
  match mode g with
  | Main =>
      let g := match main_rows g with
               | r :: rest => set_hist (set_main_rows g rest) (push_history_row (hist g) (width g) r)
               | [] => g
               end in
      evict_excess_history (bump_scrolled_rows (set_main_rows g (main_rows g ++ [last_row])))
  | Alternate =>
      match alt_rows g with
      | _ :: rest => set_alt_rows g (rest ++ [last_row])
      | [] => g
      end
  end.

Definition linefeed (g : TerminalGrid) : option TerminalGrid :=
  let g := no_wrap g in
  let '(top, bottom) := effective_scroll_region g in
  if decide (row (cursor g) = bottom) then
    g ← (if bool_decide (mode g = Main) && bool_decide (top = 0%nat) && bool_decide (bottom + 1 = height g)%nat
         then Some (scroll_up_one g) else scroll_region_up g top bottom 1);
    Some (bump_content_revision g)
  else if decide (row (cursor g) < height g - 1)%nat
  then Some (bump_revision (at_row g (row (cursor g) + 1)))
  else Some (bump_revision g).

Definition reverse_index (g : TerminalGrid) : option TerminalGrid :=
  let g := no_wrap g in
  let '(top, bottom) := effective_scroll_region g in
  if decide (row (cursor g) = top) then bump_content_revision <$> scroll_region_down g top bottom 1
  else Some (bump_revision (at_row g (row (cursor g) - 1))).

(** ** Erasing and shifting *)

Definition erase_line (g : TerminalGrid) (m : nat) : option TerminalGrid :=
  let w := width g in
  let c := col (cursor g) in
  let r := row (cursor g) in
  let '(g, fill) := erase_style g in
  g ← match m with
      | 0%nat => active_row_mut g r (fun l => clear_range l c w fill)
      | 1%nat => active_row_mut g r (fun l => clear_range l 0 (c + 1) fill)
      | 2%nat => active_row_mut g r (fun l => clear_range l 0 w fill)
      | _ => Some g
      end;
  Some (bump_content_revision g).

Definition bump_erase (g : TerminalGrid) (display history : Z) : TerminalGrid :=
  let r := revs g in
  set_revs g (mkRevisions (revision r) (content_revision r) (wrap_u 64 (display_erase_revision r + display))
                (wrap_u 64 (history_erase_revision r + history)) (reset_revision r) (total_scrolled_rows r)
                (viewport_scroll_revision r)).

Definition clear_history (h : History) : History :=
  mkHistory [] 0 (history_truncated h || bool_decide (0 < history_line_count h)%nat) (Some 0%nat) [].

Definition erase_display (g : TerminalGrid) (m : nat) : option TerminalGrid :=
  let '(g, fill) := erase_style g in
  let fill_rows := each (fun g r => fill_viewport_row g r fill) in
  g ← match m with
      | 0%nat =>
          g ← erase_line g 0;
          fill_rows (seq (row (cursor g) + 1) (height g - (row (cursor g) + 1))) g
      | 1%nat => g ← fill_rows (seq 0 (row (cursor g))) g; erase_line g 1
      | 2%nat => let g := bump_erase g 1 0 in fill_rows (seq 0 (height g)) g
      | 3%nat => if decide (mode g = Main)
                 then let g := bump_erase g 0 1 in Some (set_hist g (clear_history (hist g)))
                 else Some g
      | _ => Some g
      end;
  Some (bump_content_revision g).

Definition erase_chars (g : TerminalGrid) (count : nat) : option TerminalGrid :=
  let start := col (cursor g) in
  let stop := Nat.min (start + Nat.max count 1) (width g) in
  let '(g, fill) := erase_style g in
  g ← active_row_mut g (row (cursor g)) (fun l => clear_range l start stop fill);
  Some (bump_content_revision g).

(** The shift loops write each column once and read only columns the loop has
    not written: upward from the right end, downward from the cursor. *)
Definition shift_right (l : list Cell) (c count : nat) (fill : nat) : list Cell :=
  imap (fun i d => if decide (i < c)%nat then d
                   else if decide (c + count <= i)%nat then default d (l !! (i - count)%nat)
                   else blank fill) l.

Definition shift_left (l : list Cell) (c count : nat) (fill : nat) : list Cell :=
  imap (fun i d => if decide (i < c)%nat then d
                   else if decide (i + count < length l)%nat then default d (l !! (i + count)%nat)
                   else blank fill) l.

Definition insert_blank_chars (g : TerminalGrid) (count : nat) : option TerminalGrid :=
  let w := width g in
  let c := col (cursor g) in
  let r := row (cursor g) in
  let count := Nat.min (Nat.max count 1) (w - c) in
  let '(g, fill) := erase_style g in
  old ← viewport_rows g !! r;
  g ← (if cont_at (cells old) c then active_row_mut g r (fun l => clear_range l c (c + 1) fill) else Some g);
  old ← viewport_rows g !! r;
  g ← replace_active_row g r (shift_right (visual_cells old w) c count fill);
  Some (bump_content_revision g).

Definition delete_chars (g : TerminalGrid) (count : nat) : option TerminalGrid :=
  let w := width g in
  let c := col (cursor g) in
  let r := row (cursor g) in
  let count := Nat.min (Nat.max count 1) (w - c) in
  let '(g, fill) := erase_style g in
  g ← active_row_mut g r (fun l => clear_range l c (c + count) fill);
  old ← viewport_rows g !! r;
  g ← replace_active_row g r (shift_left (visual_cells old w) c count fill);
  Some (bump_content_revision g).

Definition insert_blank_lines (g : TerminalGrid) (count : nat) : option TerminalGrid :=
  let '(top, bottom) := effective_scroll_region g in
  if decide (row (cursor g) < top \/ bottom < row (cursor g))%nat then Some g
  else bump_content_revision <$> scroll_region_down g (row (cursor g)) bottom (Nat.max count 1).

Definition delete_lines (g : TerminalGrid) (count : nat) : option TerminalGrid :=
  let '(top, bottom) := effective_scroll_region g in
  if decide (row (cursor g) < top \/ bottom < row (cursor g))%nat then Some g
  else bump_content_revision <$> scroll_region_up g (row (cursor g)) bottom (Nat.max count 1).

(** ** Graphic rendition *)

Definition indexed_color (index : Z) : option Color := Indexed <$> try_from_u 8 index.

Definition parse_extended_color (params : list Z) : option (Color * nat) :=
  match params with
  | 5 :: index :: _ => i ← try_from_u 8 index; Some (Indexed i, 2%nat)
  | 2 :: r :: g :: b :: _ =>
      r ← try_from_u 8 r; g ← try_from_u 8 g; b ← try_from_u 8 b; Some (Rgb r g b, 4%nat)
  | _ => None
  end.

Definition with_colors (s : Style) (f b : option Color) : Style :=
  mkStyle f b (bold s) (italic s) (underline s) (inverse s) (dim s) (strike s) (hidden s).

(** One parameter other than the extended colours 38 and 48. *)
Definition rendition (s : Style) (p : Z) : Style :=
  let '(mkStyle f b bo it un inv di st hi) := s in
  if decide (p = 0) then Style_default
  else if decide (p = 1) then mkStyle f b true it un inv di st hi
  else if decide (p = 2) then mkStyle f b bo it un inv true st hi
  else if decide (p = 3) then mkStyle f b bo true un inv di st hi
  else if decide (p = 4) then mkStyle f b bo it true inv di st hi
  else if decide (p = 7) then mkStyle f b bo it un true di st hi
  else if decide (p = 8) then mkStyle f b bo it un inv di st true
  else if decide (p = 9) then mkStyle f b bo it un inv di true hi
  else if decide (p = 22) then mkStyle f b false it un inv false st hi
  else if decide (p = 23) then mkStyle f b bo false un inv di st hi
  else if decide (p = 24) then mkStyle f b bo it false inv di st hi
  else if decide (p = 27) then mkStyle f b bo it un false di st hi
  else if decide (p = 28) then mkStyle f b bo it un inv di st false
  else if decide (p = 29) then mkStyle f b bo it un inv di false hi
  else if decide (30 <= p <= 37) then with_colors s (indexed_color (p - 30)) b
  else if decide (p = 39) then with_colors s None b
  else if decide (40 <= p <= 47) then with_colors s f (indexed_color (p - 40))
  else if decide (p = 49) then with_colors s f None
  else if decide (90 <= p <= 97) then with_colors s (indexed_color (p - 90 + 8)) b
  else if decide (100 <= p <= 107) then with_colors s f (indexed_color (p - 100 + 8))
  else s.

(** [skip]: operands the colour before has consumed. *)
Fixpoint rendition_loop (skip : nat) (params : list Z) (s : Style) : Style :=
  match params with
  | [] => s
  | p :: rest =>
      match skip with
      | S skip => rendition_loop skip rest s
      | O =>
          if decide (p = 38 \/ p = 48) then
            match parse_extended_color rest with
            | Some (color, consumed) =>
                rendition_loop consumed rest
                  (if decide (p = 38) then with_colors s (Some color) (bg s) else with_colors s (fg s) (Some color))
            | None => rendition_loop 0 rest s
            end
          else rendition_loop 0 rest (rendition s p)
      end
  end.

Definition set_graphic_rendition (g : TerminalGrid) (params : list Z) : TerminalGrid :=
  let params := if decide (params = []) then [0] else params in
  bump_revision (set_style g (rendition_loop 0 params (current_style g))).

(** ** Printing *)

Section printing.
Context {U : UnicodeTables}.

(** [UnicodeWidthChar::width] of the unicode-width crate. *)
Context (char_width : Z -> option Z).

Definition intern_current (g : TerminalGrid) : TerminalGrid * nat :=
  let '(p, id) := intern (palette g) (current_style g) in (set_palette g p, id).

(** [mark_current_row_wrapped], column 0, [linefeed]. *)
Definition wrap_line (g : TerminalGrid) : option TerminalGrid :=
  g ← mark_current_row_wrapped g; linefeed (at_col g 0).

Definition print_grapheme (g : TerminalGrid) (t : list Z) (cw : nat) : option TerminalGrid :=
  g ← (if autowrap g && pending_wrap g then wrap_line (no_wrap g) else Some g);
  g ← (if autowrap g && bool_decide (width g < col (cursor g) + cw)%nat then wrap_line g else Some g);
  let '(g, style) := intern_current g in
  let r := row (cursor g) in
  let c := col (cursor g) in
  if decide (width g - c < cw)%nat then
    g ← active_row_mut g r (fun l => clear_range l c (c + 1) style);
    Some (bump_content_revision g)
  else
    g ← (if insert_mode (terminal_state g) then insert_blank_chars g cw else Some g);
    g ← active_row_mut g r (fun l => clear_range l c (c + cw) style);
    g ← active_row_mut g r (fun l => set_cell l c (Cell_new t style cw));
    g ← (if bool_decide (cw = 2%nat) && bool_decide (c + 1 < width g)%nat
         then active_row_mut g r (fun l => set_cell l (c + 1) (spacer style)) else Some g);
    let g := if decide (width g <= c + cw)%nat
             then set_wrap (at_col g (width g - 1)) (autowrap g) (autowrap g)
             else no_wrap (at_col g (c + cw)) in
    Some (bump_content_revision g).

(** [cell.text = text] of a cell found before. *)
Definition set_cell_text (g : TerminalGrid) (r c : nat) (t : list Z) : option TerminalGrid :=
  active_row_mut g r (fun l =>
    mkRow (alter (fun d => mkCell t (c_style d) (c_width d) (c_cont d)) c (cells l)) (wrapped l)).

(** The grid and whether the character joined the cell before the cursor. *)
Definition extend_grapheme (g : TerminalGrid) (ch : Z) : option (TerminalGrid * bool) :=
  if decide (ch < 128) then Some (g, false)
  else
    let r := row (cursor g) in
    if negb (pending_wrap g) && bool_decide (col (cursor g) = 0%nat) then Some (g, false)
    else
      let c := if pending_wrap g then col (cursor g) else (col (cursor g) - 1)%nat in
      l ← viewport_rows g !! r;
      let c := if cont_at (cells l) c then (c - 1)%nat else c in
      match cells l !! c with
      | None => Some (g, false)
      | Some cell =>
          let t := c_text cell ++ [ch] in
          if decide (768 <= ch <= 879) then g ← set_cell_text g r c t; Some (g, true)
          else if decide (length (graphemes t) <> 1%nat) then Some (g, false)
          else
            let w := Z.to_nat (Z.min (Z.max (str_width t) 1) 2) in
            if decide (w = c_width cell) then g ← set_cell_text g r c t; Some (g, true)
            else
              let style := c_style cell in
              g ← active_row_mut g r (fun l => set_cell l c (blank style));
              g ← (if decide (c_width cell = 2%nat)
                   then active_row_mut g r (fun l => set_cell l (c + 1) (blank style)) else Some g);
              let g := no_wrap (at_col g c) in
              let saved := current_style g in
              g ← print_grapheme (set_style g (palette_get (palette g) style)) t w;
              Some (set_style g saved, true)
      end.

Definition print_char (g : TerminalGrid) (ch : Z) : option TerminalGrid :=
  '(g, extended) ← extend_grapheme g ch;
  if (extended : bool) then Some (bump_content_revision g)
  else
    let cw := default 0 (char_width ch) in
    if decide (cw = 0) then Some g else print_grapheme g [ch] (Z.to_nat (Z.min cw 2)).

End printing.

(** ** Resizing *)

(** [trim_resize_rows]: drop unused rows below the cursor, last one first. *)
Fixpoint trim_rows_rev (rows : list PhysicalRow) (cursor_row : nat) : list PhysicalRow :=
  match rows with
  | r :: rest =>
      if bool_decide (1 < length rows)%nat && (row_is_blank r && negb (wrapped r))
         && bool_decide (cursor_row < length rows - 1)%nat
      then trim_rows_rev rest cursor_row else rows
  | [] => []
  end.

Definition trim_resize_rows (rows : list PhysicalRow) (cursor_row : nat) : list PhysicalRow :=
  reverse (trim_rows_rev (reverse rows) cursor_row).

(** The logical line of row [target] and the columns before the cursor's row in
    it: [line] and [prefix] describe the line that reaches row [index], whose
    first live row is [run_start]. *)
Fixpoint anchor_from (w target : nat) (rows : list PhysicalRow) (index line run_start prefix : nat)
  : option (nat * nat) :=
  match rows with
  | [] => None
  | r :: rows =>
      if decide (index = target) then Some (line, (prefix + (index - run_start) * w)%nat)
      else if wrapped r then anchor_from w target rows (S index) line run_start prefix
      else anchor_from w target rows (S index) (S line) (S index) 0
  end.

Definition live_cursor_anchor (g : TerminalGrid) (rows : list PhysicalRow) (c : Cursor) : option (nat * nat) :=
  if decide (rows = []) then None
  else
    '(line, column) ← anchor_from (width g) (Nat.min (row c) (length rows - 1)) rows 0 0 0
                        (logical_width (pending_history_cells (hist g)));
    Some (line, (column + col c)%nat).

Fixpoint collect_lines (w : nat) (rows : list PhysicalRow) (logical : list Cell) : list (list Cell) :=
  match rows with
  | [] => if decide (logical = []) then [] else [trim_trailing_blank_cells logical]
  | r :: rows =>
      let logical := logical ++ row_logical_cells r w in
      if wrapped r then collect_lines w rows logical
      else trim_trailing_blank_cells logical :: collect_lines w rows []
  end.

(** It also takes the pending cells, which [resize_main_viewport] rewrites. *)
Definition live_logical_lines (g : TerminalGrid) (rows : list PhysicalRow) : list (list Cell) :=
  match collect_lines (width g) rows (pending_history_cells (hist g)) with
  | [] => [[]]
  | lines => lines
  end.

Fixpoint find_line (line column w h keep_start : nat) (counts : list nat) (absolute : nat) : option (nat * nat) :=
  match counts with
  | [] => None
  | count :: counts =>
      match line with
      | O => Some (Nat.min (absolute + column / Nat.max w 1 - keep_start) (h - 1),
                   Nat.min (column mod Nat.max w 1) (w - 1))
      | S line => find_line line column w h keep_start counts (absolute + count)
      end
  end.

Definition restored_live_cursor_anchor (fallback : Cursor) (anchor : option (nat * nat)) (counts : list nat)
    (keep_start w h : nat) : Cursor :=
  match anchor with
  | None => clamp_cursor_to_dimensions fallback w h
  | Some (line, column) =>
      match find_line line column w h keep_start counts 0 with
      | Some (r, c) => mkCursor r c (visible fallback)
      | None => clamp_cursor_to_dimensions fallback w h
      end
  end.

(** The placement loop: lines above [keep_start] go to the history, of the line
    that crosses it the hidden rows become the open line. *)
Fixpoint place_lines (old_w new_w keep_start row_index : nat) (lines : list (list Cell)) (h : History)
    (pending : list Cell) (rows : list PhysicalRow) : History * list Cell * list PhysicalRow :=
  match lines with
  | [] => (h, pending, rows)
  | line :: lines =>
      let line_end := (row_index + projected_row_count line new_w)%nat in
      if decide (line_end <= keep_start)%nat then
        place_lines old_w new_w keep_start line_end lines (push_history_line h old_w line) pending rows
      else
        let hidden := (keep_start - row_index)%nat in
        let projected := project_logical_line line new_w in
        place_lines old_w new_w keep_start line_end lines h
          (pending ++ concat ((fun r => row_logical_cells r new_w) <$> take hidden projected))
          (rows ++ drop hidden projected)
  end.

(** The grid, the cursor and the signed shift. *)
Definition resize_main_viewport (g : TerminalGrid) (new_w new_h : nat) (main_cursor : Cursor)
  : TerminalGrid * Cursor * Z :=
  let pending := pending_history_cells (hist g) in
  let pending_rows := if decide (pending = []) then 0%nat else projected_row_count pending (width g) in
  let source_rows := trim_resize_rows (main_rows g) (row main_cursor) in
  let anchor := live_cursor_anchor g source_rows main_cursor in
  let lines := live_logical_lines g source_rows in
  let counts := (fun line => projected_row_count line new_w) <$> lines in
  let keep_start := (list_sum counts - new_h)%nat in
  let '(h, next_pending, next_rows) := place_lines (width g) new_w keep_start 0 lines (hist g) [] [] in
  let next_pending := trim_trailing_blank_cells next_pending in
  let bytes := lines_bytes (main_history h) + history_cells_bytes next_pending in
  let h := mkHistory (main_history h) bytes (history_truncated h) (main_history_projected_rows h) next_pending in
  let next_rows := next_rows ++ replicate (new_h - length next_rows) PhysicalRow_new in
  let excess := (length next_rows - new_h)%nat in
  let h := foldl (fun h r => push_history_row h (width g) r) h (take excess next_rows) in
  let g' := set_main_rows (set_hist g h) (drop excess next_rows) in
  (g', restored_live_cursor_anchor main_cursor anchor counts keep_start new_w new_h,
   Z.of_nat keep_start - Z.of_nat pending_rows).

Definition forget_projection (h : History) : History :=
  mkHistory (main_history h) (history_bytes h) (history_truncated h) None (pending_history_cells h).

Definition resize_region (region : option (nat * nat)) (h : nat) : option (nat * nat) :=
  '(top, bottom) ← region;
  let top := Nat.min top (h - 1) in
  let bottom := Nat.min bottom (h - 1) in
  if decide (top < bottom)%nat then Some (top, bottom) else None.

(** [alt_rows.resize_with(height, PhysicalRow::new)], each row truncated and
    its wrap flag cleared. *)
Definition resize_alt_rows (rows : list PhysicalRow) (w h : nat) : list PhysicalRow :=
  (fun r => set_wrapped (row_truncate r w) false)
  <$> take h (rows ++ replicate (h - length rows) PhysicalRow_new).

Definition resize_with_main_row_shift (g : TerminalGrid) (w h : nat)
  : result TerminalGridError (TerminalGrid * option Z) :=
  if decide (w = 0 \/ h = 0)%nat then Err ZeroDimensions
  else if decide (width g = w /\ height g = h) then Ok (g, Some 0)
  else
    let same_width := bool_decide (width g = w) in
    let main_cursor := match mode g with Main => cursor g | Alternate => saved_cursor g end in
    let '(g, resized, shift) := resize_main_viewport g w h main_cursor in
    let g := match mode g with Main => set_cursor g resized | Alternate => set_saved g resized false end in
    let g := if same_width then g else set_hist g (forget_projection (hist g)) in
    let g := no_wrap (set_dimensions g w h) in
    let g := evict_excess_history g in
    let g := set_region (set_alt_rows g (resize_alt_rows (alt_rows g) w h)) (resize_region (scroll_region g) h) in
    let g := set_cursor g (clamp_cursor_to_dimensions (cursor g) w h) in
    let g := set_saved g (clamp_cursor_to_dimensions (saved_cursor g) w h) (saved_pending_wrap g) in
    let keep := List.filter (fun c => bool_decide (c < w)%nat) in
    let g := with_tab_stops g (keep <$> tab_stops (terminal_state g)) in
    Ok (bump_content_revision g, if same_width then Some shift else None).
