(* ===== verification/GridInvariant.v ===== *)
(** * The grid invariant

    Dimensions, both screens, the cursor, the scroll region, the tab stops and
    the scrollback accounting stay consistent under every operation of the grid,
    and none of them panics. *)

From S2P Require Import Prelude Utf8 TextStr GridCell GridCellProps Pointer Grid.

(** ** The invariant *)

Definition screen_ok (w h : nat) (rows : list PhysicalRow) : Prop := length rows = h /\ Forall (row_ok w) rows.

(** The byte count and the cached row count agree with the stored lines. *)
Record hist_coherent (w : nat) (h : History) : Prop := {
  hist_lines : Forall (Forall leader) (main_history h);
  hist_pending : Forall leader (pending_history_cells h);
  hist_bytes : history_bytes h = lines_bytes (main_history h) + history_cells_bytes (pending_history_cells h);
  hist_cache n : main_history_projected_rows h = Some n -> n = history_sum (main_history h) w;
}.

Definition hist_bounded (limit : nat) (h : History) : Prop :=
  (length (main_history h) <= limit)%nat /\ history_bytes h <= HISTORY_BUDGET.

Definition region_ok (h : nat) (region : option (nat * nat)) : Prop :=
  match region with Some (top, bottom) => (top < bottom < h)%nat | None => True end.

Definition stops_ok (w : nat) (stops : option (list nat)) : Prop :=
  match stops with Some l => StronglySorted lt l /\ Forall (fun c => (c < w)%nat) l | None => True end.

Record grid_ok (g : TerminalGrid) : Prop := {
  ok_width : (0 < width g)%nat /\ Z.of_nat (width g) < 65536;
  ok_height : (0 < height g)%nat /\ Z.of_nat (height g) < 65536;
  ok_main : screen_ok (width g) (height g) (main_rows g);
  ok_alt : screen_ok (width g) (height g) (alt_rows g);
  ok_row : (row (cursor g) < height g)%nat;
  ok_col : (col (cursor g) < width g)%nat;
  ok_region : region_ok (height g) (scroll_region g);
  ok_stops : stops_ok (width g) (tab_stops (terminal_state g));
  ok_hist : hist_coherent (width g) (hist g);
  ok_bounded : hist_bounded (scrollback_rows g) (hist g);
}.

(** What a terminal operation other than a mode change leaves alone. *)
Definition frame (g : TerminalGrid) : nat * nat * nat * GridMode * ProtocolState :=
  (width g, height g, scrollback_rows g, mode g, protocol g).

Definition ok (g0 g : TerminalGrid) : Prop := grid_ok g /\ frame g = frame g0.

Definition runs (R : TerminalGrid -> Prop) (o : option TerminalGrid) : Prop := exists g, o = Some g /\ R g.

Lemma runs_some R g : R g -> runs R (Some g).
Proof. intros H. by exists g. Qed.

Lemma runs_bind R Q o k : runs R o -> (forall g, R g -> runs Q (k g)) -> runs Q (o ≫= k).
Proof. intros (g & -> & H) Hk. by apply Hk. Qed.

Lemma runs_fmap R Q o f : runs R o -> (forall g, R g -> Q (f g)) -> runs Q (f <$> o).
Proof. intros (g & -> & H) Hk. exists (f g). auto. Qed.

Lemma runs_each {A} R (f : TerminalGrid -> A -> option TerminalGrid) l g :
  R g -> (forall g x, x ∈ l -> R g -> runs R (f g x)) -> runs R (each f l g).
Proof.
  revert g. induction l as [|x l IH]; intros g Hg Hf; simpl; [by apply runs_some|].
  eapply runs_bind; [apply Hf; [left|done]|]. intros g' Hg'. apply IH; [done|]. intros. apply Hf; [by right|done].
Qed.

Lemma ok_refl g : grid_ok g -> ok g g.
Proof. done. Qed.

Lemma ok_trans g0 g1 g2 : ok g0 g1 -> ok g1 g2 -> ok g0 g2.
Proof. intros [_ E] [H E']. split; [done|congruence]. Qed.

Lemma runs_ok_trans g0 g o : ok g0 g -> runs (ok g) o -> runs (ok g0) o.
Proof. intros H (g' & E & H'). exists g'. eauto using ok_trans. Qed.

(** Operations that only touch fields the invariant does not constrain. *)
Ltac ok_fields := intros [[] ?]; split; [constructor; simpl in *; auto|done].

Lemma ok_revs g0 g r : ok g0 g -> ok g0 (set_revs g r). Proof. ok_fields. Qed.
Lemma ok_palette g0 g p : ok g0 g -> ok g0 (set_palette g p). Proof. ok_fields. Qed.
Lemma ok_style g0 g s : ok g0 g -> ok g0 (set_style g s). Proof. ok_fields. Qed.
Lemma ok_wrap g0 g a p : ok g0 g -> ok g0 (set_wrap g a p). Proof. ok_fields. Qed.
Lemma ok_saved g0 g c p : ok g0 g -> ok g0 (set_saved g c p). Proof. ok_fields. Qed.
Lemma ok_characters g0 g x y : ok g0 g -> ok g0 (set_characters g x y). Proof. ok_fields. Qed.

Lemma ok_no_wrap g0 g : ok g0 g -> ok g0 (no_wrap g). Proof. apply ok_wrap. Qed.
Lemma ok_bump g0 g : ok g0 g -> ok g0 (bump_revision g). Proof. apply ok_revs. Qed.
Lemma ok_bump_content g0 g : ok g0 g -> ok g0 (bump_content_revision g).
Proof. intros H. by apply ok_bump, ok_revs. Qed.
Lemma ok_bump_scroll g0 g n : ok g0 g -> ok g0 (bump_viewport_scroll g n). Proof. apply ok_revs. Qed.

Lemma ok_cursor g0 g c :
  (row c < height g)%nat -> (col c < width g)%nat -> ok g0 g -> ok g0 (set_cursor g c).
Proof. intros Hr Hc. ok_fields. Qed.

Lemma ok_at_col g0 g c : (c < width g)%nat -> ok g0 g -> ok g0 (at_col g c).
Proof. intros H Hg. apply ok_cursor; [apply Hg|done|done]. Qed.

Lemma ok_at_row g0 g r : (r < height g)%nat -> ok g0 g -> ok g0 (at_row g r).
Proof. intros H Hg. apply ok_cursor; [done|apply Hg|done]. Qed.

Lemma ok_terminal_state g0 g t :
  stops_ok (width g) (tab_stops t) -> ok g0 g -> ok g0 (set_terminal_state g t).
Proof. intros H. ok_fields. Qed.

Lemma ok_set_region g0 g region : region_ok (height g) region -> ok g0 g -> ok g0 (set_region g region).
Proof. intros H. ok_fields. Qed.

Lemma ok_set_hist g0 g h :
  hist_coherent (width g) h -> hist_bounded (scrollback_rows g) h -> ok g0 g -> ok g0 (set_hist g h).
Proof. intros H1 H2. ok_fields. Qed.

Lemma ok_viewport_rows g0 g rows :
  screen_ok (width g) (height g) rows -> ok g0 g -> ok g0 (set_viewport_rows g rows).
Proof. intros H. unfold set_viewport_rows. destruct (mode g); ok_fields. Qed.

#[export] Hint Resolve ok_revs ok_palette ok_style ok_wrap ok_saved ok_characters ok_no_wrap ok_bump
  ok_bump_content ok_bump_scroll runs_some : grid.

Lemma ok_dims g0 g : ok g0 g -> width g = width g0 /\ height g = height g0.
Proof. intros [_ E]. by injection E. Qed.

(** ** Rows of the active screen *)

Lemma viewport_screen g : grid_ok g -> screen_ok (width g) (height g) (viewport_rows g).
Proof. intros []. unfold viewport_rows. by destruct (mode g). Qed.

Lemma viewport_lookup g r :
  grid_ok g -> (r < height g)%nat -> exists old, viewport_rows g !! r = Some old /\ row_ok (width g) old.
Proof.
  intros Hg Hr. destruct (viewport_screen g Hg) as [Hl Hf]. destruct (lookup_lt_is_Some_2 (viewport_rows g) r) as [old E]; [lia|].
  exists old. rewrite Forall_lookup in Hf. eauto.
Qed.

Lemma viewport_set g rows : viewport_rows (set_viewport_rows g rows) = rows.
Proof. unfold viewport_rows, set_viewport_rows. destruct g as [??????[]]; done. Qed.

Lemma runs_row g0 g r f :
  ok g0 g -> (r < height g)%nat -> (forall old, row_ok (width g) old -> row_ok (width g) (f old)) ->
  runs (ok g0) (active_row_mut g r f).
Proof.
  intros Hg Hr Hf. destruct (viewport_lookup g r) as (old & E & Ho); [apply Hg|done|].
  unfold active_row_mut. rewrite E. simpl. apply runs_some, ok_viewport_rows; [|done].
  destruct (viewport_screen g) as [Hl Hrows]; [apply Hg|]. split; [by rewrite length_insert|].
  apply Forall_insert; auto.
Qed.

(** Two mutations of the same row are one. *)
Lemma active_row_mut_compose g r f h :
  (g' ← active_row_mut g r f; active_row_mut g' r h) = active_row_mut g r (fun l => h (f l)).
Proof.
  unfold active_row_mut. destruct (viewport_rows g !! r) as [old|] eqn:E; [|done]. simpl.
  rewrite viewport_set, list_lookup_insert_eq by (by eapply lookup_lt_Some). simpl. f_equal.
  unfold set_viewport_rows. destruct g as [??????[]]; simpl; by rewrite list_insert_insert_eq.
Qed.

Lemma erase_style_palette g : exists p, erase_style g = (set_palette g p, (erase_style g).2).
Proof.
  unfold erase_style. case_decide; [exists (palette g); by destruct g|].
  destruct (intern _ _) as [p id]. by exists p.
Qed.

Lemma runs_set_row g0 g r value :
  ok g0 g -> (r < height g)%nat -> row_ok (width g) value -> runs (ok g0) (set_viewport_row g r value).
Proof. intros. by apply runs_row. Qed.

Lemma runs_fill_row g0 g r style :
  ok g0 g -> (r < height g)%nat -> runs (ok g0) (fill_viewport_row g r style).
Proof. intros. apply runs_set_row; [done..|]. apply erase_filled_ok. Qed.

Lemma cell_at_set_cells r c l i :
  Forall cell_ok (cells r) -> Forall cell_ok l ->
  cell_at (cells (set_cells r c l)) i
  = if decide (c <= i < c + length l)%nat then cell_at l (i - c) else cell_at (cells r) i.
Proof.
  revert r c. induction l as [|d l IH]; intros r c Hr Hl; simpl; [by rewrite decide_False by lia|].
  inversion Hl; subst. rewrite IH by auto using set_cell_cells_ok. rewrite cell_at_set_cell by done. unfold upd.
  repeat case_decide; try lia; try done; subst.
  - by replace (i - c)%nat with (S (i - S c)) by lia.
  - by rewrite Nat.sub_diag.
Qed.

Lemma set_cells_trimmed r c l : trimmed (cells r) -> trimmed (cells (set_cells r c l)).
Proof. revert r c. induction l as [|d l IH]; intros r c H; simpl; [done|]. apply IH, set_cell_trimmed. Qed.

Lemma set_cells_ok w b l : shape w (cell_at l) -> (length l <= w)%nat -> row_ok w (set_cells (mkRow [] b) 0 l).
Proof.
  intros Hs Hl. split; [|by apply set_cells_trimmed]. eapply shape_ext; [|exact Hs]. intros i.
  rewrite cell_at_set_cells; [|done|apply cell_at_ok, (shape_cell _ _ Hs)]. simpl.
  case_decide; [by rewrite Nat.sub_0_r|]. apply cell_at_beyond. lia.
Qed.

Lemma normalized_length l w : Forall cell_ok l -> length (normalized_visual_cells l w) = w.
Proof.
  intros H. destruct (normalize_spec w (resize_cells w l) None) as (H1 & _); [|by apply resize_cells_ok|done|].
  { by rewrite resize_cells_length. }
  unfold normalized_visual_cells. by rewrite H1, resize_cells_length.
Qed.

Lemma runs_replace_row g0 g r l :
  ok g0 g -> (r < height g)%nat -> Forall cell_ok l -> runs (ok g0) (replace_active_row g r l).
Proof.
  intros Hg Hr Hl. apply runs_row; [done..|]. intros old _. apply set_cells_ok; [by apply normalized_shape|].
  by rewrite normalized_length.
Qed.

(** ** Scrollback *)

Definition text_bytes (l : list Cell) : Z := foldr (fun c n => str_len (c_text c) + n) 0 l.

Lemma history_cells_bytes_eq l : history_cells_bytes l = zlen l * CELL_SIZE + text_bytes l.
Proof.
  unfold history_cells_bytes. generalize (zlen l * CELL_SIZE). unfold text_bytes.
  induction l as [|c l IH]; intros n; simpl; [lia|]. rewrite IH. lia.
Qed.

Lemma history_cells_bytes_app l k : history_cells_bytes (l ++ k) = history_cells_bytes l + history_cells_bytes k.
Proof.
  rewrite !history_cells_bytes_eq, zlen_app. unfold CELL_SIZE.
  assert (text_bytes (l ++ k) = text_bytes l + text_bytes k) as ->; [|lia].
  induction l as [|c l IH]; simpl; [done|]. rewrite IH. lia.
Qed.

Lemma history_cells_bytes_nonneg l : 0 <= history_cells_bytes l.
Proof.
  rewrite history_cells_bytes_eq. pose proof (zlen_nonneg l). unfold CELL_SIZE.
  assert (0 <= text_bytes l); [|lia]. clear. induction l as [|c l IH]; simpl; [done|].
  pose proof (str_len_nonneg (c_text c)). lia.
Qed.

Lemma lines_bytes_snoc l x : lines_bytes (l ++ [x]) = lines_bytes l + history_cells_bytes x.
Proof. induction l as [|y l IH]; simpl; [lia|]. rewrite IH. lia. Qed.

Lemma lines_bytes_nonneg l : 0 <= lines_bytes l.
Proof. induction l as [|x l IH]; simpl; [done|]. pose proof (history_cells_bytes_nonneg x). lia. Qed.

Lemma history_sum_snoc l x w : history_sum (l ++ [x]) w = (history_sum l w + projected_row_count x w)%nat.
Proof. unfold history_sum. rewrite fmap_app, list_sum_app. simpl. lia. Qed.

Lemma history_sum_cons x l w : history_sum (x :: l) w = (projected_row_count x w + history_sum l w)%nat.
Proof. done. Qed.

Lemma push_history_line_coherent w h line :
  hist_coherent w h -> Forall leader line -> hist_coherent w (push_history_line h w line).
Proof.
  intros [H1 H2 H3 H4] Hl. split; simpl.
  - apply Forall_app. auto.
  - done.
  - rewrite lines_bytes_snoc. lia.
  - intros n (m & E & ->)%fmap_Some. rewrite history_sum_snoc. f_equal. auto.
Qed.

Lemma push_history_row_coherent w h r :
  hist_coherent w h -> row_ok w r -> hist_coherent w (push_history_row h w r).
Proof.
  intros [H1 H2 H3 H4] Hr. pose proof (row_logical_cells_leaders w r w Hr) as Hl. unfold push_history_row.
  assert (Forall leader (pending_history_cells h ++ row_logical_cells r w)) as Hp by (apply Forall_app; auto).
  destruct (wrapped r).
  - split; simpl; [done..| |done]. rewrite history_cells_bytes_app. lia.
  - apply push_history_line_coherent; [|by apply trim_leaders]. split; simpl; [done..| |done].
    rewrite history_cells_bytes_app. pose proof (lines_bytes_nonneg (main_history h)). unfold saturating_sub.
    change (history_cells_bytes []) with 0. lia.
Qed.

Lemma evict_lines_coherent limit budget w lines bytes truncated projected pending :
  hist_coherent w (mkHistory lines bytes truncated projected pending) -> 0 <= budget ->
  let h := evict_lines limit budget w lines bytes truncated projected pending in
  hist_coherent w h /\ (length (main_history h) <= limit)%nat /\ history_bytes h <= budget.
Proof.
  intros Hc Hb. revert bytes truncated projected Hc. induction lines as [|line lines IH]; intros bytes truncated projected Hc;
    cbn [evict_lines]; destruct (bool_decide (limit < _)%nat || bool_decide (budget < bytes)) eqn:E.
  - destruct Hc as [_ _ _ H4]. split_and!; [|simpl; lia|done]. split; simpl; auto.
  - apply orb_false_iff in E as [E1%bool_decide_eq_false E2%bool_decide_eq_false]. split_and!; [done|simpl; lia|simpl; lia].
  - apply IH. destruct Hc as [H1 H2 H3 H4]. simpl in *. inversion H1; subst. split; simpl; try done.
    + pose proof (history_cells_bytes_nonneg pending). pose proof (lines_bytes_nonneg lines). unfold saturating_sub. lia.
    + intros n (m & Em & ->)%fmap_Some. rewrite (H4 m Em), history_sum_cons. lia.
  - apply orb_false_iff in E as [E1%bool_decide_eq_false E2%bool_decide_eq_false]. split_and!; [done|simpl in *; lia|simpl; lia].
Qed.

(** Eviction restores the bounds whatever was pushed. *)
Lemma ok_evict g0 g h :
  ok g0 g -> hist_coherent (width g) h -> ok g0 (evict_excess_history (set_hist g h)).
Proof.
  intros Hg Hh. unfold evict_excess_history, evict_history_to_budget. simpl. destruct h as [lines bytes tr pr pend].
  destruct (evict_lines_coherent (scrollback_rows g) HISTORY_BUDGET (width g) lines bytes tr pr pend Hh) as (H1 & H2 & H3);
    [done|].
  assert (forall x, set_hist (set_hist g (mkHistory lines bytes tr pr pend)) x = set_hist g x) as -> by done.
  by apply ok_set_hist.
Qed.

(** ** Scrolling *)

Lemma runs_scroll_up g0 g top bottom count : ok g0 g -> runs (ok g0) (scroll_region_up g top bottom count).
Proof.
  intros Hg. unfold scroll_region_up. case_decide as Hd; [by apply runs_some|].
  set (g1 := if decide _ then _ else g). assert (ok g0 g1) as H1 by (subst g1; case_decide; auto with grid).
  assert (height g1 = height g) as Eh by (subst g1; by case_decide).
  destruct (erase_style_palette g1) as [p ->]. apply runs_each; [by apply ok_palette|]. intros g2 _ _ H2.
  assert (height g2 = height g) as E2 by (rewrite (proj2 (ok_dims _ _ H2)), <- Eh; symmetry; apply (ok_dims _ _ H1)).
  eapply runs_bind; [apply (runs_each (ok g0)); [done|]|].
  - intros g3 r Hr%elem_of_seq H3. assert (height g3 = height g2) as E3
      by (rewrite (proj2 (ok_dims _ _ H3)); symmetry; apply (ok_dims _ _ H2)).
    destruct (viewport_lookup g3 (r + 1)) as (next & -> & Hn); [apply H3|lia|]. simpl. apply runs_set_row; [done|lia|done].
  - intros g3 H3. apply runs_fill_row; [done|]. rewrite (proj2 (ok_dims _ _ H3)), <- (proj2 (ok_dims _ _ H2)). lia.
Qed.

Lemma runs_scroll_down g0 g top bottom count : ok g0 g -> runs (ok g0) (scroll_region_down g top bottom count).
Proof.
  intros Hg. unfold scroll_region_down. case_decide as Hd; [by apply runs_some|].
  destruct (erase_style_palette g) as [p ->]. pose proof (ok_dims _ _ Hg) as [_ Eh].
  apply runs_each; [by apply ok_palette|]. intros g2 _ _ H2. pose proof (ok_dims _ _ H2) as [_ E2].
  eapply runs_bind; [apply (runs_each (ok g0)); [done|]|].
  - intros g3 r Hr H3. apply elem_of_reverse, elem_of_seq in Hr. pose proof (ok_dims _ _ H3) as [_ E3].
    destruct (viewport_lookup g3 (r - 1)) as (prev & -> & Hp); [apply H3|lia|]. simpl. apply runs_set_row; [done|lia|done].
  - intros g3 H3. apply runs_fill_row; [done|]. pose proof (ok_dims _ _ H3). lia.
Qed.

Lemma ok_scroll_up_one g0 g : ok g0 g -> ok g0 (scroll_up_one g).
Proof.
  intros Hg. unfold scroll_up_one. destruct (erase_style_palette (bump_viewport_scroll g 1)) as [p ->].
  set (fill := (erase_style _).2). set (g1 := set_palette _ p). assert (ok g0 g1) as H1 by (subst g1; auto with grid).
  destruct H1 as [Hok Hfr]. pose proof (ok_main _ Hok) as [Hlm Hfm]. pose proof (ok_alt _ Hok) as [Hla Hfa].
  pose proof (ok_height _ Hok). pose proof (erase_filled_ok (width g1) fill) as Hfill.
  destruct (mode g1) eqn:Em.
  - destruct (main_rows g1) as [|r rest] eqn:Er; [simpl in *; lia|].
    apply Forall_cons in Hfm as [Hr Hrest].
    set (g2 := set_main_rows g1 (rest ++ [erase_filled (width g1) fill])).
    assert (ok g0 g2) as H2.
    { split; [|exact Hfr]. destruct Hok. split; try done. simpl. split; [rewrite length_app; simpl in *; lia|].
      apply Forall_app. split; [done|by constructor]. }
    eapply (ok_evict g0 (bump_scrolled_rows g2) (push_history_row (hist g1) (width g1) r)).
    + by apply ok_revs.
    + apply push_history_row_coherent; [apply Hok|done].
  - destruct (alt_rows g1) as [|r rest] eqn:Er; [simpl in *; lia|].
    apply Forall_cons in Hfa as [Hr Hrest].
    split; [|exact Hfr]. destruct Hok. split; try done. simpl. split; [rewrite length_app; simpl in *; lia|].
    apply Forall_app. split; [done|by constructor].
Qed.

Lemma region_bounds g : grid_ok g ->
  ((effective_scroll_region g).1 <= (effective_scroll_region g).2 < height g)%nat.
Proof.
  intros []. unfold effective_scroll_region. destruct (scroll_region g) as [[top bottom]|]; simpl in *; lia.
Qed.

Lemma runs_linefeed g0 g : ok g0 g -> runs (ok g0) (linefeed g).
Proof.
  intros Hg. unfold linefeed. apply ok_no_wrap in Hg. set (g1 := no_wrap g) in *.
  destruct (effective_scroll_region g1) as [top bottom]. case_decide.
  - eapply runs_bind; [|intros; by apply runs_some, ok_bump_content].
    destruct (_ && _); [by apply runs_some, ok_scroll_up_one|by apply runs_scroll_up].
  - case_decide; apply runs_some, ok_bump; [|done]. apply ok_at_row; [lia|done].
Qed.

Lemma runs_reverse_index g0 g : ok g0 g -> runs (ok g0) (reverse_index g).
Proof.
  intros Hg. unfold reverse_index. apply ok_no_wrap in Hg. set (g1 := no_wrap g) in *.
  destruct (effective_scroll_region g1) as [top bottom]. case_decide.
  - eapply runs_fmap; [by apply runs_scroll_down|]. auto with grid.
  - apply runs_some, ok_bump, ok_at_row; [|done]. pose proof (ok_row _ (proj1 Hg)). lia.
Qed.

(** ** Erasing and shifting *)

Lemma runs_erase_line g0 g m : ok g0 g -> runs (ok g0) (erase_line g m).
Proof.
  intros Hg. unfold erase_line. destruct (erase_style_palette g) as [p ->].
  pose proof (ok_row _ (proj1 Hg)). pose proof (ok_col _ (proj1 Hg)).
  eapply runs_bind; [|intros; by apply runs_some, ok_bump_content].
  destruct m as [|[|[|m]]]; [..|by apply runs_some, ok_palette];
    (apply runs_row; [by apply ok_palette|done|]; intros old Ho; apply clear_range_ok; [done|simpl; lia]).
Qed.

Lemma clear_history_coherent w h : hist_coherent w (clear_history h).
Proof. split; simpl; try done. by intros n [= <-]. Qed.

Lemma runs_fill_rows g0 g fill start len :
  ok g0 g -> (start + len <= height g)%nat -> runs (ok g0) (each (fun g r => fill_viewport_row g r fill) (seq start len) g).
Proof.
  intros Hg Hl. apply runs_each; [done|]. intros g' r Hr%elem_of_seq H'. apply runs_fill_row; [done|].
  pose proof (ok_dims _ _ Hg). pose proof (ok_dims _ _ H'). lia.
Qed.

Lemma runs_erase_display g0 g m : ok g0 g -> runs (ok g0) (erase_display g m).
Proof.
  intros Hg. unfold erase_display. destruct (erase_style_palette g) as [p ->]. apply (ok_palette _ _ p) in Hg.
  set (fill := (erase_style g).2). set (g1 := set_palette g p) in *. clearbody fill g1.
  eapply runs_bind; [|intros; by apply runs_some, ok_bump_content].
  destruct m as [|[|[|[|m]]]].
  - eapply runs_bind; [by apply runs_erase_line|]. intros g2 H2. apply runs_fill_rows; [done|].
    pose proof (ok_row _ (proj1 H2)). lia.
  - eapply runs_bind; [apply (runs_fill_rows g0); [done|]|].
    + pose proof (ok_row _ (proj1 Hg)). lia.
    + intros g2 H2. by apply runs_erase_line.
  - apply runs_fill_rows; [by apply ok_revs|simpl; lia].
  - case_decide; apply runs_some; [|done]. apply ok_set_hist; [apply clear_history_coherent| |by apply ok_revs].
    split; simpl; [lia|done].
  - by apply runs_some.
Qed.

Lemma runs_erase_chars g0 g n : ok g0 g -> runs (ok g0) (erase_chars g n).
Proof.
  intros Hg. unfold erase_chars. destruct (erase_style_palette g) as [p ->].
  eapply runs_bind; [|intros; by apply runs_some, ok_bump_content].
  apply runs_row; [by apply ok_palette|apply Hg|]. intros old Ho. apply clear_range_ok; [done|simpl; lia].
Qed.

Lemma shift_ok l f : Forall cell_ok l -> (forall i d, cell_ok d -> cell_ok (f i d)) -> Forall cell_ok (imap f l).
Proof.
  intros Hl Hf. rewrite Forall_lookup in *. intros i d. rewrite list_lookup_imap.
  intros (d' & E & ->)%fmap_Some. eauto.
Qed.

Lemma default_lookup_ok l i d : Forall cell_ok l -> cell_ok d -> cell_ok (default d (l !! i)).
Proof. intros Hl Hd. destruct (l !! i) eqn:E; simpl; [|done]. rewrite Forall_lookup in Hl. eauto. Qed.

Lemma shift_right_ok l c n s : Forall cell_ok l -> Forall cell_ok (shift_right l c n s).
Proof. intros Hl. apply shift_ok; [done|]. intros i d Hd. repeat case_decide; auto using default_lookup_ok. Qed.

Lemma shift_left_ok l c n s : Forall cell_ok l -> Forall cell_ok (shift_left l c n s).
Proof. intros Hl. apply shift_ok; [done|]. intros i d Hd. repeat case_decide; auto using default_lookup_ok. Qed.

Lemma visual_cells_ok w r n : row_ok w r -> Forall cell_ok (visual_cells r n).
Proof. intros H%row_ok_cells. by apply resize_cells_ok. Qed.

Lemma runs_insert_blank_chars g0 g n : ok g0 g -> runs (ok g0) (insert_blank_chars g n).
Proof.
  intros Hg. unfold insert_blank_chars. pose proof (ok_row _ (proj1 Hg)) as Hr. pose proof (ok_col _ (proj1 Hg)) as Hc.
  destruct (erase_style_palette g) as [p ->]. apply (ok_palette _ _ p) in Hg. set (fill := (erase_style g).2).
  destruct (viewport_lookup (set_palette g p) (row (cursor g))) as (old & -> & Ho); [apply Hg|done|]. cbn [mbind option_bind].
  eapply (runs_bind (ok g0)).
  { destruct (cont_at _ _); [|by apply runs_some]. apply runs_row; [done..|]. intros l Hl.
    apply clear_range_ok; [done|simpl; lia]. }
  intros g2 H2. pose proof (ok_dims _ _ Hg) as [_ E]. pose proof (ok_dims _ _ H2) as [_ E2]. simpl in E.
  destruct (viewport_lookup g2 (row (cursor g))) as (old2 & -> & Ho2); [apply H2|lia|]. cbn [mbind option_bind].
  eapply runs_bind; [|intros; by apply runs_some, ok_bump_content].
  apply runs_replace_row; [done|lia|]. by eapply shift_right_ok, visual_cells_ok.
Qed.

Lemma runs_delete_chars g0 g n : ok g0 g -> runs (ok g0) (delete_chars g n).
Proof.
  intros Hg. unfold delete_chars. pose proof (ok_row _ (proj1 Hg)) as Hr. pose proof (ok_col _ (proj1 Hg)) as Hc.
  destruct (erase_style_palette g) as [p ->]. apply (ok_palette _ _ p) in Hg. set (fill := (erase_style g).2).
  eapply (runs_bind (ok g0)).
  { apply runs_row; [done..|]. intros l Hl. apply clear_range_ok; [done|simpl; lia]. }
  intros g2 H2. pose proof (ok_dims _ _ Hg) as [_ E]. pose proof (ok_dims _ _ H2) as [_ E2]. simpl in E.
  destruct (viewport_lookup g2 (row (cursor g))) as (old2 & -> & Ho2); [apply H2|lia|]. cbn [mbind option_bind].
  eapply runs_bind; [|intros; by apply runs_some, ok_bump_content].
  apply runs_replace_row; [done|lia|]. by eapply shift_left_ok, visual_cells_ok.
Qed.

Lemma runs_insert_lines g0 g n : ok g0 g -> runs (ok g0) (insert_blank_lines g n).
Proof.
  intros Hg. unfold insert_blank_lines. destruct (effective_scroll_region g). case_decide; [by apply runs_some|].
  eapply runs_fmap; [by apply runs_scroll_down|]. auto with grid.
Qed.

Lemma runs_delete_lines g0 g n : ok g0 g -> runs (ok g0) (delete_lines g n).
Proof.
  intros Hg. unfold delete_lines. destruct (effective_scroll_region g). case_decide; [by apply runs_some|].
  eapply runs_fmap; [by apply runs_scroll_up|]. auto with grid.
Qed.

(** ** Cursor, regions, tab stops *)

Lemma row_bounds g : grid_ok g -> ((cursor_row_bounds g).1 <= (cursor_row_bounds g).2 < height g)%nat.
Proof.
  intros Hg. unfold cursor_row_bounds. destruct (origin_mode _); [by apply region_bounds|].
  pose proof (ok_height _ Hg). simpl. lia.
Qed.

Lemma ok_move_to g0 g r c : ok g0 g -> ok g0 (move_cursor_to g r c).
Proof.
  intros Hg. unfold move_cursor_to. pose proof (row_bounds g (proj1 Hg)). pose proof (ok_width _ (proj1 Hg)).
  destruct (cursor_row_bounds g) as [top bottom]. simpl in *.
  apply ok_bump, ok_at_col; [simpl; lia|]. apply ok_at_row; [simpl; lia|]. auto with grid.
Qed.

Lemma ok_move_column g0 g c : ok g0 g -> ok g0 (move_cursor_column g c).
Proof.
  intros Hg. pose proof (ok_width _ (proj1 Hg)). apply ok_bump, ok_no_wrap, ok_at_col; [lia|done].
Qed.

Lemma runs_move_relative g0 g rows cols : ok g0 g -> runs (ok g0) (move_cursor_relative g rows cols).
Proof.
  intros Hg. unfold move_cursor_relative. pose proof (row_bounds g (proj1 Hg)).
  destruct (cursor_row_bounds g) as [top bottom]. simpl in *. unfold clamp. rewrite decide_True by lia. simpl.
  apply runs_some, ok_move_column, ok_at_row; [lia|done].
Qed.

Lemma ok_carriage_return g0 g : ok g0 g -> ok g0 (carriage_return g).
Proof. intros Hg. pose proof (ok_width _ (proj1 Hg)). apply ok_bump, ok_at_col; [simpl; lia|]. auto with grid. Qed.

Lemma ok_backspace g0 g : ok g0 g -> ok g0 (backspace g).
Proof. intros Hg. pose proof (ok_col _ (proj1 Hg)). apply ok_bump, ok_at_col; [simpl; lia|]. auto with grid. Qed.

Lemma ok_tab g0 g : ok g0 g -> ok g0 (tab g).
Proof. intros Hg. pose proof (ok_width _ (proj1 Hg)). apply ok_bump, ok_at_col; [simpl; lia|]. auto with grid. Qed.

Lemma ok_scroll_region g0 g top bottom : ok g0 g -> ok g0 (set_scroll_region g top bottom).
Proof.
  intros Hg. unfold set_scroll_region. case_decide; [done|]. apply ok_move_to, ok_set_region; [|done].
  pose proof (ok_height _ (proj1 Hg)). simpl. lia.
Qed.

Lemma ok_origin_mode g0 g b : ok g0 g -> ok g0 (set_origin_mode g b).
Proof. intros Hg. apply ok_move_to, ok_terminal_state; [apply Hg|done]. Qed.

Lemma ok_insert_mode g0 g b : ok g0 g -> ok g0 (set_insert_mode g b).
Proof. intros Hg. apply ok_bump, ok_terminal_state; [apply Hg|done]. Qed.

Lemma default_stops_ok w : stops_ok w (Some (default_stops w)).
Proof.
  split.
  - assert (forall n s, StronglySorted lt ((fun k => 8 * S k)%nat <$> seq s n)) as H; [|apply H].
    induction n as [|n IH]; intros s; [constructor|]. cbn [seq fmap list_fmap]. constructor; [apply IH|].
    apply Forall_fmap, Forall_forall. intros x Hx%elem_of_seq. cbn -[Nat.mul]. lia.
  - apply Forall_fmap, Forall_forall. intros k Hk%elem_of_seq. simpl.
    pose proof (Nat.Div0.mul_div_le (w - 1) 8). lia.
Qed.

Lemma insert_stop_ok w c l : stops_ok w (Some l) -> (c < w)%nat -> stops_ok w (Some (insert_stop c l)).
Proof.
  intros [Hs Hl] Hc. split.
  - clear Hl Hc. induction Hs as [|s l Hs IH Hf]; simpl; [by repeat constructor|].
    case_decide; [|case_decide; [by constructor|]].
    + constructor; [done|]. clear IH Hs. induction Hf as [|x l Hx Hf IH]; simpl; [by repeat constructor|].
      repeat case_decide; repeat constructor; auto.
    + constructor; [by constructor|]. constructor; [lia|]. eapply Forall_impl; [done|]. cbv beta. intros. lia.
  - clear Hs. induction Hl; simpl; [by repeat constructor|]. repeat case_decide; repeat constructor; auto.
Qed.

Lemma filter_stops_ok w f l : stops_ok w (Some l) -> stops_ok w (Some (List.filter f l)).
Proof.
  intros [Hs Hl]. split; [by apply StronglySorted_filter|]. rewrite Forall_forall in *.
  intros x [Hx _]%list_elem_of_In%filter_In. by apply Hl, list_elem_of_In.
Qed.

Lemma runs_set_tab_stop g0 g : ok g0 g -> runs (ok g0) (set_tab_stop g).
Proof.
  intros Hg. pose proof (ok_stops _ (proj1 Hg)) as Hs. pose proof (ok_width _ (proj1 Hg)). pose proof (ok_col _ (proj1 Hg)).
  unfold set_tab_stop. set (stops := default _ _).
  assert (stops_ok (width g) (Some stops)) as Hst by (subst stops; destruct (tab_stops _); [done|apply default_stops_ok]).
  rewrite decide_True.
  - apply runs_some, ok_bump, ok_terminal_state; [|done]. by apply insert_stop_ok.
  - split; [|lia]. destruct Hst as [_ Hf]. eapply Forall_impl; [done|]. cbv beta. intros. lia.
Qed.

Lemma runs_clear_tab_stops g0 g m : ok g0 g -> runs (ok g0) (clear_tab_stops g m).
Proof.
  intros Hg. destruct m as [|[|[|[|m]]]]; simpl; try by apply runs_some.
  - eapply runs_bind; [by apply runs_set_tab_stop|]. intros g1 H1. apply runs_some, ok_bump, ok_terminal_state; [|done].
    pose proof (ok_stops _ (proj1 H1)) as Hs. simpl. destruct (tab_stops _); [|done]. by apply filter_stops_ok.
  - apply runs_some, ok_bump, ok_terminal_state; [|done]. by repeat constructor.
Qed.

(** ** Printing *)

(** What the grid relies on in the width tables: a space takes one column, no
    width is negative. *)
Class WidthLaws (char_width : Z -> option Z) : Prop := {
  width_space : char_width 32 = Some 1;
  width_nonneg c n : char_width c = Some n -> 0 <= n;
}.

Lemma runs_wrap_line g0 g : ok g0 g -> runs (ok g0) (wrap_line g).
Proof.
  intros Hg. unfold wrap_line. eapply (runs_bind (ok g0)).
  - apply runs_row; [done|apply Hg|]. intros. by apply set_wrapped_ok.
  - intros g1 H1. apply runs_linefeed, ok_at_col; [|done]. pose proof (ok_width _ (proj1 H1)). lia.
Qed.

Lemma intern_current_palette g : exists p, intern_current g = (set_palette g p, (intern_current g).2).
Proof. unfold intern_current. destruct (intern _ _) as [p id]. by exists p. Qed.

Lemma new_cell_ok t style cw :
  t <> [] -> (t = [32] -> cw = 1%nat) -> (cw = 1 \/ cw = 2)%nat -> cell_ok (Cell_new t style cw).
Proof. intros Ht Hs Hc. unfold cell_ok; simpl. split_and!; [lia|done|]. intros E. rewrite (Hs E). lia. Qed.

(** The three row updates of printing a cell are [put_cell]. *)
Lemma print_row_updates g r c t style cw :
  (cw = 1 \/ cw = 2)%nat -> (c + cw <= width g)%nat -> grid_ok g -> (r < height g)%nat ->
  (g ← active_row_mut g r (fun l => clear_range l c (c + cw) style);
   g ← active_row_mut g r (fun l => set_cell l c (Cell_new t style cw));
   (if bool_decide (cw = 2%nat) && bool_decide (c + 1 < width g)%nat
    then active_row_mut g r (fun l => set_cell l (c + 1) (spacer style)) else Some g))
  = active_row_mut g r (fun l => put_cell l c (Cell_new t style cw)).
Proof.
  intros Hcw Hc Hg Hr.
  assert (forall f g', active_row_mut g r f = Some g' -> width g' = width g) as Hw.
  { intros f g' E. unfold active_row_mut in E. destruct (viewport_rows g !! r); [|done]. injection E as <-.
    unfold set_viewport_rows. by destruct (mode g). }
  assert (forall f, exists g', active_row_mut g r f = Some g') as Hex.
  { intros f. destruct (viewport_lookup g r Hg Hr) as (old & E & _). unfold active_row_mut. rewrite E. eauto. }
  pose proof (active_row_mut_compose g r (fun l => clear_range l c (c + cw) style)
    (fun l => set_cell l c (Cell_new t style cw))) as E12.
  destruct (Hex (fun l => clear_range l c (c + cw) style)) as [g1 E1]. rewrite E1 in *. cbn [mbind option_bind] in *.
  unfold put_cell. simpl. replace (Nat.max cw 1) with cw by lia. rewrite E12.
  destruct (Hex (fun l => set_cell (clear_range l c (c + cw) style) c (Cell_new t style cw))) as [g2 E2].
  rewrite E2. cbn [mbind option_bind]. rewrite (Hw _ _ E2).
  unfold wide; simpl. replace (Nat.max cw 1) with cw by lia. destruct Hcw as [-> | ->].
  - simpl. by rewrite <- E2.
  - rewrite (bool_decide_eq_true_2 (c + 1 < width g)%nat) by lia. simpl.
    pose proof (active_row_mut_compose g r (fun l => set_cell (clear_range l c (c + 2) style) c (Cell_new t style 2))
      (fun l => set_cell l (c + 1) (spacer style))) as E3.
    rewrite E2 in E3. cbn [mbind option_bind] in E3. exact E3.
Qed.

Lemma runs_print_grapheme g0 g t cw :
  ok g0 g -> t <> [] -> (t = [32] -> cw = 1%nat) -> (cw = 1 \/ cw = 2)%nat -> runs (ok g0) (print_grapheme g t cw).
Proof.
  intros Hg Ht Hs Hcw. unfold print_grapheme.
  eapply (runs_bind (ok g0)). { destruct (_ && _); [apply runs_wrap_line; auto with grid|by apply runs_some]. }
  intros g1 H1. eapply (runs_bind (ok g0)). { destruct (_ && _); [by apply runs_wrap_line|by apply runs_some]. }
  intros g2 H2. destruct (intern_current_palette g2) as [p ->]. apply (ok_palette _ _ p) in H2.
  set (style := (intern_current g2).2). clearbody style. set (g3 := set_palette g2 p) in *. clearbody g3.
  pose proof (ok_row _ (proj1 H2)) as Hr. pose proof (ok_col _ (proj1 H2)) as Hc. case_decide as Hfit.
  - eapply runs_bind; [|intros; by apply runs_some, ok_bump_content]. apply runs_row; [done..|].
    intros. apply clear_range_ok; [done|lia].
  - eapply (runs_bind (ok g0)). { destruct (insert_mode _); [by apply runs_insert_blank_chars|by apply runs_some]. }
    intros g4 H4. pose proof (ok_dims _ _ H2). pose proof (ok_dims _ _ H4).
    pose proof (print_row_updates g4 (row (cursor g3)) (col (cursor g3)) t style cw Hcw ltac:(lia) (proj1 H4) ltac:(lia)) as E.
    destruct (active_row_mut g4 _ (fun l => clear_range l _ _ style)) as [g5|] eqn:E5; cbn [mbind option_bind] in *.
    2: { exfalso. destruct (viewport_lookup g4 (row (cursor g3)) (proj1 H4) ltac:(lia)) as (old & Eo & _).
         unfold active_row_mut in E5. by rewrite Eo in E5. }
    destruct (active_row_mut g5 _ _) as [g6|] eqn:E6; cbn [mbind option_bind] in *.
    2: { exfalso. destruct (viewport_lookup g4 (row (cursor g3)) (proj1 H4) ltac:(lia)) as (old & Eo & _).
         unfold active_row_mut in E. by rewrite Eo in E. }
    rewrite E. eapply (runs_bind (ok g0)).
    { apply runs_row; [done|lia|]. intros old Ho. apply put_cell_ok; [done|by apply new_cell_ok|done|simpl; lia]. }
    intros g7 H7. pose proof (ok_dims _ _ H7). apply runs_some, ok_bump_content.
    pose proof (ok_width _ (proj1 H7)). destruct (decide (width g7 <= _)%nat); [apply ok_wrap|apply ok_no_wrap];
      (apply ok_at_col; [lia|done]).
Qed.

(** Blanking a whole cell is an erasure of its columns. *)
Definition blank_cell (l : PhysicalRow) (c : nat) (cell : Cell) : PhysicalRow :=
  let l := set_cell l c (blank (c_style cell)) in
  if decide (c_width cell = 2%nat) then set_cell l (c + 1) (blank (c_style cell)) else l.

Lemma blank_cell_ok w l c :
  row_ok w l -> c_cont (cell_at (cells l) c) = false -> (c < length (cells l))%nat ->
  row_ok w (blank_cell l c (cell_at (cells l) c)).
Proof.
  intros Hl Hn Hc. pose proof (row_ok_cells _ _ Hl) as Hok. pose proof (row_ok_length _ _ Hl) as Hlen.
  set (f := cell_at (cells l)) in *. set (cell := f c). destruct Hl as [Hs Ht]. fold f in Hs.
  pose proof Hs as [H1 H2 H3 H4]. assert (leader cell) as Hlead by (split; [apply H1|done]).
  pose proof (leader_width _ Hlead) as Hw. split.
  2: { unfold blank_cell. case_decide; apply set_cell_trimmed. }
  assert (c_cont (f (c + c_width cell)%nat) = false) as Hend.
  { destruct Hw as [E|E]; rewrite E.
    - rewrite Nat.add_1_r, H3. unfold wide. fold cell. by rewrite E.
    - replace (c + 2)%nat with (S (S c)) by lia. rewrite H3. apply wide_cont; [done|].
      rewrite H3. unfold wide. fold cell. by rewrite E. }
  assert (c + c_width cell <= w)%nat as Hcw.
  { destruct Hw as [E|E]; rewrite E; [lia|]. destruct (decide (c + 1 < w)%nat); [lia|]. exfalso.
    assert (c_cont (f (S c)) = true) as Hcc by (rewrite H3; unfold wide; fold cell; by rewrite E).
    by rewrite H4 in Hcc by lia. }
  eapply shape_ext; [|apply (erased_shape w f c (c + c_width cell) (c_style cell) Hs); lia].
  intros i. unfold erased, blank_cell. rewrite Hn, Hend.
  destruct (decide (c_width cell = 2%nat)) as [E|E].
  - rewrite cell_at_set_cell by auto using set_cell_cells_ok. unfold upd at 1.
    rewrite cell_at_set_cell by auto. unfold upd. fold f. repeat case_decide; try done; lia.
  - rewrite cell_at_set_cell by auto. unfold upd. fold f. repeat case_decide; try done; lia.
Qed.

Section printing.
Context {U : UnicodeTables}.

Definition runs_pair (R : TerminalGrid -> Prop) (o : option (TerminalGrid * bool)) : Prop :=
  exists g b, o = Some (g, b) /\ R g.

Lemma runs_set_cell_text g0 g r c t l :
  ok g0 g -> viewport_rows g !! r = Some l -> cont_at (cells l) c = false -> (1 < length t)%nat ->
  runs (ok g0) (set_cell_text g r c t).
Proof.
  intros Hg E Hn Ht. destruct (viewport_screen g (proj1 Hg)) as [Hlen Hf].
  unfold set_cell_text, active_row_mut. rewrite E. cbn [mbind option_bind]. apply runs_some, ok_viewport_rows; [|done].
  split; [by rewrite length_insert|]. apply Forall_insert; [done|]. apply alter_text_ok; try done.
  rewrite Forall_lookup in Hf. eauto.
Qed.

(** The column of the cell that a combining character would join. *)
Lemma join_column w l c : row_ok w l -> cont_at (cells l) (if cont_at (cells l) c then c - 1 else c)%nat = false.
Proof.
  intros [[H1 H2 H3 H4] _]. rewrite !cont_at_cell. destruct (c_cont (cell_at (cells l) c)) eqn:E; [|done].
  destruct c as [|c]; [congruence|]. simpl. rewrite Nat.sub_0_r. destruct (c_cont (cell_at (cells l) c)) eqn:E2; [|done].
  rewrite H3 in E. by rewrite wide_cont in E.
Qed.

Lemma runs_extend_grapheme g0 g ch : ok g0 g -> runs_pair (ok g0) (extend_grapheme g ch).
Proof.
  intros Hg. pose proof (ok_row _ (proj1 Hg)) as Hr. unfold extend_grapheme.
  case_decide; [by exists g, false|]. destruct (_ && _); [by exists g, false|].
  set (c0 := if pending_wrap g then _ else _). destruct (viewport_lookup g (row (cursor g)) (proj1 Hg) Hr) as (l & E & Hl).
  rewrite E. cbn [mbind option_bind]. pose proof (join_column _ _ c0 Hl) as Hn.
  set (c := if cont_at (cells l) c0 then _ else c0) in *. destruct (cells l !! c) as [cell|] eqn:Ec; [|by exists g, false].
  assert (cell_at (cells l) c = cell) as Ecell by (unfold cell_at; by rewrite Ec).
  assert (leader cell) as Hlead.
  { rewrite cont_at_cell, Ecell in Hn. split; [|done]. rewrite <- Ecell. apply (row_shape _ _ Hl). }
  assert (1 < length (c_text cell ++ [ch]))%nat as Ht.
  { destruct Hlead as [Hok Hc]. unfold cell_ok in Hok. rewrite Hc in Hok. destruct Hok as (_ & Hne & _).
    rewrite length_app. destruct (c_text cell); simpl; [done|lia]. }
  set (t := c_text cell ++ [ch]) in *. case_decide.
  { destruct (runs_set_cell_text g0 g _ c t l Hg E Hn Ht) as (g1 & -> & Hg1). by exists g1, true. }
  case_decide; [by exists g, false|]. set (w := Z.to_nat _). case_decide.
  { destruct (runs_set_cell_text g0 g _ c t l Hg E Hn Ht) as (g1 & -> & Hg1). by exists g1, true. }
  assert (runs (ok g0) (g1 ← active_row_mut g (row (cursor g)) (fun l => set_cell l c (blank (c_style cell)));
    if decide (c_width cell = 2%nat) then active_row_mut g1 (row (cursor g)) (fun l => set_cell l (c + 1) (blank (c_style cell)))
    else Some g1)) as Hblank.
  { assert (runs (ok g0) (Some (set_viewport_rows g (<[row (cursor g) := blank_cell l c cell]> (viewport_rows g))))) as Hb.
    { apply runs_some, ok_viewport_rows; [|done]. destruct (viewport_screen g (proj1 Hg)) as [Hlen Hf].
      split; [by rewrite length_insert|]. apply Forall_insert; [done|]. rewrite <- Ecell. apply blank_cell_ok; [done| |].
      - by rewrite <- cont_at_cell.
      - by eapply lookup_lt_Some. }
    unfold blank_cell in Hb. destruct (decide (c_width cell = 2%nat)).
    - rewrite active_row_mut_compose. unfold active_row_mut. rewrite E. exact Hb.
    - unfold active_row_mut. rewrite E. exact Hb. }
  destruct (active_row_mut g (row (cursor g)) _) as [g1|]; cbn [mbind option_bind] in *; [|by destruct Hblank as (? & ? & _)].
  destruct Hblank as (g2 & -> & Hg2). cbn [mbind option_bind].
  assert (ok g0 (no_wrap (at_col g2 c))) as Hg3.
  { apply ok_no_wrap, ok_at_col; [|done]. apply lookup_lt_Some in Ec. pose proof (row_ok_length _ _ Hl).
    pose proof (ok_dims _ _ Hg). pose proof (ok_dims _ _ Hg2). lia. }
  destruct (runs_print_grapheme g0 (set_style (no_wrap (at_col g2 c)) (palette_get (palette g2) (c_style cell))) t w)
    as (g4 & E4 & H4); [auto with grid|..].
  - intros E0. rewrite E0 in Ht. simpl in Ht. lia.
  - intros E0. rewrite E0 in Ht. simpl in Ht. lia.
  - subst w. lia.
  - simpl in *. rewrite E4. simpl. eexists _, true. split; [done|]. auto with grid.
Qed.

Lemma runs_print_char char_width g0 g ch : WidthLaws char_width -> ok g0 g -> runs (ok g0) (print_char char_width g ch).
Proof.
  intros Hw Hg. unfold print_char. destruct (runs_extend_grapheme g0 g ch Hg) as (g1 & b & -> & H1). cbn [mbind option_bind].
  destruct b; [by apply runs_some, ok_bump_content|]. case_decide as Hz; [by apply runs_some|].
  destruct (char_width ch) as [n|] eqn:E; [|done]. simpl in *. pose proof (width_nonneg _ _ E).
  apply runs_print_grapheme; [done|done| |lia]. intros [= ->]. rewrite width_space in E. injection E as <-. done.
Qed.

End printing.

(** ** Modes and protocol *)

Lemma ok_save_cursor g0 g : ok g0 g -> ok g0 (save_cursor g).
Proof. intros Hg. apply ok_bump, ok_terminal_state; [apply Hg|]. auto with grid. Qed.

Lemma ok_restore_cursor g0 g : ok g0 g -> ok g0 (restore_cursor g).
Proof. intros [[] ?]. split; [constructor; simpl in *; auto; lia|done]. Qed.

Lemma ok_visible g0 g b : ok g0 g -> ok g0 (set_cursor_visible g b).
Proof. intros Hg. apply ok_bump, ok_cursor; [apply Hg..|done]. Qed.

Lemma blank_screen_ok w h : screen_ok w h (replicate h PhysicalRow_new).
Proof. split; [apply length_replicate|]. apply Forall_replicate, empty_row_ok. Qed.

#[local] Hint Resolve blank_screen_ok : core.

(** The screen mode may change; everything else of the frame stays. *)
Definition ok_in (m : GridMode) (g0 g : TerminalGrid) : Prop :=
  grid_ok g /\ frame g = (width g0, height g0, scrollback_rows g0, m, protocol g0).

Lemma ok_in_self g : grid_ok g -> ok_in (mode g) g g.
Proof. done. Qed.

Lemma alternate_mode_ok g m (b : bool) :
  grid_ok g -> (m = 47 \/ m = 1047 \/ m = 1049) ->
  ok_in (if b then Alternate else Main) g (set_alternate_mode g m b).
Proof.
  intros Hg Hm. unfold set_alternate_mode.
  assert (negb (bool_decide (m = 47) || bool_decide (m = 1047) || bool_decide (m = 1049)) = false) as ->.
  { destruct Hm as [-> | [-> | ->]]; done. }
  case_bool_decide as Hmode; [rewrite <- Hmode; by apply ok_in_self|].
  destruct Hg. destruct b; destruct Hm as [-> | [-> | ->]]; simpl;
    (split; [constructor; simpl; auto; lia|done]).
Qed.

Lemma set_mode_ok g m : grid_ok g -> ok_in m g (set_mode g m).
Proof.
  intros Hg. unfold set_mode. case_decide as Hm; [rewrite <- Hm; by apply ok_in_self|].
  destruct Hg. case_decide; (split; [constructor; simpl; auto; lia|done]).
Qed.

Lemma update_protocol_ok g p : grid_ok g ->
  grid_ok (update_protocol g p) /\ protocol (update_protocol g p) = p /\ mode (update_protocol g p) = mode g.
Proof.
  intros Hg. unfold update_protocol. case_decide as Hp; [by rewrite Hp|]. split_and!; [|done..].
  destruct Hg. by constructor.
Qed.

Lemma apply_pointer_shape_ok g op : grid_ok g ->
  let g' := apply_pointer_shape g op in
  grid_ok g' /\ mode g' = mode g
  /\ protocol g' = with_pointer_shapes (protocol g) (pointer_apply (pointer_shapes (protocol g)) (is_alternate g) op).1.
Proof.
  intros Hg. unfold apply_pointer_shape. destruct (pointer_apply _ _ _) as [shapes changed].
  destruct changed; (split_and!; [destruct Hg; by constructor|done..]).
Qed.

(** ** Construction and reset *)

Lemma Grid_new_ok w h limit g :
  Z.of_nat w < 65536 -> Z.of_nat h < 65536 -> Grid_new w h limit = Ok g ->
  grid_ok g /\ width g = w /\ height g = h /\ scrollback_rows g = limit /\ mode g = Main /\ protocol g = ProtocolState_default.
Proof.
  intros Hw Hh. unfold Grid_new. case_decide as Hd; [done|]. intros [= <-]. split; [|done].
  constructor; cbn [width height main_rows alt_rows cursor scroll_region terminal_state hist scrollback_rows row col]; auto; try lia; try done.
  - by split; simpl; try done; intros ? [= <-].
  - split; [apply Nat.le_0_l|done].
Qed.

Lemma reset_ok g : grid_ok g ->
  grid_ok (reset g) /\ mode (reset g) = Main /\ protocol (reset g) = ProtocolState_default
  /\ width (reset g) = width g /\ height (reset g) = height g.
Proof.
  intros Hg. pose proof (ok_width _ Hg). pose proof (ok_height _ Hg). unfold reset.
  destruct (Grid_new (width g) (height g) (scrollback_rows g)) as [fresh|e] eqn:E.
  - apply Grid_new_ok in E as (Hf & E1 & E2 & _ & E3 & E4); [|lia..]. split_and!; try done. destruct Hf. by constructor.
  - unfold Grid_new in E. case_decide; [lia|done].
Qed.

(** ** Resizing *)

Lemma place_lines_spec old_w new_w keep_start start lines h pending rows h' pending' rows' :
  (0 < new_w)%nat -> Forall (Forall leader) lines ->
  place_lines old_w new_w keep_start start lines h pending rows = (h', pending', rows') ->
  hist_coherent old_w h -> Forall leader pending -> Forall (row_ok new_w) rows ->
  hist_coherent old_w h' /\ Forall leader pending' /\ Forall (row_ok new_w) rows'
  /\ length rows' = (length rows + (start + list_sum ((fun l => projected_row_count l new_w) <$> lines) - Nat.max start keep_start))%nat.
Proof.
  intros Hw. revert start h pending rows. induction lines as [|line lines IH]; intros start h pending rows Hl E Hh Hp Hr.
  { simpl in E. injection E as <- <- <-. split_and!; [done..|]. simpl. lia. }
  apply Forall_cons in Hl as [Hline Hlines]. cbn [place_lines] in E. rewrite fmap_cons. cbn [list_sum].
  change (list_sum (?a :: ?b)) with (a + list_sum b)%nat.
  case_decide as Hk.
  - apply IH in E as (H1 & H2 & H3 & H4); try done; [|by apply push_history_line_coherent].
    split_and!; [done..|]. rewrite H4. lia.
  - pose proof (project_logical_line_length line new_w) as Hlen.
    pose proof (project_logical_line_ok line new_w Hw Hline) as Hok.
    apply IH in E as (H1 & H2 & H3 & H4); try done.
    + split_and!; [done..|]. rewrite H4, length_app, length_drop, Hlen. lia.
    + apply Forall_app. split; [done|]. apply Forall_concat, Forall_fmap, Forall_forall. intros r Hin.
      eapply row_logical_cells_leaders. eapply Forall_forall; [exact Hok|]. by eapply elem_of_take in Hin as (i & ? & _); eapply list_elem_of_lookup_2.
    + apply Forall_app. split; [done|]. by apply Forall_drop.
Qed.

Lemma trim_rows_rev_suffix rows c : exists k, rows = k ++ trim_rows_rev rows c.
Proof.
  induction rows as [|r rows [k E]]; [by exists []|]. cbn [trim_rows_rev]. destruct (_ && _); [|by exists []].
  exists (r :: k). simpl. by rewrite <- E.
Qed.

Lemma trim_resize_rows_prefix rows c : exists k, rows = trim_resize_rows rows c ++ k.
Proof.
  destruct (trim_rows_rev_suffix (reverse rows) c) as [k E]. exists (reverse k). unfold trim_resize_rows.
  by rewrite <- reverse_app, <- E, reverse_involutive.
Qed.

Lemma collect_lines_leaders w w' rows logical :
  Forall (row_ok w) rows -> Forall leader logical -> Forall (Forall leader) (collect_lines w' rows logical).
Proof.
  intros Hr. revert logical. induction Hr as [|r rows Hr _ IH]; intros logical Hl; simpl.
  - case_decide; [done|]. constructor; [by apply trim_leaders|done].
  - assert (Forall leader (logical ++ row_logical_cells r w')) by (apply Forall_app; eauto using row_logical_cells_leaders).
    destruct (wrapped r); [by apply IH|]. constructor; [by apply trim_leaders|by apply IH].
Qed.

Lemma live_lines_leaders g rows :
  Forall (row_ok (width g)) rows -> Forall leader (pending_history_cells (hist g)) ->
  Forall (Forall leader) (live_logical_lines g rows).
Proof.
  intros Hr Hp. unfold live_logical_lines.
  pose proof (collect_lines_leaders _ (width g) _ _ Hr Hp) as H. destruct (collect_lines _ _ _); [|done].
  by repeat constructor.
Qed.

(** Rehoming the main screen: [new_h] proper rows and a coherent history. The
    loop that would push rows beyond [new_h] into the history has none. *)
Lemma resize_main_viewport_ok g new_w new_h c g' c' shift :
  grid_ok g -> (0 < new_w)%nat -> (0 < new_h)%nat -> resize_main_viewport g new_w new_h c = (g', c', shift) ->
  exists h rows, g' = set_main_rows (set_hist g h) rows /\ hist_coherent (width g) h /\ screen_ok new_w new_h rows.
Proof.
  intros Hg Hw Hh. unfold resize_main_viewport. set (source := trim_resize_rows _ _).
  set (lines := live_logical_lines g source). set (total := list_sum _).
  assert (Forall (row_ok (width g)) source) as Hsrc.
  { destruct (trim_resize_rows_prefix (main_rows g) (row c)) as [k E]. pose proof (ok_main _ Hg) as [_ Hm].
    rewrite E in Hm. by apply Forall_app in Hm as [? _]. }
  assert (Forall (Forall leader) lines) as Hlines by (apply live_lines_leaders; [done|apply Hg]).
  destruct (place_lines _ _ _ _ _ _ _ _) as [[h1 pending1] rows1] eqn:E.
  apply place_lines_spec in E as (H1 & H2 & H3 & H4); [|done|done|apply Hg|done|done].
  intros [= <- _ _]. simpl in H4. fold total in H4.
  assert (length (rows1 ++ replicate (new_h - length rows1) PhysicalRow_new) = new_h) as Hlen.
  { rewrite length_app, length_replicate. lia. }
  rewrite Hlen, Nat.sub_diag, take_0, drop_0. simpl. eexists _, _. split_and!; [done|..].
  - destruct H1 as [A1 A2 A3 A4]. by split; simpl; [|apply trim_leaders| |].
  - split; [done|]. apply Forall_app. split; [done|]. apply Forall_replicate, empty_row_ok.
Qed.

Lemma resize_alt_ok w w' h h' rows : screen_ok w' h' rows -> screen_ok w h (resize_alt_rows rows w h).
Proof.
  intros [Hl Hf]. unfold resize_alt_rows. split.
  - rewrite length_fmap, length_take, length_app, length_replicate. lia.
  - apply Forall_fmap, Forall_take, Forall_app. split.
    + eapply Forall_impl; [exact Hf|]. intros r Hr. simpl. by eapply set_wrapped_ok, row_truncate_ok.
    + apply Forall_replicate. simpl. apply set_wrapped_ok. eapply row_truncate_ok, (empty_row_ok w').
Qed.

Lemma hist_coherent_forget w w' h : hist_coherent w h -> hist_coherent w' (forget_projection h).
Proof. intros [H1 H2 H3 H4]. by split. Qed.

Lemma resize_region_ok h region : region_ok h (resize_region region h).
Proof.
  destruct region as [[top bottom]|]; simpl; [|done]. case_decide as H; [|done]. simpl. split; [done|].
  destruct h as [|h]; lia.
Qed.

Lemma resize_grid_ok g w h g' shift :
  grid_ok g -> Z.of_nat w < 65536 -> Z.of_nat h < 65536 -> resize_with_main_row_shift g w h = Ok (g', shift) ->
  grid_ok g' /\ frame g' = (w, h, scrollback_rows g, mode g, protocol g).
Proof.
  intros Hg Hw Hh. unfold resize_with_main_row_shift. case_decide as Hz; [done|]. case_decide as Hs.
  { intros [= <- _]. destruct Hs as [<- <-]. done. }
  destruct (resize_main_viewport _ _ _ _) as [[g1 c1] sh] eqn:E.
  apply resize_main_viewport_ok in E as (hi & rows & -> & Hhi & Hrows); [|done|lia|lia].
  set (m := mode (set_main_rows (set_hist g hi) rows)). change m with (mode g). clear m.
  set (g2 := match mode g with Main => _ | Alternate => _ end).
  assert (exists c sc sp, g2 = set_saved (set_cursor (set_main_rows (set_hist g hi) rows) c) sc sp) as (c & sc & sp & E2).
  { subst g2. destruct (mode g); [exists c1, (saved_cursor g), (saved_pending_wrap g)|exists (cursor g), c1, false]; by destruct g. }
  rewrite E2. clear g2 E2. set (hi' := if bool_decide (width g = w) then hi else forget_projection hi).
  assert (hist_coherent w hi') as Hhi'.
  { subst hi'. case_bool_decide as Ew; [by rewrite <- Ew|by eapply hist_coherent_forget]. }
  assert (forall base, hist base = hi ->
    (if bool_decide (width g = w) then base else set_hist base (forget_projection (hist base))) = set_hist base hi') as Eh.
  { intros base Eb. subst hi'. rewrite Eb. case_bool_decide; [|done]. rewrite <- Eb. by destruct base. }
  rewrite Eh by done. clear Eh. clearbody hi'. intros [= <- _]. destruct hi' as [lines bytes tr pr pend].
  destruct (evict_lines_coherent (scrollback_rows g) HISTORY_BUDGET w lines bytes tr pr pend Hhi') as (A1 & A2 & A3); [done|].
  split; [|done]. constructor; simpl; auto; try lia.
  - by eapply resize_alt_ok, Hg.
  - apply resize_region_ok.
  - pose proof (ok_stops _ Hg) as Hst. destruct (tab_stops (terminal_state g)) as [l|]; simpl; [|done].
    destruct Hst as [S1 S2]. split; [by apply StronglySorted_filter|]. apply Forall_forall.
    intros x [_ Hx]%list_elem_of_In%filter_In. by apply bool_decide_eq_true in Hx.
  - by split.
Qed.
