(* ===== verification/GridStream.v ===== *)
(** * The terminal stream

    The dispatch of decoded terminal operations to the grid, the streaming
    wrapper, and the tracker that follows only protocol modes
    (packages/terminal-grid/src/parser.rs). The decoder is [VtParser]. The
    callback for pointer queries is the list of its calls. *)

From S2P Require Import Prelude Utf8 TextStr VtParser GridCell Pointer Grid.

(** ** Parameters *)

Definition flatten_params (params : list (list Z)) : list Z :=
  concat ((fun group => if decide (group = []) then [0] else group) <$> params).

Definition one_based (value : option Z) : nat :=
  let value := default 1 value in
  if decide (value <= 0) then 1%nat else Z.to_nat value.

Definition default_zero (value : option Z) : nat :=
  match value with
  | Some v => if decide (0 <= v) then Z.to_nat v else 0%nat
  | None => 0%nat
  end.

(** The operands of an extended colour that denote a colour. *)
Definition normalize_color (operands : list Z) : option (list Z) :=
  match operands with
  | [5; value] => if decide (value <= 255) then Some [5; value] else None
  | [2; r; g; b] => if decide (r <= 255 /\ g <= 255 /\ b <= 255) then Some [2; r; g; b] else None
  | [2; 0; r; g; b] => if decide (r <= 255 /\ g <= 255 /\ b <= 255) then Some [2; r; g; b] else None
  | _ => None
  end.

Definition legacy_count (rest : list (list Z)) : nat :=
  match rest with
  | (2 :: _) :: _ => 4
  | (5 :: _) :: _ => 2
  | _ => length rest
  end.

(** The groups from the current one on; [skip] counts those a colour consumed.
    An empty group would panic on [group[0]]. *)
Fixpoint sgr_groups (skip : nat) (groups : list (list Z)) : option (list Z) :=
  match groups with
  | [] => Some []
  | group :: rest =>
      match skip with
      | S skip => sgr_groups skip rest
      | O =>
          match group with
          | [] => None
          | code :: subparams =>
              if decide (code = 38 \/ code = 48 \/ code = 58) then
                let consumed := if decide (subparams = []) then Nat.min (legacy_count rest) (length rest) else 0%nat in
                let operands :=
                  if decide (subparams = [])
                  then (fun g => match g with [v] => v | _ => 65535 end) <$> take consumed rest
                  else subparams in
                let here := match (if decide (code = 58) then None else normalize_color operands) with
                            | Some normalized => code :: normalized
                            | None => []
                            end in
                tail ← sgr_groups consumed rest; Some (here ++ tail)
              else
                let here := match subparams with
                            | [] => [code]
                            | [kind] => if decide (code = 4 /\ 0 <= kind <= 5)
                                        then [if decide (kind = 0) then 24 else 4] else []
                            | _ => []
                            end in
                tail ← sgr_groups 0 rest; Some (here ++ tail)
          end
      end
  end.

Definition sgr_params (params : list (list Z)) : option (list Z) :=
  output ← sgr_groups 0 params;
  Some (if decide (output = []) then [-1] else output).

(** ** The grid as a performer *)

Definition with_last (g : TerminalGrid) (ch : Z) : TerminalGrid :=
  let s := characters g in
  set_characters g (mkCharacters (graphics0 s) (graphics1 s) (active s) (Some ch)) (saved_characters g).

Definition with_active (g : TerminalGrid) (slot : nat) : TerminalGrid :=
  let s := characters g in
  set_characters g (mkCharacters (graphics0 s) (graphics1 s) slot (last_char s)) (saved_characters g).

Definition with_graphics (g : TerminalGrid) (second b : bool) : TerminalGrid :=
  let s := characters g in
  set_characters g (if second then mkCharacters (graphics0 s) b (active s) (last_char s)
                    else mkCharacters b (graphics1 s) (active s) (last_char s)) (saved_characters g).

Definition execute (g : TerminalGrid) (byte : Z) : option TerminalGrid :=
  if decide (byte = 10 \/ byte = 11 \/ byte = 12) then linefeed g
  else if decide (byte = 13) then Some (carriage_return g)
  else if decide (byte = 8) then Some (backspace g)
  else if decide (byte = 14 \/ byte = 15)
  then Some (bump_revision (with_active g (if decide (byte = 14) then 1 else 0)))
  else if decide (byte = 9) then Some (tab g)
  else Some g.

(** One DEC private mode of CSI ? h and CSI ? l. *)
Definition private_mode (enabled : bool) (g : TerminalGrid) (value : Z) : TerminalGrid :=
  if decide (value = 1) then set_application_cursor g enabled
  else if decide (value = 6) then set_origin_mode g enabled
  else if decide (value = 7) then set_autowrap g enabled
  else if decide (value = 9) then set_mouse_tracking_mode g Press enabled
  else if decide (value = 25) then set_cursor_visible g enabled
  else if decide (value = 47 \/ value = 1047 \/ value = 1049) then set_alternate_mode g value enabled
  else if decide (value = 1000) then set_mouse_tracking_mode g PressRelease enabled
  else if decide (value = 1002) then set_mouse_tracking_mode g ButtonMotion enabled
  else if decide (value = 1003) then set_mouse_tracking_mode g AnyMotion enabled
  else if decide (value = 1005) then set_mouse_encoding g MouseUtf8 enabled
  else if decide (value = 1006) then set_mouse_encoding g Sgr enabled
  else if decide (value = 1015) then set_mouse_urxvt_encoding g enabled
  else if decide (value = 2004) then set_bracketed_paste g enabled
  else g.

Section performer.
Context {U : UnicodeTables}.
Context (char_width : Z -> option Z).

Definition print (g : TerminalGrid) (c : Z) : option TerminalGrid :=
  let ch := translate (characters g) c in print_char char_width (with_last g ch) ch.

(** The action characters are compared by code point. *)
Definition csi_action (g : TerminalGrid) (values : list Z) (action : Z) : option TerminalGrid :=
  let first := one_based (values !! 0%nat) in
  let second := one_based (values !! 1%nat) in
  let n := Z.of_nat first in
  let '(top, bottom) := effective_scroll_region g in
  if decide (action = 65) then move_cursor_relative g (- n) 0
  else if decide (action = 66) then move_cursor_relative g n 0
  else if decide (action = 67) then move_cursor_relative g 0 n
  else if decide (action = 68) then move_cursor_relative g 0 (- n)
  else if decide (action = 100) then Some (move_cursor_row g (first - 1))
  else if decide (action = 98) then
    match last_char (characters g) with
    | Some ch => each (fun g _ => print_char char_width g ch) (seq 0 first) g
    | None => Some g
    end
  else if decide (action = 71 \/ action = 96) then Some (move_cursor_column g (first - 1))
  else if decide (action = 72 \/ action = 102) then Some (move_cursor_to g (first - 1) (second - 1))
  else if decide (action = 69) then carriage_return <$> move_cursor_relative g n 0
  else if decide (action = 70) then carriage_return <$> move_cursor_relative g (- n) 0
  else if decide (action = 74) then erase_display g (default_zero (values !! 0%nat))
  else if decide (action = 75) then erase_line g (default_zero (values !! 0%nat))
  else if decide (action = 76) then insert_blank_lines g first
  else if decide (action = 77) then delete_lines g first
  else if decide (action = 80) then delete_chars g first
  else if decide (action = 83) then scroll_region_up g top bottom first
  else if decide (action = 84) then scroll_region_down g top bottom first
  else if decide (action = 88) then erase_chars g first
  else if decide (action = 64) then insert_blank_chars g first
  else if decide (action = 103) then clear_tab_stops g (default_zero (values !! 0%nat))
  else if decide (action = 115) then Some (save_cursor g)
  else if decide (action = 117) then Some (restore_cursor g)
  else if decide (action = 114) then
    if decide (values = []) then Some (set_scroll_region g None None)
    else
      let bottom := v ← values !! 1%nat; if decide (v = 0) then None else Some (one_based (Some v) - 1)%nat in
      Some (set_scroll_region g (Some (first - 1)%nat) bottom)
  else Some g.

Definition csi_dispatch (g : TerminalGrid) (params : list (list Z)) (intermediates : list Z) (ignore : bool)
    (action : Z) : option TerminalGrid :=
  let toggles := bool_decide (action = 104 \/ action = 108) in
  if ignore
     || negb (bool_decide (intermediates = []) || (toggles && bool_decide (intermediates = [63])))
     || (negb (bool_decide (action = 109)) && existsb (fun group => negb (bool_decide (length group = 1%nat))) params)
  then Some g
  else if decide (action = 109) then set_graphic_rendition g <$> sgr_params params
  else
    let values := flatten_params params in
    let enabled := bool_decide (action = 104) in
    if toggles then
      if decide (intermediates = [63]) then Some (foldl (private_mode enabled) g values)
      else Some (foldl (fun g value => if decide (value = 4) then set_insert_mode g enabled else g) g values)
    else csi_action g values action.

Definition esc_dispatch (g : TerminalGrid) (intermediates : list Z) (ignore : bool) (byte : Z) : option TerminalGrid :=
  if ignore then Some g
  else if decide (intermediates = [40] \/ intermediates = [41]) then
    if decide (byte = 48 \/ byte = 66)
    then Some (bump_revision (with_graphics g (bool_decide (intermediates = [41])) (bool_decide (byte = 48))))
    else Some g
  else if decide (intermediates <> []) then Some g
  else if decide (byte = 55) then Some (save_cursor g)
  else if decide (byte = 56) then Some (restore_cursor g)
  else if decide (byte = 72) then set_tab_stop g
  else if decide (byte = 68) then linefeed g
  else if decide (byte = 69) then carriage_return <$> linefeed g
  else if decide (byte = 77) then reverse_index g
  else if decide (byte = 61) then Some (set_application_keypad g true)
  else if decide (byte = 62) then Some (set_application_keypad g false)
  else if decide (byte = 99) then Some (reset g)
  else Some g.

(** A pointer query reports the active screen's current shape. *)
Definition PointerQuery : Type := list Z * option PointerShape.

Definition osc_dispatch (g : TerminalGrid) (params : list (list Z)) : TerminalGrid * list PointerQuery :=
  match params with
  | [selector; payload] =>
      if decide (selector = [50; 50]) then
        match parse_pointer_shape payload with
        | Some (Query query) =>
            let shapes := pointer_shapes (protocol g) in
            (g, [(query, stack_current (if is_alternate g then alternate_stack shapes else main_stack shapes))])
        | Some operation => (apply_pointer_shape g operation, [])
        | None => (g, [])
        end
      else (g, [])
  | _ => (g, [])
  end.

Definition perform (g : TerminalGrid) (a : Action) : option (TerminalGrid * list PointerQuery) :=
  match a with
  | APrint c => g ← print g c; Some (g, [])
  | AExecute byte => g ← execute g byte; Some (g, [])
  | AHook _ _ _ _ | APut _ | AUnhook => Some (g, [])
  | AOscDispatch params _ => Some (osc_dispatch g params)
  | ACsiDispatch params intermediates ignore action => g ← csi_dispatch g params intermediates ignore action; Some (g, [])
  | AEscDispatch intermediates ignore byte => g ← esc_dispatch g intermediates ignore byte; Some (g, [])
  end.

Fixpoint perform_all (g : TerminalGrid) (l : list Action) : option (TerminalGrid * list PointerQuery) :=
  match l with
  | [] => Some (g, [])
  | a :: l =>
      '(g, q) ← perform g a;
      '(g, q') ← perform_all g l;
      Some (g, q ++ q')
  end.

(** ** The stream *)

Record TerminalGridStream := mkStream {
  parser : Parser;
  grid : TerminalGrid;
  pending_bytes : list Z;
}.

Definition from_grid (g : TerminalGrid) : TerminalGridStream := mkStream VtParser.new g [].

Definition Stream_new (w h limit : nat) : result TerminalGridError TerminalGridStream :=
  rbind (Grid_new w h limit) (fun g => Ok (from_grid g)).

(** The stream after a chunk, with the pointer queries in order. *)
Definition process_with_pointer_queries (s : TerminalGridStream) (bytes : list Z)
  : option (TerminalGridStream * list PointerQuery) :=
  if decide (bytes = []) then Some (s, [])
  else
    let '(p, actions) := vt_advance (parser s) bytes in
    '(g, queries) ← perform_all (grid s) actions;
    let pending := replay_prefix p in
    let unchanged := bool_decide (revision (revs g) = revision (revs (grid s))) in
    let g := if negb (bool_decide (pending = pending_bytes s)) && unchanged then bump_revision g else g in
    Some (mkStream p g pending, queries).

Definition process (s : TerminalGridStream) (bytes : list Z) : option TerminalGridStream :=
  fst <$> process_with_pointer_queries s bytes.

Definition stream_resize (s : TerminalGridStream) (w h : nat) : result TerminalGridError TerminalGridStream :=
  rbind (resize_with_main_row_shift (grid s) w h) (fun '(g, _) => Ok (mkStream (parser s) g (pending_bytes s))).

End performer.

(** ** The protocol tracker *)

Record ProtocolView := mkView {
  tracked : ProtocolState;
  alternate_screen : bool;
  toggled_alternate : bool;
}.

Definition with_tracked (v : ProtocolView) (p : ProtocolState) : ProtocolView :=
  mkView p (alternate_screen v) (toggled_alternate v).

Definition track_alternate_screen (v : ProtocolView) (enabled : bool) : ProtocolView :=
  if bool_decide (alternate_screen v = enabled) then v else mkView (tracked v) enabled true.

Definition track_mode (enabled : bool) (v : ProtocolView) (value : Z) : ProtocolView :=
  let p := tracked v in
  if decide (value = 1) then with_tracked v (with_application p enabled (application_keypad p) (bracketed_paste p))
  else if decide (value = 9) then with_tracked v (mouse_tracking p Press enabled)
  else if decide (value = 47 \/ value = 1047 \/ value = 1049) then track_alternate_screen v enabled
  else if decide (value = 1000) then with_tracked v (mouse_tracking p PressRelease enabled)
  else if decide (value = 1002) then with_tracked v (mouse_tracking p ButtonMotion enabled)
  else if decide (value = 1003) then with_tracked v (mouse_tracking p AnyMotion enabled)
  else if decide (value = 1005) then with_tracked v (mouse_encoding_flag p MouseUtf8 enabled)
  else if decide (value = 1006) then with_tracked v (mouse_encoding_flag p Sgr enabled)
  else if decide (value = 1015) then with_tracked v (with_encoding p (mouse_utf8 p) (mouse_sgr p) enabled)
  else if decide (value = 2004) then with_tracked v (with_application p (application_cursor p) (application_keypad p) enabled)
  else v.

Definition track_osc (v : ProtocolView) (params : list (list Z)) : ProtocolView :=
  match params with
  | [selector; payload] =>
      if decide (selector = [50; 50]) then
        match parse_pointer_shape payload with
        | Some operation =>
            let p := tracked v in
            with_tracked v (with_pointer_shapes p (pointer_apply (pointer_shapes p) (alternate_screen v) operation).1)
        | None => v
        end
      else v
  | _ => v
  end.

Definition track_csi (v : ProtocolView) (params : list (list Z)) (intermediates : list Z) (ignore : bool) (action : Z)
  : ProtocolView :=
  if ignore || negb (bool_decide (intermediates = [63])) || negb (bool_decide (action = 104 \/ action = 108)) then v
  else foldl (track_mode (bool_decide (action = 104))) v (flatten_params params).

Definition track_esc (v : ProtocolView) (intermediates : list Z) (ignore : bool) (byte : Z) : ProtocolView :=
  let p := tracked v in
  if ignore || negb (bool_decide (intermediates = [])) then v
  else if decide (byte = 61) then with_tracked v (with_application p (application_cursor p) true (bracketed_paste p))
  else if decide (byte = 62) then with_tracked v (with_application p (application_cursor p) false (bracketed_paste p))
  else if decide (byte = 99) then track_alternate_screen (with_tracked v ProtocolState_default) false
  else v.

Definition track (v : ProtocolView) (a : Action) : ProtocolView :=
  match a with
  | AOscDispatch params _ => track_osc v params
  | ACsiDispatch params intermediates ignore action => track_csi v params intermediates ignore action
  | AEscDispatch intermediates ignore byte => track_esc v intermediates ignore byte
  | _ => v
  end.

Record TerminalProtocolTracker := mkTracker {
  t_parser : Parser;
  t_protocol : ProtocolState;
  t_alternate_screen : bool;
  t_pending_bytes : list Z;
}.

Definition Tracker_new : TerminalProtocolTracker := mkTracker VtParser.new ProtocolState_default false [].

(** The tracker after a chunk, and whether the screen toggled. *)
Definition tracker_process (t : TerminalProtocolTracker) (bytes : list Z) : TerminalProtocolTracker * bool :=
  if decide (bytes = []) then (t, false)
  else
    let '(p, actions) := vt_advance (t_parser t) bytes in
    let v := foldl track (mkView (t_protocol t) (t_alternate_screen t) false) actions in
    (mkTracker p (tracked v) (alternate_screen v) (replay_prefix p), toggled_alternate v).

Definition tracker_restore (p : ProtocolState) (alternate : bool) (pending : list Z) : TerminalProtocolTracker :=
  let t := (tracker_process Tracker_new pending).1 in
  mkTracker (t_parser t) p alternate (t_pending_bytes t).
