(* ===== verification/GridProps.v ===== *)
(** * The terminal stream is safe, accounted for and tracked

    Any sequence of output chunks and resizes runs without a panic and keeps
    the grid invariant; the light-weight protocol tracker agrees with the grid
    as long as no private mode carries subparameters. *)

From S2P Require Import Prelude Utf8 TextStr VtParser VtSpec VtParserProps.
From S2P Require Import GridCell GridCellProps Pointer Grid GridInvariant GridStream.

(** ** Decoded operations *)

(** Parameter groups are never empty, so reading their first value is safe. *)
Definition action_ok (a : Action) : Prop :=
  match a with
  | ACsiDispatch params _ _ _ => Forall (fun group => group <> []) params
  | _ => True
  end.

Lemma groups_of_nonempty cur ps : Forall (fun group => group <> []) (groups_of cur ps).
Proof.
  revert cur. induction ps as [|[v []] ps IH]; intros cur; simpl; [done| |apply IH].
  constructor; [by destruct cur|apply IH].
Qed.

Lemma vfinish_nonempty ps n : Forall (fun group => group <> []) (vfinish ps n).
Proof. apply groups_of_nonempty. Qed.

#[local] Hint Resolve vfinish_nonempty : core.

Ltac actions := repeat first
  [ progress simpl | case_decide | case_bool_decide | done | apply Forall_app; split | constructor
  | match goal with |- context [let '(_, _) := ?e in _] => destruct e as [? ?] end ].

Lemma vtext_ok b : Forall action_ok (vtext b).2.
Proof. unfold vtext. actions. Qed.
Lemma vesc_ok c im ign b : Forall action_ok (vesc c im ign b).2.
Proof. unfold vesc. actions. Qed.
Lemma vhdr_ok dcs ph ps n im ign b : Forall action_ok (vhdr dcs ph ps n im ign b).2.
Proof.
  unfold vhdr. destruct (vparameter _ _ _ _) as [[? ?] ?]. destruct (vcollect _ _ _).
  destruct dcs; repeat case_decide; simpl; try destruct (_ || _); simpl; auto; repeat constructor; simpl; auto.
Qed.
Lemma vosc_byte_ok N args cur over b : Forall action_ok (vosc_byte N args cur over b).2.
Proof. unfold vosc_byte, vosc_end. actions. Qed.

Lemma vinterrupt_ok exit b k : Forall action_ok exit -> Forall action_ok k.2 -> Forall action_ok (vinterrupt exit b k).2.
Proof. intros He Hk. unfold vinterrupt. repeat case_decide; simpl; auto. apply Forall_app. split; [done|by repeat constructor]. Qed.

Lemma vconsume_ok N v b : Forall action_ok (vconsume N v b).2.
Proof.
  destruct v as [[|first rest]|c im ign|dcs ph ps n im ign|[]| |args cur over|args cur|[]|]; cbn [vconsume].
  - apply vinterrupt_ok; [done|apply vtext_ok].
  - destruct (continues _ _); [case_decide; [|done]|].
    + simpl. unfold scalar_action. destruct (decode_char _) as [|[]]; [done|]. case_decide; by repeat constructor.
    + simpl. constructor; [done|]. apply vinterrupt_ok; [done|apply vtext_ok].
  - apply vinterrupt_ok; [done|apply vesc_ok].
  - apply vinterrupt_ok; [done|apply vhdr_ok].
  - apply vinterrupt_ok; [done|]. actions.
  - apply vinterrupt_ok; [done|]. actions.
  - apply vinterrupt_ok; [by repeat constructor|]. actions.
  - destruct (is_pointer args); [repeat case_decide; simpl; auto; apply vosc_byte_ok|].
    apply vinterrupt_ok; [by repeat constructor|apply vosc_byte_ok].
  - case_decide; [by repeat constructor|]. apply vinterrupt_ok; [done|apply vesc_ok].
  - case_decide; [done|]. apply vinterrupt_ok; [done|apply vesc_ok].
  - repeat case_decide; done.
  - by apply vinterrupt_ok.
Qed.

Lemma vconsume_all_ok N v bytes : Forall action_ok (vconsume_all N v bytes).2.
Proof.
  revert v. induction bytes as [|b bytes IH]; intros v; simpl; [done|].
  pose proof (vconsume_ok N v b) as H. destruct (vconsume N v b) as [v1 a1].
  specialize (IH v1). destruct (vconsume_all N v1 bytes) as [v2 a2]. simpl in *. by apply Forall_app.
Qed.

Lemma vadvance_ok N v bytes : Forall action_ok (vadvance N v bytes).2.
Proof.
  destruct v as [[|first rest]| | | | | | | |]; try apply vconsume_all_ok. cbn [vadvance].
  destruct (vcomplete _ _) as [[v1 a1] o1] eqn:E. simpl. apply Forall_app. split; [|apply vconsume_all_ok].
  unfold vcomplete in E. destruct (from_utf8 _) as [[chars n] outcome]. destruct outcome as [|[]]; [|case_decide..];
    injection E as _ <- _; try destruct chars; by repeat constructor.
Qed.

(** ** One operation *)

Lemma sgr_groups_total skip l : Forall (fun group => group <> []) l -> is_Some (sgr_groups skip l).
Proof.
  intros H. revert skip. induction H as [|g l Hg _ IH]; intros skip; simpl; [done|].
  destruct skip as [|skip]; [|apply IH]. destruct g as [|code subs]; [done|].
  case_decide; [destruct (IH (if decide (subs = []) then Nat.min (legacy_count l) (length l) else 0%nat)) as [t ->]|
    destruct (IH 0%nat) as [t ->]]; by eexists.
Qed.

Section stream.
Context {U : UnicodeTables} (char_width : Z -> option Z) {W : WidthLaws char_width}.

Lemma runs_execute g0 g b : ok g0 g -> runs (ok g0) (execute g b).
Proof.
  intros Hg. unfold execute. repeat case_decide; try apply runs_some; auto with grid.
  - by apply runs_linefeed.
  - by apply ok_carriage_return.
  - by apply ok_backspace.
  - apply ok_bump. by apply ok_characters.
  - apply ok_bump. by apply ok_characters.
  - by apply ok_tab.
Qed.

Lemma runs_csi_action g0 g values action : ok g0 g -> runs (ok g0) (csi_action char_width g values action).
Proof.
  intros Hg. unfold csi_action. destruct (effective_scroll_region g) as [top bottom].
  set (n := one_based (values !! 0%nat)).
  assert (forall r c, runs (ok g0) (move_cursor_relative g r c)) as Hrel by (intros; by apply runs_move_relative).
  destruct (decide (action = 98)) as [->|H98].
  { simpl. destruct (last_char _); [|by apply runs_some]. apply runs_each; [done|]. intros. by apply runs_print_char. }
  repeat (case_decide; [first [ by apply runs_some | by apply Hrel
    | by apply runs_some, ok_move_to | by apply runs_some, ok_move_column | done
    | by eapply runs_fmap; [apply Hrel|]; intros; apply ok_carriage_return
    | by apply runs_erase_display | by apply runs_erase_line | by apply runs_insert_lines | by apply runs_delete_lines
    | by apply runs_delete_chars | by apply runs_scroll_up | by apply runs_scroll_down | by apply runs_erase_chars
    | by apply runs_insert_blank_chars | by apply runs_clear_tab_stops | by apply runs_some, ok_save_cursor
    | by apply runs_some, ok_restore_cursor
    | case_decide; by apply runs_some, ok_scroll_region ]|]).
  by apply runs_some.
Qed.

(** The dimensions and the scrollback limit. *)
Definition grid_size (g : TerminalGrid) : nat * nat * nat := (width g, height g, scrollback_rows g).

(** A proper grid of the size of [g0]. *)
Definition kept (g0 g : TerminalGrid) : Prop := grid_ok g /\ grid_size g = grid_size g0.

Lemma kept_ok g0 g : ok g0 g -> kept g0 g.
Proof. intros [H E]. split; [done|]. unfold frame in E. unfold grid_size. congruence. Qed.

Lemma kept_trans g0 g1 g2 : kept g0 g1 -> kept g1 g2 -> kept g0 g2.
Proof. intros [_ E] [H E']. split; [done|congruence]. Qed.

(** The tracker's view of a grid. *)
Definition matches (v : ProtocolView) (g : TerminalGrid) : Prop :=
  tracked v = protocol g /\ alternate_screen v = is_alternate g.

Lemma matches_ok v g0 g : matches v g0 -> ok g0 g -> matches v g.
Proof.
  intros [H1 H2] [_ E]. unfold frame in E. unfold matches, is_alternate in *. injection E as _ _ _ E1 E2.
  by rewrite E1, E2.
Qed.

Lemma ok_run v g o : grid_ok g -> matches v g -> runs (ok g) o -> runs (fun g' => kept g g' /\ matches v g') o.
Proof. intros Hg Hm (g' & E & H'). exists g'. split; [done|]. split; [by apply kept_ok|]. by eapply matches_ok. Qed.

Lemma update_protocol_matches v g p :
  grid_ok g -> matches v g -> kept g (update_protocol g p) /\ matches (with_tracked v p) (update_protocol g p).
Proof.
  intros Hg [H1 H2]. destruct (update_protocol_ok g p Hg) as (A & B & C).
  split; [split; [done|]; unfold update_protocol; by case_decide|]. split; [done|].
  unfold is_alternate in *. by rewrite C.
Qed.

Lemma private_mode_matches v g b x :
  grid_ok g -> matches v g -> kept g (private_mode b g x) /\ matches (track_mode b v x) (private_mode b g x).
Proof.
  intros Hg Hm. assert (forall g', ok g g' -> kept g g' /\ matches v g') as Hq.
  { intros g' H'. split; [by apply kept_ok|by eapply matches_ok]. }
  unfold private_mode, track_mode. pose proof Hm as [-> _].
  destruct (decide (x = 1)); [by apply update_protocol_matches|].
  destruct (decide (x = 6)) as [->|]; [by apply Hq, ok_origin_mode|].
  destruct (decide (x = 7)) as [->|]; [by apply Hq, ok_bump, ok_wrap|].
  destruct (decide (x = 9)); [by apply update_protocol_matches|].
  destruct (decide (x = 25)) as [->|]; [by apply Hq, ok_visible|].
  destruct (decide (x = 47 \/ x = 1047 \/ x = 1049)) as [Hx|].
  { destruct (alternate_mode_ok g x b Hg Hx) as [H' E]. unfold frame in E. injection E as E3 E4 E0 E1 E2.
    split; [split; [done|]; unfold grid_size; congruence|].
    destruct Hm as [M1 M2]. unfold track_alternate_screen. unfold matches, is_alternate. rewrite E1, E2.
    case_bool_decide as Hb; simpl; (split; [done|]); rewrite ?Hb; by destruct b. }
  repeat (case_decide; [by apply update_protocol_matches|]). by apply Hq.
Qed.

Lemma private_modes_match v g b xs :
  grid_ok g -> matches v g ->
  kept g (foldl (private_mode b) g xs) /\ matches (foldl (track_mode b) v xs) (foldl (private_mode b) g xs).
Proof.
  revert v g. induction xs as [|x xs IH]; intros v g Hg Hm; simpl; [done|].
  destruct (private_mode_matches v g b x Hg Hm) as [[H1 E1] H2]. destruct (IH _ _ H1 H2) as [H3 H4].
  split; [|done]. by eapply kept_trans.
Qed.

(** A private mode without subparameters. *)
Definition plain_action (a : Action) : Prop :=
  match a with
  | ACsiDispatch params intermediates _ _ => intermediates = [63] -> Forall (fun group => length group = 1%nat) params
  | _ => True
  end.

Lemma csi_runs v g params im ign action :
  grid_ok g -> matches v g -> Forall (fun group => group <> []) params ->
  runs (fun g' => kept g g' /\ (plain_action (ACsiDispatch params im ign action) ->
      matches (track_csi v params im ign action) g')) (csi_dispatch char_width g params im ign action).
Proof.
  intros Hg Hm Hne. unfold csi_dispatch, track_csi. set (toggles := bool_decide (action = 104 \/ action = 108)).
  assert (forall o, runs (ok g) o -> (ign || negb (bool_decide (im = [63])) || negb toggles = true) ->
    runs (fun g' => kept g g' /\ (plain_action (ACsiDispatch params im ign action) ->
      matches (if ign || negb (bool_decide (im = [63])) || negb toggles then v
               else foldl (track_mode (bool_decide (action = 104))) v (flatten_params params)) g')) o) as Hq.
  { intros o Ho ->. destruct (ok_run v g o Hg Hm Ho) as (g' & -> & H1 & H2). apply runs_some. auto. }
  destruct ign; [by apply runs_some|]. simpl in *.
  destruct (bool_decide (im = []) || toggles && bool_decide (im = [63])) eqn:Eim; simpl in *.
  2: { apply Hq; [by apply runs_some|]. apply orb_false_iff in Eim as [_ E]. destruct toggles, (bool_decide (im = [63])); done. }
  destruct (negb (bool_decide (action = 109)) && existsb (fun group => negb (bool_decide (length group = 1%nat))) params) eqn:Eg; simpl.
  { apply runs_some. split; [done|]. intros Hp.
    destruct (negb (bool_decide (im = [63])) || negb toggles) eqn:E2; [done|]. exfalso.
    apply orb_false_iff in E2 as [E2 _]. apply negb_false_iff, bool_decide_eq_true in E2. specialize (Hp E2).
    apply andb_true_iff in Eg as [_ (g1 & Hin & Hlen)%existsb_exists]. rewrite Forall_forall in Hp.
    apply list_elem_of_In, Hp in Hin. by rewrite bool_decide_eq_true_2 in Hlen. }
  destruct (decide (action = 109)) as [->|Hact].
  { destruct (sgr_groups_total 0 params Hne) as [out E]. unfold sgr_params. rewrite E. simpl. apply Hq.
    - apply runs_some, ok_bump. by apply ok_style.
    - apply orb_true_r. }
  destruct toggles eqn:Et.
  - destruct (decide (im = [63])) as [Hi|Hi].
    + apply runs_some. rewrite (bool_decide_eq_true_2 (im = [63]) Hi). simpl.
      destruct (private_modes_match v g (bool_decide (action = 104)) (flatten_params params) Hg Hm). done.
    + apply Hq; [|by rewrite (bool_decide_eq_false_2 (im = [63]) Hi)]. apply runs_some. clear Hq Hm.
      assert (ok g g) as Hok by done. revert Hok. generalize g at 2 4 as g1.
      induction (flatten_params params) as [|x xs IH]; intros g1 H1; simpl; [done|].
      apply IH. destruct (decide (x = 4)); [by apply ok_insert_mode|done].
  - apply Hq; [by apply runs_csi_action|]. apply orb_true_r.
Qed.

Lemma esc_runs v g im ign byte :
  grid_ok g -> matches v g ->
  runs (fun g' => kept g g' /\ matches (track_esc v im ign byte) g') (esc_dispatch g im ign byte).
Proof.
  intros Hg Hm. assert (ok g g) as Hok by done. pose proof Hm as [Ht Ha]. unfold esc_dispatch, track_esc.
  destruct ign; [by apply runs_some|]. simpl. destruct (decide (im = [40] \/ im = [41])) as [Him|Him].
  { rewrite bool_decide_eq_false_2 by (by destruct Him as [-> | ->]). apply (ok_run v g); [done..|].
    case_decide; [|by apply runs_some]. by apply runs_some, ok_bump, ok_characters. }
  destruct (decide (im <> [])) as [Hn|Hn]; [rewrite bool_decide_eq_false_2 by done; by apply runs_some|].
  rewrite bool_decide_eq_true_2 by (by destruct (decide (im = []))). simpl.
  destruct (decide (byte = 55)) as [->|]; [apply (ok_run v g); [done..|]; by apply runs_some, ok_save_cursor|].
  destruct (decide (byte = 56)) as [->|]; [apply (ok_run v g); [done..|]; by apply runs_some, ok_restore_cursor|].
  destruct (decide (byte = 72)) as [->|]; [apply (ok_run v g); [done..|]; by apply runs_set_tab_stop|].
  destruct (decide (byte = 68)) as [->|]; [apply (ok_run v g); [done..|]; by apply runs_linefeed|].
  destruct (decide (byte = 69)) as [->|].
  { apply (ok_run v g); [done..|]. eapply runs_fmap; [by apply runs_linefeed|]. intros. by apply ok_carriage_return. }
  destruct (decide (byte = 77)) as [->|]; [apply (ok_run v g); [done..|]; by apply runs_reverse_index|].
  rewrite Ht. case_decide; [apply runs_some; by apply update_protocol_matches|].
  case_decide; [apply runs_some; by apply update_protocol_matches|]. case_decide; [|by apply runs_some].
  apply runs_some. destruct (reset_ok g Hg) as (A & B & C & _).
  split; [split; [done|]; unfold reset, Grid_new; by case_decide|].
  unfold track_alternate_screen, matches, is_alternate. rewrite B, C. simpl.
  case_bool_decide as Hb; simpl; [|done]. by rewrite Hb.
Qed.

Lemma osc_matches v g params :
  grid_ok g -> matches v g ->
  kept g (osc_dispatch g params).1 /\ matches (track_osc v params) (osc_dispatch g params).1.
Proof.
  intros Hg [Ht Ha]. unfold osc_dispatch, track_osc.
  destruct params as [|selector [|payload [|]]]; try done.
  case_decide; [|done]. destruct (parse_pointer_shape payload) as [op|]; [|done].
  destruct (apply_pointer_shape_ok g op Hg) as (A & B & C).
  assert (matches (with_tracked v (with_pointer_shapes (tracked v)
    (pointer_apply (pointer_shapes (tracked v)) (alternate_screen v) op).1)) (apply_pointer_shape g op)) as Hm.
  { split; simpl; [by rewrite C, Ht, Ha|]. unfold is_alternate in *. by rewrite B. }
  assert (kept g (apply_pointer_shape g op)) as Hk.
  { split; [done|]. unfold apply_pointer_shape. destruct (pointer_apply _ _ _) as [? []]; done. }
  destruct op; try done. split; [done|]. split; simpl; [|done]. rewrite Ht, Ha.
  unfold pointer_apply. simpl. by destruct (is_alternate g), (protocol g) as [[] ? ? ? ? ? ? ? ? ? ?].
Qed.

Lemma perform_runs v g a :
  grid_ok g -> matches v g -> action_ok a ->
  exists g' q, perform char_width g a = Some (g', q) /\ kept g g' /\ (plain_action a -> matches (track v a) g').
Proof.
  intros Hg Hm Ha. assert (ok g g) as Hok by done. destruct a; simpl.
  - destruct (ok_run v g (print char_width g character) Hg Hm) as (g' & -> & ? & ?); [|by eexists _, _].
    apply runs_print_char; [done|]. by apply ok_characters.
  - destruct (ok_run v g (execute g byte) Hg Hm) as (g' & -> & ? & ?); [by apply runs_execute|by eexists _, _].
  - by eexists _, _.
  - by eexists _, _.
  - by eexists _, _.
  - destruct (osc_matches v g params Hg Hm). destruct (osc_dispatch g params). by eexists _, _.
  - destruct (csi_runs v g params intermediates ignore action Hg Hm Ha) as (g' & -> & ? & ?). by eexists _, _.
  - destruct (esc_runs v g intermediates ignore byte Hg Hm) as (g' & -> & ? & ?). by eexists _, _.
Qed.

Lemma perform_all_runs v g l :
  grid_ok g -> matches v g -> Forall action_ok l ->
  exists g' q, perform_all char_width g l = Some (g', q) /\ kept g g' /\ (Forall plain_action l -> matches (foldl track v l) g').
Proof.
  intros Hg Hm Hl. revert v g Hg Hm. induction Hl as [|a l Ha _ IH]; intros v g Hg Hm; simpl; [by eexists _, _|].
  destruct (perform_runs v g a Hg Hm Ha) as (g1 & q1 & -> & [H1 E1] & Hp). cbn [mbind option_bind].
  (* The view of the grid itself, when the operation is not plain. *)
  destruct (IH (mkView (protocol g1) (is_alternate g1) false) g1 H1 ltac:(by split)) as (g2 & q2 & E2 & H2 & _).
  rewrite E2. eexists _, _. split; [done|]. split; [by eapply kept_trans|]. intros [Hpa Hpl]%Forall_cons.
  destruct (IH (track v a) g1 H1 (Hp Hpa)) as (g2' & q2' & E2' & _ & Hm'). rewrite E2' in E2.
  injection E2 as -> ->. auto.
Qed.

(** ** Runs of a stream *)

Definition stream_ok (s : TerminalGridStream) : Prop :=
  grid_ok (grid s) /\ exists v, rep 1024 (parser s) v.

Definition tracks (t : TerminalProtocolTracker) (s : TerminalGridStream) : Prop :=
  t_parser t = parser s /\ t_protocol t = protocol (grid s) /\ t_alternate_screen t = is_alternate (grid s).

Lemma process_runs s bytes :
  stream_ok s ->
  exists s', process char_width s bytes = Some s' /\ stream_ok s' /\ grid_size (grid s') = grid_size (grid s)
    /\ parser s' = (if decide (bytes = []) then parser s else (vt_advance (parser s) bytes).1)
    /\ forall t, tracks t s -> Forall plain_action (if decide (bytes = []) then [] else (vt_advance (parser s) bytes).2) ->
         tracks (tracker_process t bytes).1 s'.
Proof.
  intros [Hg [v Hv]]. unfold process, process_with_pointer_queries, tracker_process.
  case_decide as Hb; [exists s; split_and!; [done|split; eauto|done|done|done]|].
  destruct (vt_advance_refines 1024 (parser s) v bytes Hv) as [Hr Ha]. pose proof (vadvance_ok 1024 v bytes) as Hok.
  rewrite <- Ha in Hok. destruct (vt_advance (parser s) bytes) as [p acts] eqn:Ep. simpl in Hr, Ha, Hok.
  destruct (perform_all_runs (mkView (protocol (grid s)) (is_alternate (grid s)) false) (grid s) acts Hg ltac:(by split) Hok)
    as (g' & q & E & [Hg' Elim] & _). rewrite E. cbn [mbind option_bind fmap option_fmap option_map fst].
  eexists. split; [done|]. set (b := negb _ && _).
  assert (grid_ok (if b then bump_revision g' else g')) as Hg2 by (destruct b; [by apply (ok_bump g' g')|done]).
  split; [split; [done|by eexists]|]. split; [by destruct b|]. split; [done|]. intros t (T1 & T2 & T3) Hplain. rewrite T1, Ep.
  destruct (perform_all_runs (mkView (t_protocol t) (t_alternate_screen t) false) (grid s) acts Hg ltac:(by split) Hok)
    as (g'' & q' & E' & _ & Hm). rewrite E' in E. injection E as -> ->. destruct (Hm Hplain) as [M1 M2].
  repeat split; simpl; [rewrite M1|rewrite M2]; by destruct b.
Qed.

(** What happens to a pane: output of its program and resizes. *)
Inductive Event :=
| Output (bytes : list Z)
| Resize (w h : nat).

Definition event_step (s : TerminalGridStream) (e : Event) : option TerminalGridStream :=
  match e with
  | Output bytes => process char_width s bytes
  | Resize w h => match stream_resize s w h with Ok s' => Some s' | Err _ => Some s end
  end.

Fixpoint run_events (s : TerminalGridStream) (l : list Event) : option TerminalGridStream :=
  match l with
  | [] => Some s
  | e :: l => s ← event_step s e; run_events s l
  end.

Definition u16_event (e : Event) : Prop :=
  match e with Output _ => True | Resize w h => Z.of_nat w < 65536 /\ Z.of_nat h < 65536 end.

Definition tracker_step (t : TerminalProtocolTracker) (e : Event) : TerminalProtocolTracker :=
  match e with Output bytes => (tracker_process t bytes).1 | Resize _ _ => t end.

Lemma resize_stream s w h s' :
  stream_ok s -> Z.of_nat w < 65536 -> Z.of_nat h < 65536 -> stream_resize s w h = Ok s' ->
  stream_ok s' /\ parser s' = parser s /\ frame (grid s') = (w, h, scrollback_rows (grid s), mode (grid s), protocol (grid s)).
Proof.
  intros [Hg Hv] Hw Hh. unfold stream_resize. destruct (resize_with_main_row_shift _ _ _) as [[g' sh]|] eqn:E; [|done].
  intros [= <-]. apply resize_grid_ok in E as [H1 H2]; [|done..]. split; [by split|done].
Qed.

(** No private mode of the output carries subparameters. *)
Fixpoint plain_events (p : Parser) (l : list Event) : Prop :=
  match l with
  | [] => True
  | Output bytes :: l =>
      if decide (bytes = []) then plain_events p l
      else Forall plain_action (vt_advance p bytes).2 /\ plain_events (vt_advance p bytes).1 l
  | Resize _ _ :: l => plain_events p l
  end.

Lemma events_run s l :
  stream_ok s -> Forall u16_event l ->
  exists s', run_events s l = Some s' /\ stream_ok s' /\ scrollback_rows (grid s') = scrollback_rows (grid s)
    /\ forall t, tracks t s -> plain_events (parser s) l -> tracks (foldl tracker_step t l) s'.
Proof.
  intros Hs Hl. revert s Hs. induction Hl as [|e l He _ IH]; intros s Hs; simpl; [by exists s|].
  destruct e as [bytes|w h]; simpl.
  - destruct (process_runs s bytes Hs) as (s1 & -> & H1 & L1 & P1 & T1). cbn [mbind option_bind].
    destruct (IH s1 H1) as (s2 & -> & H2 & L2 & T2). exists s2. unfold grid_size in L1. split_and!; [done|done|congruence|].
    intros t Ht Hp. apply T2; [apply T1; [done|]|rewrite P1]; by case_decide; try apply Hp.
  - destruct (stream_resize s w h) as [s1|err] eqn:E; cbn [mbind option_bind].
    + destruct He as [Hw Hh]. destruct (resize_stream s w h s1 Hs Hw Hh E) as (H1 & P1 & F1). unfold frame in F1. injection F1 as _ _ L1 M1 Q1.
      destruct (IH s1 H1) as (s2 & -> & H2 & L2 & T2). exists s2. split_and!; [done|done|congruence|].
      intros t (A & B & C) Hp. apply T2; [|by rewrite P1]. split_and!; [congruence..|]. unfold is_alternate in *. by rewrite M1.
    + apply IH. done.
Qed.

Lemma fresh_stream w h limit s :
  Z.of_nat w < 65536 -> Z.of_nat h < 65536 -> Stream_new w h limit = Ok s ->
  stream_ok s /\ scrollback_rows (grid s) = limit /\ parser s = VtParser.new /\ tracks Tracker_new s.
Proof.
  intros Hw Hh. unfold Stream_new. destruct (Grid_new w h limit) as [g|] eqn:E; [|done]. intros [= <-].
  apply Grid_new_ok in E as (H1 & _ & _ & H2 & H3 & H4); [|done..]. split_and!; [|done..|].
  - split; [done|]. exists (VText []). apply rep_new.
  - split_and!; [done..|]. unfold is_alternate. simpl. by rewrite H3.
Qed.

Lemma history_sum_rows lines w :
  history_sum lines w = length (concat ((fun line => project_logical_line line w) <$> lines)).
Proof.
  induction lines as [|line lines IH]; [done|].
  by rewrite history_sum_cons, fmap_cons, concat_cons, length_app, project_logical_line_length, IH.
Qed.

(** C2: a terminal never panics and never loses its shape. Whatever bytes the
    program writes, in whatever chunks, and however the terminal is resized in
    between (zero sizes included, which are refused), every operation returns;
    the cursor stays on the screen, both screens have exactly [height] rows, no
    row is longer than [width], each wide character is followed by its spacer
    and each spacer preceded by one, and the scroll region and tab stops stay
    within the screen. *)
Theorem terminal_never_panics w h limit s l :
  Z.of_nat w < 65536 -> Z.of_nat h < 65536 -> Stream_new w h limit = Ok s -> Forall u16_event l ->
  exists s', run_events s l = Some s' /\ grid_ok (grid s').
Proof.
  intros Hw Hh Hs Hl. destruct (fresh_stream w h limit s Hw Hh Hs) as (Hok & _).
  destruct (events_run s l Hok Hl) as (s' & E & [Hg _] & _). eauto.
Qed.

(** C15: scrollback is bounded and its bookkeeping exact, for every output and
    every resizing: at most the configured number of completed lines and 8 MiB
    are retained, the byte counter is the charge of the stored cells, and the
    (cached) number of scrollback rows is the number of rows the lines really
    project to at the current width. *)
Theorem scrollback_bounded_and_exact w h limit s l s' :
  Z.of_nat w < 65536 -> Z.of_nat h < 65536 -> Stream_new w h limit = Ok s -> Forall u16_event l ->
  run_events s l = Some s' ->
  let hi := hist (grid s') in
  (length (main_history hi) <= limit)%nat /\ history_bytes hi <= HISTORY_BUDGET
  /\ history_bytes hi = lines_bytes (main_history hi) + history_cells_bytes (pending_history_cells hi)
  /\ history_projected_row_count hi (width (grid s'))
     = length (concat ((fun line => project_logical_line line (width (grid s'))) <$> main_history hi)).
Proof.
  intros Hw Hh Hs Hl E. destruct (fresh_stream w h limit s Hw Hh Hs) as (Hok & Hlim & _).
  destruct (events_run s l Hok Hl) as (s1 & E1 & [Hg _] & Hlim' & _). rewrite E in E1. injection E1 as <-.
  destruct (ok_bounded _ Hg) as [B1 B2]. destruct (ok_hist _ Hg) as [_ _ H3 H4]. split_and!; [lia|done|done|].
  assert (history_projected_row_count (hist (grid s')) (width (grid s')) = history_sum (main_history (hist (grid s'))) (width (grid s'))) as ->.
  { unfold history_projected_row_count. destruct (main_history_projected_rows _) as [n|]; [|done]. by apply H4. }
  apply history_sum_rows.
Qed.

(** C16: the protocol tracker agrees with the grid. A tracker fed the same
    output holds the grid's mouse, keypad, paste and pointer-shape modes and
    knows which screen is active, after every output in which no private mode
    carries subparameters, and across any resizes. *)
Theorem tracker_agrees_with_grid w h limit s l s' :
  Z.of_nat w < 65536 -> Z.of_nat h < 65536 -> Stream_new w h limit = Ok s -> Forall u16_event l ->
  plain_events VtParser.new l -> run_events s l = Some s' ->
  let t := foldl tracker_step Tracker_new l in
  t_protocol t = protocol (grid s') /\ t_alternate_screen t = is_alternate (grid s').
Proof.
  intros Hw Hh Hs Hl Hp E. destruct (fresh_stream w h limit s Hw Hh Hs) as (Hok & _ & Hpar & Ht).
  destruct (events_run s l Hok Hl) as (s1 & E1 & _ & _ & T). rewrite E in E1. injection E1 as <-.
  rewrite <- Hpar in Hp. apply (T _ Ht Hp).
Qed.
End stream.

(** ** Concrete runs *)

(** A small width table: controls have none, the combining accent takes no
    column, everything from U+1100 on takes two. *)
Definition example_width (c : Z) : option Z :=
  if decide (c < 32) then None
  else if decide (c = combining_acute) then Some 0
  else if decide (4352 <= c) then Some 2 else Some 1.

Lemma example_widths : WidthLaws example_width.
Proof.
  split; [done|]. intros c n. unfold example_width. repeat case_decide; intros [= <-]; lia.
Qed.

Definition example_stream : TerminalGridStream :=
  from_grid (mkGrid 4 2 10 (mkHistory [] 0 false (Some 0%nat) []) (replicate 2 PhysicalRow_new) (replicate 2 PhysicalRow_new)
    Main (mkCursor 0 0 true) (mkCursor 0 0 false) false CharacterState_default CharacterState_default Style_default
    TerminalState_default StylePalette_default (mkRevisions 0 0 0 0 0 0 0) true false None ProtocolState_default).

Local Notation run_example := (@run_events combining_tables example_width example_stream).

(** Text with a wide character and an accent, a mode, line feeds, a refused
    and an accepted resize, an unfinished sequence. *)
Definition example_events : list Event :=
  [ Output [97; 98; 99; 231; 149; 140; 101; 204; 129; 27; 91; 63; 49; 104; 10; 10]; Resize 0 5; Resize 3 3; Output [27; 91; 50] ].

Lemma example_u16 : Forall u16_event example_events.
Proof. repeat constructor; simpl; lia. Qed.

Lemma example_runs : is_Some (run_example example_events).
Proof. apply (bool_decide_unpack (is_Some _)). vm_compute. exact I. Qed.

Lemma example_plain : plain_events VtParser.new example_events.
Proof. vm_compute. repeat constructor. Qed.

Lemma terminal_never_panics_witness : exists s', run_example example_events = Some s' /\ grid_ok (grid s').
Proof.
  apply (@terminal_never_panics combining_tables example_width example_widths 4 2 10); [lia|lia|reflexivity|apply example_u16].
Defined.

Lemma scrollback_bounded_and_exact_witness :
  exists s', run_example example_events = Some s' /\ (length (main_history (hist (grid s'))) <= 10)%nat.
Proof.
  destruct example_runs as [s' E]. exists s'. split; [exact E|].
  destruct (@scrollback_bounded_and_exact combining_tables example_width example_widths 4 2 10 example_stream example_events s'
    ltac:(lia) ltac:(lia) eq_refl example_u16 E) as [H _]. exact H.
Defined.

Lemma tracker_agrees_with_grid_witness :
  exists s', run_example example_events = Some s'
    /\ t_protocol (foldl tracker_step Tracker_new example_events) = protocol (grid s').
Proof.
  destruct example_runs as [s' E]. exists s'. split; [exact E|].
  destruct (@tracker_agrees_with_grid combining_tables example_width example_widths 4 2 10 example_stream example_events s'
    ltac:(lia) ltac:(lia) eq_refl example_u16 example_plain E) as [H _]. exact H.
Defined.

(** C99: the tracker and the grid part ways on [CSI ? 1 : 2 h]. The grid
    ignores a mode that carries subparameters; the tracker takes every
    subparameter for a mode of its own, so it reports application cursor keys
    that the terminal has not switched on. *)
Theorem tracker_diverges_on_subparameters :
  exists s', run_example [Output [27; 91; 63; 49; 58; 50; 104]] = Some s'
    /\ application_cursor (protocol (grid s')) = false
    /\ application_cursor (t_protocol (tracker_process Tracker_new [27; 91; 63; 49; 58; 50; 104]).1) = true.
Proof. eexists. split; [vm_compute; reflexivity|]. split; vm_compute; reflexivity. Qed.

Definition screen_text (s : TerminalGridStream) : list (list (list Z)) :=
  (fun r => c_text <$> cells r) <$> viewport_rows (grid s).

(** C99: a scroll request moves the screen without moving its revision. After
    [a], line feed, [b] on two rows, [CSI S] leaves other rows on the screen
    under the old revision number, on which the publication of changes to
    attached clients is decided. *)
Theorem scroll_request_keeps_revision :
  exists s s', run_example [Output [97; 10; 98]] = Some s /\ run_example [Output [97; 10; 98]; Output [27; 91; 83]] = Some s'
    /\ screen_text s <> screen_text s' /\ revision (revs (grid s)) = revision (revs (grid s')).
Proof.
  do 2 eexists. split; [vm_compute; reflexivity|]. split; [vm_compute; reflexivity|].
  split; [vm_compute; discriminate|reflexivity].
Qed.

(** shrinking the screen can delete spaces inside a line. [ab  cd] on rows
    of four columns is one wrapped line; when its first row moves above a
    one-row screen its trailing spaces are dropped as if the line ended there,
    and back at two rows the line reads [abcd]. *)
Theorem resize_deletes_inner_spaces :
  exists s s', run_example [Output [97; 98; 32; 32; 99; 100]] = Some s
    /\ run_example [Output [97; 98; 32; 32; 99; 100]; Resize 4 1; Resize 4 2] = Some s'
    /\ screen_text s = [[[97]; [98]]; [[99]; [100]]]
    /\ screen_text s' = [[[97]; [98]; [99]; [100]]; []].
Proof.
  do 2 eexists. split; [vm_compute; reflexivity|]. split; [vm_compute; reflexivity|]. split; vm_compute; reflexivity.
Qed.
