(* ===== verification/GridReflow.v ===== *)
(** * What resizing keeps

    The text of a terminal is its logical lines: the scrollback, the line that
    is open across the top of the screen, and the screen's own lines, without
    the unused lines at the end. Resizing lays the same lines out at the new
    width, for text of narrow cells. *)

From S2P Require Import Prelude Utf8 TextStr GridCell GridCellProps Pointer Grid GridInvariant GridStream GridProps.

(** ** Logical lines *)

Fixpoint drop_empty (l : list (list Cell)) : list (list Cell) :=
  match l with
  | [] :: rest => drop_empty rest
  | l => l
  end.

(** The lines without the empty ones at the end. *)
Definition strip (l : list (list Cell)) : list (list Cell) := reverse (drop_empty (reverse l)).

Definition document (g : TerminalGrid) : list (list Cell) :=
  strip (main_history (hist g) ++ collect_lines (width g) (main_rows g) (pending_history_cells (hist g))).

Definition narrow (c : Cell) : Prop := leader c /\ c_width c = 1%nat.

Lemma strip_app_nil l : strip (l ++ [[]]) = strip l.
Proof. unfold strip. by rewrite reverse_app. Qed.

Lemma strip_app_nils l n : strip (l ++ replicate n []) = strip l.
Proof.
  revert l. induction n as [|n IH]; intros l; simpl; [by rewrite app_nil_r|].
  change ([] :: replicate n []) with ([[]] ++ replicate n ([] : list Cell)). by rewrite (assoc_L (++)), IH, strip_app_nil.
Qed.

(** ** Trimming *)

Lemma trim_app_blank l : trim_trailing_blank_cells (l ++ [blank DEFAULT]) = trim_trailing_blank_cells l.
Proof. unfold trim_trailing_blank_cells. by rewrite reverse_app. Qed.

Lemma trim_app_blanks l n : trim_trailing_blank_cells (l ++ replicate n (blank DEFAULT)) = trim_trailing_blank_cells l.
Proof.
  revert l. induction n as [|n IH]; intros l; [by rewrite app_nil_r|]. rewrite replicate_S_end, (assoc_L (++)).
  by rewrite trim_app_blank, IH.
Qed.

Lemma trim_of_trimmed l : trimmed l -> trim_trailing_blank_cells l = l.
Proof.
  intros Ht. destruct (trim_spec l) as (k & E & Hk). destruct k as [|c k] using rev_ind; [by rewrite app_nil_r in E|].
  apply Forall_app in Hk as [_ Hk]. apply Forall_cons in Hk as [Hc _].
  rewrite E, (assoc_L (++)) in Ht. rewrite (Ht c) in Hc; [done|]. by rewrite last_snoc.
Qed.

Lemma trim_blanks_idemp l : trim_trailing_blank_cells (trim_trailing_blank_cells l) = trim_trailing_blank_cells l.
Proof. apply trim_of_trimmed, trim_trimmed. Qed.

(** ** Narrow rows *)

Lemma narrow_ok l : Forall narrow l -> Forall cell_ok l.
Proof. intros H. eapply Forall_impl; [exact H|]. by intros c [[? _] _]. Qed.

Lemma cell_at_project_narrow l w r col i :
  Forall narrow l -> Forall cell_ok (cells r) -> (col + length l <= w)%nat ->
  cell_at (cells (project_cells r col w l)) i
  = if decide (col <= i < col + length l)%nat then cell_at l (i - col) else cell_at (cells r) i.
Proof.
  revert r col. induction l as [|c l IH]; intros r col Hl Hr Hw; simpl in *; [by rewrite decide_False by lia|].
  apply Forall_cons in Hl as [[Hc Hcw] Hl]. rewrite Hcw. replace (Nat.min (col + Nat.max 1 1) w) with (S col) by lia.
  assert (forall k, cell_at (cells (try_set_projected_cell r col c w)) k = upd (cell_at (cells r)) col c k) as E.
  { intros k. rewrite cell_at_project_cell; [|done|done|lia|lia]. unfold placed, wide. by rewrite Hcw. }
  rewrite IH; [|done| |lia].
  - rewrite E. unfold upd. repeat case_decide; try lia; try done; subst.
    + by replace (i - col)%nat with (S (i - S col)) by lia.
    + by rewrite Nat.sub_diag.
  - apply cell_at_ok. intros k. rewrite E. unfold upd. case_decide; [apply Hc|by apply cell_at_ok].
Qed.

Lemma project_cells_trimmed r col w l : trimmed (cells r) -> trimmed (cells (project_cells r col w l)).
Proof.
  revert r col. induction l as [|c l IH]; intros r col H; simpl; [done|]. apply IH.
  unfold try_set_projected_cell. destruct (_ && _); [done|]. apply trim_trimmed.
Qed.

(** A projected row of narrow cells, read back, is the row padded to the width. *)
Lemma project_narrow_cells w sel :
  Forall narrow sel -> (length sel <= w)%nat ->
  cells (project_cells PhysicalRow_new 0 w sel) = trim_trailing_blank_cells sel.
Proof.
  intros Hs Hw. apply trimmed_eq; [by apply project_cells_trimmed|apply trim_trimmed|]. intros i.
  rewrite cell_at_project_narrow by done. rewrite cell_at_trim by (by apply narrow_ok). simpl.
  case_decide; [by rewrite Nat.sub_0_r|]. symmetry. apply cell_at_beyond. lia.
Qed.

Lemma list_eq_cells l k : length l = length k -> (forall i, cell_at l i = cell_at k i) -> l = k.
Proof.
  intros Hlen He. apply list_eq. intros i. specialize (He i). unfold cell_at in He.
  destruct (l !! i) eqn:E1, (k !! i) eqn:E2; simpl in *; try congruence.
  - apply lookup_lt_Some in E1. apply lookup_ge_None in E2. lia.
  - apply lookup_lt_Some in E2. apply lookup_ge_None in E1. lia.
Qed.

Lemma row_logical_narrow w sel b :
  Forall narrow sel -> (length sel <= w)%nat ->
  row_logical_cells (mkRow (trim_trailing_blank_cells sel) b) w = pad_to w sel.
Proof.
  intros Hs Hw. unfold row_logical_cells, visual_cells. simpl.
  assert (resize_cells w (trim_trailing_blank_cells sel) = pad_to w sel) as ->.
  { apply list_eq_cells; [rewrite resize_cells_length, pad_to_length; lia|]. intros i.
    rewrite cell_at_resize, cell_at_pad, cell_at_trim by (by apply narrow_ok). case_decide; [done|].
    symmetry. apply cell_at_beyond. lia. }
  assert (Forall (fun c => c_cont c = false) (pad_to w sel)) as Hc.
  { unfold pad_to. apply Forall_app. split; [|by apply Forall_replicate].
    eapply Forall_impl; [exact Hs|]. by intros c [[_ ?] _]. }
  induction Hc as [|c l Hc _ IH]; simpl; [done|]. by rewrite Hc, IH.
Qed.

(** ** Narrow lines *)

(** The rows of a narrow line: full ones that wrap and a last one that does not. *)
Lemma visit_narrow w l r col rc lg :
  (0 < w)%nat -> Forall narrow l -> (length r < w)%nat -> col = length r -> r ++ l <> [] ->
  exists init lst out, visit_rows w l r col rc lg = out
    /\ ((fun sel => (sel.1.1, sel.2)) <$> out) = ((fun sel => (sel, true)) <$> init) ++ [(lst, false)]
    /\ Forall (fun sel => length sel = w) init /\ (length lst <= w)%nat.
Proof.
  intros Hw Hl. revert r col rc lg. induction Hl as [|c l [Hc Hcw] Hl IH]; intros r col rc lg Hr -> Hne; cbn [visit_rows].
  - rewrite decide_False by (by rewrite app_nil_r in Hne). eexists [], r, _. split_and!; [done|done|done|lia].
  - rewrite Hcw. change (Nat.max 1 1) with 1%nat.
    rewrite (bool_decide_eq_false_2 (w < length r + 1)%nat) by lia. rewrite andb_false_r.
    replace (Nat.min (length r + 1) w) with (length r + 1)%nat by lia. cbn [app].
    destruct (decide ((length r + 1)%nat = w)) as [Ew|Ew].
    + destruct (decide (l = [])) as [->|Hln].
      * eexists [], (r ++ [c]), _. split_and!; [done|done|done|]. rewrite length_app. simpl. lia.
      * destruct (IH [] 0%nat (lg + 1)%nat (lg + 1)%nat) as (init & lst & out & Eo & H1 & H2 & H3); [simpl; lia|done|done|].
        eexists ((r ++ [c]) :: init), lst, _. split_and!; [done| | |done].
        -- rewrite Eo. rewrite bool_decide_eq_false_2 by done. by rewrite !fmap_cons, H1.
        -- constructor; [|done]. rewrite length_app. simpl. lia.
    + apply IH; [rewrite length_app; simpl; lia|by rewrite length_app|by destruct r].
Qed.

Definition row_of (sel : list Cell * bool) : PhysicalRow := mkRow (trim_trailing_blank_cells sel.1) sel.2.

Lemma project_narrow l w :
  (0 < w)%nat -> Forall narrow l ->
  exists init lst, project_logical_line l w = (row_of <$> ((fun sel => (sel, true)) <$> init)) ++ [row_of (lst, false)]
    /\ Forall (fun sel => length sel = w) init /\ (length lst <= w)%nat
    /\ concat init ++ lst = trim_trailing_blank_cells l /\ Forall (Forall narrow) init /\ Forall narrow lst.
Proof.
  intros Hw Hl. unfold project_logical_line, visit_logical_rows, projection_cells.
  replace (Nat.max w 1) with w by lia. set (l' := trim_trailing_blank_cells l).
  assert (Forall narrow l') as Hl'.
  { destruct (trim_spec l) as (k & E & _). rewrite E in Hl. by apply Forall_app in Hl as [? _]. }
  destruct (decide (l' = [])) as [E|Hne].
  { exists [], []. rewrite E. split_and!; try done. simpl. lia. }
  destruct (visit_narrow w l' [] 0 0 0 Hw Hl' Hw eq_refl Hne) as (init & lst & out & Eo & H1 & H2 & H3).
  pose proof (visit_rows_concat w l' [] 0 0 0) as Hcat. rewrite Eo in Hcat |- *.
  assert (out.*1.*1 = init ++ [lst]) as Esel.
  { transitivity (((fun sel => (sel.1.1, sel.2)) <$> out).*1); [by rewrite <- !list_fmap_compose|].
    rewrite H1, fmap_app, <- list_fmap_compose. simpl. f_equal. apply list_fmap_id. }
  rewrite Esel, concat_app in Hcat. simpl in Hcat. rewrite app_nil_r in Hcat. subst l'. rewrite <- Hcat in Hl'.
  apply Forall_app in Hl' as [Hi Hlst]. rewrite Forall_concat in Hi.
  exists init, lst. split_and!; try done.
  assert (Forall (fun sel => set_wrapped (project_cells PhysicalRow_new 0 w sel.1.1) sel.2 = row_of (sel.1.1, sel.2)) out) as Hrow.
  { apply Forall_forall. intros [[sel rc] b] Hin. unfold set_wrapped, row_of. simpl. f_equal.
    assert (sel ∈ init ++ [lst]) as Hsel.
    { rewrite <- Esel. apply list_elem_of_fmap. exists (sel, rc). split; [done|]. apply list_elem_of_fmap. by exists (sel, rc, b). }
    apply elem_of_app in Hsel as [Hsel|Hsel%list_elem_of_singleton].
    - rewrite Forall_forall in Hi, H2. apply project_narrow_cells; [by apply Hi|]. by rewrite (H2 _ Hsel).
    - subst sel. by apply project_narrow_cells. }
  transitivity (row_of <$> ((fun sel => (sel.1.1, sel.2)) <$> out)).
  - rewrite <- list_fmap_compose. apply list_fmap_ext. intros i x Hx. rewrite Forall_lookup in Hrow. by rewrite (Hrow i x Hx).
  - by rewrite H1, fmap_app.
Qed.

(** ** Reading a layout back *)

Lemma row_of_logical w sel b :
  Forall narrow sel -> (length sel <= w)%nat -> row_logical_cells (row_of (sel, b)) w = pad_to w sel.
Proof. apply row_logical_narrow. Qed.

Lemma collect_wrapped w init rest acc :
  Forall (fun sel => length sel = w) init -> Forall (Forall narrow) init ->
  collect_lines w ((row_of <$> ((fun sel => (sel, true)) <$> init)) ++ rest) acc = collect_lines w rest (acc ++ concat init).
Proof.
  intros Hlen Hn. revert acc. induction init as [|sel init IH]; intros acc; [by rewrite app_nil_r|].
  apply Forall_cons in Hlen as [Hs Hlen]. apply Forall_cons in Hn as [Hns Hn].
  rewrite !fmap_cons. cbn [app collect_lines]. change (wrapped (row_of (sel, true))) with true. cbn iota.
  rewrite row_of_logical by (done || lia). rewrite IH by done.
  unfold pad_to. rewrite Hs, Nat.sub_diag, app_nil_r. simpl. by rewrite (assoc_L (++)).
Qed.

Lemma collect_last w lst rest acc :
  (length lst <= w)%nat -> Forall narrow lst ->
  collect_lines w (row_of (lst, false) :: rest) acc = trim_trailing_blank_cells (acc ++ lst) :: collect_lines w rest [].
Proof.
  intros Hl Hn. cbn [collect_lines]. change (wrapped (row_of (lst, false))) with false. cbn iota.
  rewrite row_of_logical by done.
  unfold pad_to. by rewrite (assoc_L (++)), trim_app_blanks.
Qed.

(** A projected line, its first [k] rows given as cells, reads back as itself. *)
Lemma collect_projected w l k rest :
  (0 < w)%nat -> Forall narrow l -> (k < projected_row_count l w)%nat ->
  collect_lines w (drop k (project_logical_line l w) ++ rest)
    (concat ((fun r => row_logical_cells r w) <$> take k (project_logical_line l w)))
  = trim_trailing_blank_cells l :: collect_lines w rest [].
Proof.
  intros Hw Hl Hk. rewrite <- project_logical_line_length in Hk.
  destruct (project_narrow l w Hw Hl) as (init & lst & E & H1 & H2 & H3 & H4 & H5). rewrite E in Hk |- *.
  set (rs := row_of <$> _) in *. assert (length rs = length init) as Hlen by (subst rs; by rewrite !length_fmap).
  rewrite length_app in Hk. simpl in Hk. rewrite drop_app_le, take_app_le by lia. rewrite <- (assoc_L (++)).
  assert (forall j, concat ((fun r => row_logical_cells r w) <$> take j rs) = concat (take j init)) as Ep.
  { intros j. f_equal. subst rs. rewrite <- !fmap_take, <- !list_fmap_compose. rewrite <- (list_fmap_id (take j init)) at 2.
    apply list_fmap_ext. intros i sel Hsel. simpl. apply lookup_take_Some in Hsel as [Hsel _].
    rewrite Forall_lookup in H1, H4. rewrite row_of_logical; [|by eapply H4|by rewrite (H1 _ _ Hsel)].
    unfold pad_to. by rewrite (H1 _ _ Hsel), Nat.sub_diag, app_nil_r. }
  rewrite Ep. subst rs. rewrite <- !fmap_drop.
  rewrite collect_wrapped by (by apply Forall_drop). cbn [app]. rewrite collect_last by done.
  rewrite <- concat_app, take_drop, H3. by rewrite trim_blanks_idemp.
Qed.

Lemma collect_projected_lines w lines rest :
  (0 < w)%nat -> Forall (Forall narrow) lines ->
  collect_lines w (concat ((fun l => project_logical_line l w) <$> lines) ++ rest) []
  = (trim_trailing_blank_cells <$> lines) ++ collect_lines w rest [].
Proof.
  intros Hw Hl. induction Hl as [|l lines Hl _ IH]; [done|]. rewrite !fmap_cons, concat_cons, <- (assoc_L (++)).
  assert (0 < projected_row_count l w)%nat as Hk by (unfold projected_row_count; case_decide; lia).
  pose proof (collect_projected w l 0 (concat ((fun l => project_logical_line l w) <$> lines) ++ rest) Hw Hl Hk) as E.
  rewrite drop_0, take_0 in E. simpl in E. by rewrite E, IH.
Qed.

Lemma blank_row_logical w : row_logical_cells PhysicalRow_new w = replicate w (blank DEFAULT).
Proof.
  transitivity (pad_to w []); [apply (row_logical_narrow w [] false); [done|simpl; lia]|].
  unfold pad_to. simpl. by rewrite Nat.sub_0_r.
Qed.

Lemma trim_blanks n : trim_trailing_blank_cells (replicate n (blank DEFAULT)) = [].
Proof. apply (trim_app_blanks [] n). Qed.

Lemma collect_blank_rows w n : collect_lines w (replicate n PhysicalRow_new) [] = replicate n [].
Proof.
  induction n as [|n IH]; [done|]. cbn [replicate collect_lines app]. change (wrapped PhysicalRow_new) with false.
  cbn iota. by rewrite blank_row_logical, trim_blanks, IH.
Qed.

(** ** Placing lines *)

Lemma row_count_pos l w : (0 < projected_row_count l w)%nat.
Proof. unfold projected_row_count. case_decide; lia. Qed.

Lemma place_lines_below old new ks start lines h pending rows :
  (ks <= start)%nat ->
  place_lines old new ks start lines h pending rows
  = (h, pending, rows ++ concat ((fun l => project_logical_line l new) <$> lines)).
Proof.
  revert start rows. induction lines as [|l lines IH]; intros start rows Hs; [simpl; by rewrite app_nil_r|].
  cbn [place_lines]. pose proof (row_count_pos l new). rewrite decide_False by lia.
  replace (ks - start)%nat with 0%nat by lia. rewrite take_0, drop_0. simpl. rewrite app_nil_r, IH by lia.
  by rewrite (assoc_L (++)).
Qed.

(** Lines above the screen, and the rest with the hidden part of its first line. *)
Lemma place_lines_split old new ks start lines h h' P R :
  place_lines old new ks start lines h [] [] = (h', P, R) ->
  exists l1 l2, lines = l1 ++ l2 /\ main_history h' = main_history h ++ l1 /\ history_truncated h' = history_truncated h
    /\ match l2 with
       | [] => P = [] /\ R = []
       | l :: ls => exists k, (k < projected_row_count l new)%nat
           /\ P = concat ((fun r => row_logical_cells r new) <$> take k (project_logical_line l new))
           /\ R = drop k (project_logical_line l new) ++ concat ((fun l => project_logical_line l new) <$> ls)
       end.
Proof.
  revert start h. induction lines as [|l lines IH]; intros start h E; cbn [place_lines] in E.
  { injection E as <- <- <-. exists [], []. split_and!; [done|by rewrite app_nil_r|done|done|done]. }
  case_decide as Hk.
  - apply IH in E as (l1 & l2 & -> & H1 & H2 & H3). exists (l :: l1), l2. split_and!; [done| |done|done].
    rewrite H1. simpl. by rewrite <- (assoc_L (++)).
  - rewrite place_lines_below in E by lia. injection E as <- <- <-. exists [], (l :: lines).
    split_and!; [done|by rewrite app_nil_r|done|]. exists (ks - start)%nat. pose proof (row_count_pos l new). split_and!; [lia|done|done].
Qed.

Lemma collect_placed w l1 l2 P R n :
  (0 < w)%nat -> Forall (Forall narrow) (l1 ++ l2) ->
  match l2 with
  | [] => P = [] /\ R = []
  | l :: ls => exists k, (k < projected_row_count l w)%nat
      /\ P = concat ((fun r => row_logical_cells r w) <$> take k (project_logical_line l w))
      /\ R = drop k (project_logical_line l w) ++ concat ((fun l => project_logical_line l w) <$> ls)
  end ->
  collect_lines w (R ++ replicate n PhysicalRow_new) P = (trim_trailing_blank_cells <$> l2) ++ replicate n [].
Proof.
  intros Hw [_ Hl]%Forall_app HR. destruct l2 as [|l ls]; [destruct HR as [-> ->]; apply collect_blank_rows|].
  destruct HR as (k & Hk & -> & ->). apply Forall_cons in Hl as [Hl Hls].
  rewrite <- (assoc_L (++)), collect_projected, collect_projected_lines, collect_blank_rows by done. done.
Qed.

(** ** Unused rows *)

Lemma collect_unused w rows acc :
  let l := collect_lines w (rows ++ [PhysicalRow_new]) acc in
  l = collect_lines w rows acc \/ l = collect_lines w rows acc ++ [[]].
Proof.
  revert acc. induction rows as [|r rows IH]; intros acc; cbn [app collect_lines].
  - change (wrapped PhysicalRow_new) with false. cbn iota. rewrite blank_row_logical, trim_app_blanks.
    rewrite decide_True by done. destruct (decide (acc = [])) as [->|Ha]; [by right|by left].
  - destruct (wrapped r); [apply IH|]. destruct (IH []) as [-> | ->]; [by left|by right].
Qed.

Lemma blank_row_new w r : row_ok w r -> row_is_blank r = true -> wrapped r = false -> r = PhysicalRow_new.
Proof.
  intros [Hs Ht] Hb Hw. destruct r as [l b]. simpl in *. subst. unfold PhysicalRow_new. f_equal.
  destruct l as [|c l] using rev_ind; [done|]. exfalso. specialize (Ht c). rewrite last_snoc in Ht.
  unfold row_is_blank in Hb. simpl in Hb. rewrite forallb_app in Hb. simpl in Hb.
  rewrite (Ht eq_refl), andb_false_r in Hb. done.
Qed.

Lemma strip_trim_rows w rows c x acc :
  Forall (row_ok w) rows ->
  strip (x ++ collect_lines w (reverse (trim_rows_rev rows c)) acc) = strip (x ++ collect_lines w (reverse rows) acc).
Proof.
  induction rows as [|r rows IH]; intros Hr; [done|]. apply Forall_cons in Hr as [Hr Hrows]. cbn [trim_rows_rev].
  destruct (_ && _) eqn:E; [|done]. rewrite IH by done.
  apply andb_true_iff in E as [E _]. apply andb_true_iff in E as [_ E]. apply andb_true_iff in E as [E1 E2%negb_true_iff].
  rewrite (blank_row_new w r Hr E1 E2), reverse_cons.
  destruct (collect_unused w (reverse rows) acc) as [-> | ->]; [done|]. by rewrite (assoc_L (++)), strip_app_nil.
Qed.

(** ** The theorem *)

Definition main_cursor (g : TerminalGrid) : Cursor :=
  match mode g with Main => cursor g | Alternate => saved_cursor g end.

(** The cells of the line that a resize cuts at the top of the screen which
    move above it, as laid out at the new width. *)
Definition hidden_prefix (g : TerminalGrid) (w h : nat) : list Cell :=
  let lines := live_logical_lines g (trim_resize_rows (main_rows g) (row (main_cursor g))) in
  let total := list_sum ((fun line => projected_row_count line w) <$> lines) in
  (place_lines (width g) w (total - h) 0 lines (hist g) [] []).1.2.

Lemma narrow_blank : narrow (blank DEFAULT).
Proof. repeat split; [by left|done]. Qed.

Lemma trim_narrow l : Forall narrow l -> Forall narrow (trim_trailing_blank_cells l).
Proof. destruct (trim_spec l) as (k & E & _). rewrite E at 1. by intros [H _]%Forall_app. Qed.

Lemma collect_lines_narrow w rows acc :
  Forall (fun r => Forall narrow (cells r)) rows -> Forall narrow acc -> Forall (Forall narrow) (collect_lines w rows acc).
Proof.
  intros Hr. revert acc. induction Hr as [|r rows Hr _ IH]; intros acc Ha; simpl.
  - case_decide; [done|]. constructor; [by apply trim_narrow|done].
  - assert (Forall narrow (acc ++ row_logical_cells r w)) as Hl.
    { apply Forall_app. split; [done|]. apply Forall_forall. intros c Hc. unfold row_logical_cells in Hc.
      apply list_elem_of_In, filter_In in Hc as [Hc _]. apply list_elem_of_In in Hc. revert Hc. apply Forall_forall.
      apply Forall_take. unfold pad_to. apply Forall_app. split; [done|]. apply Forall_replicate, narrow_blank. }
    destruct (wrapped r); [by apply IH|]. constructor; [by apply trim_narrow|by apply IH].
Qed.

Lemma collect_lines_trimmed w rows acc : trim_trailing_blank_cells <$> collect_lines w rows acc = collect_lines w rows acc.
Proof.
  revert acc. induction rows as [|r rows IH]; intros acc; simpl.
  - case_decide; [done|]. rewrite fmap_cons. by rewrite trim_blanks_idemp.
  - destruct (wrapped r); [apply IH|]. rewrite fmap_cons, IH. by rewrite trim_blanks_idemp.
Qed.

Lemma evict_untruncated limit budget w lines bytes tr pr pend :
  history_truncated (evict_lines limit budget w lines bytes tr pr pend) = false ->
  evict_lines limit budget w lines bytes tr pr pend = mkHistory lines bytes tr pr pend.
Proof.
  assert (forall lines bytes pr, history_truncated (evict_lines limit budget w lines bytes true pr pend) = true) as Ht.
  { intros ls. induction ls as [|l ls IH]; intros b q; cbn [evict_lines]; destruct (_ || _); auto. }
  destruct lines; cbn [evict_lines]; destruct (_ || _); intros E; try done. by rewrite Ht in E.
Qed.

Lemma live_lines_spec g x :
  grid_ok g ->
  let rows := trim_resize_rows (main_rows g) (row (main_cursor g)) in
  strip (x ++ live_logical_lines g rows)
  = strip (x ++ collect_lines (width g) (main_rows g) (pending_history_cells (hist g)))
  /\ trim_trailing_blank_cells <$> live_logical_lines g rows = live_logical_lines g rows.
Proof.
  intros Hg. simpl. set (rows := trim_resize_rows _ _). pose proof (ok_main _ Hg) as [_ Hm].
  pose proof (strip_trim_rows (width g) (reverse (main_rows g)) (row (main_cursor g)) x (pending_history_cells (hist g))
    ltac:(by apply Forall_reverse)) as E. rewrite reverse_involutive in E. fold (trim_resize_rows (main_rows g) (row (main_cursor g))) in E.
  fold rows in E. pose proof (collect_lines_trimmed (width g) rows (pending_history_cells (hist g))) as Et.
  unfold live_logical_lines. destruct (collect_lines (width g) rows _) as [|l ls]; [|done].
  rewrite <- E, app_nil_r, strip_app_nil. done.
Qed.

(** C4: resizing keeps the text. When all cells are one column wide, no
    scrollback is evicted, and the part of a line that a resize pushes above
    the screen does not end in blanks, the logical lines of the terminal,
    scrollback and screen together, are the same after a resize to any width
    and height as before it, in order and without loss or duplication, however
    rows were wrapped or moved between screen and scrollback. *)
Theorem resize_keeps_text g w h g' shift :
  grid_ok g -> Forall narrow (pending_history_cells (hist g)) ->
  Forall (fun r => Forall narrow (cells r)) (main_rows g) ->
  resize_with_main_row_shift g w h = Ok (g', shift) ->
  history_truncated (hist g') = false -> trimmed (hidden_prefix g w h) ->
  document g' = document g.
Proof.
  intros Hg Hnp Hnr. unfold resize_with_main_row_shift. case_decide as Hz; [done|].
  case_decide as Hs; [by intros [= <- _]|]. fold (main_cursor g). unfold hidden_prefix, resize_main_viewport.
  set (rows := trim_resize_rows _ _). set (lines := live_logical_lines g rows). set (total := list_sum _).
  destruct (place_lines _ _ _ _ _ _ _ _) as [[h1 P] R] eqn:E. cbn [fst snd].
  pose proof (place_lines_split _ _ _ _ _ _ _ _ _ E) as (l1 & l2 & El & Hmh & Htr & HR).
  assert (Forall (Forall narrow) lines) as Hnl.
  { subst lines. unfold live_logical_lines. destruct (trim_resize_rows_prefix (main_rows g) (row (main_cursor g))) as [k Ek].
    fold rows in Ek. rewrite Ek in Hnr. apply Forall_app in Hnr as [Hnr _].
    pose proof (collect_lines_narrow (width g) rows _ Hnr Hnp) as H. by destruct (collect_lines _ _ _); [repeat constructor|]. }
  assert (length R <= h)%nat as HlenR.
  { apply place_lines_spec in E as (_ & _ & _ & E4); [|lia|apply live_lines_leaders|apply Hg|done|done].
    - simpl in E4. fold lines total in E4. lia.
    - destruct (trim_resize_rows_prefix (main_rows g) (row (main_cursor g))) as [k Ek]. fold rows in Ek.
      pose proof (ok_main _ Hg) as [_ Hm]. rewrite Ek in Hm. by apply Forall_app in Hm as [? _].
    - apply Hg. }
  assert (length (R ++ replicate (h - length R) PhysicalRow_new) - h = 0)%nat as ->.
  { rewrite length_app, length_replicate. lia. }
  rewrite take_0, drop_0. cbn [foldl]. intros Er Hnt Hp. rewrite (trim_of_trimmed P Hp) in Er.
  assert (main_history (hist g') = main_history (hist g) ++ l1 /\ pending_history_cells (hist g') = P
    /\ main_rows g' = R ++ replicate (h - length R) PhysicalRow_new /\ width g' = w) as (E1 & E2 & E3 & E4).
  { injection Er as <- _. cbn in Hnt |- *. revert Hnt.
    destruct (mode g), (bool_decide (width g = w)); cbn; intros Hnt; rewrite evict_untruncated by exact Hnt; by rewrite Hmh. }
  unfold document. rewrite E1, E2, E3, E4.
  rewrite (collect_placed w l1 l2 P R); [|lia|by rewrite <- El|done].
  destruct (live_lines_spec g (main_history (hist g)) Hg) as [Es Et]. fold rows lines in Es, Et. rewrite <- Es.
  rewrite El, fmap_app in Et. assert (length (trim_trailing_blank_cells <$> l1) = length l1) as Hl by apply length_fmap.
  apply app_inj_1 in Et as [_ Et]; [|done]. rewrite Et, <- !(assoc_L (++)), 2!(assoc_L (++)), strip_app_nils.
  by rewrite <- (assoc_L (++)), <- El.
Qed.

Lemma run_grid (l : list Event) g :
  Forall u16_event l -> grid <$> @run_events combining_tables example_width example_stream l = Some g -> grid_ok g.
Proof.
  intros Hl E. destruct (fresh_stream 4 2 10 example_stream ltac:(lia) ltac:(lia) eq_refl) as (Hs & _).
  destruct (@events_run combining_tables example_width example_widths example_stream l Hs Hl) as (s' & E' & [Hg _] & _).
  rewrite E' in E. by injection E as <-.
Qed.

(** [abcdefghij], of which two columns have scrolled off, from 4 by 2 to 5 by 1. *)
Lemma resize_keeps_text_witness :
  exists g g' shift,
    grid <$> @run_events combining_tables example_width example_stream [Output [97; 98; 99; 100; 101; 102; 103; 104; 105; 106]] = Some g
    /\ resize_with_main_row_shift g 5 1 = Ok (g', shift) /\ document g' = document g /\ document g <> [].
Proof.
  eassert (grid <$> @run_events combining_tables example_width example_stream
    [Output [97; 98; 99; 100; 101; 102; 103; 104; 105; 106]] = Some _) as E by (vm_compute; reflexivity).
  unshelve epose proof (run_grid _ _ _ E) as Hg; [by repeat constructor|]. revert E Hg.
  match goal with |- _ = Some ?g -> _ => intros E Hg; eassert (resize_with_main_row_shift g 5 1 = Ok (_, _)) as Er by (vm_compute; reflexivity) end.
  do 3 eexists. split; [exact E|]. split; [exact Er|]. split; [|vm_compute; discriminate].
  eapply (resize_keeps_text _ 5 1 _ _ Hg); [| |exact Er|reflexivity|].
  - vm_compute. repeat constructor; discriminate.
  - vm_compute. repeat constructor; discriminate.
  - intros c Hc. vm_compute in Hc. by injection Hc as <-.
Defined.
