(* ===== verification/GridOps.v ===== *)
(** * What the screen operations do

    The scroll loops move rows as a rotation with blank rows shifted in, and a
    printed character lands in the cell under the cursor. *)

From S2P Require Import Prelude Utf8 TextStr GridCell GridCellProps Pointer Grid GridInvariant GridStream GridProps.

(** ** Scrolling *)

(** The row that blank rows of a grid are made of. *)
Definition fill_row (g : TerminalGrid) : PhysicalRow := erase_filled (width g) (erase_style g).2.

(** [g'] is [g] with other rows on the active screen. *)
Definition same_but_rows (g g' : TerminalGrid) : Prop := g' = set_viewport_rows g (viewport_rows g').

Lemma set_viewport_twice g a b : set_viewport_rows (set_viewport_rows g a) b = set_viewport_rows g b.
Proof. unfold set_viewport_rows. by destruct g as [??????[]]. Qed.

Lemma same_trans g g1 g2 : same_but_rows g g1 -> same_but_rows g1 g2 -> same_but_rows g g2.
Proof. unfold same_but_rows. intros E1 E2. rewrite E2 at 1. rewrite E1 at 1. apply set_viewport_twice. Qed.

Lemma same_refl g : same_but_rows g g.
Proof. unfold same_but_rows, set_viewport_rows, viewport_rows. by destruct g as [??????[]]. Qed.

Lemma same_width g g' : same_but_rows g g' -> width g' = width g.
Proof. intros ->. unfold set_viewport_rows. by destruct (mode g). Qed.

Lemma set_row_rows g r value :
  (r < length (viewport_rows g))%nat ->
  exists g', set_viewport_row g r value = Some g' /\ viewport_rows g' = <[r := value]> (viewport_rows g) /\ same_but_rows g g'.
Proof.
  intros Hr. unfold set_viewport_row, active_row_mut. destruct (lookup_lt_is_Some_2 _ _ Hr) as [old E]. rewrite E. simpl.
  eexists. split; [done|]. unfold same_but_rows. by rewrite viewport_set.
Qed.

(** The copying pass of [scroll_region_up]. *)
Lemma pass_up g top k :
  (top + k < length (viewport_rows g))%nat ->
  exists g', each (fun g r => next ← viewport_rows g !! (r + 1)%nat; set_viewport_row g r next) (seq top k) g = Some g'
    /\ same_but_rows g g' /\ length (viewport_rows g') = length (viewport_rows g)
    /\ forall i, viewport_rows g' !! i
       = if decide (top <= i < top + k)%nat then viewport_rows g !! (i + 1)%nat else viewport_rows g !! i.
Proof.
  revert g top. induction k as [|k IH]; intros g top Hk; cbn [seq each].
  { exists g. split_and!; [done|apply same_refl|done|]. intros i. by rewrite decide_False by lia. }
  destruct (lookup_lt_is_Some_2 (viewport_rows g) (top + 1)) as [next En]; [lia|]. rewrite En. cbn [mbind option_bind].
  destruct (set_row_rows g top next) as (g1 & -> & E1 & S1); [lia|]. cbn [mbind option_bind].
  destruct (IH g1 (S top)) as (g2 & -> & S2 & L2 & H2); [rewrite E1, length_insert; lia|].
  exists g2. split_and!; [done|by eapply same_trans|by rewrite L2, E1, length_insert|].
  intros i. rewrite H2, E1. repeat case_decide; try lia.
  - by rewrite list_lookup_insert_ne by lia.
  - assert (i = top) as -> by lia. rewrite list_lookup_insert_eq by lia. by rewrite En.
  - by rewrite list_lookup_insert_ne by lia.
Qed.

(** The copying pass of [scroll_region_down], from the last row up. *)
Lemma pass_down g top k :
  (top + k < length (viewport_rows g))%nat ->
  exists g', each (fun g r => previous ← viewport_rows g !! (r - 1)%nat; set_viewport_row g r previous) (reverse (seq (top + 1) k)) g = Some g'
    /\ same_but_rows g g' /\ length (viewport_rows g') = length (viewport_rows g)
    /\ forall i, viewport_rows g' !! i
       = if decide (top < i <= top + k)%nat then viewport_rows g !! (i - 1)%nat else viewport_rows g !! i.
Proof.
  revert g. induction k as [|k IH]; intros g Hk.
  { exists g. split_and!; [done|apply same_refl|done|]. intros i. by rewrite decide_False by lia. }
  rewrite seq_S, reverse_snoc. cbn [each].
  destruct (lookup_lt_is_Some_2 (viewport_rows g) (top + 1 + k - 1)) as [prev En]; [lia|]. rewrite En. cbn [mbind option_bind].
  destruct (set_row_rows g (top + 1 + k) prev) as (g1 & -> & E1 & S1); [lia|]. cbn [mbind option_bind].
  destruct (IH g1) as (g2 & -> & S2 & L2 & H2); [rewrite E1, length_insert; lia|].
  exists g2. split_and!; [done|by eapply same_trans|by rewrite L2, E1, length_insert|].
  intros i. rewrite H2, E1. repeat case_decide; try lia.
  - by rewrite list_lookup_insert_ne by lia.
  - assert (i = top + 1 + k)%nat as -> by lia. rewrite list_lookup_insert_eq by lia. by rewrite En.
  - by rewrite list_lookup_insert_ne by lia.
Qed.

(** Row [i] after scrolling rows [top..=bottom] up, or down, by [n]. *)
Definition scrolled_up (rows : list PhysicalRow) (top bottom n : nat) (fill : PhysicalRow) (i : nat) : option PhysicalRow :=
  if decide (top <= i <= bottom)%nat then (if decide (i + n <= bottom)%nat then rows !! (i + n)%nat else Some fill) else rows !! i.

Definition scrolled_down (rows : list PhysicalRow) (top bottom n : nat) (fill : PhysicalRow) (i : nat) : option PhysicalRow :=
  if decide (top <= i <= bottom)%nat then (if decide (top + n <= i)%nat then rows !! (i - n)%nat else Some fill) else rows !! i.

Lemma loop_up g top bottom s n style :
  (top <= bottom < length (viewport_rows g))%nat -> (n <= bottom - top + 1)%nat ->
  exists g', each (fun g _ =>
      g ← each (fun g r => next ← viewport_rows g !! (r + 1)%nat; set_viewport_row g r next) (seq top (bottom - top)) g;
      fill_viewport_row g bottom style) (seq s n) g = Some g'
    /\ same_but_rows g g' /\ length (viewport_rows g') = length (viewport_rows g)
    /\ forall i, viewport_rows g' !! i = scrolled_up (viewport_rows g) top bottom n (erase_filled (width g) style) i.
Proof.
  revert g s. induction n as [|n IH]; intros g s Hb Hn; cbn [seq each].
  { exists g. split_and!; [done|apply same_refl|done|]. intros i. unfold scrolled_up. rewrite Nat.add_0_r. repeat case_decide; try done; lia. }
  destruct (pass_up g top (bottom - top)) as (g1 & -> & S1 & L1 & H1); [lia|]. cbn [mbind option_bind].
  destruct (set_row_rows g1 bottom (erase_filled (width g1) style)) as (g2 & E2 & R2 & S2); [lia|].
  unfold fill_viewport_row at 2. rewrite E2. cbn [mbind option_bind].
  destruct (IH g2 (S s)) as (g3 & E3 & S3 & L3 & H3); [rewrite R2, length_insert; lia|lia|]. rewrite E3.
  exists g3. split_and!; [done|by eapply same_trans, same_trans|by rewrite L3, R2, length_insert|].
  intros i. rewrite H3. unfold scrolled_up. rewrite R2, (same_width _ _ S2), (same_width _ _ S1).
  assert (forall j, <[bottom := erase_filled (width g) style]> (viewport_rows g1) !! j
    = if decide (j = bottom) then Some (erase_filled (width g) style) else
      if decide (top <= j < bottom)%nat then viewport_rows g !! (j + 1)%nat else viewport_rows g !! j) as Hj.
  { intros j. destruct (decide (j = bottom)) as [->|]; [by rewrite list_lookup_insert_eq by lia|].
    rewrite list_lookup_insert_ne, H1 by done. by replace (top + (bottom - top))%nat with bottom by lia. }
  rewrite !Hj. repeat case_decide; try lia; try done. f_equal. lia.
Qed.

Lemma loop_down g top bottom s n style :
  (top <= bottom < length (viewport_rows g))%nat -> (n <= bottom - top + 1)%nat ->
  exists g', each (fun g _ =>
      g ← each (fun g r => previous ← viewport_rows g !! (r - 1)%nat; set_viewport_row g r previous)
            (reverse (seq (top + 1) (bottom - top))) g;
      fill_viewport_row g top style) (seq s n) g = Some g'
    /\ same_but_rows g g' /\ length (viewport_rows g') = length (viewport_rows g)
    /\ forall i, viewport_rows g' !! i = scrolled_down (viewport_rows g) top bottom n (erase_filled (width g) style) i.
Proof.
  revert g s. induction n as [|n IH]; intros g s Hb Hn; cbn [seq each].
  { exists g. split_and!; [done|apply same_refl|done|]. intros i. unfold scrolled_down. rewrite Nat.sub_0_r. repeat case_decide; try done; lia. }
  destruct (pass_down g top (bottom - top)) as (g1 & -> & S1 & L1 & H1); [lia|]. cbn [mbind option_bind].
  destruct (set_row_rows g1 top (erase_filled (width g1) style)) as (g2 & E2 & R2 & S2); [lia|].
  unfold fill_viewport_row at 2. rewrite E2. cbn [mbind option_bind].
  destruct (IH g2 (S s)) as (g3 & E3 & S3 & L3 & H3); [rewrite R2, length_insert; lia|lia|]. rewrite E3.
  exists g3. split_and!; [done|by eapply same_trans, same_trans|by rewrite L3, R2, length_insert|].
  intros i. rewrite H3. unfold scrolled_down. rewrite R2, (same_width _ _ S2), (same_width _ _ S1).
  assert (forall j, <[top := erase_filled (width g) style]> (viewport_rows g1) !! j
    = if decide (j = top) then Some (erase_filled (width g) style) else
      if decide (top < j <= bottom)%nat then viewport_rows g !! (j - 1)%nat else viewport_rows g !! j) as Hj.
  { intros j. destruct (decide (j = top)) as [->|]; [by rewrite list_lookup_insert_eq by lia|].
    rewrite list_lookup_insert_ne, H1 by done. by replace (top + (bottom - top))%nat with bottom by lia. }
  rewrite !Hj. repeat case_decide; try lia; try done. f_equal. lia.
Qed.

Lemma palette_rows g p : viewport_rows (set_palette g p) = viewport_rows g /\ width (set_palette g p) = width g.
Proof. done. Qed.

(** C20: the scroll loops are rotations. Scrolling rows [top] to [bottom] of
    the active screen up (or down) by [count] moves every row of the region by
    that many places, fills the rows that come in with the erase colour, drops
    the ones pushed out, and leaves the rows outside the region, the scrollback
    and the cursor alone; a count beyond the region clears it. *)
Theorem scrolling_rotates_region g top bottom count :
  grid_ok g -> (top <= bottom < height g)%nat ->
  let n := Nat.min count (bottom - top + 1) in
  (exists g', scroll_region_up g top bottom count = Some g' /\ hist g' = hist g /\ cursor g' = cursor g
     /\ forall i, viewport_rows g' !! i = scrolled_up (viewport_rows g) top bottom n (fill_row g) i)
  /\ (exists g', scroll_region_down g top bottom count = Some g' /\ hist g' = hist g /\ cursor g' = cursor g
     /\ forall i, viewport_rows g' !! i = scrolled_down (viewport_rows g) top bottom n (fill_row g) i).
Proof.
  intros Hg Hb n. destruct (viewport_screen g Hg) as [Hl _].
  assert (forall a b, same_but_rows a b -> hist b = hist a /\ cursor b = cursor a) as Hsame.
  { intros a b ->. unfold set_viewport_rows. by destruct (mode a). }
  split.
  - unfold scroll_region_up. rewrite decide_False by lia. set (g1 := if decide _ then _ else g).
    assert (viewport_rows g1 = viewport_rows g /\ width g1 = width g /\ hist g1 = hist g /\ cursor g1 = cursor g
      /\ (erase_style g1).2 = (erase_style g).2) as (E1 & E2 & E3 & E4 & E5).
    { subst g1. case_decide; [|done]. split_and!; try done. unfold erase_style. cbn. case_decide; [done|]. by destruct (intern _ _). }
    destruct (erase_style_palette g1) as [p ->]. destruct (loop_up (set_palette g1 p) top bottom 0 n (erase_style g1).2)
      as (g' & E & S & _ & H); [destruct (palette_rows g1 p) as [-> _]; rewrite E1; lia|lia|].
    exists g'. destruct (Hsame _ _ S) as [Hh Hc]. split_and!; [done|by rewrite Hh|by rewrite Hc|].
    intros i. rewrite H. destruct (palette_rows g1 p) as [-> ->]. unfold fill_row. by rewrite E1, E2, E5.
  - unfold scroll_region_down. rewrite decide_False by lia.
    destruct (erase_style_palette g) as [p ->]. destruct (loop_down (set_palette g p) top bottom 0 n (erase_style g).2)
      as (g' & E & S & _ & H); [destruct (palette_rows g p) as [-> _]; lia|lia|].
    exists g'. destruct (Hsame _ _ S) as [Hh Hc]. split_and!; [done|by rewrite Hh|by rewrite Hc|].
    intros i. rewrite H. by destruct (palette_rows g p) as [-> ->].
Qed.

Lemma scrolling_rotates_region_witness :
  (0 <= 1 < 2)%nat /\ exists g', scroll_region_up (grid example_stream) 0 1 1 = Some g' /\ hist g' = hist (grid example_stream).
Proof.
  split; [lia|].
  destruct (fresh_stream 4 2 10 example_stream ltac:(lia) ltac:(lia) eq_refl) as ([Hg _] & _).
  destruct (scrolling_rotates_region (grid example_stream) 0 1 1 Hg ltac:(simpl; lia)) as [(g' & E & H & _) _].
  exists g'. split; [exact E|exact H].
Defined.

(** ** Printing *)

Lemma position_lookup styles s i : position styles s = Some i -> styles !! i = Some s.
Proof.
  revert i. induction styles as [|t styles IH]; intros i; simpl; [done|].
  case_decide; [by intros [= <-]; subst|]. intros (j & E & ->)%fmap_Some. by apply IH.
Qed.

(** Interning a style and resolving its identifier gives the style back, as long
    as identifiers are left. *)
Lemma intern_get p s :
  Z.of_nat (length p) <= max_u 32 -> palette_get (intern p s).1 (intern p s).2 = s.
Proof.
  intros Hp. unfold intern, palette_get, style_id, StylePalette in *.
  destruct (position p s) as [i|] eqn:E; cbn [fst snd].
  - apply position_lookup in E. pose proof (lookup_lt_Some _ _ _ E).
    rewrite decide_True by lia. by rewrite E.
  - rewrite decide_True by done. by rewrite lookup_app_r, Nat.sub_diag by lia.
Qed.

Lemma bind3 {A : Type} (a : option A) (b c k : A -> option A) :
  (x ← a; x ← b x; x ← c x; k x) = (x ← (x ← a; x ← b x; c x); k x).
Proof. destruct a as [x|]; [|done]. simpl. by destruct (b x). Qed.

Section print.
Context {U : UnicodeTables}.
Context (char_width : Z -> option Z).

(** C21: a printed character lands under the cursor. Outside insert mode and
    with no wrap to carry out (none pending, or wrapping is off), a printable ASCII
    character becomes the cell at the cursor, in the current style (as long as
    fewer than 2^32 styles are interned); the other cells of the row keep their
    content, except that the other half of a wide character it cuts is blanked;
    no other row and no scrollback changes; the cursor moves right, or stays at
    the margin with a wrap pending when wrapping is on. *)
Theorem printed_character_lands g ch :
  grid_ok g -> 32 <= ch <= 126 -> char_width ch = Some 1 ->
  insert_mode (terminal_state g) = false -> autowrap g && pending_wrap g = false ->
  let r := row (cursor g) in
  let c := col (cursor g) in
  exists g' old new id, print_char char_width g ch = Some g' /\ viewport_rows g !! r = Some old
    /\ viewport_rows g' = <[r := new]> (viewport_rows g)
    /\ (forall i, cell_at (cells new) i = if decide (i = c) then Cell_new [ch] id 1
                                          else erased (cell_at (cells old)) c (c + 1) id i)
    /\ (Z.of_nat (length (palette g)) <= max_u 32 ->
        palette_get (palette g') id = current_style g)
    /\ cursor g' = mkCursor r (Nat.min (c + 1) (width g - 1)) (visible (cursor g))
    /\ pending_wrap g' = autowrap g && bool_decide (c + 1 = width g)%nat
    /\ hist g' = hist g.
Proof.
  intros Hg Hch Hw Hi Hp. pose proof (ok_col _ Hg) as Hc. pose proof (ok_row _ Hg) as Hr. simpl.
  destruct (viewport_lookup g (row (cursor g)) Hg Hr) as (old & Eo & Ho).
  unfold print_char, extend_grapheme. rewrite decide_True by lia. cbn [mbind option_bind]. rewrite Hw.
  change (default 0 (Some 1)) with 1. rewrite decide_False by done. change (Z.to_nat (Z.min 1 2)) with 1%nat. unfold print_grapheme.
  rewrite Hp. cbn [mbind option_bind].
  rewrite (bool_decide_eq_false_2 (width g < _)%nat) by lia. rewrite andb_false_r. cbn [mbind option_bind].
  pose proof (intern_get (palette g) (current_style g)) as Hget.
  unfold intern_current. destruct (intern (palette g) (current_style g)) as [p id]. cbn [fst snd] in Hget.
  set (g1 := set_palette g p). assert (grid_ok g1) as Hg1 by (by apply (ok_palette g g p)).
  rewrite decide_False by (simpl; lia). change (insert_mode (terminal_state g1)) with (insert_mode (terminal_state g)).
  rewrite Hi. cbn [mbind option_bind].
  pose proof (print_row_updates g1 (row (cursor g)) (col (cursor g)) [ch] id 1 ltac:(lia) ltac:(simpl; lia) Hg1 Hr) as E.
  change (cursor g1) with (cursor g). rewrite bind3. rewrite E. unfold active_row_mut.
  change (viewport_rows g1) with (viewport_rows g). rewrite Eo. cbn [mbind option_bind].
  set (new := put_cell old _ _). set (g3 := set_viewport_rows g1 _).
  assert (width g3 = width g /\ autowrap g3 = autowrap g /\ cursor g3 = cursor g /\ palette g3 = p /\ hist g3 = hist g)
    as (W3 & A3 & C3 & P3 & H3) by (subst g3; unfold set_viewport_rows; by destruct (mode g1)).
  assert (viewport_rows g3 = <[row (cursor g) := new]> (viewport_rows g)) as V3 by apply viewport_set.
  eexists _, old, new, id. split; [done|]. split; [done|]. set (full := decide (width g3 <= _)%nat). split_and!.
  - rewrite <- V3. by destruct full.
  - intros i. subst new. rewrite cell_at_put_cell; [done|by eapply row_ok_cells| |simpl; lia].
    apply new_cell_ok; [done|done|by left].
  - intros Hids. rewrite <- (Hget Hids), <- P3. by destruct full.
  - destruct full; unfold at_col; simpl; rewrite C3, ?W3 in *; f_equal; lia.
  - destruct full; simpl; rewrite ?A3.
    + rewrite bool_decide_eq_true_2 by lia. by rewrite andb_true_r.
    + rewrite bool_decide_eq_false_2 by lia. by rewrite andb_false_r.
  - rewrite <- H3. by destruct full.
Qed.
End print.

Lemma printed_character_lands_witness :
  exists g', @print_char combining_tables example_width (grid example_stream) 97 = Some g' /\ col (cursor g') = 1%nat.
Proof.
  destruct (fresh_stream 4 2 10 example_stream ltac:(lia) ltac:(lia) eq_refl) as ([Hg _] & _).
  destruct (@printed_character_lands combining_tables example_width (grid example_stream) 97 Hg ltac:(lia) eq_refl eq_refl eq_refl)
    as (g' & old & new & id & E & _ & _ & _ & _ & Hc & _).
  exists g'. split; [exact E|]. rewrite Hc. reflexivity.
Defined.
