(* ===== verification/PointerProps.v ===== *)
(** * Pointer-shape requests

    The request encoders against the decoder and the tracker, and what the
    tmux passthrough accepts. *)

From S2P Require Import Prelude VtParser Pointer Grid GridStream.

Lemma from_name_as_str shape : from_name (as_str shape) = Some shape.
Proof. by destruct shape. Qed.

Lemma from_name_Some name shape : from_name name = Some shape -> name = as_str shape.
Proof. intros [_ E]%find_some. by apply bool_decide_eq_true in E. Qed.

(** The stacks after an operation on the active screen. *)
Definition on_active (p : ProtocolState) (alternate : bool) (f : PointerShapeStack -> PointerShapeStack) : PointerShapeState :=
  let s := pointer_shapes p in
  if alternate then mkPointers (main_stack s) (f (alternate_stack s)) else mkPointers (f (main_stack s)) (alternate_stack s).

(** A tracker in ground state reads a request as the operation its payload
    parses to. *)
Lemma tracker_request p alternate bytes payload op f :
  bytes <> [] -> (vt_advance VtParser.new bytes).2 = [AOscDispatch [[50; 50]; payload] false] ->
  parse_pointer_shape payload = Some op -> (forall s, apply_stack s op = f s) ->
  pointer_shapes (t_protocol (tracker_process (tracker_restore p alternate []) bytes).1) = on_active p alternate f.
Proof.
  intros Hb E Hop Hf. unfold tracker_process. rewrite decide_False by done.
  change (t_parser (tracker_restore p alternate [])) with VtParser.new.
  destruct (vt_advance VtParser.new bytes) as [p' acts]. cbn [snd] in E. subst acts.
  cbn -[parse_pointer_shape pointer_apply]. rewrite Hop. unfold pointer_apply, on_active. rewrite <- !Hf.
  by destruct alternate.
Qed.

Ltac request payload := eapply (tracker_request _ _ _ payload); [done|vm_compute; reflexivity|vm_compute; reflexivity|reflexivity].

(** C39: the pointer-shape encoders and the terminal agree. The bytes written
    to set, push, unset or pop a pointer shape, decoded and applied by a
    tracker between sequences, do exactly that to the stack of the active
    screen and nothing to the other screen's. *)
Theorem pointer_requests_take_effect p alternate shape :
  let after bytes := pointer_shapes (t_protocol (tracker_process (tracker_restore p alternate []) bytes).1) in
  after (encode_pointer_shape_set (Some shape)) = on_active p alternate (fun s => stack_set s (Some shape))
  /\ after (encode_pointer_shape_set None) = on_active p alternate (fun s => stack_set s None)
  /\ after (encode_pointer_shape_push shape) = on_active p alternate (fun s => stack_push s shape)
  /\ after encode_pointer_shape_pop = on_active p alternate stack_pop.
Proof.
  cbv zeta. split_and!.
  - destruct shape; match goal with |- context [Some ?x] => request (as_str x) end.
  - request (@nil Z).
  - destruct shape; match goal with |- context [encode_pointer_shape_push ?x] => request (62 :: as_str x) end.
  - request [60].
Qed.

(** The sequences the passthrough is meant for. *)
Definition pointer_encoding (sequence : list Z) : Prop :=
  sequence = encode_pointer_shape_set None \/ sequence = encode_pointer_shape_pop
  \/ exists shape, sequence = encode_pointer_shape_set (Some shape) \/ sequence = encode_pointer_shape_push shape.

Lemma strip_front_Some prefix l rest : strip_front prefix l = Some rest -> l = prefix ++ rest.
Proof. unfold strip_front. case_decide as E; [|done]. intros [= <-]. by rewrite <- E at 1; rewrite take_drop. Qed.

Lemma strip_back_Some suffix l rest : strip_back suffix l = Some rest -> l = rest ++ suffix.
Proof. unfold strip_back. case_decide as E; [|done]. intros [= <-]. etrans; [symmetry; apply (take_drop (length l - length suffix))|by rewrite E]. Qed.

Lemma tmux_valid_encoding payload : tmux_valid payload = true -> pointer_encoding (OSC22 ++ payload ++ ST).
Proof.
  assert (forall name, bool_decide (is_Some (from_name name)) = true -> exists shape, name = as_str shape) as Hname.
  { intros name [shape E]%bool_decide_eq_true. exists shape. by apply from_name_Some. }
  intros H. unfold pointer_encoding. destruct payload as [|b payload]; [by left|].
  destruct (decide (b = 62)) as [->|Hb].
  { destruct (Hname payload H) as [shape ->]. right; right. exists shape. by right. }
  destruct (decide (b :: payload = [60])) as [[= -> ->]|Hp]; [by right; left|].
  assert (bool_decide (is_Some (from_name (b :: payload))) = true) as H'.
  { revert H. unfold tmux_valid. repeat (case_match; try done). }
  destruct (Hname _ H') as [shape E]. right; right. exists shape. left. by rewrite E.
Qed.

(** C40: the tmux passthrough wraps the pointer requests and nothing else. It
    accepts a sequence exactly when one of the encoders writes it, for one of
    the thirty shapes, and then sends it between the passthrough markers with
    every ESC doubled. *)
Theorem tmux_wraps_exactly_pointer_requests sequence out :
  encode_pointer_shape_tmux sequence = Some out
  <-> pointer_encoding sequence /\ out = [27; 80] ++ shape_chars "tmux;" ++ double_escapes sequence ++ ST.
Proof.
  split.
  - unfold encode_pointer_shape_tmux. case_decide as Hlen; [done|]. intros (body & E1 & H)%bind_Some.
    apply bind_Some in H as (payload & E2 & H). destruct (tmux_valid payload) eqn:Ev; [|done]. injection H as <-.
    apply strip_front_Some in E1 as ->. apply strip_back_Some in E2 as ->. split; [by apply tmux_valid_encoding|done].
  - intros [H ->]. destruct H as [-> | [-> | [shape [-> | ->]]]]; [| |destruct shape..]; vm_compute; reflexivity.
Qed.
