(* ===== verification/Snapshot.v ===== *)
(** * Snapshots of the terminal grid

    What a grid sends to another process and how a grid is rebuilt from it
    (packages/terminal-grid/src/snapshot.rs; [from_snapshot], the windows over
    the retained rows and their helpers of model.rs; the stream's [snapshot]
    and [from_snapshot] of parser.rs). Storage budgets are left out: the
    functions here are the ones called with an unlimited budget, and
    allocation does not fail. *)

From S2P Require Import Prelude Utf8 TextStr VtParser GridCell Pointer Grid GridStream.

Local Open Scope bmux_scope.

(** [u16::try_from(n).unwrap_or(u16::MAX)] and its 32-bit sibling. *)
Definition to_u16 (n : nat) : nat := if decide (Z.of_nat n < 2 ^ 16) then n else Z.to_nat (2 ^ 16 - 1).
Definition to_u32 (n : nat) : nat := if decide (Z.of_nat n < 2 ^ 32) then n else Z.to_nat (2 ^ 32 - 1).

(** ** Rows as runs of equal style *)

Record CellRunSnapshot := mkRun {
  start_col : nat;
  run_text : list Z;
  run_style : nat;
}.

Record RowSnapshot := mkRowSnapshot {
  row_wrapped : bool;
  row_runs : list CellRunSnapshot;
}.

#[export] Instance CellRunSnapshot_eq_dec : EqDecision CellRunSnapshot.
Proof. solve_decision. Defined.
#[export] Instance RowSnapshot_eq_dec : EqDecision RowSnapshot.
Proof. solve_decision. Defined.

Definition flush_run (start : nat) (style : option nat) (text : list Z) : list CellRunSnapshot :=
  if decide (text = []) then [] else [mkRun (to_u16 start) text (default DEFAULT style)].

(** The loop of [row_snapshot] over the cells from column [index] on, with the
    run being collected. *)
Fixpoint snapshot_runs (index : nat) (l : list Cell) (start : nat) (style : option nat) (text : list Z)
  : list CellRunSnapshot :=
  match l with
  | [] => flush_run start style text
  | c :: l =>
      if c_cont c then snapshot_runs (S index) l start style text
      else if is_discardable_blank c && bool_decide (text = []) then snapshot_runs (S index) l start style text
      else if decide (style = Some (c_style c)) then snapshot_runs (S index) l start style (text ++ c_text c)
      else flush_run start style text ++ snapshot_runs (S index) l index (Some (c_style c)) (c_text c)
  end.

Definition row_snapshot (r : PhysicalRow) : RowSnapshot :=
  let effective_len := length (trim_trailing_blank_cells (cells r)) in
  mkRowSnapshot (wrapped r) (snapshot_runs 0 (take effective_len (cells r)) 0 None []).

(** ** Windows over the retained rows *)

Definition projected_pending_row_count (l : list Cell) (w : nat) : nat :=
  if decide (l = []) then 0%nat else projected_row_count l w.

Definition scrollback_rows_hint (g : TerminalGrid) : nat :=
  match mode g with
  | Main => history_projected_row_count (hist g) (width g)
            + projected_pending_row_count (pending_history_cells (hist g)) (width g)
            + (length (main_rows g) - height g)
  | Alternate => 0
  end.

Definition main_row_count (g : TerminalGrid) : nat :=
  history_projected_row_count (hist g) (width g)
  + projected_pending_row_count (pending_history_cells (hist g)) (width g) + length (main_rows g).

Definition display_row_count (g : TerminalGrid) : nat :=
  match mode g with Main => main_row_count g | Alternate => length (alt_rows g) end.

Definition max_scrollback_offset (g : TerminalGrid) : nat := display_row_count g - height g.

(** The rows of a logical line with indexes [start..stop]. *)
Definition project_logical_line_window (l : list Cell) (w start stop : nat) : list PhysicalRow :=
  take (stop - start) (drop start (project_logical_line l w)).

(** The loops of [try_display_rows_charged]: live rows from the last one up,
    then the open line and the history, newest first. *)
Fixpoint select_live (rows : nat) (l : list PhysicalRow) (skip : nat) (selected : list PhysicalRow)
  : nat * list PhysicalRow :=
  match l, skip with
  | [], _ => (skip, selected)
  | _ :: l, S skip => select_live rows l skip selected
  | r :: l, O => if decide (length selected = rows) then (skip, selected) else select_live rows l skip (selected ++ [r])
  end.

Fixpoint select_lines (w rows : nat) (lines : list (list Cell * bool)) (skip : nat) (selected : list PhysicalRow)
  : list PhysicalRow :=
  match lines with
  | [] => selected
  | (line, pending) :: lines =>
      if decide (length selected = rows) then selected
      else
        let count := projected_row_count line w in
        if decide (count <= skip)%nat then select_lines w rows lines (skip - count) selected
        else
          let stop := (count - skip)%nat in
          let start := (stop - (rows - length selected))%nat in
          let projected := project_logical_line_window line w start stop in
          select_lines w rows lines 0
            (selected ++ ((fun r => if pending then set_wrapped r true else r) <$> reverse projected))
  end.

Definition try_display_rows (g : TerminalGrid) (offset rows : nat) (main : bool) : list PhysicalRow :=
  if negb main && bool_decide (mode g = Alternate) then
    let stop := (length (alt_rows g) - offset)%nat in
    let start := (stop - rows)%nat in
    take (stop - start) (drop start (alt_rows g))
  else
    let h := hist g in
    let '(skip, selected) := select_live rows (reverse (main_rows g)) offset [] in
    let open_line := if decide (pending_history_cells h = []) then [] else [(pending_history_cells h, true)] in
    let lines := open_line ++ ((fun line => (line, false)) <$> reverse (main_history h)) in
    reverse (select_lines (width g) rows lines skip selected).

(** ** The snapshot *)

Record GridSnapshot := mkSnapshot {
  s_state_version : Z;
  s_terminal_state : TerminalState;
  s_retained_alt_rows : option (list RowSnapshot);
  s_history_truncated : option bool;
  s_revision : Z;
  s_content_revision : Z;
  s_width : nat;
  s_height : nat;
  s_mode : string;
  s_scrollback_rows : nat;
  s_total_scrolled_rows : option Z;
  s_cursor : Cursor;
  s_saved_cursor : Cursor;
  s_saved_pending_wrap : bool;
  s_characters : CharacterState;
  s_saved_characters : CharacterState;
  s_current_style : Style;
  s_autowrap : bool;
  s_pending_wrap : bool;
  s_scroll_region : option (nat * nat);
  s_protocol : ProtocolState;
  s_pending_bytes : list Z;
  s_styles : list Style;
  s_rows : list RowSnapshot;
  s_main_rows : option (list RowSnapshot);
}.

Definition cursor_snapshot (c : Cursor) : Cursor := mkCursor (to_u16 (row c)) (to_u16 (col c)) (visible c).

Definition GridSnapshot_from_grid (g : TerminalGrid) (scrollback_offset rows : nat) : GridSnapshot :=
  let requested_rows := if decide (Z.of_nat rows = 2 ^ 64 - 1) then height g else Nat.max rows (height g) in
  let scrollback := to_u32 (scrollback_rows_hint g) in
  mkSnapshot 1 (terminal_state g)
    (if decide (mode g = Main) then Some (row_snapshot <$> alt_rows g) else None)
    (Some (history_truncated (hist g) || bool_decide (scrollback < max_scrollback_offset g)%nat))
    (revision (revs g)) (content_revision (revs g)) (to_u16 (width g)) (to_u16 (height g))
    (if decide (mode g = Main) then "main" else "alternate")
    scrollback (Some (total_scrolled_rows (revs g)))
    (cursor_snapshot (cursor g)) (cursor_snapshot (saved_cursor g)) (saved_pending_wrap g)
    (characters g) (saved_characters g) (current_style g) (autowrap g) (pending_wrap g)
    ((fun '(top, bottom) => (to_u16 top, to_u16 bottom)) <$> scroll_region g) (protocol g) [] (palette g)
    (row_snapshot <$> try_display_rows g scrollback_offset requested_rows false)
    (if decide (mode g = Alternate) then Some (row_snapshot <$> try_display_rows g 0 requested_rows true) else None).

(** ** Validation *)

Section hydration.
Context {U : UnicodeTables}.

(** [UnicodeWidthStr::width(grapheme).min(2)]. *)
Definition grapheme_columns (t : list Z) : nat := Z.to_nat (Z.min (str_width t) 2).

(** The column after the graphemes of a run. *)
Fixpoint validate_graphemes (w stop : nat) (l : list (list Z)) : result string nat :=
  match l with
  | [] => Ok stop
  | t :: l =>
      let columns := grapheme_columns t in
      if decide (columns = 0 \/ w - stop < columns)%nat then Err "invalid retained alternate glyph"
      else validate_graphemes w (stop + columns) l
  end.

Fixpoint validate_runs (w styles stop : nat) (runs : list CellRunSnapshot) : result string unit :=
  match runs with
  | [] => Ok tt
  | run :: runs =>
      let start := start_col run in
      if decide (start < stop \/ w <= start \/ run_text run = [] \/ styles <= run_style run)%nat
      then Err "invalid retained alternate run"
      else let? stop := validate_graphemes w start (graphemes (run_text run)) in validate_runs w styles stop runs
  end.

Fixpoint validate_rows (w styles : nat) (rows : list RowSnapshot) : result string unit :=
  match rows with
  | [] => Ok tt
  | r :: rows => let? _ := validate_runs w styles 0 (row_runs r) in validate_rows w styles rows
  end.

Definition validate_retained_alternate (rows : option (list RowSnapshot)) (md : string) (w h styles : nat)
  : result string unit :=
  match rows with
  | None => Ok tt
  | Some rows =>
      if decide (md <> "main" \/ length rows <> h) then Err "invalid retained alternate screen"
      else validate_rows w styles rows
  end.

(** [stops.windows(2).any(|pair| pair[0] >= pair[1])]. *)
Fixpoint decreasing_pair (l : list nat) : bool :=
  match l with
  | a :: ((b :: _) as rest) => bool_decide (b <= a)%nat || decreasing_pair rest
  | _ => false
  end.

Definition TerminalState_validate (version : Z) (t : TerminalState) (w : nat) : result string unit :=
  if decide (version <> 1) then Err "unsupported terminal state version"
  else
    match tab_stops t with
    | Some stops =>
        if existsb (fun c => bool_decide (w <= c)%nat) stops || decreasing_pair stops
        then Err "invalid terminal tab stops" else Ok tt
    | None => Ok tt
    end.

Definition region_invalid (region : option (nat * nat)) (h : nat) : bool :=
  match region with
  | Some (top, bottom) => bool_decide (bottom <= top \/ h <= bottom)%nat
  | None => false
  end.

Definition validate_terminal_state (s : GridSnapshot) : result string unit :=
  let? _ := TerminalState_validate (s_state_version s) (s_terminal_state s) (s_width s) in
  if region_invalid (s_scroll_region s) (s_height s) then Err "invalid scrolling region"
  else validate_retained_alternate (s_retained_alt_rows s) (s_mode s) (s_width s) (s_height s) (length (s_styles s)).

(** ** Rebuilding a grid *)

Fixpoint place_graphemes (w style col : nat) (l : list (list Z)) (r : PhysicalRow) : PhysicalRow :=
  match l with
  | [] => r
  | t :: l =>
      let char_width := grapheme_columns t in
      if decide (char_width = 0)%nat then place_graphemes w style col l r
      else if decide (w <= col)%nat then r
      else
        let r := set_cell r col (Cell_new t style char_width) in
        let r := if bool_decide (char_width = 2%nat) && bool_decide (col + 1 < w)%nat
                 then set_cell r (col + 1) (spacer style) else r in
        place_graphemes w style (col + char_width) l r
  end.

Definition row_from_snapshot (s : RowSnapshot) (w : nat) : PhysicalRow :=
  foldl (fun r run => place_graphemes w (run_style run) (Nat.min (start_col run) (w - 1)) (graphemes (run_text run)) r)
    (set_wrapped PhysicalRow_new (row_wrapped s)) (row_runs s).

Fixpoint hydrate_logical_history (rows : list PhysicalRow) (w : nat) (history : list (list Cell)) (pending : list Cell)
  : list (list Cell) * list Cell :=
  match rows with
  | [] => (history, pending)
  | r :: rows =>
      let pending := pending ++ row_logical_cells r w in
      if wrapped r then hydrate_logical_history rows w history pending
      else hydrate_logical_history rows w (history ++ [trim_trailing_blank_cells pending]) []
  end.

Definition from_styles (styles : list Style) : StylePalette :=
  if decide (styles = []) then StylePalette_default else styles.

Definition mode_of (md : string) : result TerminalGridError GridMode :=
  if decide (md = "main") then Ok Main
  else if decide (md = "alternate") then Ok Alternate
  else Err (InvalidSnapshot "unknown screen mode").

Definition map_err {E F A} (f : E -> F) (r : result E A) : result F A :=
  match r with Ok a => Ok a | Err e => Err (f e) end.

Definition restore_snapshot_saved_state (g : TerminalGrid) (s : GridSnapshot) : TerminalGrid :=
  let g := match s_retained_alt_rows s with
           | Some rows => set_alt_rows g ((fun r => row_from_snapshot r (width g)) <$> rows)
           | None => g
           end in
  set_saved g (s_saved_cursor s) (saved_pending_wrap g).

Definition from_snapshot (s : GridSnapshot) (limit : nat) : result TerminalGridError TerminalGrid :=
  let w := s_width s in
  let h := s_height s in
  if decide (w = 0 \/ h = 0)%nat then Err ZeroDimensions
  else
    let? m := mode_of (s_mode s) in
    let? _ := map_err InvalidSnapshot (validate_terminal_state s) in
    let main_snapshot_rows := match m with Main => s_rows s | Alternate => default [] (s_main_rows s) end in
    let rows := (fun r => row_from_snapshot r w) <$> main_snapshot_rows in
    let viewport_start := (length rows - h)%nat in
    let '(history, pending) := hydrate_logical_history (take viewport_start rows) w [] [] in
    let live := drop viewport_start rows in
    let live := replicate (h - length live) PhysicalRow_new ++ live in
    let shown := match m with
                 | Alternate => take h ((fun r => row_from_snapshot r w) <$> s_rows s)
                 | Main => []
                 end in
    let alt := shown ++ replicate (h - length shown) PhysicalRow_new in
    let hi := mkHistory history (lines_bytes history + history_cells_bytes pending) (default true (s_history_truncated s))
                (Some (history_sum history w)) pending in
    let revisions := mkRevisions (s_revision s) (s_content_revision s) 0 0 0
                       (default (Z.of_nat (s_scrollback_rows s)) (s_total_scrolled_rows s)) 0 in
    let g := mkGrid w h limit hi live alt m (s_cursor s) (mkCursor 0 0 false) (s_saved_pending_wrap s)
               (s_characters s) (s_saved_characters s) (s_current_style s) (s_terminal_state s)
               (from_styles (s_styles s)) revisions (s_autowrap s) (s_pending_wrap s) (s_scroll_region s) (s_protocol s) in
    Ok (evict_excess_history (clamp_cursor (restore_snapshot_saved_state g s))).

(** ** The stream *)

Definition with_pending_bytes (s : GridSnapshot) (bytes : list Z) : GridSnapshot :=
  mkSnapshot (s_state_version s) (s_terminal_state s) (s_retained_alt_rows s) (s_history_truncated s) (s_revision s)
    (s_content_revision s) (s_width s) (s_height s) (s_mode s) (s_scrollback_rows s) (s_total_scrolled_rows s)
    (s_cursor s) (s_saved_cursor s) (s_saved_pending_wrap s) (s_characters s) (s_saved_characters s) (s_current_style s)
    (s_autowrap s) (s_pending_wrap s) (s_scroll_region s) (s_protocol s) bytes (s_styles s) (s_rows s) (s_main_rows s).

Definition stream_snapshot (s : TerminalGridStream) (scrollback_offset rows : nat) : GridSnapshot :=
  with_pending_bytes (GridSnapshot_from_grid (grid s) scrollback_offset rows) (pending_bytes s).

(** The decoder replays the pending bytes, and the actions are dropped: the
    snapshot already has their effects. *)
Definition stream_from_snapshot (s : GridSnapshot) (limit : nat) : result TerminalGridError TerminalGridStream :=
  let? g := from_snapshot s limit in
  let stream := from_grid g in
  if decide (s_pending_bytes s = []) then Ok stream
  else Ok (mkStream (vt_advance (parser stream) (s_pending_bytes s)).1 (grid stream) (s_pending_bytes s)).

End hydration.
