(* ===== verification/SnapshotProps.v ===== *)
(** * A grid rebuilt from its snapshot

    A row written as runs and read back is the same row, the window over all
    retained rows holds all of them, and the grid rebuilt from a full snapshot
    is the grid it was taken from. *)

From S2P Require Import Prelude Utf8 TextStr VtParser GridCell GridCellProps Pointer Grid GridInvariant GridStream GridProps GridReflow.
From S2P Require Import Snapshot.

Local Open Scope bmux_scope.

Definition texts (l : list Cell) : list (list Z) := c_text <$> List.filter (fun c => negb (c_cont c)) l.

(** ** Runs *)

Section rows.
Context {U : UnicodeTables}.

(** Whole characters, each as wide as the tables say. *)
Fixpoint closed (l : list Cell) : Prop :=
  match l with
  | [] => True
  | c :: l =>
      leader c /\ grapheme_columns (c_text c) = c_width c /\
      (if wide c then match l with d :: l => d = spacer (c_style c) /\ closed l | [] => False end else closed l)
  end.

Definition styled (st : nat) (l : list Cell) : Prop := Forall (fun c => c_style c = st) l.

(** Induction on whole characters. *)
Lemma closed_ind (P : list Cell -> Prop) :
  P [] ->
  (forall c l, leader c -> grapheme_columns (c_text c) = 1%nat -> c_width c = 1%nat -> closed l -> P l -> P (c :: l)) ->
  (forall c l, leader c -> grapheme_columns (c_text c) = 2%nat -> c_width c = 2%nat -> closed l -> P l ->
     P (c :: spacer (c_style c) :: l)) ->
  forall l, closed l -> P l.
Proof.
  intros H0 H1 H2 l. induction l as [l IH] using (induction_ltof1 _ (@length Cell)). unfold ltof in IH.
  destruct l as [|c l]; intros H; [done|]. destruct H as (Hl & Hc & Hw). unfold wide in Hw. case_bool_decide as Hcw.
  - destruct l as [|d l]; [done|]. destruct Hw as [-> Hw]. apply H2; [done|congruence|done|done|].
    apply IH; [simpl; lia|done].
  - destruct (leader_width c Hl); [|done]. apply H1; [done|congruence|done|done|]. apply IH; [simpl; lia|done].
Qed.

Lemma closed_app k l : closed k -> closed l -> closed (k ++ l).
Proof.
  intros Hk Hl. revert k Hk. apply (closed_ind (fun k => closed (k ++ l))); [done|..]; intros c k H1 H2 H3 _ IH; simpl;
    unfold wide; (split_and!; [done|congruence|]); by rewrite H3.
Qed.

Lemma closed_ok l : closed l -> Forall cell_ok l.
Proof.
  revert l. apply closed_ind; [done|..]; intros c l [H1 _] _ _ _ IH; [by constructor|].
  constructor; [done|]. constructor; [apply spacer_ok|done].
Qed.

Lemma texts_leader c l : leader c -> texts (c :: l) = c_text c :: texts l.
Proof. intros [_ H]. unfold texts. simpl. by rewrite H. Qed.

Lemma texts_wide c l : leader c -> texts (c :: spacer (c_style c) :: l) = c_text c :: texts l.
Proof. intros H. by rewrite texts_leader. Qed.

Lemma texts_app k l : texts (k ++ l) = texts k ++ texts l.
Proof. unfold texts. by rewrite List.filter_app, fmap_app. Qed.

Lemma texts_nonempty l : closed l -> concat (texts l) = [] -> l = [].
Proof.
  intros Hc. destruct l as [|c l]; [done|]. destruct Hc as (Hl & _ & _). rewrite texts_leader by done. simpl.
  destruct Hl as [Hok Hn]. unfold cell_ok in Hok. rewrite Hn in Hok. destruct Hok as (_ & Ht & _). by destruct (c_text c).
Qed.

(** The runs of the pieces [ks], which follow each other from column [pos]. *)
Fixpoint runs_from (pos : nat) (ks : list (nat * list Cell)) : list CellRunSnapshot :=
  match ks with
  | [] => []
  | (st, k) :: ks => mkRun (to_u16 pos) (concat (texts k)) st :: runs_from (pos + length k) ks
  end.

Record piece (p : nat * list Cell) : Prop := {
  piece_closed : closed p.2;
  piece_styled : styled p.1 p.2;
  piece_nonempty : p.2 <> [];
}.

Lemma flush_piece start st k : piece (st, k) -> flush_run start (Some st) (concat (texts k)) = [mkRun (to_u16 start) (concat (texts k)) st].
Proof. intros [Hc _ Hn]. unfold flush_run. rewrite decide_False; [done|]. intros E. by apply Hn, texts_nonempty. Qed.

Lemma leader_runs index l c start st k :
  piece (st, k) -> leader c ->
  snapshot_runs index (c :: l) start (Some st) (concat (texts k))
  = if decide (st = c_style c) then snapshot_runs (S index) l start (Some st) (concat (texts k) ++ c_text c)
    else mkRun (to_u16 start) (concat (texts k)) st :: snapshot_runs (S index) l index (Some (c_style c)) (c_text c).
Proof.
  intros Hp [_ Hn]. pose proof (flush_piece start st k Hp) as Hf. destruct Hp as [Hc _ Hne]. cbn [snapshot_runs]. rewrite Hn.
  rewrite (bool_decide_eq_false_2 (concat (texts k) = [])) by (intros E; by apply Hne, texts_nonempty).
  rewrite andb_false_r. destruct (decide (st = c_style c)) as [->|Hs]; [by rewrite decide_True|].
  rewrite decide_False by congruence. by rewrite Hf.
Qed.

(** The cells [l] after the piece of a run split into the rest of that run and
    further runs. *)
Definition splits (l : list Cell) : Prop :=
  forall index start st k, piece (st, k) -> index = (start + length k)%nat ->
  exists k' ks, l = k' ++ concat (ks.*2) /\ piece (st, k ++ k') /\ Forall piece ks
    /\ snapshot_runs index l start (Some st) (concat (texts k)) = runs_from start ((st, k ++ k') :: ks).

(** The cells [u] of one whole character join the run or start the next. *)
Lemma splits_step u c l :
  leader c -> closed u -> texts u = [c_text c] -> styled (c_style c) u ->
  head (u ++ l) = Some c ->
  (forall index start style text,
     snapshot_runs (S index) (tail (u ++ l)) start style text = snapshot_runs (index + length u) l start style text) ->
  splits l -> splits (u ++ l).
Proof.
  intros Hl Hu Ht Hs Hh E IH index start st k Hp Hi.
  assert (u ++ l = c :: tail (u ++ l)) as E1 by (destruct (u ++ l); simpl in *; congruence).
  rewrite E1, leader_runs by done. rewrite !E, <- E1.
  assert (piece (c_style c, u)) as Hpu by (split; [done..|simpl; intros ->; discriminate]).
  case_decide as Hst.
  - subst st. destruct Hp as [Hk Hks Hne].
    assert (piece (c_style c, k ++ u)) as Hp'.
    { split; [by apply closed_app|by apply Forall_app|]. simpl. intros E'. by apply app_eq_nil in E' as [-> _]. }
    destruct (IH (index + length u)%nat start (c_style c) (k ++ u) Hp') as (k' & ks & E' & Hpk & Hf & Er).
    { rewrite length_app. lia. }
    exists (u ++ k'), ks. rewrite <- (assoc_L (++)) in Hpk, Er. rewrite <- (assoc_L (++)), <- E'. split_and!; [done..|].
    rewrite texts_app, concat_app, Ht in Er. simpl in Er. by rewrite app_nil_r in Er.
  - destruct (IH (index + length u)%nat index (c_style c) u Hpu eq_refl) as (k' & ks & E' & Hpk & Hf & Er).
    rewrite Ht in Er. simpl in Er. rewrite app_nil_r in Er.
    exists [], ((c_style c, u ++ k') :: ks). rewrite (app_nil_r k). split_and!; [|done|by constructor|].
    + rewrite fmap_cons. simpl. by rewrite <- (assoc_L (++)), <- E'.
    + rewrite Er. cbn [runs_from]. by rewrite Hi.
Qed.

Lemma runs_extend l : closed l -> splits l.
Proof.
  revert l. apply closed_ind.
  - intros index start st k Hp _. exists [], []. rewrite (app_nil_r k).
    split_and!; [done|done|by constructor|]. cbn [snapshot_runs]. by rewrite flush_piece.
  - intros c l Hl Hc Hw Hcl IH. apply (splits_step [c] c); try done.
    + simpl. unfold wide. rewrite Hw. split_and!; [done|congruence|done].
    + by rewrite texts_leader.
    + by repeat constructor.
    + intros. simpl. by rewrite Nat.add_1_r.
  - intros c l Hl Hc Hw Hcl IH. apply (splits_step [c; spacer (c_style c)] c); try done.
    + simpl. unfold wide. rewrite Hw. split_and!; [done|congruence|done].
    + by rewrite texts_wide.
    + by repeat constructor.
    + intros. simpl. by rewrite Nat.add_succ_r, Nat.add_1_r.
Qed.

(** A row is blanks followed by pieces, whose runs are its snapshot. *)
Definition starts (l : list Cell) : Prop :=
  forall index, exists a ks, l = replicate a (blank DEFAULT) ++ concat (ks.*2) /\ Forall piece ks
    /\ snapshot_runs index l 0 None [] = runs_from (index + a) ks.

Lemma starts_first u c l :
  leader c -> piece (c_style c, u) -> texts u = [c_text c] -> closed l ->
  (forall index, snapshot_runs index (u ++ l) 0 None []
     = snapshot_runs (index + length u) l index (Some (c_style c)) (c_text c)) ->
  starts (u ++ l).
Proof.
  intros Hl Hp Ht Hcl E index. rewrite E.
  destruct (runs_extend l Hcl (index + length u)%nat index (c_style c) u Hp eq_refl) as (k & ks & -> & Hpk & Hf & Er).
  rewrite Ht in Er. simpl in Er. rewrite app_nil_r in Er. exists 0%nat, ((c_style c, u ++ k) :: ks).
  split_and!; [simpl; by rewrite (assoc_L (++))|by constructor|by rewrite Er, Nat.add_0_r].
Qed.

Lemma runs_split l : closed l -> starts l.
Proof.
  revert l. apply closed_ind.
  - intros index. exists 0%nat, []. by split_and!; [|constructor|].
  - intros c l Hl Hc Hw Hcl IH. destruct (is_discardable_blank c) eqn:Hb.
    + intros index. apply discardable_is_blank in Hb; [|apply Hl]. subst c.
      destruct (IH (S index)) as (a & ks & -> & Hf & E).
      exists (S a), ks. split_and!; [done..|]. cbn [snapshot_runs]. rewrite Nat.add_succ_r. apply E.
    + apply (starts_first [c] c); [done| |by rewrite texts_leader|done|].
      * split; [|by repeat constructor|done]. simpl. unfold wide. rewrite Hw. split_and!; [done|congruence|done].
      * intros index. destruct Hl as [_ Hn]. cbn [app snapshot_runs length]. rewrite Hn, Hb, Nat.add_1_r. done.
  - intros c l Hl Hc Hw Hcl IH. apply (starts_first [c; spacer (c_style c)] c); [done| |by rewrite texts_wide|done|].
    + split; [|by repeat constructor|done]. simpl. unfold wide. rewrite Hw. split_and!; [done|congruence|done].
    + assert (is_discardable_blank c = false) as Hb.
      { apply not_true_iff_false. intros Hb. apply discardable_is_blank in Hb; [|apply Hl]. by subst c. }
      intros index. destruct Hl as [_ Hn]. cbn [app snapshot_runs length]. rewrite Hn, Hb. simpl.
      by rewrite Nat.add_succ_r, Nat.add_1_r.
Qed.

(** ** Reading runs back *)

(** [r'] is [r] with the cells [k] written from column [col] on. *)
Record reads (r : PhysicalRow) (col : nat) (k : list Cell) (r' : PhysicalRow) : Prop := {
  reads_ok : Forall cell_ok (cells r');
  reads_trimmed : trimmed (cells r');
  reads_wrapped : wrapped r' = wrapped r;
  reads_cells i : cell_at (cells r') i
    = if decide (col <= i < col + length k)%nat then cell_at k (i - col) else cell_at (cells r) i;
}.

Lemma reads_nil r col : Forall cell_ok (cells r) -> trimmed (cells r) -> reads r col [] r.
Proof. intros Hr Ht. split; [done..|]. intros i. simpl. by rewrite decide_False by lia. Qed.

Lemma cell_at_app k l i : cell_at (k ++ l) i = if decide (i < length k)%nat then cell_at k i else cell_at l (i - length k).
Proof. unfold cell_at. case_decide; [by rewrite lookup_app_l|]. by rewrite lookup_app_r by lia. Qed.

Lemma reads_app r col k1 r1 k2 r2 :
  reads r col k1 r1 -> reads r1 (col + length k1) k2 r2 -> reads r col (k1 ++ k2) r2.
Proof.
  intros [_ _ Hw1 H1] [Ho Ht Hw2 H2]. split; [done..|congruence|]. intros i. rewrite H2, H1, cell_at_app, length_app.
  destruct (decide (col + length k1 <= i < col + length k1 + length k2)%nat).
  - rewrite decide_True, decide_False by lia. f_equal. lia.
  - destruct (decide (col <= i < col + length k1)%nat); [by rewrite !decide_True by lia|by rewrite decide_False by lia].
Qed.

Lemma reads_set_cell r col c : Forall cell_ok (cells r) -> cell_ok c -> reads r col [c] (set_cell r col c).
Proof.
  intros Hr Hc. split; [by apply set_cell_cells_ok|apply set_cell_trimmed|done|]. intros i. rewrite cell_at_set_cell by done.
  unfold upd. simpl. destruct (decide (i = col)) as [->|]; [|by rewrite decide_False by lia].
  rewrite decide_True by lia. by rewrite Nat.sub_diag.
Qed.

Lemma restored_cell c st : leader c -> c_style c = st -> Cell_new (c_text c) st (c_width c) = c.
Proof.
  intros Hl <-. pose proof (leader_width c Hl). destruct c as [t s w b], Hl as [_ Hn]. simpl in *. subst b.
  unfold Cell_new. f_equal. lia.
Qed.

Lemma place_graphemes_reads w st k :
  closed k -> styled st k -> forall col r,
  Forall cell_ok (cells r) -> trimmed (cells r) -> (col + length k <= w)%nat ->
  reads r col k (place_graphemes w st col (texts k) r).
Proof.
  revert k. apply (closed_ind (fun k => styled st k -> forall col r, Forall cell_ok (cells r) -> trimmed (cells r) ->
    (col + length k <= w)%nat -> reads r col k (place_graphemes w st col (texts k) r))).
  - intros _ col r Hr Ht _. by apply reads_nil.
  - intros c k Hl Hc Hw Hk IH [Hs Hsk]%Forall_cons col r Hr Ht Hle. rewrite texts_leader by done. cbn [place_graphemes].
    rewrite Hc. simpl in Hle. rewrite decide_False, decide_False by lia. rewrite bool_decide_eq_false_2 by lia. cbn [andb].
    rewrite <- Hw, restored_cell by done. rewrite Hw.
    pose proof (reads_set_cell r col c Hr ltac:(apply Hl)) as H1. apply (reads_app r col [c] _ k _ H1).
    apply IH; [done|apply H1|apply H1|simpl; lia].
  - intros c k Hl Hc Hw Hk IH [Hs [_ Hsk]%Forall_cons]%Forall_cons col r Hr Ht Hle. rewrite texts_wide by done.
    cbn [place_graphemes]. rewrite Hc. simpl in Hle. rewrite decide_False, decide_False by lia.
    rewrite !bool_decide_eq_true_2 by lia. cbn [andb]. rewrite <- Hw, restored_cell by done. rewrite Hw, Hs.
    pose proof (reads_set_cell r col c Hr ltac:(apply Hl)) as H1.
    pose proof (reads_set_cell (set_cell r col c) (col + 1) (spacer st) ltac:(apply H1) ltac:(apply spacer_ok)) as H2.
    pose proof (reads_app r col [c] _ [spacer st] _ H1 H2) as H3. apply (reads_app r col [c; spacer st] _ k _ H3).
    apply IH; [done|apply H3|apply H3|simpl; lia].
Qed.

(** Segmentation finds the characters of the cells again in any part of a row. *)
Definition segmented (l : list Cell) : Prop :=
  forall a n, graphemes (concat (texts (take n (drop a l)))) = texts (take n (drop a l)).

Definition place_run (w : nat) (r : PhysicalRow) (run : CellRunSnapshot) : PhysicalRow :=
  place_graphemes w (run_style run) (Nat.min (start_col run) (w - 1)) (graphemes (run_text run)) r.

Lemma segmented_piece l pos k ks :
  segmented l -> drop pos l = k ++ ks -> graphemes (concat (texts k)) = texts k.
Proof. intros H E. specialize (H pos (length k)). by rewrite E, take_app_length in H. Qed.

Lemma place_runs_reads w l ks :
  segmented l -> Z.of_nat w < 2 ^ 16 -> (length l <= w)%nat -> Forall piece ks -> forall pos r,
  drop pos l = concat (ks.*2) -> (pos <= length l)%nat -> Forall cell_ok (cells r) -> trimmed (cells r) ->
  reads r pos (concat (ks.*2)) (foldl (place_run w) r (runs_from pos ks)).
Proof.
  intros Hs Hw Hl Hks. induction Hks as [|[st k] ks [Hc Hst Hn] _ IH]; intros pos r Hd Hp Hr Ht; [by apply reads_nil|].
  rewrite fmap_cons in Hd |- *. cbn [concat] in *. cbn [snd] in *.
  assert (length l - pos = length k + length (concat ks.*2))%nat as Hlen by (rewrite <- length_drop, Hd, length_app; done).
  assert (0 < length k)%nat by (destruct k; simpl in *; [done|lia]).
  cbn [runs_from foldl]. unfold place_run at 2. cbn [start_col run_style run_text].
  rewrite (segmented_piece l pos k (concat ks.*2)) by done.
  unfold to_u16. rewrite decide_True by lia. rewrite Nat.min_l by lia.
  assert (reads r pos k (place_graphemes w st pos (texts k) r)) as H1 by (apply place_graphemes_reads; auto; lia).
  eapply reads_app; [exact H1|]. apply IH; [|lia|apply H1|apply H1].
  rewrite <- drop_drop, Hd, drop_app_length. done.
Qed.

(** ** Rows another process can rebuild *)

(** What the wire format relies on: the tables give back the cells' characters
    and widths, a wide character's second column carries its style, and the
    palette knows the styles. *)
Record portable (styles : nat) (r : PhysicalRow) : Prop := {
  portable_segmented : segmented (cells r);
  portable_measured : Forall (fun c => c_cont c = false -> grapheme_columns (c_text c) = c_width c) (cells r);
  portable_spacers i : wide (cell_at (cells r) i) = true ->
    cell_at (cells r) (S i) = spacer (c_style (cell_at (cells r) i));
  portable_styles : Forall (fun c => (c_style c < styles)%nat) (cells r);
}.

Lemma cell_at_S c l i : cell_at (c :: l) (S i) = cell_at l i.
Proof. done. Qed.

Lemma closed_row w l :
  shape w (cell_at l) -> Forall (fun c => c_cont c = false -> grapheme_columns (c_text c) = c_width c) l ->
  (forall i, wide (cell_at l i) = true -> cell_at l (S i) = spacer (c_style (cell_at l i))) -> closed l.
Proof.
  intros [H1 H2 H3 _]. clear w. induction l as [l IH] using (induction_ltof1 _ (@length Cell)). unfold ltof in IH.
  destruct l as [|c l]; intros Hm Hs; [done|]. apply Forall_cons in Hm as [Hc Hm].
  assert (leader c) as Hl by (split; [apply (H1 0%nat)|done]).
  assert (forall k, (length k < length (c :: l))%nat ->
    (exists n, forall i, cell_at k i = cell_at (c :: l) (n + i)%nat /\ c_cont (cell_at k 0) = false) ->
    Forall (fun c => c_cont c = false -> grapheme_columns (c_text c) = c_width c) k -> closed k) as Hrec.
  { intros k Hk (n & E) Hmk. apply IH; [done|..]; try done.
    - intros i. rewrite (proj1 (E i)). apply H1.
    - apply (E 0%nat).
    - intros i. rewrite (proj1 (E i)), (proj1 (E (S i))). rewrite Nat.add_succ_r. apply H3.
    - intros i. rewrite (proj1 (E i)), (proj1 (E (S i))). rewrite Nat.add_succ_r. apply Hs. }
  simpl. split_and!; [done|by apply Hc, Hl|]. destruct (wide c) eqn:Hw.
  - pose proof (Hs 0%nat Hw) as Es. rewrite cell_at_S in Es. destruct l as [|d l]; [discriminate|]. change (d = spacer (c_style c)) in Es.
    split; [done|]. apply Forall_cons in Hm as [_ Hm]. apply Hrec; [simpl; lia| |done]. exists 2%nat. intros i. split; [done|].
    pose proof (H3 1%nat) as E. change (c_cont (cell_at l 0) = wide d) in E. by rewrite E, Es.
  - apply Hrec; [simpl; lia| |done]. exists 1%nat. intros i. split; [done|]. pose proof (H3 0%nat) as E.
    change (c_cont (cell_at l 0) = wide c) in E. congruence.
Qed.

Lemma portable_closed w n r : row_ok w r -> portable n r -> closed (cells r).
Proof. intros [Hs _] [_ H2 H3 _]. by eapply closed_row. Qed.

Lemma row_snapshot_cells w r : row_ok w r -> row_snapshot r = mkRowSnapshot (wrapped r) (snapshot_runs 0 (cells r) 0 None []).
Proof. intros [_ Ht]. unfold row_snapshot. by rewrite trim_of_trimmed, firstn_all by done. Qed.

Lemma blanks_at a l i :
  cell_at (replicate a (blank DEFAULT) ++ l) i = if decide (i < a)%nat then blank DEFAULT else cell_at l (i - a).
Proof.
  rewrite cell_at_app, length_replicate. case_decide; [|done]. unfold cell_at. by rewrite lookup_replicate_2.
Qed.

(** A row survives the wire. *)
Lemma row_roundtrip w n r : Z.of_nat w < 2 ^ 16 -> row_ok w r -> portable n r -> row_from_snapshot (row_snapshot r) w = r.
Proof.
  intros Hw Hr Hp. pose proof (row_ok_length _ _ Hr) as Hlen.
  destruct (runs_split (cells r) (portable_closed _ _ _ Hr Hp) 0%nat) as (a & ks & E & Hks & Er).
  rewrite (row_snapshot_cells w) by done. unfold row_from_snapshot. cbn [row_runs row_wrapped]. rewrite Er.
  change (foldl _ ?x ?y) with (foldl (place_run w) x y).
  destruct (place_runs_reads w (cells r) ks) with (pos := a) (r := set_wrapped PhysicalRow_new (wrapped r)) as [_ Ht Hwr Hc];
    [apply Hp|done|done|done| | |done|done|].
  { rewrite E. by rewrite drop_app_length' by (by rewrite length_replicate). }
  { rewrite E, length_app, length_replicate. lia. }
  set (r' := foldl _ _ _) in *. clearbody r'. destruct r' as [l b], r as [k b']. simpl in *. subst b'. f_equal.
  apply trimmed_eq; [done|apply Hr|]. intros i. rewrite Hc, E, blanks_at.
  destruct (decide (i < a)%nat); [by rewrite decide_False by lia|].
  case_decide; [done|]. symmetry. apply cell_at_beyond. lia.
Qed.

Lemma validate_graphemes_piece w k :
  closed k -> forall stop, (stop + length k <= w)%nat -> validate_graphemes w stop (texts k) = Ok (stop + length k)%nat.
Proof.
  revert k. apply (closed_ind (fun k => forall stop, (stop + length k <= w)%nat ->
    validate_graphemes w stop (texts k) = Ok (stop + length k)%nat)).
  - intros stop _. simpl. by rewrite Nat.add_0_r.
  - intros c k Hl Hc Hw Hk IH stop Hle. rewrite texts_leader by done. simpl in *. rewrite Hc, decide_False by lia.
    rewrite IH by lia. f_equal. lia.
  - intros c k Hl Hc Hw Hk IH stop Hle. rewrite texts_wide by done. simpl in *. rewrite Hc, decide_False by lia.
    rewrite IH by lia. f_equal. lia.
Qed.

Lemma validate_runs_pieces w n l ks :
  segmented l -> Z.of_nat w < 2 ^ 16 -> (length l <= w)%nat -> Forall (fun c => (c_style c < n)%nat) l ->
  Forall piece ks -> forall pos stop,
  drop pos l = concat (ks.*2) -> (stop <= pos <= length l)%nat -> validate_runs w n stop (runs_from pos ks) = Ok tt.
Proof.
  intros Hs Hw Hl Hn Hks. induction Hks as [|[st k] ks [Hc Hst Hne] _ IH]; intros pos stop Hd Hp; [done|].
  rewrite fmap_cons in Hd. cbn [concat] in *. cbn [snd fst] in *.
  assert (length l - pos = length k + length (concat ks.*2))%nat as Hlen by (rewrite <- length_drop, Hd, length_app; done).
  assert (0 < length k)%nat by (destruct k; simpl in *; [done|lia]).
  assert (st < n)%nat.
  { destruct k as [|c k]; [done|]. apply Forall_cons in Hst as [<- _].
    apply (Forall_drop _ pos) in Hn. rewrite Hd in Hn. by apply Forall_cons in Hn as [Hn _]. }
  cbn [runs_from validate_runs]. cbn [start_col run_style run_text].
  unfold to_u16. rewrite !(decide_True (P := Z.of_nat pos < _)) by lia.
  rewrite decide_False.
  2:{ intros [H'|[H'|[H'|H']]]; [lia|lia| |lia]. by apply Hne, texts_nonempty. }
  rewrite (segmented_piece l pos k (concat ks.*2)) by done. rewrite validate_graphemes_piece by (done || lia).
  cbn [rbind]. apply IH; [|lia]. by rewrite <- drop_drop, Hd, drop_app_length.
Qed.

Lemma validate_row w n r : Z.of_nat w < 2 ^ 16 -> row_ok w r -> portable n r -> validate_runs w n 0 (row_runs (row_snapshot r)) = Ok tt.
Proof.
  intros Hw Hr Hp. pose proof (row_ok_length _ _ Hr) as Hlen.
  destruct (runs_split (cells r) (portable_closed _ _ _ Hr Hp) 0%nat) as (a & ks & E & Hks & Er).
  rewrite (row_snapshot_cells w) by done. cbn [row_runs]. rewrite Er.
  apply (validate_runs_pieces w n (cells r)); [apply Hp|done|done|apply Hp|done|..].
  - rewrite E. by rewrite drop_app_length' by (by rewrite length_replicate).
  - rewrite E, length_app, length_replicate. lia.
Qed.

Lemma validate_rows_ok w n rows :
  Z.of_nat w < 2 ^ 16 -> Forall (row_ok w) rows -> Forall (portable n) rows -> validate_rows w n (row_snapshot <$> rows) = Ok tt.
Proof.
  intros Hw Hr. induction Hr as [|r rows Hr _ IH]; [done|]. intros [Hp Hps]%Forall_cons. rewrite fmap_cons.
  cbn [validate_rows]. rewrite validate_row by done. by apply IH.
Qed.

Lemma rows_roundtrip w n rows :
  Z.of_nat w < 2 ^ 16 -> Forall (row_ok w) rows -> Forall (portable n) rows ->
  (fun r => row_from_snapshot r w) <$> (row_snapshot <$> rows) = rows.
Proof.
  intros Hw Hr. induction Hr as [|r rows Hr _ IH]; [done|]. intros [Hp Hps]%Forall_cons. rewrite !fmap_cons.
  rewrite (row_roundtrip w n) by done. by rewrite IH.
Qed.

End rows.

(** ** Windows *)

(** The rows above the screen, and all rows of the main screen. *)
Definition history_rows (g : TerminalGrid) : list PhysicalRow :=
  concat ((fun line => project_logical_line line (width g)) <$> main_history (hist g))
  ++ (if decide (pending_history_cells (hist g) = []) then []
      else (fun r => set_wrapped r true) <$> project_logical_line (pending_history_cells (hist g)) (width g)).

Definition all_rows (g : TerminalGrid) : list PhysicalRow := history_rows g ++ main_rows g.

Lemma select_live_fits rows l sel :
  (length sel + length l <= rows)%nat -> select_live rows l 0 sel = (0%nat, sel ++ l).
Proof.
  revert sel. induction l as [|r l IH]; intros sel H; simpl in *; [by rewrite app_nil_r|].
  rewrite decide_False by lia. rewrite IH by (rewrite length_app; simpl; lia). by rewrite <- (assoc_L (++)).
Qed.

Lemma select_lines_full w lines sel : select_lines w (length sel) lines 0 sel = sel.
Proof. destruct lines as [|[line pending] lines]; simpl; [done|]. by rewrite decide_True. Qed.

Definition shown_line (w : nat) (p : list Cell * bool) : list PhysicalRow :=
  (fun r => if p.2 then set_wrapped r true else r) <$> project_logical_line p.1 w.

Lemma select_lines_fits w rows lines sel :
  (length sel + list_sum ((fun p => projected_row_count p.1 w) <$> lines) <= rows)%nat ->
  select_lines w rows lines 0 sel = sel ++ concat ((fun p => reverse (shown_line w p)) <$> lines).
Proof.
  revert sel. induction lines as [|[line pending] lines IH]; intros sel H; [by rewrite app_nil_r|].
  rewrite fmap_cons in H. change (list_sum (?a :: ?l)) with (a + list_sum l)%nat in H. simpl in H |- *.
  pose proof (row_count_pos line w). rewrite decide_False, decide_False by lia. unfold project_logical_line_window.
  replace (projected_row_count line w - 0 - (rows - length sel))%nat with 0%nat by lia.
  rewrite drop_0, !Nat.sub_0_r, take_ge by (rewrite project_logical_line_length; lia).
  rewrite IH.
  - rewrite <- (assoc_L (++)). f_equal. f_equal. unfold shown_line. by rewrite fmap_reverse.
  - rewrite length_app, length_fmap, length_reverse, project_logical_line_length. lia.
Qed.

Lemma reverse_concat {A} (l : list (list A)) : reverse (concat l) = concat (reverse <$> reverse l).
Proof.
  induction l as [|x l IH]; [done|]. simpl. rewrite reverse_app, IH, reverse_cons, fmap_app, concat_app. simpl.
  by rewrite app_nil_r.
Qed.

Definition retained_lines (g : TerminalGrid) : list (list Cell * bool) :=
  (if decide (pending_history_cells (hist g) = []) then [] else [(pending_history_cells (hist g), true)])
  ++ ((fun line => (line, false)) <$> reverse (main_history (hist g))).

Lemma retained_count g :
  grid_ok g ->
  (list_sum ((fun p => projected_row_count p.1 (width g)) <$> retained_lines g) + length (main_rows g))%nat = main_row_count g.
Proof.
  intros Hg. unfold retained_lines, main_row_count, projected_pending_row_count, history_projected_row_count.
  assert (forall l, list_sum (reverse l) = list_sum l) as Hrev.
  { intros l. induction l as [|x l IH]; [done|]. rewrite reverse_cons, list_sum_app, IH. simpl. lia. }
  rewrite fmap_app, list_sum_app, <- list_fmap_compose.
  change ((fun p : list Cell * bool => projected_row_count p.1 (width g)) ∘ (fun line => (line, false)))
    with (fun line => projected_row_count line (width g)).
  rewrite fmap_reverse, Hrev. fold (history_sum (main_history (hist g)) (width g)).
  replace (default (history_sum (main_history (hist g)) (width g)) (main_history_projected_rows (hist g)))
    with (history_sum (main_history (hist g)) (width g)).
  { case_decide; simpl; lia. }
  destruct (main_history_projected_rows (hist g)) as [n|] eqn:E; [|done]. simpl.
  symmetry. by apply (hist_cache _ _ (ok_hist _ Hg)).
Qed.

Lemma retained_shown g : concat ((fun p => reverse (shown_line (width g) p)) <$> retained_lines g) = reverse (history_rows g).
Proof.
  unfold history_rows. rewrite reverse_app, reverse_concat. unfold retained_lines. rewrite fmap_app, concat_app. f_equal.
  - case_decide; [done|]. simpl. by rewrite app_nil_r.
  - rewrite <- !list_fmap_compose, <- fmap_reverse, <- list_fmap_compose. f_equal. apply list_fmap_ext. intros i line _.
    simpl. unfold shown_line. simpl. by rewrite list_fmap_id.
Qed.

(** A window of all rows shows the history and then the screen. *)
Lemma display_everything g rows (main : bool) :
  grid_ok g -> main = true \/ mode g = Main -> (main_row_count g <= rows)%nat -> try_display_rows g 0 rows main = all_rows g.
Proof.
  intros Hg Hm Hr. pose proof (retained_count g Hg) as Hc. unfold try_display_rows.
  assert (negb main && bool_decide (mode g = Alternate) = false) as ->.
  { destruct Hm as [-> | ->]; [done|apply andb_false_r]. }
  rewrite select_live_fits by (rewrite length_reverse; simpl; lia). simpl. fold (retained_lines g).
  rewrite select_lines_fits by (rewrite length_reverse; lia).
  rewrite retained_shown, <- reverse_app. by rewrite reverse_involutive.
Qed.

(** A window of the screen's height shows the screen. *)
Lemma display_screen g (main : bool) :
  grid_ok g -> main = true \/ mode g = Main -> try_display_rows g 0 (height g) main = main_rows g.
Proof.
  intros Hg Hm. destruct (ok_main _ Hg) as [Hlen _]. unfold try_display_rows.
  assert (negb main && bool_decide (mode g = Alternate) = false) as ->.
  { destruct Hm as [-> | ->]; [done|apply andb_false_r]. }
  rewrite select_live_fits by (rewrite length_reverse; simpl; lia). simpl.
  rewrite <- Hlen, <- (length_reverse (main_rows g)), select_lines_full. apply reverse_involutive.
Qed.

Lemma display_alternate g rows :
  grid_ok g -> mode g = Alternate -> (height g <= rows)%nat -> try_display_rows g 0 rows false = alt_rows g.
Proof.
  intros Hg Hm Hr. destruct (ok_alt _ Hg) as [Hlen _]. unfold try_display_rows. rewrite Hm. simpl.
  rewrite Hlen. replace (height g - 0 - rows)%nat with 0%nat by lia. rewrite drop_0. apply take_ge. lia.
Qed.

(** ** History read back *)

Lemma hydrate_wrapped w rows history acc :
  hydrate_logical_history ((fun r => set_wrapped r true) <$> rows) w history acc
  = (history, acc ++ concat ((fun r => row_logical_cells r w) <$> rows)).
Proof.
  revert acc. induction rows as [|r rows IH]; intros acc; simpl; [by rewrite app_nil_r|]. by rewrite IH, <- (assoc_L (++)).
Qed.

Lemma hydrate_full_rows w init rest history acc :
  Forall (fun sel => length sel = w) init -> Forall (Forall narrow) init ->
  hydrate_logical_history ((row_of <$> ((fun sel => (sel, true)) <$> init)) ++ rest) w history acc
  = hydrate_logical_history rest w history (acc ++ concat init).
Proof.
  intros Hlen Hn. revert acc. induction init as [|sel init IH]; intros acc; simpl; [by rewrite app_nil_r|].
  apply Forall_cons in Hlen as [Hl Hlen]. apply Forall_cons in Hn as [Hs Hn].
  rewrite row_of_logical by (done || lia). unfold pad_to. rewrite Hl, Nat.sub_diag. simpl. rewrite app_nil_r.
  by rewrite IH, <- (assoc_L (++)).
Qed.

Lemma hydrate_line w line rest history :
  (0 < w)%nat -> Forall narrow line ->
  hydrate_logical_history (project_logical_line line w ++ rest) w history []
  = hydrate_logical_history rest w (history ++ [trim_trailing_blank_cells line]) [].
Proof.
  intros Hw Hn. destruct (project_narrow line w Hw Hn) as (init & lst & -> & Hlen & Hl & E & Hni & Hnl).
  rewrite <- (assoc_L (++)), hydrate_full_rows by done. cbn [app hydrate_logical_history].
  change (wrapped (row_of (lst, false))) with false. cbn iota.
  rewrite row_of_logical by done. unfold pad_to. rewrite (assoc_L (++)), E, trim_app_blanks. by rewrite trim_blanks_idemp.
Qed.

Lemma hydrate_lines w lines rest history :
  (0 < w)%nat -> Forall (Forall narrow) lines -> Forall trimmed lines ->
  hydrate_logical_history (concat ((fun line => project_logical_line line w) <$> lines) ++ rest) w history []
  = hydrate_logical_history rest w (history ++ lines) [].
Proof.
  intros Hw Hn. revert history. induction Hn as [|line lines Hl _ IH]; intros history Ht; simpl; [by rewrite app_nil_r|].
  apply Forall_cons in Ht as [Htl Ht]. rewrite <- (assoc_L (++)), hydrate_line by done.
  rewrite IH, trim_of_trimmed by done. by rewrite <- (assoc_L (++)).
Qed.

(** ** The fields of a snapshot *)

(** The snapshot of [g] with given rows. *)
Definition snap (g : TerminalGrid) (rows : list PhysicalRow) (backing : option (list PhysicalRow)) : GridSnapshot :=
  mkSnapshot 1 (terminal_state g)
    (if decide (mode g = Main) then Some (row_snapshot <$> alt_rows g) else None) (Some (history_truncated (hist g)))
    (revision (revs g)) (content_revision (revs g)) (width g) (height g)
    (if decide (mode g = Main) then "main" else "alternate") (scrollback_rows_hint g) (Some (total_scrolled_rows (revs g)))
    (cursor g) (cursor_snapshot (saved_cursor g)) (saved_pending_wrap g) (characters g) (saved_characters g)
    (current_style g) (autowrap g) (pending_wrap g) (scroll_region g) (protocol g) [] (palette g)
    (row_snapshot <$> rows) (fmap (M := list) row_snapshot <$> backing).

Lemma to_u16_small n : Z.of_nat n < 2 ^ 16 -> to_u16 n = n.
Proof. intros H. unfold to_u16. by rewrite decide_True. Qed.

Lemma to_u32_small n : Z.of_nat n < 2 ^ 32 -> to_u32 n = n.
Proof. intros H. unfold to_u32. by rewrite decide_True. Qed.

Lemma cached_count g : grid_ok g -> history_projected_row_count (hist g) (width g) = history_sum (main_history (hist g)) (width g).
Proof.
  intros Hg. unfold history_projected_row_count. destruct (main_history_projected_rows (hist g)) as [n|] eqn:E; [|done].
  simpl. by apply (hist_cache _ _ (ok_hist _ Hg)).
Qed.

Lemma hint_count g : grid_ok g -> mode g = Main -> (scrollback_rows_hint g + height g = main_row_count g)%nat.
Proof.
  intros Hg Hm. unfold scrollback_rows_hint, main_row_count. rewrite Hm. destruct (ok_main _ Hg) as [-> _]. lia.
Qed.

Lemma hint_le g : grid_ok g -> (scrollback_rows_hint g <= main_row_count g)%nat.
Proof.
  intros Hg. destruct (mode g) eqn:Em; [rewrite <- (hint_count g Hg Em); lia|]. unfold scrollback_rows_hint. rewrite Em. lia.
Qed.

Lemma snapshot_fields g rows n :
  grid_ok g -> Z.of_nat (main_row_count g) < 2 ^ 32 ->
  (if decide (Z.of_nat rows = 2 ^ 64 - 1) then height g else Nat.max rows (height g)) = n ->
  GridSnapshot_from_grid g 0 rows
  = snap g (try_display_rows g 0 n false) (if decide (mode g = Alternate) then Some (try_display_rows g 0 n true) else None).
Proof.
  intros Hg Hc En. unfold GridSnapshot_from_grid. rewrite En.
  destruct (ok_width _ Hg) as [_ Hw]. destruct (ok_height _ Hg) as [_ Hh].
  pose proof (ok_row _ Hg) as Hr. pose proof (ok_col _ Hg) as Hcol.
  pose proof (hint_le g Hg) as Hhint.
  rewrite to_u32_small by lia. rewrite !to_u16_small by lia. unfold snap. f_equal.
  - f_equal. rewrite bool_decide_eq_false_2, orb_false_r; [done|]. unfold max_scrollback_offset, display_row_count.
    destruct (mode g) eqn:Em; [rewrite <- (hint_count g Hg Em); lia|]. destruct (ok_alt _ Hg) as [-> _]. lia.
  - destruct (cursor g) as [r c v]. unfold cursor_snapshot. simpl in *. by rewrite !to_u16_small by lia.
  - pose proof (ok_region _ Hg) as Hreg. destruct (scroll_region g) as [[top bottom]|]; [|done]. simpl in *.
    by rewrite !to_u16_small by lia.
  - by destruct (decide (mode g = Alternate)).
Qed.

(** The full snapshot, and the snapshot of the screen. *)
Lemma snapshot_full g :
  grid_ok g -> Z.of_nat (main_row_count g) < 2 ^ 32 ->
  GridSnapshot_from_grid g 0 (main_row_count g)
  = match mode g with
    | Main => snap g (all_rows g) None
    | Alternate => snap g (alt_rows g) (Some (all_rows g))
    end.
Proof.
  intros Hg Hc. destruct (ok_main _ Hg) as [Hlen _]. assert (height g <= main_row_count g)%nat by (unfold main_row_count; lia).
  rewrite (snapshot_fields g _ (main_row_count g)) by (done || (rewrite decide_False by lia; lia)).
  destruct (mode g) eqn:Em; simpl.
  - by rewrite display_everything by auto.
  - rewrite display_alternate by done. by rewrite display_everything by auto.
Qed.

Lemma snapshot_screen g :
  grid_ok g -> Z.of_nat (main_row_count g) < 2 ^ 32 ->
  GridSnapshot_from_grid g 0 (height g)
  = match mode g with
    | Main => snap g (main_rows g) None
    | Alternate => snap g (alt_rows g) (Some (main_rows g))
    end.
Proof.
  intros Hg Hc. rewrite (snapshot_fields g _ (height g)) by (done || case_decide; lia).
  destruct (mode g) eqn:Em; simpl.
  - by rewrite display_screen by auto.
  - rewrite display_alternate by done. by rewrite display_screen by auto.
Qed.

(** ** The rebuilt grid *)

(** The grid with the counters that do not travel reset and the row count
    cached. *)
Definition hydrated (g : TerminalGrid) : TerminalGrid :=
  let h := hist g in
  let h := mkHistory (main_history h) (history_bytes h) (history_truncated h)
             (Some (history_sum (main_history h) (width g))) (pending_history_cells h) in
  let r := revs g in
  set_saved (set_revs (set_hist g h) (mkRevisions (revision r) (content_revision r) 0 0 0 (total_scrolled_rows r) 0))
    (cursor_snapshot (saved_cursor g)) (saved_pending_wrap g).

Lemma evict_within limit w lines bytes tr pr pend :
  (length lines <= limit)%nat -> bytes <= HISTORY_BUDGET ->
  evict_lines limit HISTORY_BUDGET w lines bytes tr pr pend = mkHistory lines bytes tr pr pend.
Proof.
  intros Hl Hb. destruct lines; cbn [evict_lines]; rewrite !bool_decide_eq_false_2 by (done || lia); done.
Qed.

Lemma decreasing_sorted l : StronglySorted lt l -> decreasing_pair l = false.
Proof.
  induction 1 as [|a l Hs IH Hf]; [done|]. destruct l as [|b l]; [done|]. apply Forall_cons in Hf as [Hab _].
  cbn [decreasing_pair]. rewrite bool_decide_eq_false_2 by lia. exact IH.
Qed.

Lemma state_valid g : grid_ok g -> TerminalState_validate 1 (terminal_state g) (width g) = Ok tt.
Proof.
  intros Hg. pose proof (ok_stops _ Hg) as Hs. unfold TerminalState_validate. rewrite decide_False by auto.
  destruct (tab_stops (terminal_state g)) as [l|]; [|done]. destruct Hs as [Hs Hf]. rewrite decreasing_sorted by done.
  rewrite orb_false_r. destruct (existsb _ l) eqn:E; [|done]. apply existsb_exists in E as (c & Hc & Hw%bool_decide_eq_true).
  rewrite Forall_forall in Hf. specialize (Hf c ltac:(by apply list_elem_of_In)). lia.
Qed.

Lemma region_valid g : grid_ok g -> region_invalid (scroll_region g) (height g) = false.
Proof.
  intros Hg. pose proof (ok_region _ Hg) as H. destruct (scroll_region g) as [[top bottom]|]; [|done]. simpl in *.
  apply bool_decide_eq_false_2. lia.
Qed.

Section restore.
Context {U : UnicodeTables}.

(** A grid whose snapshot says everything: its rows are portable, the lines of
    the history are narrow and end in text, and the open line fills its rows. *)
Record portable_grid (g : TerminalGrid) : Prop := {
  pg_palette : palette g <> [];
  pg_rows : Forall (portable (length (palette g))) (all_rows g);
  pg_alt : Forall (portable (length (palette g))) (alt_rows g);
  pg_narrow : Forall (Forall narrow) (main_history (hist g));
  pg_trimmed : Forall trimmed (main_history (hist g));
  pg_open : pending_history_cells (hist g) <> [] ->
    concat ((fun r => row_logical_cells r (width g)) <$> project_logical_line (pending_history_cells (hist g)) (width g))
    = pending_history_cells (hist g);
}.

Lemma all_rows_ok g : grid_ok g -> Forall (row_ok (width g)) (all_rows g).
Proof.
  intros Hg. destruct (ok_width _ Hg) as [Hw _]. destruct (ok_main _ Hg) as [_ Hm]. pose proof (ok_hist _ Hg) as Hh.
  unfold all_rows, history_rows. apply Forall_app. split; [|done]. apply Forall_app. split.
  - apply Forall_concat, Forall_fmap. eapply Forall_impl; [apply Hh|]. intros line Hl. by apply project_logical_line_ok.
  - case_decide; [done|]. apply Forall_fmap. eapply Forall_impl; [apply project_logical_line_ok; [done|apply Hh]|].
    intros r Hr. by apply set_wrapped_ok.
Qed.

Lemma history_rows_length g : grid_ok g -> (length (history_rows g) + height g)%nat = main_row_count g.
Proof.
  intros Hg. rewrite <- (retained_count g Hg), <- (length_reverse (history_rows g)), <- retained_shown.
  destruct (ok_main _ Hg) as [-> _]. f_equal. induction (retained_lines g) as [|p l IH]; [done|]. rewrite !fmap_cons.
  change (list_sum (?a :: ?l)) with (a + list_sum l)%nat. cbn [concat]. rewrite length_app, IH. f_equal.
  unfold shown_line. by rewrite length_reverse, length_fmap, project_logical_line_length.
Qed.

Lemma hydrate_history g :
  grid_ok g -> portable_grid g ->
  hydrate_logical_history (history_rows g) (width g) [] [] = (main_history (hist g), pending_history_cells (hist g)).
Proof.
  intros Hg [_ _ _ Hn Ht Ho]. destruct (ok_width _ Hg) as [Hw _]. unfold history_rows. rewrite hydrate_lines by done.
  destruct (decide (pending_history_cells (hist g) = [])) as [->|Hp]; [done|]. rewrite hydrate_wrapped. by rewrite Ho.
Qed.

Lemma portable_valid g : grid_ok g -> portable_grid g -> forall rows backing, validate_terminal_state (snap g rows backing) = Ok tt.
Proof.
  intros Hg Hp rows backing. unfold validate_terminal_state, snap. cbn -[TerminalState_validate].
  rewrite state_valid by done. cbn [rbind]. rewrite region_valid by done. unfold validate_retained_alternate.
  destruct (decide (mode g = Main)); [|done]. destruct (ok_alt _ Hg) as [Hlen Hok]. destruct (ok_width _ Hg) as [_ Hw].
  rewrite decide_False by (rewrite length_fmap; tauto). apply validate_rows_ok; [done|done|apply Hp].
Qed.

Lemma settle g m c :
  grid_ok g -> c = cursor_snapshot (saved_cursor g) -> m = mode g ->
  evict_excess_history (clamp_cursor (set_saved
    (mkGrid (width g) (height g) (scrollback_rows g)
       (mkHistory (main_history (hist g)) (lines_bytes (main_history (hist g)) + history_cells_bytes (pending_history_cells (hist g)))
          (history_truncated (hist g)) (Some (history_sum (main_history (hist g)) (width g))) (pending_history_cells (hist g)))
       (main_rows g) (alt_rows g) m (cursor g) (mkCursor 0 0 false) (saved_pending_wrap g) (characters g) (saved_characters g)
       (current_style g) (terminal_state g) (palette g)
       (mkRevisions (revision (revs g)) (content_revision (revs g)) 0 0 0 (total_scrolled_rows (revs g)) 0)
       (autowrap g) (pending_wrap g) (scroll_region g) (protocol g)) c (saved_pending_wrap g)))
  = hydrated g.
Proof.
  intros Hg -> ->. destruct (ok_bounded _ Hg) as [Hl Hb]. pose proof (ok_row _ Hg) as Hr. pose proof (ok_col _ Hg) as Hc.
  unfold evict_excess_history, evict_history_to_budget, clamp_cursor, clamp_cursor_to_dimensions, set_cursor, set_hist, hydrated, set_saved,
    set_revs, set_hist. cbn [width height scrollback_rows hist main_rows alt_rows mode cursor saved_cursor saved_pending_wrap
    characters saved_characters current_style terminal_state palette revs autowrap pending_wrap scroll_region protocol
    main_history history_bytes history_truncated main_history_projected_rows pending_history_cells].
  rewrite <- (hist_bytes _ _ (ok_hist _ Hg)), evict_within by done.
  rewrite !Nat.min_l by lia. f_equal. by destruct (cursor g).
Qed.

Lemma restore_saved g0 g rows backing :
  width g0 = width g -> (fun r => row_from_snapshot r (width g)) <$> (row_snapshot <$> alt_rows g) = alt_rows g ->
  restore_snapshot_saved_state g0 (snap g rows backing)
  = set_saved (match mode g with Main => set_alt_rows g0 (alt_rows g) | Alternate => g0 end)
      (cursor_snapshot (saved_cursor g)) (saved_pending_wrap g0).
Proof.
  intros Hw E. unfold restore_snapshot_saved_state. change (s_saved_cursor (snap g rows backing)) with (cursor_snapshot (saved_cursor g)).
  change (s_retained_alt_rows (snap g rows backing)) with (if decide (mode g = Main) then Some (row_snapshot <$> alt_rows g) else None).
  destruct (mode g); [|done]. rewrite decide_True by done. by rewrite Hw, E.
Qed.

(** Whatever rows a snapshot has, they become the screen and its history. *)
Lemma from_snap g rows backing :
  grid_ok g -> portable_grid g ->
  match mode g with
  | Main => rows = all_rows g
  | Alternate => rows = alt_rows g /\ backing = Some (all_rows g)
  end ->
  from_snapshot (snap g rows backing) (scrollback_rows g) = Ok (hydrated g).
Proof.
  intros Hg Hp Hrows. unfold from_snapshot. rewrite portable_valid by done.
  destruct (ok_width _ Hg) as [Hw Hw']. destruct (ok_height _ Hg) as [Hh Hh'].
  destruct (ok_main _ Hg) as [Hml Hmr]. destruct (ok_alt _ Hg) as [Hal Har].
  cbn -[Z.pow row_from_snapshot]. rewrite decide_False by lia.
  assert ((fun r => row_from_snapshot r (width g)) <$> (row_snapshot <$> all_rows g) = all_rows g) as Eall.
  { eapply rows_roundtrip; [done|by apply all_rows_ok|apply Hp]. }
  assert ((fun r => row_from_snapshot r (width g)) <$> (row_snapshot <$> alt_rows g) = alt_rows g) as Ealt.
  { eapply rows_roundtrip; [done|done|apply Hp]. }
  assert (length (all_rows g) - height g = length (history_rows g))%nat as Elen.
  { unfold all_rows. rewrite length_app, Hml. lia. }
  assert (from_styles (palette g) = palette g) as -> by (unfold from_styles; by rewrite decide_False by apply Hp).
  destruct (mode g) eqn:Em.
  - change (mode_of _) with (@Ok TerminalGridError _ Main). cbn [rbind]. rewrite Hrows, Eall, Elen. unfold all_rows. rewrite take_app_length, drop_app_length.
    rewrite hydrate_history by done. rewrite Hml, Nat.sub_diag. cbn [replicate app].
    rewrite restore_saved, Em by done. f_equal. by apply (settle g Main).
  - change (mode_of _) with (@Ok TerminalGridError _ Alternate). destruct Hrows as [-> ->].
    cbn [rbind default from_option]. change (default [] (fmap row_snapshot <$> Some ?l)) with (row_snapshot <$> l).
    rewrite Eall, Ealt, Elen. unfold all_rows. rewrite take_app_length, drop_app_length.
    rewrite hydrate_history by done. rewrite Hml, take_ge, Hal, Nat.sub_diag by lia. cbn [replicate app]. rewrite app_nil_r.
    rewrite restore_saved, Em by done. f_equal. by apply (settle g Alternate).
Qed.

(** C14: a snapshot loses nothing. The grid rebuilt from a snapshot of all
    retained rows, under the same scrollback limit, is the grid it was taken
    from: both screens, the history and its open line, cursor, modes, styles
    and counters that travel; only counters private to a process start anew. *)
Theorem snapshot_restores_grid g :
  grid_ok g -> portable_grid g -> Z.of_nat (main_row_count g) < 2 ^ 32 ->
  from_snapshot (GridSnapshot_from_grid g 0 (main_row_count g)) (scrollback_rows g) = Ok (hydrated g).
Proof.
  intros Hg Hp Hc. rewrite snapshot_full by done.
  destruct (mode g) eqn:Em; apply from_snap; try done; by rewrite Em.
Qed.

(** ** ASCII text is portable *)

(** The Unicode tables cut printable ASCII into characters of one column. *)
Class AsciiLaws : Prop := {
  ascii_graphemes t : Forall (fun c => 32 <= c <= 126) t -> graphemes t = (fun c => [c]) <$> t;
  ascii_width c : 32 <= c <= 126 -> str_width [c] = 1;
}.

Definition ascii_cell (styles : nat) (c : Cell) : Prop :=
  c_cont c = false /\ c_width c = 1%nat /\ (c_style c < styles)%nat /\ exists ch, c_text c = [ch] /\ 32 <= ch <= 126.

Lemma ascii_texts n l : Forall (ascii_cell n) l -> exists t, Forall (fun c => 32 <= c <= 126) t /\ texts l = (fun c => [c]) <$> t.
Proof.
  induction 1 as [|c l (Hn & _ & _ & ch & Ec & Hch) _ (t & Ht & E)]; [by exists []|]. exists (ch :: t). split; [by constructor|].
  assert (texts (c :: l) = c_text c :: texts l) as -> by (unfold texts; simpl; by rewrite Hn). by rewrite Ec, E.
Qed.

Lemma concat_singletons (t : list Z) : concat ((fun c => [c]) <$> t) = t.
Proof. induction t as [|c t IH]; [done|]. rewrite fmap_cons. cbn [concat]. by rewrite IH. Qed.

Lemma ascii_portable `{AsciiLaws} n w r : row_ok w r -> Forall (ascii_cell n) (cells r) -> portable n r.
Proof.
  intros Hr Ha. split.
  - intros a k. destruct (ascii_texts n (take k (drop a (cells r)))) as (t & Ht & ->); [by apply Forall_take, Forall_drop|].
    by rewrite concat_singletons, ascii_graphemes.
  - eapply Forall_impl; [exact Ha|]. intros c (_ & -> & _ & ch & -> & Hch) _. unfold grapheme_columns. by rewrite ascii_width.
  - intros i Hw. exfalso. unfold cell_at in Hw. destruct (cells r !! i) as [c|] eqn:E; [|done]. simpl in Hw.
    rewrite Forall_lookup in Ha. destruct (Ha i c E) as (_ & Ew & _). unfold wide in Hw. by rewrite Ew in Hw.
  - eapply Forall_impl; [exact Ha|]. by intros c (_ & _ & Hs & _).
Qed.

(** A check of what [portable_grid] asks, for screens of printable ASCII. *)
Definition asciib (styles : nat) (c : Cell) : bool :=
  negb (c_cont c) && bool_decide (c_width c = 1%nat) && bool_decide (c_style c < styles)%nat
  && match c_text c with [ch] => bool_decide (32 <= ch <= 126) | _ => false end.

Definition ascii_grid (g : TerminalGrid) : bool :=
  let n := length (palette g) in
  let pending := pending_history_cells (hist g) in
  bool_decide (palette g <> []) && forallb (fun r => forallb (asciib n) (cells r)) (all_rows g ++ alt_rows g)
  && forallb (fun line => forallb (asciib n) line && bool_decide (trim_trailing_blank_cells line = line)) (main_history (hist g))
  && (bool_decide (pending = [])
      || bool_decide (concat ((fun r => row_logical_cells r (width g)) <$> project_logical_line pending (width g)) = pending)).

Lemma asciib_spec n c : asciib n c = true -> ascii_cell n c.
Proof.
  unfold asciib, ascii_cell. rewrite !andb_true_iff, negb_true_iff, !bool_decide_eq_true. intros [[[H1 H2] H3] H4].
  split_and!; [done..|]. destruct (c_text c) as [|ch []]; try done. apply bool_decide_eq_true in H4. eauto.
Qed.

Lemma forallb_Forall {A} (f : A -> bool) (P : A -> Prop) l : (forall x, f x = true -> P x) -> forallb f l = true -> Forall P l.
Proof. intros Hf H. apply Forall_forall. intros x Hx%list_elem_of_In. rewrite forallb_forall in H. auto. Qed.

Lemma ascii_narrow n c : cell_ok c -> ascii_cell n c -> narrow c.
Proof. intros Hok (H1 & H2 & _). by split. Qed.

Lemma ascii_grid_portable `{AsciiLaws} g : grid_ok g -> ascii_grid g = true -> portable_grid g.
Proof.
  intros Hg. unfold ascii_grid. rewrite !andb_true_iff, orb_true_iff, !bool_decide_eq_true. intros [[[H1 H2] H3] H4].
  pose proof (all_rows_ok g Hg) as Hall. destruct (ok_alt _ Hg) as [_ Halt]. pose proof (hist_lines _ _ (ok_hist _ Hg)) as Hl.
  apply (forallb_Forall _ (fun r => Forall (ascii_cell (length (palette g))) (cells r))) in H2;
    [|intros r; apply forallb_Forall, asciib_spec]. apply Forall_app in H2 as [H2 H2'].
  apply (forallb_Forall _ (fun line => Forall (ascii_cell (length (palette g))) line /\ trimmed line)) in H3.
  2:{ intros line [Ha Ht%bool_decide_eq_true]%andb_true_iff. split; [eapply forallb_Forall, Ha; apply asciib_spec|].
      rewrite <- Ht. apply trim_trimmed. }
  split; [done|..].
  - eapply Forall_impl; [apply Forall_and; split; [exact Hall|exact H2]|]. intros r [Hr Hr']. by eapply ascii_portable.
  - eapply Forall_impl; [apply Forall_and; split; [exact Halt|exact H2']|]. intros r [Hr Hr']. by eapply ascii_portable.
  - eapply Forall_impl; [apply Forall_and; split; [exact Hl|exact H3]|]. intros line [Hlead [Ha _]].
    eapply Forall_impl; [apply Forall_and; split; [exact Hlead|exact Ha]|]. intros c [[Hc _] Hc']. by eapply ascii_narrow.
  - eapply Forall_impl; [exact H3|]. by intros line [_ Ht].
  - intros Hp. by destruct H4 as [H4|H4].
Qed.

End restore.

Lemma combining_ascii : @AsciiLaws combining_tables.
Proof.
  split.
  - induction 1 as [|c t Hc Ht IH]; [done|]. cbn [graphemes combining_tables cluster]. change (cluster t) with (@graphemes combining_tables t).
    rewrite IH, fmap_cons. destruct t as [|d t]; [done|]. rewrite fmap_cons. rewrite decide_False; [done|].
    apply Forall_cons in Ht as [Hd _]. unfold combining_acute. lia.
  - intros c Hc. simpl. rewrite bool_decide_eq_false_2 by (unfold combining_acute; lia). done.
Qed.

(** Two lines and a long one that has partly scrolled off a screen of 4 by 2. *)
Lemma snapshot_restores_grid_witness :
  exists g, grid <$> @run_events combining_tables example_width example_stream
      [Output [97; 98; 13; 10; 27; 91; 49; 109; 99; 13; 10; 100; 101; 102; 103; 104; 105; 106; 107; 108; 109]] = Some g
    /\ @from_snapshot combining_tables (GridSnapshot_from_grid g 0 (main_row_count g)) (scrollback_rows g) = Ok (hydrated g)
    /\ main_history (hist g) <> [] /\ pending_history_cells (hist g) <> [].
Proof.
  eassert (grid <$> @run_events combining_tables example_width example_stream
    [Output [97; 98; 13; 10; 27; 91; 49; 109; 99; 13; 10; 100; 101; 102; 103; 104; 105; 106; 107; 108; 109]] = Some _) as E
    by (vm_compute; reflexivity).
  unshelve epose proof (run_grid _ _ _ E) as Hg; [by repeat constructor|].
  eexists. split; [exact E|]. split; [|split; discriminate].
  apply (@snapshot_restores_grid combining_tables); [exact Hg| |vm_compute; reflexivity].
  apply (@ascii_grid_portable combining_tables combining_ascii); [exact Hg|vm_compute; reflexivity].
Defined.
