(* ===== verification/Delta.v ===== *)
(** * Deltas between snapshots

    Updates that bring a receiver's snapshot or stream from one revision to
    the next (packages/terminal-grid/src/delta.rs, and [apply_delta],
    [process_delta] and [resize_delta] of parser.rs). *)

From S2P Require Import Prelude Utf8 TextStr VtParser GridCell Pointer Grid GridStream Snapshot.

Local Open Scope bmux_scope.

Record RowUpdateSnapshot := mkUpdate {
  row_index : nat;
  update_row : RowSnapshot;
}.

Record GridDeltaBatch := mkDelta {
  d_state_version : Z;
  d_terminal_state : TerminalState;
  d_retained_alt_rows : option (list RowSnapshot);
  d_history_truncated : option bool;
  base_revision : Z;
  d_revision : Z;
  d_content_revision : Z;
  d_width : nat;
  d_height : nat;
  d_mode : string;
  d_scrollback_rows : nat;
  d_total_scrolled_rows : option Z;
  d_cursor : Cursor;
  d_saved_cursor : Cursor;
  d_saved_pending_wrap : bool;
  d_characters : CharacterState;
  d_saved_characters : CharacterState;
  d_current_style : Style;
  d_autowrap : bool;
  d_pending_wrap : bool;
  d_scroll_region : option (nat * nat);
  d_protocol : ProtocolState;
  d_pending_bytes : list Z;
  d_styles : list Style;
  reset_rows : bool;
  row_updates : list RowUpdateSnapshot;
  d_main_rows : option (list RowSnapshot);
}.

(** ** Building a delta *)

Definition known_mode (md : string) : bool := bool_decide (md = "main") || bool_decide (md = "alternate").

(** Every row, with its index. *)
Definition all_updates (rows : list RowSnapshot) : list RowUpdateSnapshot := imap (fun i r => mkUpdate (to_u32 i) r) rows.

(** The rows of [after] that differ, with their indexes from [index] on. *)
Fixpoint changed_updates (index : nat) (before after : list RowSnapshot) : list RowUpdateSnapshot :=
  match before, after with
  | old :: before, new :: after =>
      (if decide (old = new) then [] else [mkUpdate (to_u32 index) new]) ++ changed_updates (S index) before after
  | _, _ => []
  end.

Definition between (before after : GridSnapshot) : option GridDeltaBatch :=
  if bool_decide (s_revision after <= s_revision before)
     || bool_decide (s_content_revision after < s_content_revision before)
     || (bool_decide (s_mode after = "alternate") && negb (bool_decide (s_scrollback_rows after = 0%nat)))
     || bool_decide (s_width after = 0%nat) || bool_decide (s_height after = 0%nat) || negb (known_mode (s_mode after))
     || bool_decide (s_height after <= row (s_cursor after))%nat || bool_decide (s_width after <= col (s_cursor after))%nat
  then None
  else
    let reset := negb (bool_decide (s_width before = s_width after)) || negb (bool_decide (s_height before = s_height after))
                 || negb (bool_decide (s_mode before = s_mode after))
                 || negb (bool_decide (s_scrollback_rows before = s_scrollback_rows after))
                 || negb (bool_decide (s_total_scrolled_rows before = s_total_scrolled_rows after))
                 || negb (bool_decide (length (s_rows before) = length (s_rows after))) in
    let updates := if reset then all_updates (s_rows after) else changed_updates 0 (s_rows before) (s_rows after) in
    Some (mkDelta (s_state_version after) (s_terminal_state after) (s_retained_alt_rows after) (s_history_truncated after)
            (s_revision before) (s_revision after) (s_content_revision after) (s_width after) (s_height after) (s_mode after)
            (s_scrollback_rows after) (s_total_scrolled_rows after) (s_cursor after) (s_saved_cursor after)
            (s_saved_pending_wrap after) (s_characters after) (s_saved_characters after) (s_current_style after)
            (s_autowrap after) (s_pending_wrap after) (s_scroll_region after) (s_protocol after) (s_pending_bytes after)
            (s_styles after) reset updates
            (if decide (s_main_rows before = s_main_rows after) then None else s_main_rows after)).

(** ** Applying a delta *)

Inductive GridDeltaApplyError :=
| InvalidTerminalState (reason : string)
| NonIncreasingRowIndex (index : nat)
| DeltaZeroDimensions
| InvalidCursor
| InvalidScrollRegion
| AlternateScrollback
| InvalidScreenMode
| MissingReplacementRows
| RevisionMismatch (expected actual : Z)
| NonAdvancingRevision (base revision : Z)
| RegressingContentRevision (current received : Z)
| RowIndexOutOfBounds (index : nat)
| IncompleteMainViewport (expected actual : nat)
| ExcessAlternateRows (expected actual : nat)
| IncompleteViewport (expected actual : nat)
| InvalidReplacementRowIndex (expected actual : nat).

(** [if b { return Err(e) }]. *)
Definition refuse {E} (b : bool) (e : E) : result E unit := if b then Err e else Ok tt.

Definition validate_revisions (d : GridDeltaBatch) (rev content : Z) : result GridDeltaApplyError unit :=
  let? _ := refuse (negb (bool_decide (rev = base_revision d))) (RevisionMismatch (base_revision d) rev) in
  let? _ := refuse (bool_decide (d_revision d <= base_revision d)) (NonAdvancingRevision (base_revision d) (d_revision d)) in
  refuse (bool_decide (d_content_revision d < content)) (RegressingContentRevision content (d_content_revision d)).

Fixpoint validate_consecutive (expected : nat) (l : list RowUpdateSnapshot) : result GridDeltaApplyError unit :=
  match l with
  | [] => Ok tt
  | u :: l =>
      let? _ := refuse (negb (bool_decide (row_index u = expected))) (InvalidReplacementRowIndex expected (row_index u)) in
      validate_consecutive (S expected) l
  end.

Definition validate_replacement_indexes (d : GridDeltaBatch) : result GridDeltaApplyError unit :=
  if reset_rows d then
    let n := length (row_updates d) in
    let? _ := refuse (bool_decide (n < d_height d)%nat) (IncompleteViewport (d_height d) n) in
    let? _ := refuse (bool_decide (d_mode d = "alternate") && bool_decide (d_height d < n)%nat) (ExcessAlternateRows (d_height d) n) in
    validate_consecutive 0 (row_updates d)
  else Ok tt.

Fixpoint validate_increasing (row_count : nat) (previous : option nat) (l : list RowUpdateSnapshot)
  : result GridDeltaApplyError unit :=
  match l with
  | [] => Ok tt
  | u :: l =>
      let index := row_index u in
      let? _ := refuse (bool_decide (row_count <= index)%nat) (RowIndexOutOfBounds index) in
      let? _ := refuse (match previous with Some p => bool_decide (index <= p)%nat | None => false end)
                  (NonIncreasingRowIndex index) in
      validate_increasing row_count (Some index) l
  end.

Definition validate_sparse_indexes (d : GridDeltaBatch) (row_count : nat) : result GridDeltaApplyError unit :=
  if reset_rows d then Ok tt else validate_increasing row_count None (row_updates d).

Section apply.
Context {U : UnicodeTables}.

Definition validate_geometry (d : GridDeltaBatch) : result GridDeltaApplyError unit :=
  let? _ := map_err InvalidTerminalState (TerminalState_validate (d_state_version d) (d_terminal_state d) (d_width d)) in
  let? _ := map_err InvalidTerminalState
              (validate_retained_alternate (d_retained_alt_rows d) (d_mode d) (d_width d) (d_height d) (length (d_styles d))) in
  let? _ := refuse (bool_decide (d_width d = 0%nat) || bool_decide (d_height d = 0%nat)) DeltaZeroDimensions in
  let? _ := refuse (negb (known_mode (d_mode d))) InvalidScreenMode in
  let? _ := refuse (bool_decide (d_mode d = "alternate") && negb (bool_decide (d_scrollback_rows d = 0%nat))) AlternateScrollback in
  let? _ := refuse (bool_decide (d_height d <= row (d_cursor d))%nat || bool_decide (d_width d <= col (d_cursor d))%nat)
              InvalidCursor in
  let? _ := refuse (region_invalid (d_scroll_region d) (d_height d)) InvalidScrollRegion in
  match d_main_rows d with
  | Some rows =>
      refuse (bool_decide (d_mode d = "alternate") && bool_decide (length rows < d_height d)%nat)
        (IncompleteMainViewport (d_height d) (length rows))
  | None => Ok tt
  end.

(** A sparse update of rows; its indexes have been validated. *)
Definition apply_updates (rows : list RowSnapshot) (l : list RowUpdateSnapshot) : list RowSnapshot :=
  foldl (fun rows u => <[row_index u := update_row u]> rows) rows l.

Definition apply_to_snapshot (d : GridDeltaBatch) (s : GridSnapshot) : result GridDeltaApplyError GridSnapshot :=
  let? _ := validate_revisions d (s_revision s) (s_content_revision s) in
  let? _ := validate_geometry d in
  let moved := negb (bool_decide (d_width d = s_width s)) || negb (bool_decide (d_height d = s_height s))
               || negb (bool_decide (d_scrollback_rows d = s_scrollback_rows s))
               || (match d_total_scrolled_rows d with
                   | Some position => negb (bool_decide (s_total_scrolled_rows s = Some position))
                   | None => false
                   end)
               || negb (bool_decide (d_mode d = s_mode s)) in
  let? _ := refuse (negb (reset_rows d) && moved) MissingReplacementRows in
  let? rows := (if reset_rows d
                then let? _ := validate_replacement_indexes d in Ok (update_row <$> row_updates d)
                else let? _ := validate_sparse_indexes d (length (s_rows s)) in Ok (apply_updates (s_rows s) (row_updates d))) in
  let backing := if decide (d_mode d <> "alternate") then None
                 else match d_main_rows d with Some rows => Some rows | None => s_main_rows s end in
  Ok (mkSnapshot (d_state_version d) (d_terminal_state d) (d_retained_alt_rows d) (d_history_truncated d) (d_revision d)
        (d_content_revision d) (d_width d) (d_height d) (d_mode d) (d_scrollback_rows d) (d_total_scrolled_rows d)
        (d_cursor d) (d_saved_cursor d) (d_saved_pending_wrap d) (d_characters d) (d_saved_characters d) (d_current_style d)
        (d_autowrap d) (d_pending_wrap d) (d_scroll_region d) (d_protocol d) (d_pending_bytes d) (d_styles d) rows backing).

(** ** Streams *)

Inductive TerminalGridStreamDeltaError :=
| IncompleteHistory (expected_rows reconstructed_rows : nat)
| DeltaError (e : GridDeltaApplyError)
| GridError (e : TerminalGridError).

Definition unwrapped_rows (l : list RowSnapshot) : nat := length (List.filter (fun r => negb (row_wrapped r)) l).

(** Completed lines the rebuilt grid will have to retain. *)
Definition delta_retained_lines (s : TerminalGridStream) (d : GridDeltaBatch) : nat :=
  let g := grid s in
  if decide (d_mode d = "alternate") then
    match d_main_rows d with
    | None => if decide (mode g = Alternate) then length (main_history (hist g)) else 0
    | Some rows => unwrapped_rows (take (length rows - d_height d) rows)
    end
  else if reset_rows d then
    unwrapped_rows (take (length (row_updates d) - d_height d) (update_row <$> row_updates d))
  else length (main_history (hist g)).

Definition validate_delta_before_capture (s : TerminalGridStream) (d : GridDeltaBatch) (limit : nat)
  : result TerminalGridStreamDeltaError unit :=
  let g := grid s in
  let? _ := map_err DeltaError (validate_revisions d (revision (revs g)) (content_revision (revs g))) in
  let? _ := map_err DeltaError (validate_geometry d) in
  let? _ := map_err DeltaError (validate_replacement_indexes d) in
  let moved := negb (bool_decide (d_width d = width g)) || negb (bool_decide (d_height d = height g))
               || negb (bool_decide (d_scrollback_rows d = scrollback_rows_hint g))
               || (match d_total_scrolled_rows d with
                   | Some position => negb (bool_decide (position = total_scrolled_rows (revs g)))
                   | None => false
                   end)
               || negb (Bool.eqb (bool_decide (d_mode d = "alternate")) (is_alternate g)) in
  let? _ := map_err DeltaError (refuse (negb (reset_rows d) && moved) MissingReplacementRows) in
  let? _ := map_err DeltaError (validate_sparse_indexes d (height g)) in
  let lines := delta_retained_lines s d in
  let? _ := refuse (bool_decide (limit < lines)%nat) (IncompleteHistory (to_u32 lines) limit) in
  let supplied := (length (row_updates d) - d_height d)%nat in
  refuse (reset_rows d && bool_decide (d_mode d = "main") && negb (bool_decide (supplied = d_scrollback_rows d)))
    (IncompleteHistory (d_scrollback_rows d) supplied).

Definition with_rows (s : GridSnapshot) (rows : list RowSnapshot) : GridSnapshot :=
  mkSnapshot (s_state_version s) (s_terminal_state s) (s_retained_alt_rows s) (s_history_truncated s) (s_revision s)
    (s_content_revision s) (s_width s) (s_height s) (s_mode s) (s_scrollback_rows s) (s_total_scrolled_rows s)
    (s_cursor s) (s_saved_cursor s) (s_saved_pending_wrap s) (s_characters s) (s_saved_characters s) (s_current_style s)
    (s_autowrap s) (s_pending_wrap s) (s_scroll_region s) (s_protocol s) (s_pending_bytes s) (s_styles s) rows (s_main_rows s).

(** The replacement stream, checked to have kept the history. *)
Definition rebuild (updated : GridSnapshot) (limit : nat) : result TerminalGridStreamDeltaError TerminalGridStream :=
  let supplied := (length (s_rows updated) - s_height updated)%nat in
  let? _ := refuse (bool_decide (s_mode updated = "main") && bool_decide (supplied < s_scrollback_rows updated)%nat)
              (IncompleteHistory (s_scrollback_rows updated) supplied) in
  let? replacement := map_err GridError (stream_from_snapshot updated limit) in
  let count := main_row_count (grid replacement) in
  let? _ := match s_main_rows updated with
            | Some rows =>
                refuse (bool_decide (s_mode updated = "alternate") && negb (bool_decide (count = length rows)))
                  (IncompleteHistory (to_u32 (length rows - s_height updated)) (count - s_height updated))
            | None => Ok tt
            end in
  let hint := scrollback_rows_hint (grid replacement) in
  let? _ := refuse (negb (bool_decide (hint = s_scrollback_rows updated))) (IncompleteHistory (s_scrollback_rows updated) hint) in
  Ok replacement.

Definition apply_validated_delta (s : TerminalGridStream) (d : GridDeltaBatch) (limit : nat)
  : result TerminalGridStreamDeltaError TerminalGridStream :=
  let g := grid s in
  let preserve_main_history := negb (reset_rows d) && bool_decide (d_mode d = "main") && bool_decide (mode g = Main)
                               && bool_decide (0 < scrollback_rows_hint g)%nat in
  let snapshot_rows := if preserve_main_history
                          || (bool_decide (d_mode d = "alternate") && bool_decide (d_main_rows d = None)
                              && bool_decide (mode g = Alternate))
                       then main_row_count g else height g in
  let captured := stream_snapshot s 0 snapshot_rows in
  let split := (length (s_rows captured) - height g)%nat in
  let '(retained, captured) := if preserve_main_history
                               then (take split (s_rows captured), with_rows captured (drop split (s_rows captured)))
                               else ([], captured) in
  let? updated := map_err DeltaError (apply_to_snapshot d captured) in
  let updated := if preserve_main_history then with_rows updated (retained ++ s_rows updated) else updated in
  rebuild updated limit.

Definition apply_delta (s : TerminalGridStream) (d : GridDeltaBatch) (limit : nat)
  : result TerminalGridStreamDeltaError TerminalGridStream :=
  let? _ := validate_delta_before_capture s d limit in
  apply_validated_delta s d limit.

Context (char_width : Z -> option Z).

(** The stream after a chunk, and the delta when the revision moved. *)
Definition process_delta (s : TerminalGridStream) (bytes : list Z) : option (TerminalGridStream * option GridDeltaBatch) :=
  if decide (bytes = []) then Some (s, None)
  else
    let before_rows := if decide (mode (grid s) = Alternate) then main_row_count (grid s) else height (grid s) in
    let before := stream_snapshot s 0 before_rows in
    s ← process char_width s bytes;
    let g := grid s in
    if decide (revision (revs g) = s_revision before) then Some (s, None)
    else
      let replacement_history := bool_decide (mode g = Main)
        && (negb (bool_decide (s_mode before = "main"))
            || negb (bool_decide (s_scrollback_rows before = scrollback_rows_hint g))
            || negb (bool_decide (s_total_scrolled_rows before = Some (total_scrolled_rows (revs g))))) in
      let rows := if replacement_history || bool_decide (mode g = Alternate) then main_row_count g else height g in
      Some (s, between before (stream_snapshot s 0 rows)).

Definition resize_delta (s : TerminalGridStream) (w h : nat)
  : result TerminalGridError (TerminalGridStream * option GridDeltaBatch) :=
  if decide (w = 0 \/ h = 0)%nat then Err ZeroDimensions
  else if decide (width (grid s) = w /\ height (grid s) = h) then Ok (s, None)
  else
    let before := stream_snapshot s 0 (height (grid s)) in
    let? resized := stream_resize s w h in
    Ok (resized, between before (stream_snapshot resized 0 (main_row_count (grid resized)))).

End apply.
