(* ===== verification/DeltaProps.v ===== *)
(** * Deltas bring a receiver up to date

    A delta built between two snapshots turns the first into the second, and a
    replica of a stream that applies the deltas of its output stays a replica
    of it. *)

From S2P Require Import Prelude Utf8 TextStr VtParser GridCell GridCellProps Pointer Grid GridInvariant GridStream GridProps GridReflow.
From S2P Require Import Snapshot SnapshotProps Delta.

Local Open Scope bmux_scope.

(** ** Row updates *)

Lemma refuse_false {E} (e : E) : refuse false e = Ok tt.
Proof. done. Qed.

Lemma consecutive_all n rows :
  Z.of_nat (n + length rows) < 2 ^ 32 -> validate_consecutive n (imap (fun i r => mkUpdate (to_u32 (n + i)) r) rows) = Ok tt.
Proof.
  revert n. induction rows as [|r rows IH]; intros n H; simpl in *; [done|].
  rewrite Nat.add_0_r, to_u32_small by lia. rewrite bool_decide_eq_true_2 by done. cbn [negb refuse rbind].
  rewrite <- (IH (S n)) by lia. f_equal. apply imap_ext. intros i x _. simpl. by rewrite Nat.add_succ_r.
Qed.

Lemma all_updates_rows rows : update_row <$> all_updates rows = rows.
Proof.
  unfold all_updates. apply list_eq. intros i. rewrite list_lookup_fmap, list_lookup_imap. by destruct (rows !! i).
Qed.

Lemma all_updates_length rows : length (all_updates rows) = length rows.
Proof. apply length_imap. Qed.

Lemma changed_increasing count index previous before after :
  length before = length after -> (index + length before <= count)%nat -> Z.of_nat count < 2 ^ 32 ->
  match previous with Some p => (p < index)%nat | None => True end ->
  validate_increasing count previous (changed_updates index before after) = Ok tt.
Proof.
  revert index previous after. induction before as [|old before IH]; intros index previous [|new after] Hl Hc Hb Hp;
    simpl in *; try done. case_decide.
  - apply IH; [lia..|]. destruct previous; [lia|done].
  - cbn [app validate_increasing row_index]. rewrite to_u32_small by lia. rewrite bool_decide_eq_false_2 by lia.
    assert ((match previous with Some p => bool_decide (index <= p)%nat | None => false end) = false) as ->.
    { destruct previous; [|done]. apply bool_decide_eq_false_2. lia. }
    cbn [refuse rbind]. apply IH; lia.
Qed.

Lemma changed_apply pre before after :
  length before = length after -> Z.of_nat (length pre + length before) < 2 ^ 32 ->
  apply_updates (pre ++ before) (changed_updates (length pre) before after) = pre ++ after.
Proof.
  revert pre after. induction before as [|old before IH]; intros pre [|new after] Hl Hb; simpl in *; try done.
  assert (S (length pre) = length (pre ++ [new])) as El by (rewrite length_app; simpl; lia).
  assert (apply_updates (pre ++ new :: before) (changed_updates (S (length pre)) before after) = pre ++ new :: after) as E.
  { rewrite El. pose proof (IH (pre ++ [new]) after) as E. rewrite <- !(assoc_L (++)) in E. apply E; [lia|].
    rewrite length_app. simpl. lia. }
  case_decide as Hd; [by subst|]. cbn [app]. unfold apply_updates in *. cbn [foldl row_index update_row].
  rewrite to_u32_small by lia. by rewrite insert_app_r_alt, Nat.sub_diag by lia.
Qed.

(** ** The delta of two snapshots *)

Section apply.
Context {U : UnicodeTables}.

(** What the sender's snapshots satisfy. *)
Record snapshot_ok (s : GridSnapshot) : Prop := {
  so_state : TerminalState_validate (s_state_version s) (s_terminal_state s) (s_width s) = Ok tt;
  so_alt : validate_retained_alternate (s_retained_alt_rows s) (s_mode s) (s_width s) (s_height s) (length (s_styles s)) = Ok tt;
  so_region : region_invalid (s_scroll_region s) (s_height s) = false;
  so_rows : (s_height s <= length (s_rows s))%nat /\ Z.of_nat (length (s_rows s)) < 2 ^ 32;
  so_alternate : s_mode s = "alternate" -> length (s_rows s) = s_height s
    /\ exists rows, s_main_rows s = Some rows /\ (s_height s <= length rows)%nat;
  so_main : s_mode s <> "alternate" -> s_main_rows s = None;
}.

Lemma between_Some before after d :
  between before after = Some d ->
  s_revision before < s_revision after /\ s_content_revision before <= s_content_revision after
  /\ (s_mode after = "alternate" -> s_scrollback_rows after = 0%nat)
  /\ s_width after <> 0%nat /\ s_height after <> 0%nat /\ known_mode (s_mode after) = true
  /\ (row (s_cursor after) < s_height after)%nat /\ (col (s_cursor after) < s_width after)%nat.
Proof.
  unfold between. destruct (_ || _) eqn:E; [done|]. intros _. repeat apply orb_false_iff in E as [E ?].
  repeat match goal with H : bool_decide _ = false |- _ => apply bool_decide_eq_false in H end.
  match goal with H : negb _ = false |- _ => apply negb_false_iff in H end.
  split_and!; try lia; try done. intros Hm.
  match goal with H : _ && _ = false |- _ => rewrite bool_decide_eq_true_2 in H by done; simpl in H; apply negb_false_iff, bool_decide_eq_true in H end.
  done.
Qed.

Lemma geometry_ok before after d :
  between before after = Some d -> snapshot_ok after -> validate_geometry d = Ok tt.
Proof.
  intros Hb Ha. destruct (between_Some _ _ _ Hb) as (_ & _ & Hs & Hw & Hh & Hm & Hr & Hc). destruct Ha as [H1 H2 H3 _ H5 H6].
  unfold between in Hb. destruct (_ || _); [done|]. injection Hb as <-. unfold validate_geometry. cbn [d_state_version
    d_terminal_state d_width d_retained_alt_rows d_mode d_height d_styles d_scrollback_rows d_cursor d_scroll_region d_main_rows].
  rewrite H1, H2, H3, Hm. cbn [map_err rbind negb refuse]. 
  rewrite (bool_decide_eq_false_2 (s_width after = 0%nat)), (bool_decide_eq_false_2 (s_height after = 0%nat)),
    (bool_decide_eq_false_2 (s_height after <= row (s_cursor after))%nat),
    (bool_decide_eq_false_2 (s_width after <= col (s_cursor after))%nat) by (done || lia). cbn [orb refuse rbind].
  assert (bool_decide (s_mode after = "alternate") && negb (bool_decide (s_scrollback_rows after = 0%nat)) = false) as ->.
  { destruct (bool_decide (s_mode after = "alternate")) eqn:E; [|done]. apply bool_decide_eq_true in E. by rewrite Hs. }
  cbn [refuse rbind]. destruct (decide (s_main_rows before = s_main_rows after)); [done|].
  destruct (s_main_rows after) as [rows|] eqn:Er; [|done].
  assert (bool_decide (s_mode after = "alternate") && bool_decide (length rows < s_height after)%nat = false) as ->; [|done].
  destruct (bool_decide (s_mode after = "alternate")) eqn:E; [|done]. apply bool_decide_eq_true in E.
  destruct (H5 E) as (_ & rows' & [= <-] & Hlen). simpl. apply bool_decide_eq_false_2. lia.
Qed.

(** The fields a receiver's copy must share with the sender's. *)
Record same_base (s before : GridSnapshot) : Prop := {
  sb_revision : s_revision s = s_revision before;
  sb_content : s_content_revision s = s_content_revision before;
  sb_width : s_width s = s_width before;
  sb_height : s_height s = s_height before;
  sb_mode : s_mode s = s_mode before;
  sb_scrollback : s_scrollback_rows s = s_scrollback_rows before;
  sb_total : s_total_scrolled_rows s = s_total_scrolled_rows before;
}.

Lemma revisions_ok before after d s :
  between before after = Some d -> same_base s before ->
  validate_revisions d (s_revision s) (s_content_revision s) = Ok tt.
Proof.
  intros Hb [H1 H2 _ _ _ _ _]. destruct (between_Some _ _ _ Hb) as (Hr & Hc & _). unfold between in Hb.
  destruct (_ || _); [done|]. injection Hb as <-. unfold validate_revisions. cbn [base_revision d_revision d_content_revision].
  rewrite H1, H2, bool_decide_eq_true_2 by done. cbn [negb refuse rbind].
  by rewrite !bool_decide_eq_false_2 by lia.
Qed.

Lemma replacement_ok before after d :
  between before after = Some d -> snapshot_ok after -> validate_replacement_indexes d = Ok tt.
Proof.
  intros Hb [_ _ _ [H1 H2] H3 _]. unfold between in Hb. destruct (_ || _); [done|]. injection Hb as <-.
  unfold validate_replacement_indexes. cbn [reset_rows row_updates d_height d_mode]. set (reset := _ || _). destruct reset; [|done].
  rewrite all_updates_length. rewrite bool_decide_eq_false_2 by lia. cbn [refuse rbind].
  assert (bool_decide (s_mode after = "alternate") && bool_decide (s_height after < length (s_rows after))%nat = false) as ->.
  { destruct (bool_decide (s_mode after = "alternate")) eqn:E; [|done]. apply bool_decide_eq_true in E.
    apply bool_decide_eq_false_2. destruct (H3 E) as [H _]. lia. }
  cbn [refuse rbind]. by apply (consecutive_all 0).
Qed.

Lemma between_rows before after d rows :
  between before after = Some d -> snapshot_ok after -> (reset_rows d = false -> rows = s_rows before) ->
  (if reset_rows d then let? _ := validate_replacement_indexes d in Ok (update_row <$> row_updates d)
   else let? _ := validate_sparse_indexes d (length rows) in Ok (apply_updates rows (row_updates d))) = Ok (s_rows after).
Proof.
  intros Hb Ha Hrows. rewrite (replacement_ok _ _ _ Hb Ha). destruct Ha as [_ _ _ [_ H2] _ _].
  unfold between in Hb. destruct (_ || _); [done|]. injection Hb as <-. unfold validate_sparse_indexes. cbn [reset_rows row_updates] in *.
  match goal with |- context [if ?b then _ else _] => destruct b eqn:Hreset end; [cbn [rbind]; by rewrite all_updates_rows|].
  rewrite Hrows by done. apply orb_false_iff in Hreset as [_ Hlen%negb_false_iff%bool_decide_eq_true].
  rewrite changed_increasing by (done || lia). cbn [rbind]. f_equal. apply (changed_apply []); simpl; lia.
Qed.

(** A copy that agrees with the base becomes the new snapshot. *)
Lemma apply_between before after d s :
  between before after = Some d -> snapshot_ok after -> same_base s before ->
  (reset_rows d = false -> s_rows s = s_rows before) ->
  (s_mode after = "alternate" -> d_main_rows d = None -> s_main_rows s = s_main_rows before) ->
  apply_to_snapshot d s = Ok after.
Proof.
  intros Hb Ha Hs Hrows Hmain. unfold apply_to_snapshot.
  rewrite (revisions_ok _ _ _ _ Hb Hs), (geometry_ok _ _ _ Hb Ha), (between_rows _ _ _ _ Hb Ha Hrows). cbn [rbind].
  destruct Ha as [_ _ _ _ H5 H6]. destruct Hs as [_ _ S1 S2 S3 S4 S5]. unfold between in Hb. destruct (_ || _); [done|].
  injection Hb as <-. cbn [d_state_version d_terminal_state d_retained_alt_rows d_history_truncated base_revision d_revision
    d_content_revision d_width d_height d_mode d_scrollback_rows d_total_scrolled_rows d_cursor d_saved_cursor
    d_saved_pending_wrap d_characters d_saved_characters d_current_style d_autowrap d_pending_wrap d_scroll_region
    d_protocol d_pending_bytes d_styles reset_rows row_updates d_main_rows] in *.
  rewrite S1, S2, S3, S4, S5.
  match goal with |- context [refuse (negb ?r && ?m)] => assert (negb r && m = false) as -> end.
  { match goal with |- negb ?r && _ = _ => destruct r eqn:Hreset end; [done|]. simpl.
    repeat apply orb_false_iff in Hreset as [Hreset ?%negb_false_iff%bool_decide_eq_true].
    apply negb_false_iff, bool_decide_eq_true in Hreset.
    rewrite !bool_decide_eq_true_2 by done. simpl. destruct (s_total_scrolled_rows after); [|done].
    by rewrite bool_decide_eq_true_2. }
  cbn [refuse rbind]. f_equal.
  match goal with |- context [if decide (s_mode after <> "alternate") then None else ?b] =>
    assert ((if decide (s_mode after <> "alternate") then None else b) = s_main_rows after) as -> end; [|by destruct after].
  destruct (decide (s_mode after <> "alternate")) as [Hm|Hm]; [by rewrite H6|]. apply dec_stable in Hm.
  destruct (decide (s_main_rows before = s_main_rows after)) as [E|]; [by rewrite Hmain|].
  destruct (H5 Hm) as (_ & rows & -> & _). done.
Qed.

(** C17: a delta is exact. Applied to the snapshot it was built from, the delta
    between two snapshots gives the later one, whether it replaces all rows or
    only the changed ones, provided the later one is complete: it holds at
    least the rows of the screen (exactly those, and the backing main rows, on
    the alternate screen), fewer than 2^32, and state its own validation
    accepts. A delta to a snapshot with fewer rows than the screen that
    replaces the rows is refused for the missing ones. *)
Theorem delta_reaches_target before after d :
  between before after = Some d ->
  (snapshot_ok after -> apply_to_snapshot d before = Ok after) /\
  (reset_rows d = true -> validate_geometry d = Ok tt -> (length (s_rows after) < s_height after)%nat ->
   apply_to_snapshot d before = Err (IncompleteViewport (s_height after) (length (s_rows after)))).
Proof.
  intros Hb. split; [intros Ha; by eapply apply_between|]. intros Hr Hg Hl. unfold apply_to_snapshot.
  rewrite (revisions_ok _ _ _ before Hb), Hg, Hr by done. cbn [rbind negb andb refuse]. unfold validate_replacement_indexes.
  unfold between in Hb. destruct (_ || _); [done|]. injection Hb as <-. cbn [reset_rows row_updates d_height d_mode] in *.
  rewrite Hr, all_updates_length, bool_decide_eq_true_2 by done. done.
Qed.

(** ** Replicas *)

(** What a receiver holds for a stream: the rebuilt grid, and a decoder that
    has replayed the pending bytes. *)
Definition replica (s : TerminalGridStream) : TerminalGridStream :=
  mkStream (if decide (pending_bytes s = []) then VtParser.new else (vt_advance VtParser.new (pending_bytes s)).1)
    (hydrated (grid s)) (pending_bytes s).

(** The snapshot of a stream with given rows. *)
Definition sees (s : TerminalGridStream) (rows : list PhysicalRow) (backing : option (list PhysicalRow)) : GridSnapshot :=
  with_pending_bytes (snap (grid s) rows backing) (pending_bytes s).

Lemma to_u16_idemp n : to_u16 (to_u16 n) = to_u16 n.
Proof. unfold to_u16. repeat case_decide; lia. Qed.

Lemma hydrated_hint g : grid_ok g -> scrollback_rows_hint (hydrated g) = scrollback_rows_hint g.
Proof. intros Hg. unfold scrollback_rows_hint. simpl. destruct (mode g); [|done]. by rewrite (cached_count g Hg). Qed.

Lemma hydrated_count g : grid_ok g -> main_row_count (hydrated g) = main_row_count g.
Proof. intros Hg. unfold main_row_count. simpl. by rewrite (cached_count g Hg). Qed.

Lemma hydrated_ok g : grid_ok g -> grid_ok (hydrated g).
Proof.
  intros [H1 H2 H3 H4 H5 H6 H7 H8 [A B C D] H10]. split; try done. split; try done. intros n [= <-]. done.
Qed.

Lemma snap_hydrated g rows backing : grid_ok g -> snap (hydrated g) rows backing = snap g rows backing.
Proof.
  intros Hg. unfold snap. rewrite hydrated_hint by done. simpl. f_equal. unfold cursor_snapshot. simpl. by rewrite !to_u16_idemp.
Qed.

(** The rows of a full snapshot and of one of the screen. *)
Definition full_rows (g : TerminalGrid) : list PhysicalRow := match mode g with Main => all_rows g | Alternate => alt_rows g end.
Definition full_backing (g : TerminalGrid) : option (list PhysicalRow) := match mode g with Main => None | Alternate => Some (all_rows g) end.

Lemma capture_full s :
  grid_ok (grid s) -> Z.of_nat (main_row_count (grid s)) < 2 ^ 32 ->
  stream_snapshot s 0 (main_row_count (grid s)) = sees s (full_rows (grid s)) (full_backing (grid s)).
Proof.
  intros Hg Hc. unfold stream_snapshot. rewrite snapshot_full by done. unfold sees, full_rows, full_backing. by destruct (mode (grid s)).
Qed.

Lemma capture_screen s :
  grid_ok (grid s) -> Z.of_nat (main_row_count (grid s)) < 2 ^ 32 ->
  stream_snapshot s 0 (height (grid s))
  = sees s (viewport_rows (grid s)) (match mode (grid s) with Main => None | Alternate => Some (main_rows (grid s)) end).
Proof.
  intros Hg Hc. unfold stream_snapshot. rewrite snapshot_screen by done. unfold sees, viewport_rows. by destruct (mode (grid s)).
Qed.

Lemma replica_full s :
  grid_ok (grid s) -> Z.of_nat (main_row_count (grid s)) < 2 ^ 32 ->
  stream_snapshot (replica s) 0 (main_row_count (grid s)) = sees s (full_rows (grid s)) (full_backing (grid s)).
Proof.
  intros Hg Hc. change (stream_snapshot (replica s) 0 (main_row_count (grid s)))
    with (with_pending_bytes (GridSnapshot_from_grid (hydrated (grid s)) 0 (main_row_count (grid s))) (pending_bytes s)).
  pose proof (snapshot_full (hydrated (grid s)) (hydrated_ok _ Hg)) as E. rewrite hydrated_count in E by done. rewrite E by done.
  unfold sees, full_rows, full_backing. simpl. destruct (mode (grid s)); by rewrite snap_hydrated.
Qed.

Lemma replica_screen s :
  grid_ok (grid s) -> Z.of_nat (main_row_count (grid s)) < 2 ^ 32 ->
  stream_snapshot (replica s) 0 (height (grid s))
  = sees s (viewport_rows (grid s)) (match mode (grid s) with Main => None | Alternate => Some (main_rows (grid s)) end).
Proof.
  intros Hg Hc. change (stream_snapshot (replica s) 0 (height (grid s)))
    with (with_pending_bytes (GridSnapshot_from_grid (hydrated (grid s)) 0 (height (hydrated (grid s)))) (pending_bytes s)).
  rewrite snapshot_screen by (by apply hydrated_ok || by rewrite hydrated_count).
  unfold sees, viewport_rows. simpl. destruct (mode (grid s)); by rewrite snap_hydrated.
Qed.

(** A full snapshot is read back as the replica. *)
Lemma stream_restored s :
  grid_ok (grid s) -> portable_grid (grid s) ->
  stream_from_snapshot (sees s (full_rows (grid s)) (full_backing (grid s))) (scrollback_rows (grid s)) = Ok (replica s).
Proof.
  intros Hg Hp. unfold stream_from_snapshot.
  change (from_snapshot (sees s ?r ?b) ?l) with (from_snapshot (snap (grid s) r b) l).
  rewrite from_snap; [|done|done|by unfold full_rows, full_backing; destruct (mode (grid s))]. cbn [rbind].
  change (s_pending_bytes (sees s _ _)) with (pending_bytes s). unfold replica.
  destruct (decide (pending_bytes s = [])) as [->|]; done.
Qed.

Lemma sees_ok s rows backing :
  grid_ok (grid s) -> portable_grid (grid s) ->
  (height (grid s) <= length rows)%nat -> Z.of_nat (length rows) < 2 ^ 32 ->
  match mode (grid s) with
  | Main => backing = None
  | Alternate => length rows = height (grid s) /\ exists l, backing = Some l /\ (height (grid s) <= length l)%nat
  end ->
  snapshot_ok (sees s rows backing).
Proof.
  intros Hg Hp Hl Hc Hb. pose proof (portable_valid _ Hg Hp rows backing) as Hv. unfold validate_terminal_state in Hv.
  pose proof (state_valid _ Hg) as H1. pose proof (region_valid _ Hg) as H2. split.
  - done.
  - change (TerminalState_validate (s_state_version _) _ _) with (TerminalState_validate 1 (terminal_state (grid s)) (width (grid s))) in Hv.
    rewrite H1 in Hv. cbn [rbind] in Hv. change (region_invalid (s_scroll_region _) _) with (region_invalid (scroll_region (grid s)) (height (grid s))) in Hv.
    by rewrite H2 in Hv.
  - done.
  - simpl. by rewrite length_fmap.
  - simpl. destruct (mode (grid s)); [done|]. intros _. rewrite length_fmap. destruct Hb as (Hr & l & -> & Hlen).
    split; [done|]. eexists. split; [done|]. by rewrite length_fmap.
  - simpl. destruct (mode (grid s)); [by subst|done].
Qed.

(** ** One step of replication *)

(** Nothing that would move rows has changed between two snapshots. *)
Definition unmoved (before after : GridSnapshot) : Prop :=
  s_width before = s_width after /\ s_height before = s_height after /\ s_mode before = s_mode after
  /\ s_scrollback_rows before = s_scrollback_rows after /\ s_total_scrolled_rows before = s_total_scrolled_rows after
  /\ length (s_rows before) = length (s_rows after).

Lemma between_fields before after d :
  between before after = Some d ->
  d_mode d = s_mode after /\ d_height d = s_height after /\ d_width d = s_width after
  /\ d_scrollback_rows d = s_scrollback_rows after /\ d_total_scrolled_rows d = s_total_scrolled_rows after
  /\ d_main_rows d = (if decide (s_main_rows before = s_main_rows after) then None else s_main_rows after)
  /\ (reset_rows d = true -> row_updates d = all_updates (s_rows after))
  /\ (reset_rows d = false <-> unmoved before after).
Proof.
  unfold between. destruct (_ || _); [done|]. intros [= <-]. split_and!; try done.
  - cbn [reset_rows row_updates]. by intros ->.
  - cbn [reset_rows]. unfold unmoved. rewrite !orb_false_iff, !negb_false_iff, !bool_decide_eq_true. tauto.
Qed.

Lemma sparse_ok before after d :
  between before after = Some d -> snapshot_ok after -> validate_sparse_indexes d (length (s_rows before)) = Ok tt.
Proof.
  intros Hb [_ _ _ [_ Hlen] _ _]. unfold between in Hb. destruct (_ || _); [done|]. injection Hb as <-.
  unfold validate_sparse_indexes. cbn [reset_rows row_updates]. set (reset := _ || _).
  destruct reset eqn:E; [done|]. apply orb_false_iff in E as [_ E%negb_false_iff%bool_decide_eq_true].
  apply changed_increasing; [done|lia|lia|done].
Qed.

Lemma unwrapped_snapshots rows :
  unwrapped_rows (row_snapshot <$> rows) = length (List.filter (fun r => negb (wrapped r)) rows).
Proof.
  unfold unwrapped_rows. induction rows as [|r rows IH]; [done|]. rewrite fmap_cons. simpl. destruct (wrapped r); simpl; by rewrite IH.
Qed.

Lemma unwrapped_line line w :
  (0 < w)%nat -> Forall narrow line -> length (List.filter (fun r => negb (wrapped r)) (project_logical_line line w)) = 1%nat.
Proof.
  intros Hw Hn. destruct (project_narrow line w Hw Hn) as (init & lst & -> & _). rewrite List.filter_app, length_app. simpl.
  induction init as [|sel init IH]; [done|]. rewrite !fmap_cons. simpl. apply IH.
Qed.

(** A completed line ends in the one row of it that does not wrap. *)
Lemma unwrapped_history g :
  grid_ok g -> portable_grid g -> unwrapped_rows (row_snapshot <$> history_rows g) = length (main_history (hist g)).
Proof.
  intros Hg Hp. rewrite unwrapped_snapshots. unfold history_rows. rewrite List.filter_app, length_app.
  destruct (ok_width _ Hg) as [Hw _]. pose proof (pg_narrow _ Hp) as Hn.
  match goal with |- (_ + length (List.filter _ ?l))%nat = _ => assert (length (List.filter (fun r => negb (wrapped r)) l) = 0%nat) as -> end.
  { case_decide; [done|]. by induction (project_logical_line _ _). }
  rewrite Nat.add_0_r. induction Hn as [|line lines Hl _ IH]; [done|]. rewrite fmap_cons. cbn [concat].
  rewrite List.filter_app, length_app, unwrapped_line by done. simpl. by rewrite IH.
Qed.

Lemma split_rows g : grid_ok g -> (length (row_snapshot <$> all_rows g) - height g)%nat = length (history_rows g).
Proof. intros Hg. rewrite length_fmap. unfold all_rows. rewrite length_app. destruct (ok_main _ Hg) as [-> _]. lia. Qed.

Lemma take_history g : grid_ok g ->
  take (length (row_snapshot <$> all_rows g) - height g) (row_snapshot <$> all_rows g) = row_snapshot <$> history_rows g.
Proof. intros Hg. rewrite split_rows by done. unfold all_rows. rewrite fmap_app. apply take_app_length'. by rewrite length_fmap. Qed.

Lemma drop_history g : grid_ok g ->
  drop (length (row_snapshot <$> all_rows g) - height g) (row_snapshot <$> all_rows g) = row_snapshot <$> main_rows g.
Proof. intros Hg. rewrite split_rows by done. unfold all_rows. rewrite fmap_app. apply drop_app_length'. by rewrite length_fmap. Qed.

Lemma all_rows_length g : grid_ok g -> length (all_rows g) = main_row_count g.
Proof. intros Hg. rewrite <- history_rows_length by done. unfold all_rows. rewrite length_app. by destruct (ok_main _ Hg) as [-> _]. Qed.

Lemma hint_rows g : grid_ok g -> mode g = Main -> scrollback_rows_hint g = length (history_rows g).
Proof. intros Hg Hm. pose proof (hint_count g Hg Hm). pose proof (history_rows_length g Hg). lia. Qed.

Section step.
Context (s s' : TerminalGridStream) (d : GridDeltaBatch) (replaced : bool).
Local Notation g := (grid s).
Local Notation g' := (grid s').
Local Notation before := (sees s (viewport_rows g) (full_backing g)).
Local Notation after := (sees s' (if replaced then full_rows g' else viewport_rows g') (full_backing g')).
Hypothesis Hg : grid_ok g.
Hypothesis Hg' : grid_ok g'.
Hypothesis Hp : portable_grid g'.
Hypothesis Hsize : grid_size g' = grid_size g.
Hypothesis Hc : Z.of_nat (main_row_count g) < 2 ^ 32.
Hypothesis Hc' : Z.of_nat (main_row_count g') < 2 ^ 32.
Hypothesis Hd : between before after = Some d.
Hypothesis Hreplaced : mode g' = Main -> replaced = false <-> mode g = Main /\ scrollback_rows_hint g = scrollback_rows_hint g'
  /\ total_scrolled_rows (revs g) = total_scrolled_rows (revs g').
Hypothesis Hhist : mode g' = Main -> reset_rows d = false -> history_rows g' = history_rows g.

Lemma screen_length gr : grid_ok gr -> length (viewport_rows gr) = height gr.
Proof. intros H. unfold viewport_rows. destruct (ok_main _ H), (ok_alt _ H). by destruct (mode gr). Qed.

Lemma same_height : height g' = height g /\ width g' = width g /\ scrollback_rows g' = scrollback_rows g.
Proof. unfold grid_size in Hsize. by injection Hsize. Qed.

Lemma after_rows_length :
  (height g' <= length (if replaced then full_rows g' else viewport_rows g'))%nat
  /\ Z.of_nat (length (if replaced then full_rows g' else viewport_rows g')) < 2 ^ 32.
Proof.
  pose proof (all_rows_length g' Hg') as E. pose proof (screen_length g' Hg') as E'. pose proof (history_rows_length g' Hg').
  destruct replaced; [|lia]. unfold full_rows. unfold viewport_rows in E'. destruct (mode g'); lia.
Qed.

Lemma after_ok : snapshot_ok after.
Proof.
  destruct after_rows_length as [H1 H2]. apply sees_ok; [done..|]. unfold full_backing, full_rows, viewport_rows.
  pose proof (all_rows_length g' Hg') as E. pose proof (history_rows_length g' Hg'). destruct (ok_alt _ Hg') as [Ha _].
  destruct (mode g'); [done|]. split; [by destruct replaced|]. eexists. split; [done|]. lia.
Qed.

(** Rows are replaced exactly when the history is sent along. *)
Lemma reset_replaced : mode g' = Main -> reset_rows d = replaced.
Proof.
  intros Hm. destruct (between_fields _ _ _ Hd) as (_ & _ & _ & _ & _ & _ & _ & Hr). specialize (Hreplaced Hm).
  destruct same_height as (Eh & Ew & _). apply eq_bool_prop_intro. split; intros H.
  - destruct replaced eqn:Er; [done|]. exfalso. destruct Hreplaced as [Hx _]. destruct (Hx eq_refl) as (Em & Es & Et).
    assert (reset_rows d = false) as E; [|by rewrite E in H]. apply Hr. unfold unmoved. simpl. rewrite Em, Hm, Es, Et.
    rewrite !length_fmap, !screen_length by done. by split_and!.
  - destruct (reset_rows d) eqn:E; [done|]. exfalso. destruct Hr as [Hr _]. destruct (Hr eq_refl) as (_ & _ & M & S & T & _).
    destruct Hreplaced as [_ Hx]. rewrite Hx in H; [done|]. simpl in *. injection T as T. rewrite Hm in M. destruct (mode g); [|discriminate].
    done.
Qed.

Lemma lines_within : (delta_retained_lines (replica s) d <= scrollback_rows g')%nat.
Proof.
  destruct (between_fields _ _ _ Hd) as (E1 & E2 & _ & _ & _ & E6 & E7 & _). destruct same_height as (Eh & _ & El).
  destruct (ok_bounded _ Hg) as [Hl _]. destruct (ok_bounded _ Hg') as [Hl' _]. pose proof (unwrapped_history g' Hg' Hp) as Hu. pose proof reset_replaced as HR.
  unfold delta_retained_lines. rewrite E1, E2. change (grid (replica s)) with (hydrated g).
  change (main_history (hist (hydrated g))) with (main_history (hist g)). change (s_height after) with (height g').
  destruct (mode g') eqn:Em.
  - rewrite decide_False by (simpl; by rewrite Em). destruct (reset_rows d) eqn:Er; [|lia].
    rewrite E7, all_updates_rows, all_updates_length by done. rewrite <- (HR eq_refl).
    change (s_rows (sees s' ?r ?b)) with (row_snapshot <$> r). unfold full_rows. rewrite Em, take_history by done. lia.
  - rewrite decide_True by (simpl; by rewrite Em). rewrite E6. destruct (decide _); [case_decide; lia|].
    change (s_main_rows (sees s' ?r ?b)) with (fmap (M := list) row_snapshot <$> b). unfold full_backing. rewrite Em. simpl fmap at 1.
    cbn [fmap option_fmap option_map]. rewrite take_history by done. lia.
Qed.

Lemma capture_valid : validate_delta_before_capture (replica s) d (scrollback_rows g') = Ok tt.
Proof.
  destruct (between_fields _ _ _ Hd) as (E1 & E2 & E3 & E4 & E5 & _ & E7 & E8). destruct same_height as (Eh & Ew & _).
  pose proof reset_replaced as HR. unfold validate_delta_before_capture. change (grid (replica s)) with (hydrated g).
  pose proof (revisions_ok _ _ _ before Hd ltac:(by split)) as H1. simpl in H1. simpl. rewrite H1.
  rewrite (geometry_ok _ _ _ Hd after_ok), (replacement_ok _ _ _ Hd after_ok). cbn [map_err rbind].
  match goal with |- context [refuse (negb ?r && ?m) MissingReplacementRows] => assert (negb r && m = false) as -> end.
  { destruct (reset_rows d) eqn:Er; [done|]. destruct (proj1 E8 eq_refl) as (U1 & U2 & U3 & U4 & U5 & _). rewrite E1, E2, E3, E4, E5.
    simpl in *. change (scrollback_rows_hint _) with (scrollback_rows_hint (hydrated g)) at 2. rewrite (hydrated_hint g Hg).
    injection U5 as U5. rewrite Eh, Ew, <- U4, <- U5. repeat (rewrite bool_decide_eq_true_2 at 1 by reflexivity; cbn [negb orb]).
    unfold is_alternate. simpl. clear - U3. destruct (mode g), (mode g'); done. }
  cbn [refuse map_err rbind]. pose proof (sparse_ok _ _ _ Hd after_ok) as H2.
  change (s_rows (sees s ?r ?b)) with (row_snapshot <$> r) in H2. rewrite length_fmap, screen_length in H2 by done. rewrite H2.
  cbn [map_err rbind]. pose proof lines_within. rewrite bool_decide_eq_false_2 by lia. cbn [refuse rbind].
  match goal with |- refuse ?b _ = _ => assert (b = false) as -> end; [|done].
  destruct (reset_rows d) eqn:Er; [|done]. simpl. rewrite E1, E2, E4, E7, all_updates_length by done.
  destruct (mode g') eqn:Em; simpl; rewrite Em; [|done]. simpl. apply negb_false_iff, bool_decide_eq_true.
  rewrite <- (HR eq_refl). unfold full_rows. rewrite Em, split_rows, hint_rows by done. done.
Qed.

Lemma rebuilt : rebuild (sees s' (full_rows g') (full_backing g')) (scrollback_rows g') = Ok (replica s').
Proof.
  unfold rebuild. rewrite stream_restored by done. cbn [map_err rbind]. change (grid (replica s')) with (hydrated g').
  rewrite hydrated_count, hydrated_hint by done.
  pose proof (all_rows_length g' Hg') as El. pose proof (history_rows_length g' Hg') as Eh. pose proof (hint_rows g' Hg') as Ei.
  simpl. rewrite length_fmap, (bool_decide_eq_true_2 (scrollback_rows_hint g' = scrollback_rows_hint g')) by done.
  unfold full_rows, full_backing. clear - El Eh Ei.
  destruct (mode g'); simpl.
  - rewrite bool_decide_eq_false_2; [done|]. rewrite Ei by done. lia.
  - rewrite length_fmap, El, bool_decide_eq_true_2 by done. done.
Qed.

Lemma sees_rows st rows rows' b : with_rows (sees st rows b) (row_snapshot <$> rows') = sees st rows' b.
Proof. done. Qed.

Lemma applied captured :
  same_base captured before -> (reset_rows d = false -> s_rows captured = s_rows before) ->
  (s_mode after = "alternate" -> d_main_rows d = None -> s_main_rows captured = s_main_rows before) ->
  apply_to_snapshot d captured = Ok after.
Proof. intros. eapply apply_between; [exact Hd|apply after_ok|done..]. Qed.

Lemma step_alternate : mode g' = Alternate -> apply_validated_delta (replica s) d (scrollback_rows g') = Ok (replica s').
Proof.
  intros Em. destruct (between_fields _ _ _ Hd) as (E1 & _ & _ & _ & _ & E6 & _).
  pose proof rebuilt as Hr. pose proof applied as Happ. unfold apply_validated_delta. change (grid (replica s)) with (hydrated g).
  rewrite E1. rewrite hydrated_count by done.
  change (s_mode after) with (if decide (mode g' = Main) then "main" else "alternate"). rewrite Em.
  change (if decide (Alternate = Main) then "main" else "alternate") with "alternate".
  rewrite (bool_decide_eq_false_2 ("alternate" = "main")), andb_false_r by done. cbn [andb orb].
  rewrite (bool_decide_eq_true_2 ("alternate" = "alternate")) by done. cbn [andb].
  assert (after = sees s' (full_rows g') (full_backing g')) as Ea.
  { unfold full_rows, viewport_rows. rewrite Em. by destruct replaced. }
  set (n := if _ && _ then _ else _).
  assert (apply_to_snapshot d (stream_snapshot (replica s) 0 n) = Ok after) as ->; [|cbn [map_err rbind]; by rewrite Ea].
  subst n. change (mode (hydrated g)) with (mode g). change (height (hydrated g)) with (height g).
  destruct (bool_decide (d_main_rows d = None) && bool_decide (mode g = Alternate)) eqn:En.
  - apply andb_true_iff in En as [_ Hm%bool_decide_eq_true]. rewrite replica_full by done.
    assert (full_rows g = viewport_rows g) as -> by (unfold full_rows, viewport_rows; by rewrite Hm). by apply Happ.
  - rewrite replica_screen by done. apply Happ; [by split|done|]. intros _ Hnone. exfalso.
    rewrite bool_decide_eq_true_2 in En by done. simpl in En. apply bool_decide_eq_false in En.
    rewrite E6 in Hnone. revert Hnone. simpl. unfold full_backing. rewrite Em. destruct (mode g); [|done]. simpl.
    by case_decide.
Qed.

Lemma step_main : mode g' = Main -> apply_validated_delta (replica s) d (scrollback_rows g') = Ok (replica s').
Proof.
  intros Em. destruct (between_fields _ _ _ Hd) as (E1 & _). pose proof (reset_replaced Em) as HR.
  pose proof rebuilt as Hr. pose proof applied as Happ. unfold apply_validated_delta. change (grid (replica s)) with (hydrated g).
  rewrite E1, hydrated_count, hydrated_hint by done. change (mode (hydrated g)) with (mode g). change (height (hydrated g)) with (height g).
  change (s_mode after) with (if decide (mode g' = Main) then "main" else "alternate") in Happ |- *. rewrite Em in Happ |- *.
  change (if decide (Main = Main) then "main" else "alternate") with "main" in Happ |- *.
  rewrite (bool_decide_eq_false_2 ("main" = "alternate")) by done. cbn [andb]. rewrite orb_false_r.
  rewrite (bool_decide_eq_true_2 ("main" = "main")), andb_true_r, HR by done. destruct replaced eqn:Er.
  { cbn [negb andb]. rewrite replica_screen by done. rewrite Happ; [done|by split|by rewrite HR|done]. }
  cbn [negb andb]. destruct (proj1 (Hreplaced Em) eq_refl) as (Em0 & Es & _). specialize (Hhist Em HR).
  assert (full_rows g = all_rows g /\ full_backing g = None /\ viewport_rows g = main_rows g) as (F1 & F2 & F3).
  { unfold full_rows, full_backing, viewport_rows. by rewrite Em0. }
  assert (full_rows g' = all_rows g' /\ full_backing g' = None /\ viewport_rows g' = main_rows g') as (F1' & F2' & F3').
  { unfold full_rows, full_backing, viewport_rows. by rewrite Em. }
  rewrite F2, F3, F2', F3' in Happ. rewrite F1', F2' in Hr. rewrite (bool_decide_eq_true_2 (mode g = Main)) by done. cbn [andb].
  case_bool_decide as Hz.
  - rewrite replica_full, F1, F2 by done. change (s_rows (sees s ?r ?b)) with (row_snapshot <$> r).
    rewrite take_history, drop_history, sees_rows by done. rewrite Happ; [|by split|done|done]. cbn [map_err rbind].
    change (s_rows (sees s' ?r ?b)) with (row_snapshot <$> r). rewrite <- fmap_app, sees_rows. unfold all_rows in Hr.
    by rewrite <- Hhist.
  - rewrite replica_screen, F3, Em0 by done. rewrite Happ; [|by split|done|done]. cbn [map_err rbind]. rewrite <- Hr. unfold all_rows.
    assert (history_rows g' = []) as ->; [|done]. apply length_zero_iff_nil. rewrite <- hint_rows by done. lia.
Qed.

End step.

Context (char_width : Z -> option Z) {W : WidthLaws char_width}.

Lemma process_delta_inv s bytes s' d :
  stream_ok s -> process_delta char_width s bytes = Some (s', Some d) ->
  Z.of_nat (main_row_count (grid s)) < 2 ^ 32 -> Z.of_nat (main_row_count (grid s')) < 2 ^ 32 ->
  stream_ok s' /\ grid_size (grid s') = grid_size (grid s)
  /\ exists replaced : bool,
       between (sees s (viewport_rows (grid s)) (full_backing (grid s)))
         (sees s' (if replaced then full_rows (grid s') else viewport_rows (grid s')) (full_backing (grid s'))) = Some d
       /\ (mode (grid s') = Main -> replaced = false <->
             mode (grid s) = Main /\ scrollback_rows_hint (grid s) = scrollback_rows_hint (grid s')
             /\ total_scrolled_rows (revs (grid s)) = total_scrolled_rows (revs (grid s'))).
Proof.
  intros Hs Hd Hc Hc'. unfold process_delta in Hd. case_decide; [done|].
  destruct (process_runs char_width s bytes Hs) as (s1 & E & Hs1 & Hsize & _). rewrite E in Hd. cbn [mbind option_bind] in Hd.
  destruct (decide (revision (revs (grid s1)) = _)); [done|]. injection Hd as -> Hd. split; [done|]. split; [done|].
  destruct Hs as [Hg _], Hs1 as [Hg' _].
  assert (stream_snapshot s 0 (if decide (mode (grid s) = Alternate) then main_row_count (grid s) else height (grid s))
    = sees s (viewport_rows (grid s)) (full_backing (grid s))) as Eb.
  { case_decide as Hm.
    - rewrite capture_full by done. unfold full_rows, viewport_rows. by rewrite Hm.
    - rewrite capture_screen by done. unfold full_backing. by destruct (mode (grid s)). }
  rewrite Eb in Hd. clear Eb. set (replaced := bool_decide (mode (grid s') = Main) && _) in Hd. exists replaced. split.
  - rewrite <- Hd. f_equal. destruct replaced eqn:Er; [by rewrite capture_full|]. cbn [orb].
    case_bool_decide as Hm.
    + rewrite capture_full by done. unfold full_rows, viewport_rows. by rewrite Hm.
    + rewrite capture_screen by done. unfold full_backing. by destruct (mode (grid s')).
  - intros Hm. unfold replaced. rewrite Hm. simpl. rewrite !orb_false_iff, !negb_false_iff, !bool_decide_eq_true.
    pose proof (hint_le (grid s) Hg). rewrite to_u32_small by lia.
    assert (forall x y : Z, Some x = Some y <-> x = y) as -> by (intros; split; congruence).
    assert ((if decide (mode (grid s) = Main) then "main" else "alternate") = "main" <-> mode (grid s) = Main) as ->; [|tauto].
    by destruct (mode (grid s)).
Qed.

(** C5: replication is exact. A receiver that holds the replica of a stream
    and applies the delta of the stream's next output holds the replica of the
    stream after it: both screens, history, cursor, modes and the decoder's
    state, for sparse deltas and replacements, on either screen and across
    switches between them. The grid after the output must be portable (its
    rows can be read back from their snapshots, its history lines are narrow
    and do not end in blanks, its open line fills its rows), fewer than 2^32
    rows may be retained, and a delta without replacement rows assumes that the
    history above the screen is the same. *)
Theorem replica_follows_output s bytes s' d :
  stream_ok s -> process_delta char_width s bytes = Some (s', Some d) ->
  Z.of_nat (main_row_count (grid s)) < 2 ^ 32 -> Z.of_nat (main_row_count (grid s')) < 2 ^ 32 ->
  portable_grid (grid s') ->
  (mode (grid s') = Main -> reset_rows d = false -> history_rows (grid s') = history_rows (grid s)) ->
  apply_delta (replica s) d (scrollback_rows (grid s)) = Ok (replica s').
Proof.
  intros Hs Hd Hc Hc' Hp Hh. destruct (process_delta_inv s bytes s' d Hs Hd Hc Hc') as ([Hg' _] & Hsize & replaced & Hb & Hr).
  destruct Hs as [Hg _]. assert (scrollback_rows (grid s) = scrollback_rows (grid s')) as -> by (by injection Hsize).
  unfold apply_delta. rewrite (capture_valid s s' d replaced) by done. cbn [rbind].
  assert (mode (grid s') = Main \/ mode (grid s') = Alternate) as [Em|Em] by (destruct (mode (grid s')); auto);
    [by apply (step_main s s' d replaced)|by apply (step_alternate s s' d replaced)].
Qed.

End apply.

(** ** Instances *)

Local Notation run := (@run_events combining_tables example_width example_stream).
Local Notation delta := (@process_delta combining_tables example_width).

Lemma run_stream l s : Forall u16_event l -> run l = Some s -> stream_ok s.
Proof.
  intros Hl E. destruct (fresh_stream 4 2 10 example_stream ltac:(lia) ltac:(lia) eq_refl) as (Hs & _).
  destruct (@events_run combining_tables example_width example_widths example_stream l Hs Hl) as (s' & E' & H & _). congruence.
Qed.

(** Three short lines on a screen of 4 by 2, and then a character more: the
    delta to the screen after it arrives; the delta to the alternate screen
    without its last row is refused. *)
Lemma delta_reaches_target_witness :
  exists s s' s'' d d', run [Output [97; 98; 13; 10; 99; 13; 10; 100]] = Some s
    /\ run [Output [97; 98; 13; 10; 99; 13; 10; 100]; Output [101]] = Some s'
    /\ run [Output [97; 98; 13; 10; 99; 13; 10; 100]; Output [27; 91; 63; 49; 48; 52; 57; 104]] = Some s''
    /\ between (stream_snapshot s 0 2) (stream_snapshot s' 0 2) = Some d
    /\ between (stream_snapshot s 0 2) (stream_snapshot s'' 1 2) = Some d'
    /\ @apply_to_snapshot combining_tables d (stream_snapshot s 0 2) = Ok (stream_snapshot s' 0 2)
    /\ @apply_to_snapshot combining_tables d' (stream_snapshot s 0 2) = Err (IncompleteViewport 2 1).
Proof.
  eassert (run [Output [97; 98; 13; 10; 99; 13; 10; 100]] = Some _) as E by (vm_compute; reflexivity).
  eassert (run [Output [97; 98; 13; 10; 99; 13; 10; 100]; Output [101]] = Some _) as E' by (vm_compute; reflexivity).
  eassert (run [Output [97; 98; 13; 10; 99; 13; 10; 100]; Output [27; 91; 63; 49; 48; 52; 57; 104]] = Some _) as E'' by (vm_compute; reflexivity).
  match type of E with _ = Some ?s => match type of E' with _ = Some ?s' => match type of E'' with _ = Some ?s'' =>
    eassert (between (stream_snapshot s 0 2) (stream_snapshot s' 0 2) = Some _) as Eb by (vm_compute; reflexivity);
    eassert (between (stream_snapshot s 0 2) (stream_snapshot s'' 1 2) = Some _) as Eb' by (vm_compute; reflexivity)
  end end end.
  destruct (@delta_reaches_target combining_tables _ _ _ Eb) as [H _].
  destruct (@delta_reaches_target combining_tables _ _ _ Eb') as [_ H'].
  do 5 eexists. split; [exact E|]. split; [exact E'|]. split; [exact E''|]. split; [exact Eb|]. split; [exact Eb'|]. split.
  - apply H. split; try (vm_compute; reflexivity); [split; vm_compute; [lia|done]|vm_compute; discriminate].
  - etransitivity; [apply H'; [reflexivity|vm_compute; reflexivity|vm_compute; lia]|vm_compute; reflexivity].
Defined.

(** The same output, as deltas: the new character is a sparse update, and the
    history stays. *)
Lemma replica_follows_output_witness :
  exists s s' d, run [Output [97; 98; 13; 10; 99; 13; 10; 100]] = Some s /\ delta s [101] = Some (s', Some d)
    /\ reset_rows d = false /\ main_history (hist (grid s')) <> []
    /\ @apply_delta combining_tables (replica s) d (scrollback_rows (grid s)) = Ok (replica s').
Proof.
  eassert (run [Output [97; 98; 13; 10; 99; 13; 10; 100]] = Some _) as E by (vm_compute; reflexivity).
  unshelve epose proof (run_stream _ _ _ E) as Hs; [by repeat constructor|].
  match type of E with _ = Some ?s => eassert (delta s [101] = Some (_, Some _)) as Ed by (vm_compute; reflexivity) end.
  pose proof (@replica_follows_output combining_tables example_width example_widths _ _ _ _ Hs Ed) as H.
  do 3 eexists. split; [exact E|]. split; [exact Ed|]. split; [reflexivity|]. split; [discriminate|].
  apply H; clear H; [vm_compute; reflexivity|vm_compute; reflexivity| |intros _ _; vm_compute; reflexivity].
  destruct (@process_delta_inv combining_tables example_width example_widths _ _ _ _ Hs Ed) as ([Hg _] & _); [vm_compute; reflexivity..|].
  apply (@ascii_grid_portable combining_tables combining_ascii); [exact Hg|vm_compute; reflexivity].
Defined.

(** A reset and as many scrolled rows as before it, in one chunk, look like an
    update that leaves the history alone: the receiver keeps the lines from
    before the reset. *)
Lemma reset_leaves_stale_history :
  exists s s' d r, run [Output [97; 13; 10; 98; 13; 10; 99]] = Some s
    /\ delta s [27; 99; 120; 13; 10; 121; 13; 10; 122] = Some (s', Some d)
    /\ @apply_delta combining_tables (replica s) d 10 = Ok r
    /\ main_history (hist (grid s')) = [[Cell_new [120] 0 1]] /\ main_history (hist (grid r)) = [[Cell_new [97] 0 1]].
Proof.
  eassert (run [Output [97; 13; 10; 98; 13; 10; 99]] = Some _) as E by (vm_compute; reflexivity).
  match type of E with _ = Some ?s =>
    eassert (delta s [27; 99; 120; 13; 10; 121; 13; 10; 122] = Some (_, Some _)) as Ed by (vm_compute; reflexivity) end.
  do 4 eexists. split; [exact E|]. split; [exact Ed|]. split; [vm_compute; reflexivity|]. split; reflexivity.
Qed.

(** The tables of [combining_tables] with wide characters two columns wide. *)
Definition wide_tables : UnicodeTables := {|
  graphemes := cluster;
  str_width t := foldr Z.add 0 ((fun c => default 0 (example_width c)) <$> t);
  is_alphanumeric := @is_alphanumeric combining_tables;
|}.

(** Wide characters wrapped on three columns and shown on four: the open line
    above the screen ends before its last row does, which its snapshot does not
    tell, so the receiver of the next delta holds it padded with blanks. This
    grid is not portable. *)
Lemma wide_open_line_padded :
  let world := [228; 184; 150] in
  exists s s' d r,
    @run_events wide_tables example_width example_stream [Resize 3 2; Output (world ++ world ++ world ++ world); Resize 4 2] = Some s
    /\ @process_delta wide_tables example_width s [97] = Some (s', Some d)
    /\ @apply_delta wide_tables (replica s) d 10 = Ok r
    /\ pending_history_cells (hist (grid r)) = pending_history_cells (hist (grid s')) ++ replicate 2 (Cell_new [32] 0 1).
Proof.
  intros world.
  eassert (@run_events wide_tables example_width example_stream
    [Resize 3 2; Output (world ++ world ++ world ++ world); Resize 4 2] = Some _) as E by (vm_compute; reflexivity).
  match type of E with _ = Some ?s =>
    eassert (@process_delta wide_tables example_width s [97] = Some (_, Some _)) as Ed by (vm_compute; reflexivity) end.
  do 4 eexists. split; [exact E|]. split; [exact Ed|]. split; [vm_compute; reflexivity|]. vm_compute. reflexivity.
Qed.
