(* ===== verification/Contexts.v ===== *)
(** * Contexts and the clients that select them

    [plugins/contexts-plugin/src/context_state.rs] and the snapshot operations
    of its adapter ([lib.rs]): named contexts, the session each is bound to,
    what each client has selected and visited, and the most recently used
    order. Identifiers are UUIDs, compared as numbers; a fresh one is an
    argument of [create]. The text form of a UUID belongs to a third-party
    package and is a parameter. The adapter's lock makes every operation
    atomic; the fallback answers of a poisoned lock are left out. *)

From S2P Require Import Prelude.

Open Scope bmux_scope.

Notation ClientId := N (only parsing).
Notation SessionId := N (only parsing).
Notation Uuid := N (only parsing).

Definition CONTEXT_SESSION_ID_ATTRIBUTE : string := "bmux.session_id".

Inductive ContextSelector :=
| ById (id : Uuid)
| ByName (name : string).

Record RuntimeContext := mkContext {
  context_id : Uuid;
  context_name : option string;
  attributes : gmap string string;
}.

Record ContextSummary := mkSummary {
  summary_id : Uuid;
  summary_name : option string;
  summary_attributes : gmap string string;
}.

Record ContextState := mkContexts {
  contexts : gmap Uuid RuntimeContext;
  session_by_context : gmap Uuid SessionId;
  selected_by_client : gmap ClientId Uuid;
  mru_contexts : list Uuid;
  visited_by_client : gmap ClientId (list Uuid);
}.

Definition ContextState_default : ContextState := mkContexts ∅ ∅ ∅ [] ∅.

(** ** The text form of identifiers *)

Class UuidText := {
  uuid_to_string : Uuid -> string;
  uuid_parse_str : string -> option Uuid;
}.

(** A UUID's text parses back to it. *)
Class UuidLaws (T : UuidText) : Prop := {
  uuid_roundtrip id : uuid_parse_str (uuid_to_string id) = Some id;
}.

(** ** Operations *)

Definition retain (id : Uuid) (l : list Uuid) : list Uuid := List.filter (fun entry => negb (bool_decide (entry = id))) l.

Definition to_summary (c : RuntimeContext) : ContextSummary := mkSummary (context_id c) (context_name c) (attributes c).

Definition list (s : ContextState) : Datatypes.list ContextSummary :=
  let stragglers := List.filter (fun id => negb (bool_decide (id ∈ mru_contexts s))) (sorted_keys (contexts s)) in
  to_summary <$> omap (fun id => contexts s !! id) (mru_contexts s ++ stragglers).

Definition touch_mru (s : ContextState) (id : Uuid) : ContextState :=
  mkContexts (contexts s) (session_by_context s) (selected_by_client s) (id :: retain id (mru_contexts s)) (visited_by_client s).

Definition record_visit (s : ContextState) (client_id : ClientId) (id : Uuid) : ContextState :=
  let history := default [] (visited_by_client s !! client_id) in
  let history := if decide (head history = Some id) then history else id :: retain id history in
  mkContexts (contexts s) (session_by_context s) (selected_by_client s) (mru_contexts s)
    (<[client_id := history]> (visited_by_client s)).

Definition with_selected (s : ContextState) (m : gmap ClientId Uuid) : ContextState :=
  mkContexts (contexts s) (session_by_context s) m (mru_contexts s) (visited_by_client s).

Definition with_contexts (s : ContextState) (m : gmap Uuid RuntimeContext) (sessions : gmap Uuid SessionId) : ContextState :=
  mkContexts m sessions (selected_by_client s) (mru_contexts s) (visited_by_client s).

Definition create (s : ContextState) (id : Uuid) (client_id : ClientId) (name : option string) (attrs : gmap string string)
  : ContextState * ContextSummary :=
  let context := mkContext id name attrs in
  let s := with_contexts s (<[id := context]> (contexts s)) (session_by_context s) in
  let s := with_selected s (<[client_id := id]> (selected_by_client s)) in
  (record_visit (touch_mru s id) client_id id, to_summary context).

(** The context a client sees: its selection, or the most recent one. *)
Definition current_id (s : ContextState) (client_id : ClientId) : option Uuid :=
  let known id := bool_decide (is_Some (contexts s !! id)) in
  match selected_by_client s !! client_id with
  | Some id => if known id then Some id else List.find known (mru_contexts s)
  | None => List.find known (mru_contexts s)
  end.

Definition current_for_client (s : ContextState) (client_id : ClientId) : option ContextSummary :=
  id ← current_id s client_id; to_summary <$> contexts s !! id.

Definition current_session_for_client (s : ContextState) (client_id : ClientId) : option SessionId :=
  id ← current_id s client_id; session_by_context s !! id.

Definition bound_to (s : ContextState) (session_id : SessionId) (id : Uuid) : bool :=
  bool_decide (session_by_context s !! id = Some session_id).

Definition context_for_session (s : ContextState) (session_id : SessionId) : option Uuid :=
  List.find (bound_to s session_id) (sorted_keys (session_by_context s)).

Definition named (s : ContextState) (name : string) (id : Uuid) : bool :=
  match contexts s !! id with
  | Some c => bool_decide (context_name c = Some name)
  | None => false
  end.

Definition resolve_id (s : ContextState) (selector : ContextSelector) : result string Uuid :=
  match selector with
  | ById id => if decide (is_Some (contexts s !! id)) then Ok id else Err "context not found"
  | ByName name =>
      match omap (fun id => context_id <$> contexts s !! id) (List.filter (named s name) (sorted_keys (contexts s))) with
      | [] => Err "context not found"
      | [first] => Ok first
      | _ => Err "context selector by name is ambiguous"
      end
  end.

Definition select_for_client (s : ContextState) (client_id : ClientId) (selector : ContextSelector)
  : ContextState * result string ContextSummary :=
  match resolve_id s selector with
  | Err e => (s, Err e)
  | Ok id =>
      let s := with_selected s (<[client_id := id]> (selected_by_client s)) in
      let s := record_visit (touch_mru s id) client_id id in
      (s, ok_or (to_summary <$> contexts s !! id) "context not found")
  end.

Definition rename (s : ContextState) (selector : ContextSelector) (name : string) : ContextState * result string ContextSummary :=
  match resolve_id s selector with
  | Err e => (s, Err e)
  | Ok id =>
      match contexts s !! id with
      | None => (s, Err "context not found")
      | Some c =>
          let c := mkContext (context_id c) (Some name) (attributes c) in
          (with_contexts s (<[id := c]> (contexts s)) (session_by_context s), Ok (to_summary c))
      end
  end.

(** The loop of [remove_context_by_id] over the impacted clients. *)
Definition reselect (replacement : option Uuid) (m : gmap ClientId Uuid) (client : ClientId) : gmap ClientId Uuid :=
  match replacement with
  | Some next_id => <[client := next_id]> m
  | None => delete client m
  end.

Definition remove_context_by_id (s : ContextState) (id : Uuid) (preferred_client : option ClientId)
  : ContextState * option (Uuid * option SessionId) :=
  match contexts s !! id with
  | None => (s, None)
  | Some removed =>
      let remaining := delete id (contexts s) in
      let removed_session := session_by_context s !! id in
      let mru := retain id (mru_contexts s) in
      let visited := retain id <$> visited_by_client s in
      let replacement := List.find (fun candidate => bool_decide (is_Some (remaining !! candidate))) mru in
      let selected := selected_by_client s in
      let impacted := List.filter (fun c => bool_decide (selected !! c = Some (context_id removed))) (sorted_keys selected) in
      let selected := foldl (reselect replacement) selected impacted in
      let selected := match preferred_client, replacement with
                      | Some client_id, Some next_id =>
                          if decide (is_Some (selected !! client_id)) then selected else <[client_id := next_id]> selected
                      | _, _ => selected
                      end in
      (mkContexts remaining (delete id (session_by_context s)) selected mru visited,
       Some (context_id removed, removed_session))
  end.

Definition close (s : ContextState) (client_id : ClientId) (selector : ContextSelector) (_force : bool)
  : ContextState * result string (Uuid * option SessionId) :=
  match resolve_id s selector with
  | Err e => (s, Err e)
  | Ok id => let '(s, r) := remove_context_by_id s id (Some client_id) in (s, ok_or r "context not found")
  end.

Fixpoint remove_each (s : ContextState) (ids : Datatypes.list Uuid) : ContextState * Datatypes.list Uuid :=
  match ids with
  | [] => (s, [])
  | id :: ids =>
      let '(s, r) := remove_context_by_id s id None in
      let '(s, removed) := remove_each s ids in
      (s, match r with Some (removed_id, _) => removed_id :: removed | None => removed end)
  end.

Definition remove_contexts_for_session (s : ContextState) (session_id : SessionId) : ContextState * Datatypes.list Uuid :=
  remove_each s (List.filter (bound_to s session_id) (sorted_keys (session_by_context s))).

Definition disconnect_client (s : ContextState) (client_id : ClientId) : ContextState :=
  mkContexts (contexts s) (session_by_context s) (delete client_id (selected_by_client s)) (mru_contexts s)
    (delete client_id (visited_by_client s)).

Section sessions.
Context {T : UuidText}.

Definition create_bound (s : ContextState) (id : Uuid) (client_id : ClientId) (name : option string)
    (attrs : gmap string string) (session_id : SessionId) : ContextState * ContextSummary :=
  let attrs := <[CONTEXT_SESSION_ID_ATTRIBUTE := uuid_to_string session_id]> attrs in
  let '(s, context) := create s id client_id name attrs in
  (with_contexts s (contexts s) (<[summary_id context := session_id]> (session_by_context s)), context).

(** The session the attributes name. *)
Definition stamped_session (attrs : gmap string string) : option SessionId :=
  attrs !! CONTEXT_SESSION_ID_ATTRIBUTE ≫= uuid_parse_str.

Definition set_attributes (s : ContextState) (selector : ContextSelector) (attrs : gmap string string)
  : ContextState * result string ContextSummary :=
  match resolve_id s selector with
  | Err e => (s, Err e)
  | Ok id =>
      match contexts s !! id with
      | None => (s, Err "context not found")
      | Some c =>
          let c := mkContext (context_id c) (context_name c) attrs in
          let sessions := match stamped_session attrs with
                          | Some session_id => <[id := session_id]> (session_by_context s)
                          | None => delete id (session_by_context s)
                          end in
          (with_contexts s (<[id := c]> (contexts s)) sessions, Ok (to_summary c))
      end
  end.

Definition bind_session (s : ContextState) (id : Uuid) (session_id : SessionId) : ContextState * result string unit :=
  match contexts s !! id with
  | None => (s, Err "context not found")
  | Some c =>
      let attrs := <[CONTEXT_SESSION_ID_ATTRIBUTE := uuid_to_string session_id]> (attributes c) in
      (with_contexts s (<[id := mkContext (context_id c) (context_name c) attrs]> (contexts s))
         (<[id := session_id]> (session_by_context s)), Ok tt)
  end.

End sessions.

(** ** Persistence *)

Record ContextStateSnapshot := mkContextSnapshot {
  snapshot_contexts : gmap Uuid RuntimeContext;
  snapshot_sessions : gmap Uuid SessionId;
  snapshot_selected : gmap ClientId Uuid;
  snapshot_mru : Datatypes.list Uuid;
}.

Definition snapshot (s : ContextState) : ContextStateSnapshot :=
  mkContextSnapshot (contexts s) (session_by_context s) (selected_by_client s) (mru_contexts s).

Definition restore_snapshot (s : ContextState) (snap : ContextStateSnapshot) : ContextState :=
  mkContexts (snapshot_contexts snap) (snapshot_sessions snap) (snapshot_selected snap) (snapshot_mru snap) ∅.
