(* ===== verification/ContextsProps.v ===== *)
(** * What the contexts registry guarantees

    Every state the operations reach is consistent: the most recently used
    order lists each context once, and no selection, binding or visit names a
    context that is gone. Closing a context moves exactly the clients that
    looked at it to the most recent one left. *)

From Stdlib Require Import Ascii.
From S2P Require Import Prelude Contexts.

Open Scope bmux_scope.

(** ** Lists of identifiers *)

Lemma elem_of_retain id l x : x ∈ retain id l <-> x ∈ l /\ x <> id.
Proof.
  unfold retain. rewrite !list_elem_of_In, filter_In, negb_true_iff, bool_decide_eq_false.
  reflexivity.
Qed.

Lemma NoDup_retain id l : NoDup l -> NoDup (retain id l).
Proof. unfold retain. rewrite !NoDup_ListNoDup. apply List.NoDup_filter. Qed.

Lemma NoDup_front id l : NoDup l -> NoDup (id :: retain id l).
Proof. intros H. constructor; [rewrite elem_of_retain; tauto | by apply NoDup_retain]. Qed.

Section contexts.
Context {T : UuidText}.

(** ** The invariant *)

Record contexts_ok (s : ContextState) : Prop := {
  ok_ids id c : contexts s !! id = Some c -> context_id c = id;
  ok_mru_nodup : NoDup (mru_contexts s);
  ok_mru id : id ∈ mru_contexts s <-> is_Some (contexts s !! id);
  ok_selected client id : selected_by_client s !! client = Some id -> is_Some (contexts s !! id);
  ok_sessions id session_id : session_by_context s !! id = Some session_id ->
    exists c, contexts s !! id = Some c /\ stamped_session (attributes c) = Some session_id;
  ok_visited client h : visited_by_client s !! client = Some h ->
    NoDup h /\ forall id, id ∈ h -> is_Some (contexts s !! id);
}.

Lemma default_ok : contexts_ok ContextState_default.
Proof. split; simpl; intros; try (by constructor); try (by simplify_map_eq). rewrite lookup_empty. split; [set_solver | by intros []]. Qed.

Lemma record_visit_ok s client id : contexts_ok s -> is_Some (contexts s !! id) -> contexts_ok (record_visit s client id).
Proof.
  intros [Hi Hn Hm Hs Hb Hv] Hid. split; simpl; try done.
  intros c h. rewrite lookup_insert_Some. intros [[<- <-] | [_ H]]; [| by eapply Hv].
  assert (NoDup (default [] (visited_by_client s !! client)) /\
          forall x, x ∈ default [] (visited_by_client s !! client) -> is_Some (contexts s !! x)) as [H1 H2].
  { destruct (visited_by_client s !! client) eqn:E; simpl; [by eapply Hv | split; [constructor | set_solver]]. }
  destruct (decide _); [done |]. split; [by apply NoDup_front |].
  intros x. rewrite elem_of_cons, elem_of_retain. intros [-> | [? _]]; auto.
Qed.

(** Selecting a context that exists: the end of [create] and of
    [select_for_client]. *)
Lemma visit_selected_ok s client id : contexts_ok s -> is_Some (contexts s !! id) ->
  contexts_ok (record_visit (touch_mru (with_selected s (<[client := id]> (selected_by_client s))) id) client id).
Proof.
  intros [Hi Hn Hm Hs Hb Hv] Hid. apply record_visit_ok; [| done]. split; simpl; try done.
  - by apply NoDup_front.
  - intros x. rewrite elem_of_cons, elem_of_retain, Hm. destruct (decide (x = id)); naive_solver.
  - intros c x. rewrite lookup_insert_Some. intros [[_ <-] | [_ H]]; [done | by eapply Hs].
Qed.

(** Replacing a context's value under its own identifier. *)
Lemma with_contexts_ok s id c sessions : contexts_ok s -> is_Some (contexts s !! id) -> context_id c = id ->
  (forall x, x <> id -> sessions !! x = session_by_context s !! x) ->
  (forall session_id, sessions !! id = Some session_id -> stamped_session (attributes c) = Some session_id) ->
  contexts_ok (with_contexts s (<[id := c]> (contexts s)) sessions).
Proof.
  intros [Hi Hn Hm Hs Hb Hv] Hid Hc Ho Hn'.
  assert (forall x, is_Some (<[id := c]> (contexts s) !! x) <-> is_Some (contexts s !! x)) as Hsome.
  { intros x. rewrite lookup_insert_is_Some. destruct (decide (id = x)); naive_solver. }
  split; simpl; try done.
  - intros x y. rewrite lookup_insert_Some. intros [[<- <-] | [_ ?]]; auto.
  - intros x. by rewrite Hsome.
  - intros x y ?. rewrite Hsome. eauto.
  - intros x sid Hx. destruct (decide (x = id)) as [-> | Hne].
    + exists c. rewrite lookup_insert_eq. auto.
    + rewrite Ho in Hx by done. destruct (Hb _ _ Hx) as (c' & ? & ?). exists c'. by rewrite lookup_insert_ne.
  - intros x h Hh. destruct (Hv _ _ Hh). split; [done |]. intros y ?. rewrite Hsome. auto.
Qed.
(** ** Each operation preserves it *)

Lemma create_ok s id client name attrs : contexts_ok s -> contexts s !! id = None ->
  contexts_ok (create s id client name attrs).1.
Proof.
  intros [Hi Hn Hm Hs Hb Hv] Hfresh. simpl.
  assert (forall x, is_Some (contexts s !! x) -> is_Some (<[id := mkContext id name attrs]> (contexts s) !! x)) as Hmono.
  { intros x ?. rewrite lookup_insert_is_Some'. auto. }
  apply record_visit_ok; [| simpl; rewrite lookup_insert_eq; eauto]. split; simpl.
  - intros x y. rewrite lookup_insert_Some. intros [[<- <-] | [_ ?]]; auto.
  - by apply NoDup_front.
  - intros x. rewrite elem_of_cons, elem_of_retain, Hm, lookup_insert_is_Some. naive_solver.
  - intros c x. rewrite lookup_insert_Some. intros [[_ <-] | [_ ?]]; [rewrite lookup_insert_eq; eauto | eauto].
  - intros x sid Hx. destruct (Hb _ _ Hx) as (c & ? & ?). exists c. rewrite lookup_insert_ne; [done | congruence].
  - intros c h Hh. destruct (Hv _ _ Hh). eauto.
Qed.

Lemma resolve_id_known s selector id : contexts_ok s -> resolve_id s selector = Ok id -> is_Some (contexts s !! id).
Proof.
  intros Hok. destruct selector as [x | name]; simpl; [destruct (decide _); naive_solver |].
  destruct (omap _ _) as [| y [|]] eqn:E; intros [= <-].
  assert (y ∈ [y]) as Hy by set_solver. rewrite <- E in Hy.
  apply list_elem_of_omap in Hy as (k & _ & Hk). apply fmap_Some in Hk as (c & Hc & ->).
  rewrite (ok_ids _ Hok _ _ Hc). eauto.
Qed.

Lemma select_for_client_ok s client selector : contexts_ok s -> contexts_ok (select_for_client s client selector).1.
Proof.
  intros Hok. unfold select_for_client. destruct (resolve_id s selector) eqn:E; [| done].
  apply visit_selected_ok; [done |]. by eapply resolve_id_known.
Qed.

Lemma rename_ok s selector name : contexts_ok s -> contexts_ok (rename s selector name).1.
Proof.
  intros Hok. unfold rename. destruct (resolve_id s selector) as [id |]; [| done].
  destruct (contexts s !! id) as [c |] eqn:Ec; [| done].
  apply with_contexts_ok; simpl; eauto using ok_ids.
  intros sid Hs. apply ok_sessions in Hs as (c' & ? & ?); [| done]. naive_solver.
Qed.

Lemma set_attributes_ok s selector attrs : contexts_ok s -> contexts_ok (set_attributes s selector attrs).1.
Proof.
  intros Hok. unfold set_attributes. destruct (resolve_id s selector) as [id |]; [| done].
  destruct (contexts s !! id) as [c |] eqn:Ec; [| done].
  apply with_contexts_ok; simpl; eauto using ok_ids; destruct (stamped_session attrs) as [sid |]; intros.
  - by rewrite lookup_insert_ne.
  - by rewrite lookup_delete_ne.
  - by simplify_map_eq.
  - by simplify_map_eq.
Qed.

Lemma disconnect_ok s client : contexts_ok s -> contexts_ok (disconnect_client s client).
Proof.
  intros [Hi Hn Hm Hs Hb Hv]. split; simpl; try done; intros c x; rewrite lookup_delete_Some; intros [_ ?]; eauto.
Qed.

Lemma restore_ok s0 s : contexts_ok s0 -> contexts_ok (restore_snapshot s (snapshot s0)).
Proof. intros [Hi Hn Hm Hs Hb Hv]. split; simpl; try done. Qed.

Lemma bind_session_ok s id sid {L : UuidLaws T} : contexts_ok s -> contexts_ok (bind_session s id sid).1.
Proof.
  intros Hok. unfold bind_session. destruct (contexts s !! id) as [c |] eqn:Ec; [| done].
  apply with_contexts_ok; simpl; eauto using ok_ids; intros; [by rewrite lookup_insert_ne |].
  simplify_map_eq. unfold stamped_session. rewrite lookup_insert_eq. apply uuid_roundtrip.
Qed.

Lemma create_bound_ok s id client name attrs sid {L : UuidLaws T} : contexts_ok s -> contexts s !! id = None ->
  contexts_ok (create_bound s id client name attrs sid).1.
Proof.
  intros Hok Hf. set (stamped := <[CONTEXT_SESSION_ID_ATTRIBUTE := uuid_to_string sid]> attrs).
  pose proof (create_ok s id client name stamped Hok Hf) as Hc.
  pose proof (with_contexts_ok _ id (mkContext id name stamped) (<[id := sid]> (session_by_context s)) Hc) as H.
  simpl in H. rewrite insert_insert_eq in H. apply H.
  - rewrite lookup_insert_eq. eauto.
  - done.
  - intros. by rewrite lookup_insert_ne.
  - intros x. rewrite lookup_insert_eq. intros [= <-]. unfold stamped_session, stamped. rewrite lookup_insert_eq.
    apply uuid_roundtrip.
Qed.

(** ** Removing a context *)

Lemma find_head {A} (f : A -> bool) l : (forall x, x ∈ l -> f x = true) -> List.find f l = head l.
Proof. destruct l as [| x l]; [done |]. intros H. simpl. by rewrite H by set_solver. Qed.

Lemma foldl_reselect r ks m x :
  foldl (reselect r) m ks !! x = if decide (x ∈ ks) then r else m !! x.
Proof.
  revert m. induction ks as [| k ks IH]; intros m; [done |]. cbn [foldl].
  rewrite IH. destruct (decide (x ∈ ks)); destruct (decide (x ∈ k :: ks)) as [Hin | Hin]; try set_solver.
  - destruct (proj1 (elem_of_cons _ _ _) Hin) as [-> | ?]; [| done].
    destruct r; simpl; by simplify_map_eq.
  - assert (k <> x) by set_solver. destruct r; simpl; by simplify_map_eq.
Qed.

(** The most recent context other than [id]. *)
Definition next_context (s : ContextState) (id : N) : option N := head (retain id (mru_contexts s)).

(** What a client has selected once [id] is gone. *)
Definition selection_after (s : ContextState) (id : N) (preferred : option N) (client : N) : option N :=
  match selected_by_client s !! client with
  | Some selected => if decide (selected = id) then next_context s id else Some selected
  | None => if decide (preferred = Some client) then next_context s id else None
  end.

Lemma replacement_is_next s id : contexts_ok s ->
  List.find (fun x => bool_decide (is_Some (delete id (contexts s) !! x))) (retain id (mru_contexts s)) = next_context s id.
Proof.
  intros Hok. apply find_head. intros x [Hx Hne]%elem_of_retain.
  apply bool_decide_eq_true. rewrite lookup_delete_ne by done. by apply ok_mru.
Qed.

Lemma elem_of_selecting (m : gmap N N) id x :
  x ∈ List.filter (fun c => bool_decide (m !! c = Some id)) (sorted_keys m) <-> m !! x = Some id.
Proof.
  rewrite list_elem_of_In, filter_In, <- list_elem_of_In, elem_of_sorted_keys, bool_decide_eq_true. naive_solver.
Qed.

Lemma remove_selected s id c preferred x : contexts_ok s -> contexts s !! id = Some c ->
  selected_by_client (remove_context_by_id s id preferred).1 !! x = selection_after s id preferred x.
Proof.
  intros Hok Hc. unfold remove_context_by_id. rewrite Hc. simpl.
  rewrite replacement_is_next, (ok_ids _ Hok _ _ Hc) by done. set (next := next_context s id).
  set (impacted := List.filter _ _). set (moved := foldl _ _ _).
  assert (moved !! x = if decide (selected_by_client s !! x = Some id) then next else selected_by_client s !! x) as Hm.
  { unfold moved. rewrite foldl_reselect. pose proof (elem_of_selecting (selected_by_client s) id x).
    destruct (decide (x ∈ _)), (decide (_ = Some id)); tauto. }
  assert (match preferred, next with
          | Some client_id, Some next_id => if decide (is_Some (moved !! client_id)) then moved else <[client_id:=next_id]> moved
          | _, _ => moved end !! x =
          match moved !! x with Some y => Some y | None => if decide (preferred = Some x) then next else None end) as ->.
  { clearbody moved next. destruct preferred as [p |], next as [n |]; cbn beta iota;
      [| by destruct (moved !! x), (decide (Some p = Some x)) | by destruct (moved !! x) | by destruct (moved !! x)].
    destruct (decide (p = x)) as [-> | Hne].
    - rewrite (decide_True (P := Some x = Some x)) by done. destruct (moved !! x) eqn:E; destruct (decide _) as [Hs | Hs]; simplify_map_eq; try done.
    - rewrite (decide_False (P := Some p = Some x)) by congruence.
      destruct (decide (is_Some (moved !! p))); [| rewrite lookup_insert_ne by done]; by destruct (moved !! x). }
  rewrite Hm. unfold selection_after. fold next. destruct (selected_by_client s !! x) as [y |] eqn:Ex; simpl.
  - destruct (decide (Some y = Some id)), (decide (y = id)); try congruence.
    destruct next eqn:En; [done |]. by destruct (decide _).
  - done.
Qed.

Lemma next_context_known s id n : contexts_ok s -> next_context s id = Some n -> is_Some (delete id (contexts s) !! n).
Proof.
  intros Hok [Hn Hne]%head_Some_elem_of%elem_of_retain. rewrite lookup_delete_ne by done. by apply ok_mru.
Qed.

Lemma selection_after_known s id preferred x y : contexts_ok s -> selection_after s id preferred x = Some y ->
  is_Some (delete id (contexts s) !! y).
Proof.
  intros Hok. unfold selection_after. destruct (selected_by_client s !! x) as [z |] eqn:Ez; destruct (decide _);
    eauto using next_context_known; [| done].
  intros [= <-]. rewrite lookup_delete_ne by done. by eapply ok_selected.
Qed.

Lemma remove_ok s id preferred : contexts_ok s -> contexts_ok (remove_context_by_id s id preferred).1.
Proof.
  intros Hok. destruct (contexts s !! id) as [c |] eqn:Hc; [| unfold remove_context_by_id; by rewrite Hc].
  pose proof (fun x => remove_selected s id c preferred x Hok Hc) as Hsel. revert Hsel.
  unfold remove_context_by_id. rewrite Hc. cbn [fst selected_by_client]. intros Hsel.
  pose proof Hok as [Hi Hn Hm Hs Hb Hv]. split; cbn [contexts session_by_context mru_contexts visited_by_client selected_by_client].
  - intros x y [_ ?]%lookup_delete_Some. auto.
  - by apply NoDup_retain.
  - intros x. rewrite elem_of_retain, Hm, lookup_delete_is_Some. naive_solver.
  - intros x y. rewrite Hsel. by apply selection_after_known.
  - intros x sid [Hne Hx]%lookup_delete_Some. destruct (Hb _ _ Hx) as (c' & ? & ?). exists c'. by rewrite lookup_delete_ne.
  - intros x h. rewrite lookup_fmap. intros (h' & Hh & ->)%fmap_Some. destruct (Hv _ _ Hh) as [? Hin].
    split; [by apply NoDup_retain |]. intros y [Hy Hne]%elem_of_retain. rewrite lookup_delete_ne by done. auto.
Qed.

Lemma remove_each_ok s ids : contexts_ok s -> contexts_ok (remove_each s ids).1.
Proof.
  revert s. induction ids as [| id ids IH]; intros s Hok; [done |]. simpl.
  pose proof (remove_ok s id None Hok) as H. destruct (remove_context_by_id s id None) as [s1 r].
  specialize (IH s1 H). by destruct (remove_each s1 ids).
Qed.

(** ** Observations of a consistent state *)

Lemma omap_known {A} (m : gmap N A) l : (forall id, id ∈ l -> is_Some (m !! id)) ->
  exists cs, omap (fun id => m !! id) l = cs /\ Forall2 (fun id c => m !! id = Some c) l cs.
Proof.
  induction l as [| id l IH]; intros H; [by exists [] |].
  destruct (H id) as [c Hc]; [set_solver |]. destruct IH as (cs & <- & Hf); [set_solver |].
  exists (c :: omap (fun x => m !! x) l). simpl. rewrite Hc. by repeat constructor.
Qed.

Lemma list_ids s : contexts_ok s -> summary_id <$> list s = mru_contexts s.
Proof.
  intros Hok. unfold list. rewrite <- list_fmap_compose.
  assert (List.filter (fun id => negb (bool_decide (id ∈ mru_contexts s))) (sorted_keys (contexts s)) = []) as ->.
  { apply elem_of_nil_inv. intros x. rewrite list_elem_of_In, filter_In, <- list_elem_of_In, elem_of_sorted_keys.
    rewrite negb_true_iff, bool_decide_eq_false, (ok_mru _ Hok). tauto. }
  rewrite (app_nil_r (mru_contexts s)).
  destruct (omap_known (contexts s) (mru_contexts s)) as (cs & -> & Hf); [intros x; by rewrite (ok_mru _ Hok) |].
  induction Hf as [| id c l cs Hc Hf IH]; [done |]. rewrite fmap_cons. f_equal; [by apply (ok_ids _ Hok) | done].
Qed.

Lemma current_id_eq s client : contexts_ok s ->
  current_id s client = match selected_by_client s !! client with Some id => Some id | None => head (mru_contexts s) end.
Proof.
  intros Hok. unfold current_id. destruct (selected_by_client s !! client) as [id |] eqn:E.
  - rewrite bool_decide_true; [done |]. by eapply ok_selected.
  - apply find_head. intros x. rewrite (ok_mru _ Hok). by rewrite bool_decide_eq_true.
Qed.

Lemma current_id_known s client id : contexts_ok s -> current_id s client = Some id -> is_Some (contexts s !! id).
Proof.
  intros Hok. rewrite current_id_eq by done. destruct (selected_by_client s !! client) eqn:E.
  - intros [= <-]. by eapply ok_selected.
  - intros ?%head_Some_elem_of. by apply ok_mru.
Qed.

Lemma current_id_some s client : contexts_ok s -> contexts s <> ∅ -> is_Some (current_id s client).
Proof.
  intros Hok (id & c & Hc)%map_choose. rewrite current_id_eq by done. destruct (selected_by_client s !! client); [eauto |].
  assert (id ∈ mru_contexts s) as Hin by (apply ok_mru; eauto). destruct (mru_contexts s); [set_solver | eauto].
Qed.

(** ** Reachable states *)

Inductive reachable : ContextState -> Prop :=
| reach_default : reachable ContextState_default
| reach_create s id client name attrs : reachable s -> contexts s !! id = None ->
    reachable (create s id client name attrs).1
| reach_create_bound s id client name attrs session_id : reachable s -> contexts s !! id = None ->
    reachable (create_bound s id client name attrs session_id).1
| reach_select s client selector : reachable s -> reachable (select_for_client s client selector).1
| reach_rename s selector name : reachable s -> reachable (rename s selector name).1
| reach_set_attributes s selector attrs : reachable s -> reachable (set_attributes s selector attrs).1
| reach_bind s id session_id : reachable s -> reachable (bind_session s id session_id).1
| reach_close s client selector force : reachable s -> reachable (close s client selector force).1
| reach_remove s id preferred : reachable s -> reachable (remove_context_by_id s id preferred).1
| reach_remove_session s session_id : reachable s -> reachable (remove_contexts_for_session s session_id).1
| reach_disconnect s client : reachable s -> reachable (disconnect_client s client)
| reach_restore s0 s : reachable s0 -> reachable s -> reachable (restore_snapshot s (snapshot s0)).

Lemma close_ok s client selector force : contexts_ok s -> contexts_ok (close s client selector force).1.
Proof.
  intros Hok. unfold close. destruct (resolve_id s selector) as [id |]; [| done].
  pose proof (remove_ok s id (Some client) Hok). by destruct (remove_context_by_id s id (Some client)).
Qed.

Lemma reachable_ok {L : UuidLaws T} s : reachable s -> contexts_ok s.
Proof.
  induction 1; eauto using default_ok, create_ok, create_bound_ok, select_for_client_ok, rename_ok, set_attributes_ok,
    bind_session_ok, close_ok, remove_ok, disconnect_ok, restore_ok.
  by apply remove_each_ok.
Qed.

Lemma remove_fields s id c preferred : contexts_ok s -> contexts s !! id = Some c ->
  let '(s', r) := remove_context_by_id s id preferred in
  r = Some (id, session_by_context s !! id) /\ contexts s' = delete id (contexts s) /\
  session_by_context s' = delete id (session_by_context s) /\ mru_contexts s' = retain id (mru_contexts s).
Proof. intros Hok Hc. unfold remove_context_by_id. rewrite Hc. by rewrite (ok_ids _ Hok _ _ Hc). Qed.

Lemma remove_each_spec s ids : contexts_ok s -> NoDup ids -> (forall id, id ∈ ids -> is_Some (contexts s !! id)) ->
  let '(s', removed) := remove_each s ids in
  removed = ids /\
  (forall x, contexts s' !! x = if decide (x ∈ ids) then None else contexts s !! x) /\
  (forall x, session_by_context s' !! x = if decide (x ∈ ids) then None else session_by_context s !! x).
Proof.
  revert s. induction ids as [| id ids IH]; intros s Hok Hnd Hin; [done |]. apply NoDup_cons in Hnd as [Hnot Hnd].
  destruct (Hin id) as [c Hc]; [set_solver |]. cbn [remove_each].
  pose proof (remove_fields s id c None Hok Hc) as Hf. pose proof (remove_ok s id None Hok) as Hok1.
  destruct (remove_context_by_id s id None) as [s1 r]. destruct Hf as (-> & Hcs & Hss & _).
  specialize (IH s1 Hok1 Hnd). destruct (remove_each s1 ids) as [s2 removed]. destruct IH as (-> & H1 & H2).
  { intros x Hx. rewrite Hcs, lookup_delete_ne by set_solver. apply Hin. set_solver. }
  rewrite Hcs in H1. rewrite Hss in H2. split_and!; [done | ..]; intros x; [rewrite H1 | rewrite H2];
    destruct (decide (x = id)) as [-> | Hne]; rewrite ?lookup_delete_eq, ?lookup_delete_ne by done;
    destruct (decide (_ ∈ ids)), (decide (_ ∈ id :: ids)); set_solver.
Qed.

Lemma elem_of_bound s session_id id :
  id ∈ List.filter (bound_to s session_id) (sorted_keys (session_by_context s)) <-> session_by_context s !! id = Some session_id.
Proof. apply elem_of_selecting. Qed.

(** ** The theorems *)

Context {L : UuidLaws T}.

(** C19: In every state the operations reach, each context is in the most
    recently used order exactly once and [list] shows them in that order; no
    selection, visit or session binding names a context that is gone, a
    binding agrees with the session id stamped on the context, and while any
    context exists every client has a current one. *)
Theorem reachable_contexts_consistent s : reachable s ->
  contexts_ok s /\ summary_id <$> list s = mru_contexts s /\
  forall client, contexts s <> ∅ -> is_Some (current_for_client s client).
Proof.
  intros Hok%reachable_ok. split_and!; [done | by apply list_ids |].
  intros client Hne. destruct (current_id_some s client Hok Hne) as [id Hid].
  unfold current_for_client. rewrite Hid. destruct (current_id_known s client id Hok Hid) as [c Hc].
  cbn. rewrite Hc. eauto.
Qed.

(** C18: Closing a context removes it and its binding and nothing else, and
    answers the session it was bound to. A client that looked at another
    context by choice still does; every other client now sees the most recently
    used context left, and only clients that had the closed context selected,
    and the one that closed it, have that recorded as their selection. *)
Theorem close_moves_to_most_recent s client selector force id : reachable s -> resolve_id s selector = Ok id ->
  let '(s', answer) := close s client selector force in
  answer = Ok (id, session_by_context s !! id) /\
  contexts s' = delete id (contexts s) /\ session_by_context s' = delete id (session_by_context s) /\
  mru_contexts s' = retain id (mru_contexts s) /\
  forall x, selected_by_client s' !! x = selection_after s id (Some client) x /\
    current_id s' x = match selected_by_client s !! x with
                      | Some y => if decide (y = id) then next_context s id else Some y
                      | None => next_context s id
                      end.
Proof.
  intros Hok%reachable_ok Hr. destruct (resolve_id_known _ _ _ Hok Hr) as [c Hc].
  unfold close. rewrite Hr. pose proof (remove_fields s id c (Some client) Hok Hc) as Hf.
  pose proof (remove_ok s id (Some client) Hok) as Hok'.
  pose proof (fun x => remove_selected s id c (Some client) x Hok Hc) as Hsel.
  destruct (remove_context_by_id s id (Some client)) as [s' r]. destruct Hf as (-> & Hcs & Hss & Hm).
  cbn [fst] in *. split_and!; try done. intros x. split; [done |].
  rewrite current_id_eq, Hsel, Hm by done. unfold selection_after. fold (next_context s id).
  destruct (selected_by_client s !! x) as [y |]; [destruct (decide (y = id)) |]; try done.
  - by destruct (next_context s id).
  - destruct (decide (Some client = Some x)); [by destruct (next_context s id) | done].
Qed.

(** C37: Ending a session removes exactly the contexts bound to it, answering
    their ids in order; every other context and binding is as before, nothing
    is bound to the session any more, and no client is left looking at a
    removed context. *)
Theorem session_end_removes_its_contexts s session_id : reachable s ->
  let '(s', removed) := remove_contexts_for_session s session_id in
  Sorted N.le removed /\ (forall id, id ∈ removed <-> session_by_context s !! id = Some session_id) /\
  (forall id, contexts s' !! id = if decide (id ∈ removed) then None else contexts s !! id) /\
  (forall id, session_by_context s' !! id = if decide (id ∈ removed) then None else session_by_context s !! id) /\
  context_for_session s' session_id = None /\
  forall client id, current_id s' client = Some id -> id ∉ removed.
Proof.
  intros Hok%reachable_ok. unfold remove_contexts_for_session. set (ids := List.filter _ _).
  pose proof (elem_of_bound s session_id) as Hids. fold ids in Hids.
  assert (NoDup ids) as Hnd by (apply NoDup_ListNoDup, List.NoDup_filter, NoDup_ListNoDup, NoDup_sorted_keys).
  pose proof (remove_each_spec s ids Hok Hnd) as Hspec. pose proof (remove_each_ok s ids Hok) as Hok'.
  destruct (remove_each s ids) as [s' removed]. destruct Hspec as (-> & Hc & Hb).
  { intros x [c [? _]]%Hids%(ok_sessions _ Hok). eauto. }
  split_and!; try done.
  - apply Sorted_filter_keys.
  - unfold context_for_session. destruct (List.find _ _) as [x |] eqn:E; [| done].
    apply find_some in E as [_ Hx%bool_decide_eq_true]. exfalso. rewrite Hb in Hx.
    destruct (decide (x ∈ ids)) as [| Hn]; [done |]. by apply Hn, Hids.
  - intros client x Hx%(current_id_known _ _ _ Hok') Hin. rewrite Hc, decide_True in Hx by done. by destruct Hx.
Qed.

End contexts.

(** ** Instances *)

Section instances.

Fixpoint bits (p : positive) : string :=
  match p with xH => EmptyString | xO p => String "0"%char (bits p) | xI p => String "1"%char (bits p) end.

Fixpoint unbits (t : string) : option positive :=
  match t with
  | EmptyString => Some xH
  | String "0"%char t => xO <$> unbits t
  | String "1"%char t => xI <$> unbits t
  | _ => None
  end.

Lemma unbits_bits p : unbits (bits p) = Some p.
Proof. induction p as [p IH | p IH |]; simpl; by rewrite ?IH. Qed.

Local Instance bit_text : UuidText := {|
  uuid_to_string id := bits (N.succ_pos id);
  uuid_parse_str t := Pos.pred_N <$> unbits t;
|}.

Local Instance bit_text_laws : UuidLaws bit_text.
Proof. constructor. intros id. simpl. rewrite unbits_bits. simpl. by rewrite N.pos_pred_succ. Qed.

(** Client 1 makes contexts 10 and 20, the second bound to session 7, and
    client 2 goes back to the first. *)
Definition sample : ContextState :=
  (select_for_client (create_bound (create ContextState_default 10 1 (Some "work") ∅).1 20 1 (Some "logs") ∅ 7).1
     2 (ByName "work")).1.

Lemma sample_reachable : reachable sample.
Proof. apply reach_select, reach_create_bound; [apply reach_create; [apply reach_default |] |]; reflexivity. Qed.

Lemma reachable_contexts_consistent_witness :
  reachable sample /\ summary_id <$> list sample = [10; 20]%N /\
  is_Some (current_for_client sample 3).
Proof.
  destruct (reachable_contexts_consistent sample sample_reachable) as (_ & Hl & Hc).
  split_and!; [exact sample_reachable | rewrite Hl; reflexivity | apply Hc; vm_compute; discriminate].
Defined.

Lemma close_moves_to_most_recent_witness :
  resolve_id sample (ByName "logs") = Ok 20%N /\
  (close sample 2 (ByName "logs") false).2 = Ok (20%N, Some 7%N) /\
  selected_by_client (close sample 2 (ByName "logs") false).1 !! 1%N = Some 10%N /\
  current_id (close sample 2 (ByName "logs") false).1 2%N = Some 10%N.
Proof.
  assert (resolve_id sample (ByName "logs") = Ok 20%N) as Hr by reflexivity.
  pose proof (close_moves_to_most_recent sample 2 (ByName "logs") false 20 sample_reachable Hr) as H.
  destruct (close sample 2 (ByName "logs") false) as [s' answer]. cbn [fst snd].
  destruct H as (-> & _ & _ & _ & Hx). destruct (Hx 1%N) as [-> _]. destruct (Hx 2%N) as [_ ->].
  split_and!; reflexivity.
Defined.

Lemma session_end_removes_its_contexts_witness :
  reachable sample /\ (remove_contexts_for_session sample 7).2 = [20]%N /\
  contexts (remove_contexts_for_session sample 7).1 !! 20%N = None /\
  context_for_session (remove_contexts_for_session sample 7).1 7 = None.
Proof.
  assert ((remove_contexts_for_session sample 7).2 = [20]%N) as Hr by reflexivity.
  pose proof (session_end_removes_its_contexts sample 7 sample_reachable) as H.
  destruct (remove_contexts_for_session sample 7) as [s' removed]. cbn [fst snd] in *. subst removed.
  destruct H as (_ & _ & Hc & _ & Hn & _).
  split_and!; [exact sample_reachable | reflexivity | rewrite Hc; reflexivity | exact Hn].
Defined.

End instances.
